(* ===== verification/_CoqProject ===== *)
-Q . S2P
Prelude.v
CType.v
NumGet.v
FloatRound.v
StrToD.v
Seventeen.v
Printf.v
IfStream.v
Extract.v
Process.v
Verdict.v
InStream.v
Register.v
TokenSpec.v
Interleave.v
Lines.v
Roundtrip.v
Exponent.v
AddFileIO.v
Checker.v
Script.v
Machine.v
Logic.v
Compare.v
Judge.v
