(* ===== verification/Prelude.v ===== *)
(** * A verification development for the checker harness [judger/checkers/testlib.h]

    ** The program

    [src/judger/checkers/testlib.h] is a small C++ header that checker
    programs include.  A checker is run as
    [checker <input-file> <output-file> <answer-file>]; it reads tokens from
    the three files, compares the contestant's output with the reference
    answer, and ends the process with an exit code and a one-line message.
    The header has four parts:

    - the exit codes [_ok], [_wa], [_pe], [_fail], [_dirt], [_points]
      (lines 21-27);
    - the process-wide streams [inf], [ouf], [ans] and the objects [inf_],
      [ouf_], [ans_] of class [InStream] that wrap them (lines 29-35 and
      116-118);
    - class [InStream] (lines 37-114) with [readInt], [readString],
      [readDouble], [readLine] and [seekEof]: each reader increments
      [readCount], an [int], extracts from the wrapped [std::ifstream], and on failure writes a
      diagnostic to [std::cerr] and calls [exit(_pe)];
    - [registerTestlibCmd] (lines 120-145), which validates [argc] and opens
      the three files, and [quitf] (lines 152-176), which prints a label and a
      formatted message on [std::cout] and calls [exit(exitCode)].

    [src/judger/test/add_fileio.cpp] is a sample solution: it reads two
    integers from [input.txt] and writes their sum to [output.txt].

    ** How the code is modelled

    The behaviour of the header is the behaviour of the C++ stream library
    on the calls it makes, so the development has two layers, and a third
    that puts the parts together.

    _The library layer_ is a model of what the called library functions do,
    as the C++ standard specifies them, on an in-memory stream:

    - [CType.v]: the character classes of the classic C locale that stream
      extraction uses ([isspace], [isdigit]), digit values, and the C string
      that an array of characters holds ([c_str]: what precedes the first
      NUL).
    - [NumGet.v]: integer extraction as [num_get] performs it: stage 2
      ([scan_int], the characters accumulated into the field), stage 3
      ([conv_long], conversion with saturation to [long]) and the narrowing
      to [int] that [operator>>(int&)] performs ([narrow_int]); the decimal
      printer [print_int] that [operator<<(int)] and [%d] use.  Integers are
      [Z] with the ranges of a 32-bit [int] and a 64-bit [long] written out.
    - [FloatRound.v]: what the rounding of the Standard Library
      ([binary_round_aux], to nearest, ties to even) computes, for any
      precision: a mantissa with the position of the digits cut off is
      brought to the canonical exponent of the format and is then a nearest
      integer, the even one of two, to the number rounded; no number of
      the format, whatever its exponent, is nearer ([nearest_of_format]),
      and a number of the format is its own rounding.  Numbers are
      fractions of integers; no real numbers are used.
    - [StrToD.v]: floating-point extraction as [num_get] performs it, where
      the standard leaves a choice as libstdc++ does: stage 2 ([scan_float],
      the field scanner with its three flags), stage 3 ([conv_double]:
      [strtod] on the field, 0 and [failbit] when the field does not
      convert, the largest finite value and [failbit] when it overflows).
      A [double] is a [spec_float] of the Standard Library at the
      parameters of binary64; [strtod_round] is the correctly rounded
      conversion of a decimal [M * 10 ^ E]; [float_field] is the grammar of
      the fields that convert.
    - [Seventeen.v]: how far apart the numbers of binary64 are, and what
      follows for [strtod_round]: [within_half_unit N E m e] says that the
      decimal [N * 10 ^ E] is the rounding of [m * 2 ^ e] to the digits of
      [N].
    - [Printf.v]: [vsnprintf] as C11 7.21.6.1 describes it: a conversion
      specification is scanned into its flags, field width, precision,
      length modifier and conversion ([scan_spec]), its arguments are
      fetched from the variadic list by their types ([take_count],
      [int_arg], ...), and one argument is expanded ([convert]: [d], [i],
      [u], [o], [x], [X], [c], [s], and [f], [F], [e], [E], [g], [G] with
      the decimal rounded to nearest, ties to even; for [e] and [g] the
      number is first made the decimal it is, [exact_decimal], and then
      cut to the digits asked, [exp_decimal]).  [format_c] expands a
      format; [vsnprintf]
      cuts the expansion to the buffer and gives the C string the buffer
      then holds.
    - [IfStream.v]: [std::ifstream] as a record of the unread characters
      ([rdbuf]), the open flag and the state bits [eofbit] and [failbit];
      [open], [sentry], [ws], and the invariant [wf_ifstream].
    - [Extract.v]: [extract_int], [extract_double], [extract_string] and
      [getline].  [extract_num] is the extraction of an arithmetic type
      over a scanner and a conversion, of which the two numeric extractions
      are instances.  The class [Extractor] is the interface between the
      layers: what a reader may assume of an extraction, with [int],
      [double], [std::string] and line extraction as its instances.

    _The program layer_ is the source itself, line by line:

    - [Process.v]: the process state ([World]: the file system, the three
      streams and three [InStream] objects, the text written to [cout] and
      [cerr]) and the monad [Proc] in which functions that may call [exit]
      are written.  A run ends as [Returned v w], [Exited code w] or
      [Undefined] (behaviour the C++ standard leaves undefined, such as
      reading an uninitialised variable or a format directive without a
      matching argument).
    - [Verdict.v]: the exit codes, the labels, [setName] and [quitf], which
      prints what [vsnprintf] left in its buffer; the enumeration [Verdict]
      is the abstract view of the codes.
    - [InStream.v]: class [InStream]: the constructor, [initFile],
      [readInt], [readString], [readDouble], [readLine], [seekEof], each the
      whole method:
      the counter update ([incr_readCount], undefined at [INT_MAX]), the
      extraction, the test of the stream state, the diagnostic and the
      exit.  [read_with] is the shape the readers share, over an
      [Extractor].  [can_count] says that the counter of an object can take
      a read, [has_room] that it can take as many reads as its stream holds
      characters, which is the invariant of a sequence of reads.
    - [Register.v]: [registerTestlibCmd] over a file system that maps paths
      to contents (a path that is absent cannot be opened).
    - [AddFileIO.v]: [main] of [add_fileio.cpp], statement by statement;
      [main_spec] is the sum it computes, as a function of the contents of
      [input.txt].

    An [InStream] holds a _reference_ to a stream.  The model keeps the
    three streams in the [World] and gives an [InStream] the identifier of
    the stream it wraps, so that a read through [ouf_] and a later direct
    use of [ouf] see the same stream.  The globals [inf_], [ouf_], [ans_]
    are bound to the streams and names of their identifiers; the source
    passes the constructor's arguments in the other order (lines 116-118),
    which does not compile as written.

    _The composition_:

    - [TokenSpec.v]: the contract of the readers.  [tokens] cuts the unread
      input into whitespace-separated tokens; [spec_op] is the abstract
      machine on the list of tokens; [run_ops] runs a sequence of
      [readString], [readInt], [readDouble] and [seekEof] on the concrete
      stream.
    - [Interleave.v]: the three objects together.  [method] names the
      public methods and [call] runs one; [effect_of] is each method as a
      function of the object and of the stream it wraps, which is all a
      method reads and all it changes besides [std::cerr]; [judged] is what
      the judge sees of an outcome (the status and [std::cout]), an
      equivalence coarser than equality; [run_calls] runs the calls of a
      checker on the three objects in the order it makes them.
    - [Lines.v]: the contract of [readLine].  [lines] cuts the unread
      input the way successive calls of [std::getline] do, [spec_lines] is
      the queue of lines, [read_lines] the run of that many calls.
    - [Roundtrip.v]: the files a checker reads are written by programs:
      the fields that [%d], [%f] and [%s] write ([expand_signed],
      [expand_fixed], [convert]) as input of [readInt], [readDouble] and
      [readString].
    - [Exponent.v]: the fields that [%e] and [%g] write ([expand_exp],
      [expand_gen]) as input of [readDouble]; [exp_printed] is the decimal
      that [%e] writes, and [seventeen_digits] names the directives that
      write seventeen significant digits.
    - [Checker.v]: the checker that the scenarios of the specification run
      ([checker_main], modelled from the specification since the
      repository holds no checker) and the judge that runs the solution and
      then the checker ([judge]); [reading] is the assertion that holds
      between two reads of a checker, with one rule per operation.
    - [Script.v]: checkers in general.  A [script] is the tree of the calls
      a checker makes (the readers, [seekEof], [quitf]), the computation
      between the calls being the functions from a value read to the rest
      of the tree; [run] executes it, and [program] is [registerTestlibCmd]
      followed by the script.  [main_script] is [checker_main] as a script.
    - [Machine.v]: checkers that loop.  A checker is a machine: a type of
      states and a function [next] from a state to the call the checker
      makes there, with the state it goes on in for each value returned,
      or to its [quitf]; [run_for] runs it on fuel.  A script is the
      machine whose states are scripts ([script_next]).
    - [Logic.v]: the rules by which a checker is verified.  [wp m Q E] is
      the weakest precondition of a procedure, with a postcondition for
      the return and one for the exit; [TokenExtractor] is the interface
      between the extractions and the logic, [pop] on the queue of tokens;
      there is one rule for each operation of the header, and the rule of
      inductive assertions for machines ([run_for_floyd]).  [ints_of] is
      a stream as a checker that reads integers sees it; a [report] is
      what a run leaves for the judge.
    - [Compare.v]: two checkers verified on every input.  [checker_main],
      by the rules of its calls, against [checker_report]; [compare_all]
      of [Machine.v], which compares two sequences of integers of any
      length, by inductive assertions ([cmp_inv]) against [cmp_report].
    - [Judge.v]: the judge on every input.  [judge_spec] is the status the
      judge reads, as a function of the files.

    ** What the theorems show

    - Library layer: the stream invariant [wf_ifstream] (once [eofbit] is
      set nothing is left to read; a closed stream has nothing to read) and
      its preservation by every operation ([stream_ops_preserve_wf]); the
      two-step conversion is saturation to [int] ([conv_int_correct]);
      printing then extracting an integer gives it back
      ([extract_int_print]); the scanner of [double] accumulates a field
      of the grammar whole ([scan_float_field]), [strtod] converts exactly
      the fields of the grammar ([parse_float_iff]), and the value stored
      is a number of the sign of the field with an exponent in range, or
      the largest finite value with [failbit] ([conv_double_correct]);
      [strtod_round] is correctly rounded: its result is in canonical form
      and within half a unit in the last place of the decimal, with an even
      mantissa on a tie, and no number of binary64 is nearer
      ([binary_round_aux_correct], [round_nearest_of_format],
      [strtod_round_correct]); a decimal that is a number of binary64 is
      converted to that number ([strtod_round_exact]); the expansion of a
      format does not depend on its fuel ([format_fuel_enough]), a field is
      as wide as its width asks and a string is cut to its precision
      ([convert_bounds]), a bare [%d] prints as [operator<<] does
      ([format_c_d]), the digits of any base denote the number printed
      ([print_radix_spec]), and the decimal of [%f] is the nearest of its
      precision ([scaled_spec]); a successful extraction shortens the input,
      which is a law of the class [Extractor] ([extraction_progress]); a
      failed stream ignores every operation ([failure_is_sticky]).
    - Program layer: each reader on every branch: the value returned, the
      characters consumed, the state bits, the counter, the text on [cerr]
      and the exit code ([readInt_token], [readInt_exhausted],
      [readInt_malformed], [readString_token], [readDouble_token],
      [readLine_spec]); a reader is [Undefined] exactly when its counter
      is at [INT_MAX] ([readers_defined]); a failing read exits with
      code 2 and leaves [cout] untouched ([read_failure_protocol]);
      [seekEof] consumes blanks and answers whether only blanks were left
      ([seekEof_spec]); [quitf] never returns, prints the label of the table
      and exits with the code it was given ([quitf_verdict_table],
      [quitf_exit_code]); the message it prints is a beginning of the
      expansion, of at most 1023 characters and without a NUL
      ([quitf_truncates]); [registerTestlibCmd] on every
      branch ([register_wrong_argc], [register_spec], [register_twice]);
      the sample solution on every file system ([add_fileio_total], with
      [main_total]), and on well-formed, short and overflowing input
      ([add_fileio_sum], [add_fileio_short_input], [add_fileio_overflow]).
    - Refinement: any sequence of reads on a stream is observed as the
      abstract machine runs it on the tokens ([token_refinement]), hence
      whitespace is never observed ([whitespace_insensitive]) and printed
      integers are read back ([read_ints_roundtrip]); a sequence of reads
      longer than the unread input ends with an exit ([reads_drain]), and
      no sequence of reads overflows a counter that has room for the unread
      input ([counter_never_overflows]); calls of [readLine] return the
      lines of the input in order and then exit ([read_lines_refinement]),
      and lines written are lines read ([lines_unlines],
      [read_lines_unlines]).
    - Seventeen digits: two numbers of binary64 that differ, differ by
      [2 ^ -53] of either at least ([format_gap]), so a number of the
      format that is nearer to a decimal than half that gap is the only
      nearest ([nearest_of_format_unique]); a decimal that near to a
      number of the format ([close_decimal]) is converted to it
      ([strtod_round_close]); hence [strtod_round] converts
      a decimal whose mantissa is above [2 ^ 53], and so every decimal of
      seventeen significant digits, to the [double] it is the rounding of
      ([strtod_round_nearby], [strtod_round_seventeen]); sixteen digits
      are not enough ([sixteen_digits_lose]).
    - Round trips with [printf]: [readInt] returns every [int] that [%d]
      wrote, under any flags, width and precision ([readInt_printf]);
      [readDouble] returns every [double] that [%f] wrote in full or with
      digits that make a number above [2 ^ 53], the number itself and not
      a neighbour ([readDouble_printf]), and in general the [double]
      nearest to the decimal written ([readDouble_fixed]); [readString]
      returns every word that [%s] wrote, on either side of its field
      ([readString_printf]).  The digits that [%e] writes are as many as
      asked and within half a unit of the last of them from the number
      ([exp_decimal_within]); those that [%g] writes are these or differ
      from them by one ([gen_decimal_near]), and the zeros it leaves out
      do not change the decimal ([strtod_round_stripped], over
      [close_decimal_strip]); so that [readDouble] returns every number
      of binary64 that [%e] wrote with a precision of 16 or more, or [%g]
      with one of 17 or more, subnormal numbers and zeros included
      ([readDouble_printf_seventeen]).
    - Independence: every method is a function of its object and its
      stream ([call_effect]); two calls on objects that wrap different
      streams can be swapped without a change the judge could see
      ([calls_commute]); in any interleaving of calls on the three
      objects, what is observed on one is what the calls on it alone
      observe ([streams_independent]), so that the token machine describes
      each file whatever the checker does with the others
      ([interleaved_refinement]).
    - Composition: the checker always ends with a status of the protocol
      ([checker_always_exits]); the scenarios of the specification
      ([checker_accepts], [checker_wrong_answer], [checker_dirt],
      [checker_empty_output]); the solution followed by the checker
      ([judge_accepts_sum]).
    - Every checker: a program made of the registration and a script,
      started in a state whose counters have room for the files named
      ([fits]), ends the process ([script_ends]); when it exits, either the harness ended
      it with status 2 or 3, a diagnostic on [cerr] and nothing on [cout],
      or a [quitf] of the script ended it with its code and exactly one
      line on [cout] ([program_one_verdict]).  A machine that never makes
      more than [n] calls of [seekEof] in a row without a read or a
      verdict ends the process within [S n * S (unread w)] calls
      ([machine_ends]), with one verdict line or none
      ([run_for_verdict]); on a script, [run_for] with fuel enough is
      [run] ([run_for_script], [script_fuel]).
    - The logic: the rules of the monad ([wp_ret], [wp_bind], [wp_mono]);
      the rule of a read, proved once against [TokenExtractor]
      ([wp_read]) and instantiated for [readInt], [readDouble] and
      [readString], each on every branch; the rules of [readLine],
      [seekEof], [quitf] and [registerTestlibCmd] (on every branch:
      [wp_register]; with the three files present: [wp_register_ok]);
      inductive assertions
      are sound, and the measure bounds the fuel ([run_for_floyd]).
    - Checkers, functionally and on every input: [checker_main] on any
      three files exits with the report of [checker_report], of which the
      scenarios of the specification are cases ([checker_main_correct]);
      the machine [compare_all] on any three files exits with the report
      of [cmp_report], on three calls for each integer of the answer and
      three more, and with status 0 exactly when both files are integers
      to their end and hold the same integers ([compare_all_correct]).
    - The judge: the status read after the solution and the checker is
      [judge_spec] of the files, and it is 0 exactly when the solution is
      defined and the answer starts with the number it wrote
      ([judge_correct]); the statuses of the checker are below 256, so the
      parent reads them unchanged ([checker_report_status]).

    ** Bounds and fuel

    [int] is 32 bits and [long] 64 bits (LP64).  [readCount] is an [int]:
    its increment at [INT_MAX] is [Undefined], as the overflow of [a + b]
    is in the sample solution.  The theorems on one call assume the counter
    below [INT_MAX]; those on sequences of calls assume [has_room], which
    holds at the start of a process for every file shorter than [INT_MAX]
    characters ([fits_initial_world]) and is kept by every read that
    returns.  The decimal printer recurses on
    fuel [S (Z.to_nat (Z.log2 n))], which is at least the number of decimal
    digits of [n]; [print_nat_fuel_enough] shows the fuel is never
    exhausted.  [vsnprintf] is called with a buffer of 1024 bytes, so at
    most 1023 characters of the message are printed.  The expansion of a
    format recurses on a fuel of one unit per character of the format
    ([format_fuel]), which is enough because every step consumes a
    character ([format_fuel_enough]); the digits of an integer in base 8,
    10 or 16 are printed on the fuel of the decimal printer, and the
    decimal digits of a number are counted on that fuel
    ([dec_digits_spec]).  Under the
    length modifiers [hh] and [h] the argument is reduced to 8 and 16
    bits; [l], [ll], [j], [z] and [t] all name 64 bits.  [tokens] recurses on
    the length of the input (well-founded recursion, no fuel).  A [double]
    is binary64: 53 bits of precision, exponents up to 1024.  For a
    negative decimal exponent [strtod_round] divides after scaling the
    mantissa by [2 ^ (64 + log2 (10 ^ -E))], which leaves a quotient of at
    least 64 bits ([scaled_quotient_large]), enough for the 53 bits kept
    and the position of the remainder; the remainder decides the rounding
    exactly.  A machine is run on fuel, one unit for each call:
    [S n * S (unread w)] units reach the end of a machine that makes at
    most [n] calls of [seekEof] in a row ([machine_ends]), and more fuel
    does not change a run that ended ([run_for_mono]); under an
    inductive assertion the measure of the assertion is fuel enough
    ([run_for_floyd]), which for [compare_all] is three units for each
    integer of the answer and three more.  [ints_of] recurses on a fuel
    of one unit for each character of the queue, which is enough because
    a read that succeeds consumes a character ([ints_fuel_enough]).  The
    exit status is kept as given to [exit]; [wait_status] gives the low
    eight bits that the parent process reads.

    ** What is not modelled

    Device errors ([badbit]; so [fail] is [failbit]), locales other than
    the classic one, hexadecimal floats and the texts [inf] and [nan]
    (which the scanner of libstdc++ does not accumulate), errors of
    [strtod] itself (the model is the correctly rounded conversion, which
    glibc implements), checkers that can make calls of [seekEof] for ever
    without a read (they do not terminate), the size limit of
    [std::string], buffering and flushing of [cout] and [cerr] (the model
    appends to the channel at once), the conversions
    [a], [p] and [n] of [vsnprintf], wide characters, [long
    double], NaN and a [char] argument above 127 (for all of which the
    model of [quitf] is [Undefined], as it is for the undefined behaviour
    of an invalid directive or a missing argument), an expansion of more
    than [INT_MAX] characters, the implementations of [std::ws] that skip
    blanks without a sentry (the model follows C++11: on a stream that is
    not good [ws] raises [failbit] and skips nothing), a failure to create
    [output.txt], and everything a judge does besides running the two
    programs and reading the status (limits, sandboxing, compilation).

    ** This file

    The shared prelude: the libraries every file loads, the scope
    [chk_scope] of the notations of the development, its tactics and hint
    databases, and the lemmas on [take_while] and [drop_while] with which
    the scanners are specified. *)

From Stdlib Require Export Ascii String ZArith Lia.
From stdpp Require Export base tactics option list strings numbers.

Declare Scope chk_scope.
Delimit Scope chk_scope with chk.

(** The newline character, the character that ends a C string, and a
    string literal as the list of its characters. *)
Abbreviation LF := ("010"%char) (only parsing).
Abbreviation NUL := ("000"%char) (only parsing).
Notation "$ s" := (list_ascii_of_string s%string)
  (at level 9, s at level 0, format "$ s") : chk_scope.

(** The hint database of the development: rewrite rules that normalise the
    scanners and stream operations, resolved by [autorewrite with chk]. *)
Create HintDb chk discriminated.
Create Rewrite HintDb chk.

(** [invert H]: inversion that cleans up after itself. *)
Ltac invert H := inversion H; clear H; simplify_eq.

(** [case_test]: split on the first boolean test or match scrutinee of the
    goal, keeping the equation. *)
Ltac case_test :=
  match goal with
  | |- context [if ?b then _ else _] => destruct b eqn:?
  | |- context [match ?x with _ => _ end] => destruct x eqn:?
  end.

(** [chk_simpl]: normalise with the database, then simplify. *)
Ltac chk_simpl := repeat (progress (autorewrite with chk in *; simpl in *)).

(** ** Emptiness test *)

Definition is_nil {A : Type} (l : list A) : bool :=
  match l with [] => true | _ :: _ => false end.

(** ** Scanning a prefix: [take_while] and [drop_while] *)

Section span.
Context {A : Type} (p : A -> bool).
Implicit Types l r : list A.

Fixpoint take_while l : list A :=
  match l with
  | [] => []
  | x :: l' => if p x then x :: take_while l' else []
  end.

Fixpoint drop_while l : list A :=
  match l with
  | [] => []
  | x :: l' => if p x then drop_while l' else l
  end.

(** Every element satisfies [p]. *)
Definition all_sat l : Prop := Forall (fun x => p x = true) l.

(** The list is empty or its head fails [p]: a scan with [p] stops here. *)
Definition stops l : Prop :=
  match l with [] => True | x :: _ => p x = false end.

#[export] Instance stops_dec l : Decision (stops l).
Proof. destruct l; simpl; apply _. Defined.

#[export] Instance all_sat_dec l : Decision (all_sat l).
Proof. unfold all_sat. apply _. Defined.

Lemma is_nil_true l : is_nil l = true <-> l = [].
Proof. destruct l; simpl; split; congruence. Qed.

Lemma is_nil_false l : is_nil l = false <-> l <> [].
Proof. destruct l; simpl; split; congruence. Qed.

Lemma take_drop_while l : take_while l ++ drop_while l = l.
Proof. induction l as [|x l IH]; simpl; [done|]. destruct (p x); simpl; congruence. Qed.

Lemma take_while_all_sat l : all_sat (take_while l).
Proof.
  induction l as [|x l IH]; simpl; [constructor|].
  destruct (p x) eqn:E; constructor; done.
Qed.

Lemma drop_while_stops l : stops (drop_while l).
Proof. induction l as [|x l IH]; simpl; [done|]. destruct (p x) eqn:E; done. Qed.

Lemma take_while_app_all l r : all_sat l -> take_while (l ++ r) = l ++ take_while r.
Proof. induction 1 as [|x l Hx _ IH]; simpl; [done|]. by rewrite Hx, IH. Qed.

Lemma drop_while_app_all l r : all_sat l -> drop_while (l ++ r) = drop_while r.
Proof. induction 1 as [|x l Hx _ IH]; simpl; [done|]. by rewrite Hx. Qed.

Lemma take_while_stops r : stops r -> take_while r = [].
Proof. destruct r; simpl; [done|]. by intros ->. Qed.

Lemma drop_while_stopped r : stops r -> drop_while r = r.
Proof. destruct r; simpl; [done|]. by intros ->. Qed.

Lemma take_while_app l r : all_sat l -> stops r -> take_while (l ++ r) = l.
Proof.
  intros Hl Hr. rewrite take_while_app_all, take_while_stops by done.
  apply app_nil_r.
Qed.

Lemma drop_while_app l r : all_sat l -> stops r -> drop_while (l ++ r) = r.
Proof. intros Hl Hr. by rewrite drop_while_app_all, drop_while_stopped. Qed.

Lemma drop_while_idemp l : drop_while (drop_while l) = drop_while l.
Proof. apply drop_while_stopped, drop_while_stops. Qed.

Lemma drop_while_nil l : drop_while l = [] <-> all_sat l.
Proof.
  split.
  - intros H. rewrite <- (take_drop_while l), H, app_nil_r. apply take_while_all_sat.
  - intros H. rewrite <- (app_nil_r l). by apply drop_while_app.
Qed.

Lemma take_while_nil l : take_while l = [] <-> stops l.
Proof.
  split; [|apply take_while_stops].
  destruct l as [|x l]; simpl; [done|]. by destruct (p x).
Qed.

Lemma take_while_all l : all_sat l -> take_while l = l.
Proof. intros H. rewrite <- (app_nil_r l) at 1. by rewrite take_while_app. Qed.

Lemma drop_while_length l : length (drop_while l) <= length l.
Proof. induction l as [|x l IH]; simpl; [done|]. destruct (p x); simpl; lia. Qed.

Lemma drop_while_suffix l : drop_while l `suffix_of` l.
Proof. exists (take_while l). symmetry. apply take_drop_while. Qed.

Lemma take_while_length l : length (take_while l) + length (drop_while l) = length l.
Proof. rewrite <- length_app. by rewrite take_drop_while. Qed.

Lemma span_unique l a r : all_sat a -> stops r -> l = a ++ r ->
  take_while l = a /\ drop_while l = r.
Proof. intros Ha Hr ->. split; [by apply take_while_app | by apply drop_while_app]. Qed.

(** A scan that is followed by a place where it stops does not see what
    follows. *)
Lemma take_while_app_stops l r : stops r -> take_while (l ++ r) = take_while l.
Proof.
  intros Hr. induction l as [|x l IH]; simpl; [by apply take_while_stops|].
  destruct (p x); by rewrite ?IH.
Qed.

Lemma drop_while_app_stops l r : stops r -> drop_while (l ++ r) = drop_while l ++ r.
Proof.
  intros Hr. induction l as [|x l IH]; simpl; [by apply drop_while_stopped|].
  by destruct (p x).
Qed.

End span.

(** What holds of every element holds of what a scan leaves. *)
Lemma all_sat_drop_while {A : Type} (p q : A -> bool) l : all_sat q l -> all_sat q (drop_while p l).
Proof.
  intros H. destruct (drop_while_suffix p l) as [k Hk]. rewrite Hk in H.
  by apply Forall_app in H as [_ ?].
Qed.

#[export] Hint Rewrite @take_drop_while @drop_while_idemp : chk.
#[export] Hint Resolve take_while_all_sat drop_while_stops drop_while_suffix : chk.

(** ** Strings and character lists

    stdpp marks [String.append] as never simplified; the two equations below
    are its unfolding. *)

Lemma string_app_nil_l (s : string) : ("" +:+ s)%string = s.
Proof. reflexivity. Qed.

Lemma string_app_cons (c : ascii) (a b : string) :
  (String c a +:+ b)%string = String c (a +:+ b).
Proof. reflexivity. Qed.

#[export] Hint Rewrite string_app_nil_l string_app_cons : chk.

(** [string_induction s]: induction on a string with [+:+] unfolded. *)
Ltac string_induction s :=
  induction s as [|? s ?]; rewrite ?string_app_nil_l, ?string_app_cons; simpl;
  rewrite ?string_app_nil_l, ?string_app_cons; [done|]; try congruence.

Lemma string_of_list_ascii_app (a b : list ascii) :
  string_of_list_ascii (a ++ b) = (string_of_list_ascii a +:+ string_of_list_ascii b)%string.
Proof. induction a as [|c a IH]; simpl; [done|]. by rewrite string_app_cons, IH. Qed.

Lemma list_ascii_of_string_app (a b : string) :
  list_ascii_of_string (a +:+ b) = list_ascii_of_string a ++ list_ascii_of_string b.
Proof. string_induction a. Qed.

Lemma string_app_nil_r (s : string) : (s +:+ "")%string = s.
Proof. string_induction s. Qed.

Lemma string_app_assoc (a b c : string) : (a +:+ (b +:+ c) = (a +:+ b) +:+ c)%string.
Proof. string_induction a. Qed.

Lemma string_app_length (a b : string) :
  String.length (a +:+ b) = String.length a + String.length b.
Proof. string_induction a. Qed.

Lemma string_app_inv_head (a b c : string) : (a +:+ b = a +:+ c)%string -> b = c.
Proof. string_induction a. intros H. injection H. auto. Qed.

Lemma string_length_list (s : string) :
  String.length s = length (list_ascii_of_string s).
Proof. string_induction s. Qed.

#[export] Hint Rewrite string_of_list_ascii_of_string list_ascii_of_string_of_list_ascii
  string_app_nil_r : chk.
