(* ===== verification/CType.v ===== *)
(** * Character classes of the classic "C" locale

    Stream extraction classifies characters with [ctype<char>] of the classic
    locale: the sentry of [operator>>] and [std::ws] skip the characters for
    which [isspace] holds, and [num_get] accumulates decimal digits.  This
    file gives the classes as boolean functions on [ascii], the value of a
    digit and the digit of a value, and the facts the scanners need: the
    classes are disjoint, and digit values and digit characters are inverse.
    [c_str] is the C string an array of characters holds. *)

From S2P Require Import Prelude.

Local Open Scope Z_scope.

(** Space, and the control characters 9 to 13 (tab, line feed, vertical tab,
    form feed, carriage return). *)
Definition isspace (c : ascii) : bool :=
  let n := N_of_ascii c in
  ((n =? 32) || ((9 <=? n) && (n <=? 13)))%N.

(** The ten decimal digits, codes 48 to 57. *)
Definition isdigit (c : ascii) : bool :=
  let n := N_of_ascii c in
  ((48 <=? n) && (n <=? 57))%N.

(** The characters [num_get] accepts before the digits of a number. *)
Definition is_sign (c : ascii) : bool :=
  bool_decide (c = "+"%char) || bool_decide (c = "-"%char).

(** A character that ends a whitespace-delimited token. *)
Definition nonspace (c : ascii) : bool := negb (isspace c).

(** A character that does not end a line. *)
Definition not_newline (c : ascii) : bool :=
  negb (bool_decide (c = LF)).

(** A character other than the NUL that ends a C string. *)
Definition not_nul (c : ascii) : bool := negb (bool_decide (c = NUL)).

(** [s.c_str()], and any array of [char] read as a C string: the characters
    before the first NUL. *)
Fixpoint c_str (s : string) : string :=
  match s with
  | EmptyString => EmptyString
  | String c r => if bool_decide (c = NUL) then EmptyString else String c (c_str r)
  end.

Definition digit_val (c : ascii) : Z := Z.of_N (N_of_ascii c) - 48.

Definition digit_char (d : Z) : ascii := ascii_of_N (Z.to_N (48 + d)).

(** [ascii_cases c]: the 256 cases of a character, each closed by
    computation. *)
Ltac ascii_cases c :=
  destruct c as [[] [] [] [] [] [] [] []]; vm_compute; try done; try lia.

Lemma isdigit_range c : isdigit c = true <-> 0 <= digit_val c < 10.
Proof.
  unfold isdigit, digit_val.
  rewrite andb_true_iff, !N.leb_le. lia.
Qed.

Lemma digit_val_nonneg c : isdigit c = true -> 0 <= digit_val c.
Proof. intros H%isdigit_range. lia. Qed.

Lemma digit_val_lt c : isdigit c = true -> digit_val c < 10.
Proof. intros H%isdigit_range. lia. Qed.

Lemma digit_ten_cases d : 0 <= d < 10 ->
  d = 0 \/ d = 1 \/ d = 2 \/ d = 3 \/ d = 4 \/ d = 5 \/ d = 6 \/ d = 7 \/ d = 8 \/ d = 9.
Proof. lia. Qed.

Lemma digit_val_char d : 0 <= d < 10 -> digit_val (digit_char d) = d.
Proof. intros H%digit_ten_cases. by repeat destruct H as [->|H]; try subst d. Qed.

Lemma isdigit_digit_char d : 0 <= d < 10 -> isdigit (digit_char d) = true.
Proof. intros H. apply isdigit_range. by rewrite digit_val_char. Qed.

Lemma digit_char_val c : isdigit c = true -> digit_char (digit_val c) = c.
Proof. ascii_cases c. Qed.

Lemma isdigit_not_space c : isdigit c = true -> isspace c = false.
Proof. ascii_cases c. Qed.

Lemma isdigit_not_sign c : isdigit c = true -> is_sign c = false.
Proof. ascii_cases c. Qed.

Lemma is_sign_not_space c : is_sign c = true -> isspace c = false.
Proof. ascii_cases c. Qed.

Lemma is_sign_cases c : is_sign c = true <-> c = "+"%char \/ c = "-"%char.
Proof.
  unfold is_sign. rewrite orb_true_iff, !bool_decide_eq_true. tauto.
Qed.

Lemma isspace_LF : isspace LF = true.
Proof. reflexivity. Qed.

Lemma nonspace_not_newline c : nonspace c = true -> not_newline c = true.
Proof. ascii_cases c. Qed.

Lemma isdigit_nonspace c : isdigit c = true -> nonspace c = true.
Proof. intros H. unfold nonspace. by rewrite isdigit_not_space. Qed.

Lemma nonspace_false c : nonspace c = false <-> isspace c = true.
Proof. unfold nonspace. by destruct (isspace c). Qed.

Lemma nonspace_true c : nonspace c = true <-> isspace c = false.
Proof. unfold nonspace. by destruct (isspace c). Qed.

(** A scan for blanks stops where a scan for a token can start, and back. *)
Lemma stops_isspace_cons c l : stops isspace (c :: l) <-> nonspace c = true.
Proof. simpl. symmetry. apply nonspace_true. Qed.

Lemma stops_nonspace_cons c l : stops nonspace (c :: l) <-> isspace c = true.
Proof. simpl. apply nonspace_false. Qed.

(** Where a token ends, a number ends. *)
Lemma stops_nonspace_isdigit l : stops nonspace l -> stops isdigit l.
Proof.
  destruct l as [|c l]; simpl; [done|]. intros H%nonspace_false.
  destruct (isdigit c) eqn:E; [|done]. apply isdigit_not_space in E. congruence.
Qed.

(** ** C strings *)

Lemma c_str_take_while s :
  list_ascii_of_string (c_str s) = take_while not_nul (list_ascii_of_string s).
Proof.
  induction s as [|c s IH]; [done|]. unfold not_nul in *. simpl.
  case_bool_decide; simpl; by rewrite ?IH.
Qed.

Lemma all_sat_not_nul l : all_sat not_nul l <-> NUL ∉ l.
Proof.
  unfold all_sat, not_nul. rewrite list.Forall_forall. split.
  - intros H Hn. apply H in Hn. by rewrite bool_decide_true in Hn.
  - intros H c Hc. apply negb_true_iff, bool_decide_eq_false. by intros ->.
Qed.

(** A string without a NUL is the C string it holds. *)
Lemma c_str_id s : NUL ∉ list_ascii_of_string s -> c_str s = s.
Proof.
  intros H%all_sat_not_nul%take_while_all. rewrite <- c_str_take_while in H.
  by rewrite <- (string_of_list_ascii_of_string (c_str s)), H, string_of_list_ascii_of_string.
Qed.

Lemma c_str_no_nul s : NUL ∉ list_ascii_of_string (c_str s).
Proof. rewrite c_str_take_while. apply all_sat_not_nul, take_while_all_sat. Qed.

Lemma c_str_idemp s : c_str (c_str s) = c_str s.
Proof. apply c_str_id, c_str_no_nul. Qed.

Lemma c_str_length s : (String.length (c_str s) <= String.length s)%nat.
Proof.
  rewrite !string_length_list, c_str_take_while.
  pose proof (take_while_length not_nul (list_ascii_of_string s)). lia.
Qed.

#[export] Hint Resolve isdigit_not_space isdigit_not_sign is_sign_not_space
  isdigit_digit_char digit_val_nonneg digit_val_lt isdigit_nonspace : chk.
#[export] Hint Rewrite digit_val_char digit_char_val using (auto with chk; lia) : chk.
