(* ===== verification/NumGet.v ===== *)
(** * Integer extraction and insertion ([num_get], [num_put])

    [stream >> result] with [int result] (testlib.h:57) runs [num_get::get]
    into a [long] and narrows the result to [int].  The standard describes
    [num_get] in stages: stage 2 accumulates the characters that can continue
    a number of the conversion [%d] (an optional sign, then digits) into a
    field ([scan_int]); stage 3 converts the field as [strtoll] would, storing
    0 and raising [failbit] when the field has no digits and the nearest bound
    when the value does not fit ([conv_long]); [operator>>(int&)] then narrows
    with the same saturation ([narrow_int]).  [print_int] is the decimal
    printer of [operator<<(int)] and of [%d].

    Integers are [Z]; the widths of [int] (32 bits) and [long] (64 bits) are
    the bounds below. *)

From S2P Require Import Prelude CType.

Local Open Scope Z_scope.

(** ** Ranges *)

Definition INT_MIN : Z := -2147483648.
Definition INT_MAX : Z := 2147483647.
Definition LONG_MIN : Z := -9223372036854775808.
Definition LONG_MAX : Z := 9223372036854775807.

Definition in_int (z : Z) : Prop := INT_MIN <= z <= INT_MAX.
Definition in_long (z : Z) : Prop := LONG_MIN <= z <= LONG_MAX.

#[export] Instance in_int_dec z : Decision (in_int z).
Proof. unfold in_int. apply _. Defined.

#[export] Instance in_long_dec z : Decision (in_long z).
Proof. unfold in_long. apply _. Defined.

(** ** Stage 2: the field *)

(** The optional sign: one character, consumed when it is [+] or [-]. *)
Definition scan_sign (b : list ascii) : list ascii * list ascii :=
  match b with
  | c :: b' => if is_sign c then ([c], b') else ([], b)
  | [] => ([], [])
  end.

(** The field and the characters left in the stream. *)
Definition scan_int (b : list ascii) : list ascii * list ascii :=
  let (sg, b1) := scan_sign b in
  (sg ++ take_while isdigit b1, drop_while isdigit b1).

(** ** Stage 3: the value *)

(** The value of a run of digits, most significant first. *)
Definition digits_acc (acc : Z) (ds : list ascii) : Z :=
  fold_left (fun a c => 10 * a + digit_val c) ds acc.

Definition digits_val (ds : list ascii) : Z := digits_acc 0 ds.

(** The sign of a field and its digits. *)
Definition field_sign (field : list ascii) : bool * list ascii :=
  match field with
  | c :: ds =>
      if bool_decide (c = "-"%char) then (true, ds)
      else if bool_decide (c = "+"%char) then (false, ds)
      else (false, field)
  | [] => (false, [])
  end.

(** Saturation: the value, or the bound it exceeds together with an error. *)
Definition clamp (lo hi v : Z) : Z * bool :=
  if v <? lo then (lo, true)
  else if hi <? v then (hi, true)
  else (v, false).

(** The value stored in the [long] and whether [failbit] is raised. *)
Definition conv_long (field : list ascii) : Z * bool :=
  let (neg, ds) := field_sign field in
  match ds with
  | [] => (0, true)
  | _ :: _ => clamp LONG_MIN LONG_MAX (if neg then - digits_val ds else digits_val ds)
  end.

(** The narrowing of [operator>>(int&)]: the error of stage 3 is kept, and a
    value outside [int] is replaced by the bound and raises the error. *)
Definition narrow_int (lv : Z * bool) : Z * bool :=
  let (l, err) := lv in
  if l <? INT_MIN then (INT_MIN, true)
  else if INT_MAX <? l then (INT_MAX, true)
  else (l, err).

Definition conv_int (field : list ascii) : Z * bool := narrow_int (conv_long field).

(** The reference conversion: saturate the mathematical value to [int]
    directly. *)
Definition conv_int_spec (field : list ascii) : Z * bool :=
  let (neg, ds) := field_sign field in
  match ds with
  | [] => (0, true)
  | _ :: _ => clamp INT_MIN INT_MAX (if neg then - digits_val ds else digits_val ds)
  end.

(** ** The decimal printer *)

(** Digits of [n], least significant first, pushed on [acc]. *)
Fixpoint print_nat_fuel (fuel : nat) (n : Z) (acc : list ascii) : list ascii :=
  match fuel with
  | O => acc
  | S f =>
      let acc' := digit_char (n mod 10) :: acc in
      if n / 10 =? 0 then acc' else print_nat_fuel f (n / 10) acc'
  end.

Definition print_nat (n : Z) : list ascii :=
  print_nat_fuel (S (Z.to_nat (Z.log2 n))) n [].

Definition print_int (z : Z) : list ascii :=
  if z <? 0 then "-"%char :: print_nat (- z) else print_nat z.

(** A well-formed integer token: an optional sign and at least one digit. *)
Definition int_token (t : list ascii) : Prop :=
  let (_, ds) := field_sign t in ds <> [] /\ all_sat isdigit ds.

#[export] Instance int_token_dec t : Decision (int_token t).
Proof. unfold int_token. destruct (field_sign t). apply _. Defined.

(** The digits of a field are not empty: the shape [strtoll] converts. *)
Definition int_token_shape (field : list ascii) : Prop := (field_sign field).2 <> [].

(** The mathematical value of a field: its digits with its sign. *)
Definition signed_val (field : list ascii) : Z :=
  let (neg, ds) := field_sign field in
  if neg then - digits_val ds else digits_val ds.

#[export] Instance int_token_shape_dec field : Decision (int_token_shape field).
Proof. unfold int_token_shape. apply _. Defined.

(** ** Stage 2 *)

Lemma scan_sign_app b : (scan_sign b).1 ++ (scan_sign b).2 = b.
Proof. destruct b as [|c b]; simpl; [done|]. by destruct (is_sign c). Qed.

Lemma scan_int_app b : (scan_int b).1 ++ (scan_int b).2 = b.
Proof.
  unfold scan_int. pose proof (scan_sign_app b) as H.
  destruct (scan_sign b) as [sg b1]; simpl in *.
  by rewrite <- app_assoc, take_drop_while.
Qed.

Lemma scan_int_stops b : stops isdigit (scan_int b).2.
Proof. unfold scan_int. destruct (scan_sign b). apply drop_while_stops. Qed.

(** Scanning a number does not look past a place where digits stop. *)
Lemma scan_int_local t r : t <> [] -> stops isdigit r ->
  scan_int (t ++ r) = ((scan_int t).1, (scan_int t).2 ++ r).
Proof.
  intros Ht Hr. unfold scan_int.
  assert (scan_sign (t ++ r) = ((scan_sign t).1, (scan_sign t).2 ++ r)) as ->.
  { destruct t as [|c t]; [done|]. simpl. by destruct (is_sign c). }
  destruct (scan_sign t) as [sg b1]. cbn [fst snd].
  by rewrite take_while_app_stops, drop_while_app_stops.
Qed.

Lemma scan_int_rest_sat (p : ascii -> bool) t : all_sat p t -> all_sat p (scan_int t).2.
Proof.
  intros H. rewrite <- (scan_int_app t) in H. by apply Forall_app in H as [_ ?].
Qed.

Lemma scan_int_length b : (length (scan_int b).2 <= length b)%nat.
Proof. rewrite <- (scan_int_app b) at 2. rewrite length_app. lia. Qed.

Lemma scan_int_nil : scan_int [] = ([], []).
Proof. reflexivity. Qed.

(** A field that starts with a digit has no sign. *)
Lemma scan_int_digits ds r : all_sat isdigit ds -> ds <> [] -> stops isdigit r ->
  scan_int (ds ++ r) = (ds, r).
Proof.
  intros Hds Hne Hr. destruct ds as [|d ds]; [done|].
  unfold scan_int. simpl. inversion Hds as [|? ? Hd Hds']; subst.
  rewrite (isdigit_not_sign d Hd). simpl. rewrite Hd.
  by rewrite take_while_app, drop_while_app.
Qed.

Lemma scan_int_signed c ds r : is_sign c = true -> all_sat isdigit ds -> stops isdigit r ->
  scan_int (c :: ds ++ r) = (c :: ds, r).
Proof.
  intros Hc Hds Hr. unfold scan_int. simpl. rewrite Hc. simpl.
  by rewrite take_while_app, drop_while_app.
Qed.

(** A character that is neither a sign nor a digit: nothing is consumed. *)
Lemma scan_int_reject c b : is_sign c = false -> isdigit c = false ->
  scan_int (c :: b) = ([], c :: b).
Proof. intros Hs Hd. unfold scan_int. simpl. by rewrite Hs; simpl; rewrite Hd. Qed.

(** ** Stage 3 *)

Lemma digits_acc_app a ds es : digits_acc a (ds ++ es) = digits_acc (digits_acc a ds) es.
Proof. apply fold_left_app. Qed.

Lemma digits_val_snoc ds c : digits_val (ds ++ [c]) = 10 * digits_val ds + digit_val c.
Proof. unfold digits_val. by rewrite digits_acc_app. Qed.

Lemma digits_acc_nonneg ds : all_sat isdigit ds -> forall a, 0 <= a -> 0 <= digits_acc a ds.
Proof.
  induction 1 as [|c ds Hc _ IH]; intros a Ha; simpl; [done|].
  apply IH. apply digit_val_nonneg in Hc. lia.
Qed.

Lemma digits_val_nonneg ds : all_sat isdigit ds -> 0 <= digits_val ds.
Proof. intros H. by apply digits_acc_nonneg. Qed.

Lemma clamp_in_range lo hi v : lo <= hi -> lo <= (clamp lo hi v).1 <= hi.
Proof. intros H. unfold clamp. repeat case_test; simpl; lia. Qed.

Lemma clamp_ok lo hi v : lo <= v <= hi -> clamp lo hi v = (v, false).
Proof. intros H. unfold clamp. repeat case_test; try done; lia. Qed.

Lemma clamp_err lo hi v : (clamp lo hi v).2 = false <-> lo <= v <= hi.
Proof. unfold clamp. repeat case_test; simpl; split; try done; lia. Qed.

Lemma narrow_clamp_long v : narrow_int (clamp LONG_MIN LONG_MAX v) = clamp INT_MIN INT_MAX v.
Proof.
  unfold narrow_int, clamp, LONG_MIN, LONG_MAX, INT_MIN, INT_MAX.
  repeat case_test; simplify_eq; try done; try lia.
Qed.

Lemma conv_int_in_int field : in_int (conv_int field).1.
Proof.
  unfold conv_int, narrow_int, in_int, INT_MIN, INT_MAX.
  destruct (conv_long field) as [l err]. repeat case_test; simpl; lia.
Qed.

Lemma field_sign_digit d ds : isdigit d = true -> field_sign (d :: ds) = (false, d :: ds).
Proof.
  intros Hd. unfold field_sign.
  repeat case_bool_decide; subst; try done.
Qed.

Lemma field_sign_length field : (length (field_sign field).2 <= length field)%nat.
Proof.
  destruct field as [|c ds]; simpl; [done|].
  repeat case_bool_decide; simpl; lia.
Qed.

(** ** The printer *)

Lemma print_nat_fuel_S f n acc :
  print_nat_fuel (S f) n acc =
  if n / 10 =? 0 then digit_char (n mod 10) :: acc
  else print_nat_fuel f (n / 10) (digit_char (n mod 10) :: acc).
Proof. reflexivity. Qed.

(** One digit per unit of fuel: [S fuel] units print every [n] below
    [2 ^ S fuel], so the fuel of [print_nat] is never exhausted. *)
Lemma print_nat_fuel_spec fuel : forall n acc, 0 <= n < 2 ^ Z.of_nat (S fuel) ->
  exists ds, print_nat_fuel (S fuel) n acc = ds ++ acc /\ ds <> [] /\
             all_sat isdigit ds /\ digits_val ds = n.
Proof.
  induction fuel as [|f IH]; intros n acc Hn;
    assert (0 <= n mod 10 < 10) as Hm by (apply Z.mod_pos_bound; lia);
    rewrite print_nat_fuel_S; destruct (n / 10 =? 0) eqn:E.
  1,3: exists [digit_char (n mod 10)]; apply Z.eqb_eq in E;
    repeat split; [done | by repeat constructor; auto with chk |];
    unfold digits_val; simpl; rewrite digit_val_char by done;
    rewrite (Z.div_mod n 10) at 2 by lia; lia.
  - apply Z.eqb_neq in E. exfalso. apply E, Z.div_small. simpl in Hn. lia.
  - apply Z.eqb_neq in E.
    destruct (IH (n / 10) (digit_char (n mod 10) :: acc)) as (ds & -> & Hne & Hds & Hv).
    { rewrite (Nat2Z.inj_succ (S f)), Z.pow_succ_r in Hn by lia.
      split; [apply Z.div_pos; lia|]. apply Z.div_lt_upper_bound; lia. }
    exists (ds ++ [digit_char (n mod 10)]). repeat split.
    + by rewrite <- app_assoc.
    + by destruct ds.
    + apply Forall_app. split; [done|]. by repeat constructor; auto with chk.
    + rewrite digits_val_snoc, Hv, digit_val_char by done.
      rewrite (Z.div_mod n 10) at 3 by lia. lia.
Qed.

(** More fuel than needed changes nothing. *)
Lemma print_nat_fuel_more fuel : forall n acc extra, 0 <= n < 2 ^ Z.of_nat (S fuel) ->
  print_nat_fuel (S fuel + extra) n acc = print_nat_fuel (S fuel) n acc.
Proof.
  induction fuel as [|f IH]; intros n acc extra Hn;
    rewrite Nat.add_succ_l, !print_nat_fuel_S; destruct (n / 10 =? 0) eqn:E; try done.
  - apply Z.eqb_neq in E. exfalso. apply E, Z.div_small. simpl in Hn. lia.
  - apply IH. rewrite (Nat2Z.inj_succ (S f)), Z.pow_succ_r in Hn by lia.
    split; [apply Z.div_pos; lia|]. apply Z.div_lt_upper_bound; lia.
Qed.

Lemma print_nat_spec n : 0 <= n ->
  print_nat n <> [] /\ all_sat isdigit (print_nat n) /\ digits_val (print_nat n) = n.
Proof.
  intros Hn. unfold print_nat.
  destruct (print_nat_fuel_spec (Z.to_nat (Z.log2 n)) n []) as (ds & -> & ? & ? & ?).
  - split; [done|]. rewrite Nat2Z.inj_succ, Z2Nat.id by apply Z.log2_nonneg.
    destruct (decide (n = 0)) as [->|]; [done|]. apply Z.log2_spec. lia.
  - by rewrite app_nil_r.
Qed.

(** The printer writes at most one digit per unit of fuel. *)
Lemma print_nat_fuel_length fuel : forall n acc,
  (length (print_nat_fuel fuel n acc) <= fuel + length acc)%nat.
Proof.
  induction fuel as [|f IH]; intros n acc; [simpl; lia|].
  rewrite print_nat_fuel_S. destruct (n / 10 =? 0); [simpl; lia|].
  specialize (IH (n / 10) (digit_char (n mod 10) :: acc)). simpl in *. lia.
Qed.

(** The decimal form of an [int] has at most 33 characters (a coarse bound:
    one per bit and the sign). *)
Lemma print_int_length z : in_int z -> (length (print_int z) <= 33)%nat.
Proof.
  unfold in_int, INT_MIN, INT_MAX, print_int, print_nat. intros Hz.
  assert (forall n, 0 <= n <= 2147483648 ->
            (length (print_nat_fuel (S (Z.to_nat (Z.log2 n))) n []) <= 32)%nat) as H.
  { intros n Hn. pose proof (print_nat_fuel_length (S (Z.to_nat (Z.log2 n))) n []) as Hl.
    assert (Z.log2 n <= Z.log2 2147483648) as Hlog by (apply Z.log2_le_mono; lia).
    change (Z.log2 2147483648) with 31 in Hlog. pose proof (Z.log2_nonneg n).
    change (length (@nil ascii)) with 0%nat in Hl. lia. }
  destruct (z <? 0) eqn:E; [apply Z.ltb_lt in E | apply Z.ltb_ge in E].
  - specialize (H (- z) ltac:(lia)). cbn [length]. lia.
  - specialize (H z ltac:(lia)). lia.
Qed.

Lemma print_nat_nonempty n : 0 <= n -> print_nat n <> [].
Proof. intros H. by apply print_nat_spec. Qed.

Lemma print_nat_digits n : 0 <= n -> all_sat isdigit (print_nat n).
Proof. intros H. by apply print_nat_spec. Qed.

Lemma print_nat_val n : 0 <= n -> digits_val (print_nat n) = n.
Proof. intros H. by apply print_nat_spec. Qed.

Lemma print_nat_head n : 0 <= n -> exists d ds, print_nat n = d :: ds /\ isdigit d = true.
Proof.
  intros H. pose proof (print_nat_nonempty n H) as Hne.
  pose proof (print_nat_digits n H) as Hd.
  destruct (print_nat n) as [|d ds]; [done|]. exists d, ds. split; [done|].
  by inversion Hd.
Qed.

(** ** Printing, then scanning and converting *)

Lemma field_sign_print_int z :
  field_sign (print_int z) = (bool_decide (z < 0), print_nat (Z.abs z)).
Proof.
  unfold print_int. destruct (Z.ltb_spec z 0) as [Hz|Hz].
  - rewrite bool_decide_eq_true_2 by done. simpl. f_equal. f_equal. lia.
  - rewrite bool_decide_eq_false_2 by lia. rewrite Z.abs_eq by done.
    destruct (print_nat_head z Hz) as (d & ds & -> & Hd). by apply field_sign_digit.
Qed.

Lemma int_token_print_int z : int_token (print_int z).
Proof.
  unfold int_token. rewrite field_sign_print_int.
  split; [apply print_nat_nonempty | apply print_nat_digits]; lia.
Qed.

(** The decimal form of an integer is one token. *)
Lemma print_int_nonspace z : all_sat nonspace (print_int z).
Proof.
  unfold print_int, all_sat. destruct (Z.ltb_spec z 0); [constructor; [done|]|];
    (apply Forall_forall; intros c Hc; apply isdigit_nonspace; revert c Hc;
     apply Forall_forall, print_nat_digits; lia).
Qed.

Lemma scan_int_print_int z r : stops isdigit r ->
  scan_int (print_int z ++ r) = (print_int z, r).
Proof.
  intros Hr. unfold print_int. destruct (Z.ltb_spec z 0) as [Hz|Hz].
  - apply scan_int_signed; [done | apply print_nat_digits; lia | done].
  - apply scan_int_digits; [apply print_nat_digits | apply print_nat_nonempty | ]; done.
Qed.

Lemma conv_int_spec_print_int z : conv_int_spec (print_int z) = clamp INT_MIN INT_MAX z.
Proof.
  unfold conv_int_spec. rewrite field_sign_print_int.
  pose proof (print_nat_nonempty (Z.abs z) (Z.abs_nonneg z)) as Hne.
  rewrite print_nat_val by apply Z.abs_nonneg.
  destruct (print_nat (Z.abs z)); [done|]. f_equal. case_bool_decide; lia.
Qed.

Lemma conv_int_eq_spec field : conv_int field = conv_int_spec field.
Proof.
  unfold conv_int, conv_int_spec, conv_long.
  destruct (field_sign field) as [neg [|d ds]]; [done|]. apply narrow_clamp_long.
Qed.

Lemma conv_int_print_int z : in_int z -> conv_int (print_int z) = (z, false).
Proof.
  intros Hz. rewrite conv_int_eq_spec, conv_int_spec_print_int. by apply clamp_ok.
Qed.

(** ** Well-formed tokens *)

Lemma int_token_cases t : int_token t ->
  (exists c ds, t = c :: ds /\ is_sign c = true /\ ds <> [] /\ all_sat isdigit ds /\
                field_sign t = (bool_decide (c = "-"%char), ds)) \/
  (t <> [] /\ all_sat isdigit t /\ field_sign t = (false, t)).
Proof.
  unfold int_token. destruct t as [|c ds]; simpl; [by intros [? _]|].
  repeat case_bool_decide; subst; intros [Hne Hds].
  - left. exists "-"%char, ds. by rewrite bool_decide_eq_true_2.
  - left. exists "+"%char, ds. by rewrite bool_decide_eq_false_2.
  - by right.
Qed.

Lemma int_token_head t : int_token t -> exists c b, t = c :: b /\ isspace c = false.
Proof.
  intros [(c & ds & -> & Hc & _)|(Hne & Hds & _)]%int_token_cases.
  - exists c, ds. auto with chk.
  - destruct t as [|c b]; [done|]. exists c, b. inversion Hds. auto with chk.
Qed.

Lemma scan_int_token t r : int_token t -> stops isdigit r -> scan_int (t ++ r) = (t, r).
Proof.
  intros [(c & ds & -> & Hc & _ & Hds & _)|(Hne & Hds & _)]%int_token_cases Hr.
  - by apply scan_int_signed.
  - by apply scan_int_digits.
Qed.

Lemma int_token_has_digits t : int_token t -> int_token_shape t.
Proof. unfold int_token, int_token_shape. destruct (field_sign t). by intros [? _]. Qed.

(** Conversion succeeds exactly on well-formed tokens whose value fits. *)
Lemma conv_int_ok_iff field : (conv_int field).2 = false <->
  int_token_shape field /\ in_int (signed_val field).
Proof.
  rewrite conv_int_eq_spec. unfold conv_int_spec, int_token_shape, signed_val.
  destruct (field_sign field) as [neg [|d ds]]; simpl.
  - split; [done|]. by intros [? _].
  - rewrite clamp_err. unfold in_int. split; [by intros ?|by intros [_ ?]].
Qed.

Lemma conv_int_token t : int_token t -> in_int (signed_val t) ->
  conv_int t = (signed_val t, false).
Proof.
  intros Ht%int_token_has_digits Hz. pose proof (proj2 (conv_int_ok_iff t) (conj Ht Hz)) as He.
  rewrite conv_int_eq_spec in *. unfold conv_int_spec, signed_val in *.
  destruct (field_sign t) as [neg [|d ds]]; [done|]. by apply clamp_ok.
Qed.

Lemma signed_val_print_int z : signed_val (print_int z) = z.
Proof.
  unfold signed_val. rewrite field_sign_print_int, print_nat_val by apply Z.abs_nonneg.
  case_bool_decide; lia.
Qed.

#[export] Hint Resolve conv_int_in_int print_nat_nonempty print_nat_digits
  scan_int_stops int_token_print_int : chk.
#[export] Hint Rewrite scan_int_app print_nat_val using (auto with chk; lia) : chk.

(** ** The conversion, characterised *)


(** The fuel of the printer is enough.  With any fuel beyond the
    [S (log2 n)] units that [print_nat] supplies, the printer gives the same
    digits: it stops because the quotient reached 0, never because the fuel
    ran out. *)
Theorem print_nat_fuel_enough n extra : 0 <= n ->
  print_nat_fuel (S (Z.to_nat (Z.log2 n)) + extra) n [] = print_nat n.
Proof.
  intros Hn. unfold print_nat. apply print_nat_fuel_more.
  rewrite Nat2Z.inj_succ, Z2Nat.id by apply Z.log2_nonneg.
  destruct (decide (n = 0)) as [->|]; [done|]. split; [done|]. apply Z.log2_spec. lia.
Qed.

Lemma print_nat_fuel_enough_witness :
  print_nat_fuel (S (Z.to_nat (Z.log2 2147483647)) + 100) 2147483647 [] =
  print_nat 2147483647.
Proof. exact (print_nat_fuel_enough 2147483647 100 ltac:(done)). Defined.
