(* ===== verification/FloatRound.v ===== *)
(** * Rounding to a binary floating-point format

    The Standard Library specifies rounding to nearest, ties to even, by
    [binary_round_aux]: a mantissa with the position of what was cut off
    is shifted right to the exponent of the format, rounded, and shifted
    once more if rounding carried into a new digit.  This file proves what
    that computes, for any precision: the result is the canonical
    representation of an integer multiple of its unit that is nearest to
    the number rounded, the even one of two.  Numbers are kept as
    fractions [N / D] of integers; no real numbers are used. *)

From Stdlib Require Import Floats.SpecFloat.
From S2P Require Import Prelude.

Local Open Scope Z_scope.

(** ** Positions *)

(** [N / D] lies where the record says: its integer part is [shr_m], the
    round bit tells whether the fraction is at least a half, the sticky bit
    whether something is left beyond the round bit. *)
Definition located (N D : Z) (mrs : shr_record) : Prop :=
  let m := shr_m mrs in
  match shr_r mrs, shr_s mrs with
  | false, false => N = m * D
  | false, true => m * D < N /\ 2 * N < (2 * m + 1) * D
  | true, false => 2 * N = (2 * m + 1) * D
  | true, true => (2 * m + 1) * D < 2 * N /\ N < (m + 1) * D
  end.

(** [m] is an integer nearest to [N / D], the even one if there are two. *)
Definition nearest_even (N D m : Z) : Prop :=
  2 * Z.abs (m * D - N) <= D /\ (2 * Z.abs (m * D - N) = D -> Z.even m = true).

#[export] Instance nearest_even_dec N D m : Decision (nearest_even N D m).
Proof. unfold nearest_even. apply _. Defined.

(** ** Digits *)

Lemma digits2_pos_size p : digits2_pos p = Pos.size p.
Proof. induction p as [p IH|p IH|]; simpl; by rewrite ?IH. Qed.

Lemma Zdigits2_log2 m : 0 < m -> Zdigits2 m = Z.log2 m + 1.
Proof.
  destruct m as [|[p|p|]|p]; try done; intros _; simpl; rewrite digits2_pos_size; lia.
Qed.

Lemma Zdigits2_nonneg m : 0 <= Zdigits2 m.
Proof. by destruct m. Qed.

Lemma Zdigits2_bounds m : 0 < m -> 2 ^ (Zdigits2 m - 1) <= m < 2 ^ Zdigits2 m.
Proof.
  intros H. rewrite Zdigits2_log2 by done. pose proof (Z.log2_spec m H).
  by replace (Z.log2 m + 1 - 1) with (Z.log2 m) by lia.
Qed.

Lemma Zdigits2_unique m d : 0 < d -> 2 ^ (d - 1) <= m < 2 ^ d -> Zdigits2 m = d.
Proof.
  intros Hd H. assert (0 < m) by (pose proof (Z.pow_pos_nonneg 2 (d - 1)); lia).
  rewrite Zdigits2_log2 by done. rewrite (Z.log2_unique m (d - 1)); [lia..|].
  by replace (Z.succ (d - 1)) with d by lia.
Qed.

(** Dropping [k] low digits of a number that has more. *)
Lemma Zdigits2_div m k : 0 <= k -> 2 ^ k <= m -> Zdigits2 (m / 2 ^ k) = Zdigits2 m - k.
Proof.
  intros Hk H. assert (0 < 2 ^ k) by by apply Z.pow_pos_nonneg.
  assert (0 < m / 2 ^ k) by (apply Z.div_str_pos; lia).
  rewrite !Zdigits2_log2, <- Z.shiftr_div_pow2, Z.log2_shiftr by lia.
  apply Z.log2_le_pow2 in H; lia.
Qed.

(** A number below [2 ^ k] has at most [k] digits. *)
Lemma Zdigits2_le m k : 0 <= k -> 0 <= m < 2 ^ k -> Zdigits2 m <= k.
Proof.
  intros Hk [H0 H]. destruct (decide (m = 0)) as [->|]; [done|].
  rewrite Zdigits2_log2 by lia. apply Z.log2_lt_pow2 in H; lia.
Qed.

(** ** One shift *)

Lemma shr_1_nonneg mrs : 0 <= shr_m mrs -> 0 <= shr_m (shr_1 mrs).
Proof. destruct mrs as [[|[p|p|]|p] r s]; simpl; lia. Qed.

Lemma located_shr_1 N D mrs : 0 < D -> 0 <= shr_m mrs -> located N D mrs ->
  located N (2 * D) (shr_1 mrs).
Proof.
  destruct mrs as [[|[p|p|]|p] [] []]; unfold located, shr_1;
    cbn [shr_m shr_r shr_s orb]; rewrite ?(Pos2Z.inj_xO p), ?(Pos2Z.inj_xI p); lia.
Qed.

(** ** Many shifts *)

Lemma iter_shr_1_nonneg p : forall mrs,
  0 <= shr_m mrs -> 0 <= shr_m (SpecFloat.iter_pos shr_1 p mrs).
Proof. induction p as [p IH|p IH|]; intros mrs H; simpl; auto using shr_1_nonneg. Qed.

Lemma pow2_pos k : 0 <= k -> 0 < 2 ^ k.
Proof. by apply Z.pow_pos_nonneg. Qed.

Lemma pow2_mul_pos k D : 0 <= k -> 0 < D -> 0 < 2 ^ k * D.
Proof. intros Hk HD. pose proof (pow2_pos k Hk). by apply Z.mul_pos_pos. Qed.

Lemma pow2_double p : 2 ^ Z.pos p~0 = 2 ^ Z.pos p * 2 ^ Z.pos p.
Proof. rewrite (Pos2Z.inj_xO p), <- Z.pow_add_r by lia. f_equal. lia. Qed.

Lemma located_iter_shr_1 N p : forall D mrs, 0 < D -> 0 <= shr_m mrs -> located N D mrs ->
  located N (2 ^ Z.pos p * D) (SpecFloat.iter_pos shr_1 p mrs).
Proof.
  induction p as [p IH|p IH|]; intros D mrs HD Hm H; simpl SpecFloat.iter_pos.
  - replace (2 ^ Z.pos p~1 * D) with (2 ^ Z.pos p * (2 ^ Z.pos p * (2 * D)))
      by (rewrite (Pos2Z.inj_xI p), Z.pow_add_r, <- (Pos2Z.inj_xO p), pow2_double by lia; lia).
    apply IH; [apply pow2_mul_pos; lia | auto using shr_1_nonneg, iter_shr_1_nonneg |].
    apply IH; [lia | by apply shr_1_nonneg | by apply located_shr_1].
  - replace (2 ^ Z.pos p~0 * D) with (2 ^ Z.pos p * (2 ^ Z.pos p * D))
      by (rewrite pow2_double; lia).
    apply IH; [apply pow2_mul_pos; lia | by apply iter_shr_1_nonneg | by apply IH].
  - by apply located_shr_1.
Qed.

(** [shr] by [n] divides by [2 ^ n], for [0 <= n], and raises the exponent. *)
Lemma located_shr N D mrs e n : 0 < D -> 0 <= shr_m mrs -> located N D mrs -> 0 <= n ->
  located N (2 ^ n * D) (shr mrs e n).1 /\ (shr mrs e n).2 = e + n /\
  0 <= shr_m (shr mrs e n).1.
Proof.
  intros HD Hm H Hn. destruct n as [|p|p]; [| |lia]; simpl.
  - rewrite Z.add_0_r. by destruct D.
  - auto using located_iter_shr_1, iter_shr_1_nonneg.
Qed.

(** ** What a position determines *)

Lemma located_bounds N D mrs : 0 < D -> located N D mrs ->
  shr_m mrs * D <= N < (shr_m mrs + 1) * D.
Proof. destruct mrs as [m [] []]; unfold located; simpl; lia. Qed.

Lemma located_div N D mrs : 0 < D -> located N D mrs -> shr_m mrs = N / D.
Proof.
  intros HD H%located_bounds; [|done].
  apply Z.div_unique with (r := N - shr_m mrs * D); lia.
Qed.

Lemma shr_m_of_loc m l : shr_m (shr_record_of_loc m l) = m.
Proof. by destruct l as [|[]]. Qed.

(** The position of a quotient, from the remainder. *)
Lemma located_div_mod n d : 0 < d ->
  located n d (shr_record_of_loc (n / d)
                 (if n mod d =? 0 then loc_Exact else loc_Inexact (2 * (n mod d) ?= d))).
Proof.
  intros Hd. pose proof (Z.div_mod n d ltac:(lia)) as E.
  pose proof (Z.mod_pos_bound n d Hd) as Hr.
  destruct (Z.eqb_spec (n mod d) 0) as [H0|H0]; [unfold located; simpl; lia|].
  destruct (Z.compare_spec (2 * (n mod d)) d); unfold located; simpl; lia.
Qed.

(** ** Rounding *)

Lemma round_nearest_even_nonneg mx lx : 0 <= mx -> 0 <= round_nearest_even mx lx.
Proof. intros H. destruct lx as [|[]]; simpl; try destruct (Z.even mx); lia. Qed.

Lemma round_nearest_even_cases m l :
  round_nearest_even m l = m \/ round_nearest_even m l = m + 1.
Proof. destruct l as [|[]]; simpl; try destruct (Z.even m); auto. Qed.

Lemma located_round N D mrs : 0 < D -> located N D mrs ->
  nearest_even N D (round_nearest_even (shr_m mrs) (loc_of_shr_record mrs)).
Proof.
  destruct mrs as [m [] []]; unfold located, nearest_even; simpl; intros HD H;
    try (split; [lia | intros; exfalso; lia]).
  destruct (Z.even m) eqn:Em; (split; [lia | intros _]); [done|].
  by rewrite Z.even_add, Em.
Qed.

(** Both sides of the fraction may be scaled. *)
Lemma nearest_even_scale c N D m : 0 < c ->
  nearest_even (N * c) (D * c) m <-> nearest_even N D m.
Proof.
  intros Hc. unfold nearest_even.
  replace (m * (D * c) - N * c) with ((m * D - N) * c) by lia.
  rewrite Z.abs_mul, (Z.abs_eq c), Z.mul_assoc by lia.
  rewrite <- Z.mul_le_mono_pos_r, Z.mul_cancel_r by lia. done.
Qed.

(** ** The format *)

Section format.
Context (prec emax : Z) (Hprec : 0 < prec).

#[local] Abbreviation fexp := (SpecFloat.fexp prec emax).
#[local] Abbreviation emin := (SpecFloat.emin prec emax).

(** What [binary_round_aux] returns for the mantissa [m] at the exponent
    [e]. *)
Definition pack (sx : bool) (m e : Z) : spec_float :=
  match m with
  | 0 => S754_zero sx
  | Z.pos p => if e <=? emax - prec then S754_finite sx p e else S754_infinity sx
  | Z.neg _ => S754_nan
  end.

(** [m * 2 ^ e] is the rounding of [N / D * 2 ^ ex]: [e] is the exponent
    that the format gives to a mantissa of that many digits, and [m] is
    nearest to the number in units of [2 ^ e]. *)
Definition rounds_to (N D ex m e : Z) : Prop :=
  0 <= m /\ ex <= e /\ fexp (Zdigits2 m + e) = e /\ nearest_even N (2 ^ (e - ex) * D) m.

(** [m * 2 ^ e] is at least as near to [N / D * 2 ^ ex] as [m' * 2 ^ e'] is:
    the distances are compared in every unit [2 ^ s / D] fine enough to
    write the three numbers as integers. *)
Definition no_nearer (N D ex m e m' e' : Z) : Prop :=
  forall s, s <= ex -> s <= e -> s <= e' ->
    Z.abs (m * 2 ^ (e - s) * D - N * 2 ^ (ex - s)) <=
    Z.abs (m' * 2 ^ (e' - s) * D - N * 2 ^ (ex - s)).

(** No number of the format, whatever its exponent, is nearer to
    [N / D * 2 ^ ex] than [m * 2 ^ e]. *)
Definition nearest_of_format (N D ex m e : Z) : Prop :=
  forall m' e', 0 <= m' -> fexp (Zdigits2 m' + e') = e' -> no_nearer N D ex m e m' e'.

(** *** The first shift *)

Lemma shr_fexp_located N D mx ex lx : 0 < D ->
  0 <= mx -> located N D (shr_record_of_loc mx lx) -> ex <= fexp (Zdigits2 mx + ex) ->
  located N (2 ^ (fexp (Zdigits2 mx + ex) - ex) * D) (shr_fexp prec emax mx ex lx).1 /\
  (shr_fexp prec emax mx ex lx).2 = fexp (Zdigits2 mx + ex) /\
  0 <= shr_m (shr_fexp prec emax mx ex lx).1.
Proof.
  intros HD Hm H He. unfold shr_fexp.
  destruct (located_shr N D (shr_record_of_loc mx lx) ex (fexp (Zdigits2 mx + ex) - ex))
    as (Hl & -> & H0); rewrite ?shr_m_of_loc; try done; [lia|].
  split_and!; [done | lia | done].
Qed.

Lemma shr_fexp_mantissa N D mx ex lx : 0 < D ->
  0 <= mx -> located N D (shr_record_of_loc mx lx) -> ex <= fexp (Zdigits2 mx + ex) ->
  shr_m (shr_fexp prec emax mx ex lx).1 = mx / 2 ^ (fexp (Zdigits2 mx + ex) - ex).
Proof.
  intros HD Hm H He. destruct (shr_fexp_located N D mx ex lx) as (Hl & _ & _); try done.
  pose proof (pow2_pos (fexp (Zdigits2 mx + ex) - ex) ltac:(lia)) as Hp.
  pose proof (pow2_mul_pos (fexp (Zdigits2 mx + ex) - ex) D ltac:(lia) HD) as HpD.
  rewrite (located_div _ _ _ HpD Hl).
  rewrite <- (shr_m_of_loc mx lx) at 2. rewrite (located_div _ _ _ HD H).
  rewrite Z.div_div by lia. f_equal. lia.
Qed.

(** After the shift the exponent is the one of the format, and it is the
    least exponent if nothing is left of the mantissa. *)
Lemma fexp_after_shift mx ex : 0 <= mx -> ex <= fexp (Zdigits2 mx + ex) ->
  let e := fexp (Zdigits2 mx + ex) in
  fexp (Zdigits2 (mx / 2 ^ (e - ex)) + e) = e /\ (mx / 2 ^ (e - ex) = 0 -> e = emin).
Proof.
  intros Hm He e. pose proof (pow2_pos (e - ex) ltac:(unfold e; lia)).
  destruct (Z.lt_ge_cases mx (2 ^ (e - ex))) as [Hlt|Hge].
  - pose proof (Zdigits2_le mx (e - ex) ltac:(unfold e; lia) ltac:(lia)) as Hd.
    rewrite Z.div_small by lia. unfold e, SpecFloat.fexp in *. simpl. lia.
  - rewrite Zdigits2_div by (done || unfold e; lia). split; [unfold e at 3; f_equal; lia|].
    intros H0. assert (0 < mx / 2 ^ (e - ex)) by (apply Z.div_str_pos; lia). lia.
Qed.

(** *** The second shift *)

(** Adding one to a mantissa keeps its number of digits, unless it gives a
    power of two. *)
Lemma Zdigits2_succ m : 0 < m ->
  Zdigits2 (m + 1) = Zdigits2 m \/
  (m + 1 = 2 ^ Zdigits2 m /\ Zdigits2 (m + 1) = Zdigits2 m + 1).
Proof.
  intros Hm. pose proof (Zdigits2_bounds m Hm) as Hb.
  assert (0 < Zdigits2 m) by (rewrite Zdigits2_log2 by done; pose proof (Z.log2_nonneg m); lia).
  destruct (decide (m + 1 = 2 ^ Zdigits2 m)) as [E|E]; [right | left].
  - split; [done|]. apply Zdigits2_unique; [lia|].
    replace (Zdigits2 m + 1 - 1) with (Zdigits2 m) by lia.
    rewrite E, Z.pow_add_r by lia. pose proof (pow2_pos (Zdigits2 m)). lia.
  - apply Zdigits2_unique; [lia|]. lia.
Qed.

Lemma Zdigits2_pow2 k : 0 <= k -> Zdigits2 (2 ^ k) = k + 1.
Proof.
  intros Hk. apply Zdigits2_unique; [lia|]. replace (k + 1 - 1) with k by lia.
  rewrite Z.pow_add_r by lia. pose proof (pow2_pos k Hk). lia.
Qed.

(** A mantissa at the exponent of the format is not shifted. *)
Lemma shr_fexp_canonical m e : fexp (Zdigits2 m + e) = e ->
  shr_fexp prec emax m e loc_Exact = (Build_shr_record m false false, e).
Proof. intros H. unfold shr_fexp. by rewrite H, Z.sub_diag. Qed.

(** A power of two one exponent below the format is shifted once. *)
Lemma shr_fexp_carry d e : 0 < d -> fexp (Zdigits2 (2 ^ d) + e) = e + 1 ->
  shr_fexp prec emax (2 ^ d) e loc_Exact = (Build_shr_record (2 ^ (d - 1)) false false, e + 1).
Proof.
  intros Hd H. unfold shr_fexp. rewrite H. replace (e + 1 - e) with 1 by lia.
  replace (2 ^ d) with (2 * 2 ^ (d - 1)) by (rewrite <- Z.pow_succ_r by lia; f_equal; lia).
  pose proof (pow2_pos (d - 1) ltac:(lia)). by destruct (2 ^ (d - 1)).
Qed.

(** The rounded mantissa is at the exponent of the format, or it is a power
    of two one exponent below. *)
Lemma round_carry m e mr : 0 <= m -> fexp (Zdigits2 m + e) = e -> (m = 0 -> e = emin) ->
  mr = m \/ mr = m + 1 -> fexp (Zdigits2 mr + e) <> e ->
  0 < Zdigits2 m /\ mr = 2 ^ Zdigits2 m /\ fexp (Zdigits2 mr + e) = e + 1.
Proof.
  intros Hm Hc H0 [->| ->] Hn; [done|].
  destruct (decide (m = 0)) as [->|Hp].
  { destruct Hn. specialize (H0 eq_refl). unfold SpecFloat.fexp in *. simpl. lia. }
  destruct (Zdigits2_succ m ltac:(lia)) as [E|[E1 E2]]; [by rewrite E in Hn|].
  pose proof (Zdigits2_bounds m ltac:(lia)).
  assert (0 < Zdigits2 m) by (rewrite Zdigits2_log2 by lia; pose proof (Z.log2_nonneg m); lia).
  split_and!; [done..|]. rewrite E2 in *. unfold SpecFloat.fexp in *. lia.
Qed.

(** What the second shift gives. *)
Lemma round_shift N D m e mr : 0 < D ->
  0 <= m -> fexp (Zdigits2 m + e) = e -> (m = 0 -> e = emin) ->
  mr = m \/ mr = m + 1 -> nearest_even N D mr ->
  exists m' e', shr_fexp prec emax mr e loc_Exact = (Build_shr_record m' false false, e') /\
    0 <= m' /\ e <= e' /\ fexp (Zdigits2 m' + e') = e' /\ nearest_even N (2 ^ (e' - e) * D) m' /\
    mr = m' * 2 ^ (e' - e).
Proof.
  intros HD Hm Hc H0 Hr Hn. destruct (decide (fexp (Zdigits2 mr + e) = e)) as [E|E].
  - exists mr, e. rewrite Z.sub_diag, Z.mul_1_l.
    split_and!; [by apply shr_fexp_canonical | lia | done.. | simpl; lia].
  - destruct (round_carry m e mr) as (Hd & -> & E1); try done.
    exists (2 ^ (Zdigits2 m - 1)), (e + 1).
    pose proof (pow2_pos (Zdigits2 m - 1) ltac:(lia)) as Hp.
    replace (e + 1 - e) with 1 by lia.
    split_and!; [by apply shr_fexp_carry | lia | lia | | |].
    3: { rewrite <- Z.pow_add_r by lia. f_equal. lia. }
    + rewrite Zdigits2_pow2 in * by lia. rewrite <- E1. f_equal. lia.
    + destruct Hn as [Hn _]. unfold nearest_even.
      replace (2 ^ (Zdigits2 m - 1) * (2 ^ 1 * D)) with (2 ^ Zdigits2 m * D)
        by (replace (Zdigits2 m) with (Zdigits2 m - 1 + 1) at 1 by lia;
            rewrite Z.pow_add_r by lia; lia).
      split; [lia | intros; exfalso; lia].
Qed.

(** *** No number of the format is nearer *)

(** A number of the format with a lower exponent is not above a number of
    the format with a higher one: the higher exponent is above the least,
    so its mantissa has all the digits of the format. *)
Lemma canonical_lower m1 e1 m' e' : 0 <= m1 -> 0 <= m' ->
  fexp (Zdigits2 m1 + e1) = e1 -> fexp (Zdigits2 m' + e') = e' -> e' < e1 ->
  m' <= m1 * 2 ^ (e1 - e').
Proof.
  intros H1 H' Hc1 Hc' He. pose proof (pow2_pos (e1 - e') ltac:(lia)) as Hp.
  destruct (decide (m' = 0)) as [->|Hn]; [nia|].
  assert (Zdigits2 m1 = prec) as Hd1 by (unfold SpecFloat.fexp in *; lia).
  assert (0 < m1) as Hm1 by (destruct m1; [simpl in Hd1| |]; lia).
  pose proof (Zdigits2_bounds m1 Hm1) as [Hlo _]. rewrite Hd1 in Hlo.
  pose proof (Zdigits2_bounds m' ltac:(lia)) as [_ Hhi].
  assert (0 < Zdigits2 m') by (rewrite Zdigits2_log2 by lia; pose proof (Z.log2_nonneg m'); lia).
  assert (2 ^ Zdigits2 m' <= 2 ^ (prec - 1) * 2 ^ (e1 - e')); [|nia].
  rewrite <- Z.pow_add_r by lia. apply Z.pow_le_mono_r; unfold SpecFloat.fexp in *; lia.
Qed.

(** Scaling a distance. *)
Lemma abs_scale a b k : 0 <= k -> Z.abs (a * k - b * k) = Z.abs (a - b) * k.
Proof. intros Hk. rewrite <- Z.mul_sub_distr_r, Z.abs_mul, (Z.abs_eq k) by done. done. Qed.

(** The rounded mantissa at the exponent of the format is nearest among
    all numbers of the format: those with an exponent at least as high are
    multiples of the unit, and those with a lower exponent are not above
    the number rounded down. *)
Lemma round_nearest_of_format N D ex e1 m1 mr m e : 0 < D -> ex <= e1 ->
  0 <= m1 -> fexp (Zdigits2 m1 + e1) = e1 ->
  m1 * (2 ^ (e1 - ex) * D) <= N < (m1 + 1) * (2 ^ (e1 - ex) * D) ->
  mr = m1 \/ mr = m1 + 1 -> nearest_even N (2 ^ (e1 - ex) * D) mr ->
  e1 <= e -> mr = m * 2 ^ (e - e1) ->
  nearest_of_format N D ex m e.
Proof.
  intros HD Hx H1 Hc1 Hloc Hr [Hne _] He Hv m' e' H' Hc' s Hs1 Hs2 Hs3.
  set (D1 := 2 ^ (e1 - ex) * D) in *. set (P := 2 ^ (ex - s)).
  assert (0 < D1) as HD1 by (apply pow2_mul_pos; lia).
  assert (0 < P) as HP by (apply pow2_pos; lia).
  assert (forall a, e1 <= a -> 2 ^ (a - s) * D = 2 ^ (a - e1) * D1 * P) as Hpow.
  { intros a Ha. unfold D1, P.
    replace (a - s) with ((a - e1) + (e1 - ex) + (ex - s)) by lia.
    rewrite !Z.pow_add_r by lia. lia. }
  replace (m * 2 ^ (e - s) * D) with (mr * D1 * P) by (rewrite <- (Z.mul_assoc m), Hpow, Hv by lia; lia).
  rewrite abs_scale by lia.
  destruct (Z.le_gt_cases e1 e') as [Hle|Hlt].
  - replace (m' * 2 ^ (e' - s) * D) with (m' * 2 ^ (e' - e1) * D1 * P)
      by (rewrite <- (Z.mul_assoc m' _ D), Hpow by lia; lia).
    rewrite abs_scale by lia. apply Z.mul_le_mono_nonneg_r; [lia|].
    generalize (m' * 2 ^ (e' - e1)). intros M'.
    destruct (decide (M' = mr)) as [->|Hd]; [done|]. nia.
  - pose proof (canonical_lower m1 e1 m' e' H1 H' Hc1 Hc' Hlt) as Hlow.
    pose proof (pow2_pos (e' - s) ltac:(lia)) as Hq.
    assert (m' * 2 ^ (e' - s) * D <= m1 * D1 * P) as Hup.
    { replace (m1 * D1 * P) with (m1 * 2 ^ (e1 - e') * (2 ^ (e' - s) * D));
        [rewrite <- (Z.mul_assoc m' _ D); apply Z.mul_le_mono_nonneg_r; [nia | done]|].
      rewrite <- (Z.mul_assoc m1 D1 P), <- (Z.mul_1_l D1), <- (Z.pow_0_r 2), <- (Z.sub_diag e1).
      rewrite <- Hpow by lia. replace (e1 - s) with ((e1 - e') + (e' - s)) by lia.
      rewrite Z.pow_add_r by lia. lia. }
    assert (Z.abs (mr * D1 - N) <= N - m1 * D1) as Hnear by (destruct Hr as [-> | ->]; lia).
    nia.
Qed.

(** The same number in a finer unit. *)
Lemma nearest_of_format_shift N D ex k m e : 0 <= k ->
  nearest_of_format (N * 2 ^ k) D (ex - k) m e -> nearest_of_format N D ex m e.
Proof.
  intros Hk H m' e' H' Hc' s Hs1 Hs2 Hs3.
  pose proof (pow2_pos k Hk) as Hp.
  specialize (H m' e' H' Hc' (s - k) ltac:(lia) ltac:(lia) ltac:(lia)).
  replace (e - (s - k)) with ((e - s) + k) in H by lia.
  replace (e' - (s - k)) with ((e' - s) + k) in H by lia.
  replace (ex - k - (s - k)) with (ex - s) in H by lia.
  rewrite !Z.pow_add_r in H by lia.
  replace (m * (2 ^ (e - s) * 2 ^ k) * D) with (m * 2 ^ (e - s) * D * 2 ^ k) in H by lia.
  replace (m' * (2 ^ (e' - s) * 2 ^ k) * D) with (m' * 2 ^ (e' - s) * D * 2 ^ k) in H by lia.
  replace (N * 2 ^ k * 2 ^ (ex - s)) with (N * 2 ^ (ex - s) * 2 ^ k) in H by lia.
  rewrite !abs_scale in H by lia. nia.
Qed.

(** *** Rounding a located number *)

(** [binary_round_aux] on a mantissa that has at least the digits of the
    format, or is exact, and on the position of the number [N / D] rounds
    that number. *)
Lemma binary_round_aux_correct sx mx ex lx N D : 0 < D -> 0 <= mx ->
  located N D (shr_record_of_loc mx lx) -> ex <= fexp (Zdigits2 mx + ex) ->
  exists m e, rounds_to N D ex m e /\ nearest_of_format N D ex m e /\
    binary_round_aux prec emax sx mx ex lx = pack sx m e.
Proof.
  intros HD Hm Hl He. unfold binary_round_aux.
  destruct (shr_fexp_located N D mx ex lx) as (Hl1 & He1 & Hm1); try done.
  pose proof (shr_fexp_mantissa N D mx ex lx HD Hm Hl He) as Hq.
  destruct (fexp_after_shift mx ex Hm He) as [Hc H0]. rewrite <- Hq in Hc, H0.
  destruct (shr_fexp prec emax mx ex lx) as [mrs' e1]. simpl in *. subst e1.
  set (e1 := fexp (Zdigits2 mx + ex)) in *.
  pose proof (pow2_mul_pos (e1 - ex) D ltac:(lia) HD) as HD1.
  destruct (round_shift N (2 ^ (e1 - ex) * D) (shr_m mrs') e1
              (round_nearest_even (shr_m mrs') (loc_of_shr_record mrs')))
    as (m & e & -> & Hm' & Hee & Hcan & Hne & Hval);
    [done.. | apply round_nearest_even_cases | by apply located_round |].
  exists m, e. split; [|split; [|done]].
  - split_and!; [done | lia | done |].
    replace (2 ^ (e - ex)) with (2 ^ (e - e1) * 2 ^ (e1 - ex))
      by (rewrite <- Z.pow_add_r by lia; f_equal; lia).
    by rewrite <- Z.mul_assoc.
  - apply (round_nearest_of_format N D ex e1 (shr_m mrs')
             (round_nearest_even (shr_m mrs') (loc_of_shr_record mrs'))); try done.
    + by apply located_bounds.
    + apply round_nearest_even_cases.
    + by apply located_round.
Qed.

(** *** Rounding an integer *)

Lemma iter_xO p d : Z.pos (Pos.iter xO p d) = Z.pos p * 2 ^ Z.pos d.
Proof.
  induction d as [|d IH] using Pos.peano_ind; [simpl; lia|].
  rewrite Pos.iter_succ, (Pos2Z.inj_xO (Pos.iter xO p d)), IH, Pos2Z.inj_succ, Z.pow_succ_r; lia.
Qed.

Lemma shl_align_spec mx ex ex' :
  (shl_align mx ex ex').2 = Z.min ex ex' /\
  Z.pos (shl_align mx ex ex').1 = Z.pos mx * 2 ^ (ex - Z.min ex ex').
Proof.
  unfold shl_align. destruct (ex' - ex) as [|d|d] eqn:E; simpl.
  - rewrite Z.min_l, Z.sub_diag by lia. lia.
  - rewrite Z.min_l, Z.sub_diag by lia. lia.
  - rewrite Z.min_r by lia. split; [done|]. rewrite iter_xO. do 2 f_equal. lia.
Qed.

Lemma Zdigits2_mul_pow2 m k : 0 < m -> 0 <= k -> Zdigits2 (m * 2 ^ k) = Zdigits2 m + k.
Proof.
  intros Hm Hk. pose proof (pow2_pos k Hk).
  rewrite !Zdigits2_log2, Z.log2_mul_pow2 by nia. lia.
Qed.

(** [binary_round] rounds the integer [mx * 2 ^ ex]. *)
Lemma binary_round_correct sx mx ex :
  let ez := Z.min ex (fexp (Zdigits2 (Z.pos mx) + ex)) in
  exists m e, rounds_to (Z.pos mx * 2 ^ (ex - ez)) 1 ez m e /\
    nearest_of_format (Z.pos mx * 2 ^ (ex - ez)) 1 ez m e /\
    binary_round prec emax sx mx ex = pack sx m e.
Proof.
  intros ez. unfold binary_round.
  destruct (shl_align_spec mx ex (fexp (Zdigits2 (Z.pos mx) + ex))) as [E2 E1].
  change (Z.pos (digits2_pos mx)) with (Zdigits2 (Z.pos mx)).
  destruct (shl_align mx ex _) as [mz ez']. cbn [fst snd] in E1, E2. subst ez'. fold ez in E1 |- *.
  apply binary_round_aux_correct; [lia | lia | |].
  { unfold located. cbn [shr_record_of_loc shr_m shr_r shr_s]. lia. }
  rewrite E1, Zdigits2_mul_pow2 by lia.
  replace (Zdigits2 (Z.pos mx) + (ex - ez) + ez) with (Zdigits2 (Z.pos mx) + ex) by lia. lia.
Qed.

(** *** Numbers of the format *)

(** A multiple of the unit is located exactly. *)
Lemma located_exact m D mrs : 0 < D -> located (m * D) D mrs ->
  shr_m mrs = m /\ loc_of_shr_record mrs = loc_Exact.
Proof.
  intros HD. destruct mrs as [m' r s]. unfold located. simpl.
  assert (forall a b, a * D < b * D -> a < b) as Hlt
    by (intros a b; by apply Z.mul_lt_mono_pos_r).
  assert (forall a b, a * D = b * D -> a = b) as Heq
    by (intros a b; apply Z.mul_cancel_r; lia).
  replace (2 * (m * D)) with (2 * m * D) by lia.
  destruct r, s; [intros [H1%Hlt H2%Hlt] | intros H%Heq | intros [H1%Hlt H2%Hlt] | intros H%Heq];
    [lia.. | by split].
Qed.

(** A number of the format, given with more digits at a lower exponent, is
    its own rounding. *)
Lemma binary_round_aux_exact sx m e ex : 0 < m -> fexp (Zdigits2 m + e) = e ->
  e <= emax - prec -> ex <= e ->
  binary_round_aux prec emax sx (m * 2 ^ (e - ex)) ex loc_Exact = S754_finite sx (Z.to_pos m) e.
Proof.
  intros Hm Hc He Hx. unfold binary_round_aux. set (mx := m * 2 ^ (e - ex)).
  assert (fexp (Zdigits2 mx + ex) = e) as Hf.
  { unfold mx. rewrite Zdigits2_mul_pow2 by lia. rewrite <- Hc at 2. f_equal. lia. }
  pose proof (pow2_pos (e - ex) ltac:(lia)) as Hp.
  destruct (shr_fexp_located mx 1 mx ex loc_Exact) as (Hl & He1 & _);
    [lia | unfold mx; nia | unfold located; simpl; lia | lia |].
  rewrite Hf, Z.mul_1_r in Hl. rewrite Hf in He1.
  destruct (shr_fexp prec emax mx ex loc_Exact) as [mrs' e']. simpl in Hl, He1. subst e'.
  destruct (located_exact m (2 ^ (e - ex)) mrs' Hp Hl) as [-> ->].
  simpl round_nearest_even. rewrite shr_fexp_canonical by done. simpl.
  destruct m as [|p|p]; try lia. simpl. by rewrite (proj2 (Z.leb_le _ _) He).
Qed.

(** An integer that is a number of the format is its own rounding. *)
Lemma binary_round_exact sx mx m e : 0 < m -> fexp (Zdigits2 m + e) = e ->
  e <= emax - prec -> Z.pos mx * 2 ^ Z.max 0 (- e) = m * 2 ^ Z.max 0 e ->
  binary_round prec emax sx mx 0 = S754_finite sx (Z.to_pos m) e.
Proof.
  intros Hm Hc He Hv. unfold binary_round.
  change (Z.pos (digits2_pos mx)) with (Zdigits2 (Z.pos mx)).
  assert (Zdigits2 (Z.pos mx) + 0 = Zdigits2 m + e) as Hd.
  { destruct (Z.le_ge_cases 0 e).
    - rewrite Z.max_l, Z.max_r, Z.pow_0_r, Z.mul_1_r in Hv by lia.
      rewrite Hv, Zdigits2_mul_pow2 by lia. lia.
    - rewrite Z.max_r, Z.max_l, Z.pow_0_r, Z.mul_1_r in Hv by lia.
      rewrite <- Hv, Zdigits2_mul_pow2 by lia. lia. }
  rewrite Hd, Hc. destruct (shl_align_spec mx 0 e) as [E2 E1].
  destruct (shl_align mx 0 e) as [mz ez]. cbn [fst snd] in E1, E2.
  replace (Z.pos mz) with (m * 2 ^ (e - ez)); [apply binary_round_aux_exact; lia|].
  rewrite E1, E2. destruct (Z.le_ge_cases 0 e).
  - rewrite Z.max_l, Z.max_r, Z.pow_0_r, Z.mul_1_r in Hv by lia.
    replace (0 `min` e) with 0 by lia. rewrite !Z.sub_0_r, Z.pow_0_r. lia.
  - rewrite Z.max_r, Z.max_l, Z.pow_0_r, Z.mul_1_r in Hv by lia.
    replace (0 `min` e) with e by lia. rewrite Z.sub_diag, Z.pow_0_r, Z.sub_0_l. lia.
Qed.

(** *** The result is a number of the format *)

Lemma pack_valid sx m e : fexp (Zdigits2 m + e) = e -> valid_binary prec emax (pack sx m e) = true.
Proof.
  intros H. destruct m as [|p|p]; try done. simpl.
  destruct (Z.leb_spec e (emax - prec)) as [Hle|]; [|done]. simpl.
  unfold bounded, canonical_mantissa. apply andb_true_iff. split; [|by apply Z.leb_le].
  by apply Z.eqb_eq.
Qed.

End format.
