(* ===== verification/StrToD.v ===== *)
(** * Floating-point extraction ([num_get] for [double], [strtod])

    [stream >> result] with [double result] (testlib.h:85) runs
    [num_get::get] for [double].  Implementations differ in the characters
    they accumulate; this file follows libstdc++, the library of the
    compiler the judge uses:

    - stage 2 ([scan_float], libstdc++'s [_M_extract_float]): an optional
      sign; then digits, with at most one decimal point, which may come
      first; then, only if a digit has been seen, an exponent mark [e] or
      [E], a sign if one follows the mark directly, and digits.  A second
      point, a point after the mark, or any other character ends the field;
    - stage 3 ([conv_double], libstdc++'s [__convert_to_v]): [strtod] is run
      on the field.  If it does not convert the whole field (no digit in the
      mantissa, or an exponent mark without digits) 0 is stored and
      [failbit] is raised; if it overflows, the largest finite value of
      that sign is stored and [failbit] is raised.

    A [double] is a [spec_float] of the Standard Library at the parameters
    of binary64.  [strtod_round] is the correctly rounded conversion (to
    nearest, ties to even) of the decimal number [M * 10 ^ E]: the number is
    cut to an integer mantissa of more than 53 bits together with the
    position of what was cut off, and rounded by [binary_round_aux].
    [float_field] is the grammar of the fields that [strtod] converts. *)

From Stdlib Require Import Floats.SpecFloat.
From S2P Require Import Prelude CType NumGet FloatRound.

Local Open Scope Z_scope.

(** ** binary64 *)

Definition prec : Z := 53.
Definition emax : Z := 1024.

(** The largest finite [double], with the given sign. *)
Definition DBL_MAX (neg : bool) : spec_float := S754_finite neg 9007199254740991 971.

(** ** Stage 2: the field *)

Definition is_point (c : ascii) : bool := bool_decide (c = "."%char).
Definition is_exp (c : ascii) : bool := bool_decide (c = "e"%char) || bool_decide (c = "E"%char).

(** The characters that can continue a field after its first digit. *)
Definition float_char (c : ascii) : bool := isdigit c || is_point c || is_exp c.

(** The loop of [_M_extract_float]: [mant] a digit has been seen, [dec] the
    point has been seen, [sci] the exponent mark has been seen. *)
Fixpoint scan_float_loop (mant dec sci : bool) (b : list ascii) : list ascii * list ascii :=
  match b with
  | [] => ([], [])
  | c :: b' =>
      if isdigit c then
        let (f, r) := scan_float_loop true dec sci b' in (c :: f, r)
      else if is_point c && negb dec && negb sci then
        let (f, r) := scan_float_loop mant true sci b' in (c :: f, r)
      else if is_exp c && negb sci && mant then
        match b' with
        | s :: b'' =>
            if is_sign s then
              let (f, r) := scan_float_loop mant dec true b'' in (c :: s :: f, r)
            else
              let (f, r) := scan_float_loop mant dec true b' in (c :: f, r)
        | [] => ([c], [])
        end
      else ([], b)
  end.

(** The field and the characters left in the stream. *)
Definition scan_float (b : list ascii) : list ascii * list ascii :=
  let (sg, b1) := scan_sign b in
  let (f, r) := scan_float_loop false false false b1 in
  (sg ++ f, r).

(** ** Stage 3: the value *)

(** The exponent part of a field, after the mantissa: nothing, or a mark,
    an optional sign and at least one digit. *)
Definition parse_exp (e : list ascii) : option Z :=
  match e with
  | [] => Some 0
  | c :: e' =>
      if is_exp c then
        let (neg, ds) := field_sign e' in
        if bool_decide (ds <> []) && bool_decide (all_sat isdigit ds)
        then Some (if neg then - digits_val ds else digits_val ds)
        else None
      else None
  end.

(** The mantissa at the front of an unsigned field: the digits before the
    point, the digits after it, and what follows. *)
Definition parse_mantissa (body : list ascii) : list ascii * list ascii * list ascii :=
  let ip := take_while isdigit body in
  match drop_while isdigit body with
  | c :: r =>
      if is_point c then (ip, take_while isdigit r, drop_while isdigit r)
      else (ip, [], c :: r)
  | [] => (ip, [], [])
  end.

(** What [strtod] reads in a field it converts entirely: the sign, the
    digits of the mantissa as an integer [M] and the decimal exponent [E];
    the value is [M * 10 ^ E].  [parse_body] reads what follows the sign. *)
Definition parse_body (neg : bool) (body : list ascii) : option (bool * Z * Z) :=
  let '(ip, fp, r2) := parse_mantissa body in
  if is_nil (ip ++ fp) then None
  else
    e ← parse_exp r2;
    Some (neg, digits_val (ip ++ fp), e - Z.of_nat (length fp)).

Definition parse_float (field : list ascii) : option (bool * Z * Z) :=
  let (neg, body) := field_sign field in parse_body neg body.

(** The [double] nearest to [M * 10 ^ E], for [0 <= M]; ties go to the even
    mantissa, and a value too large goes to infinity. *)
Definition strtod_round (neg : bool) (M E : Z) : spec_float :=
  if M =? 0 then S754_zero neg
  else if 0 <=? E then binary_round prec emax neg (Z.to_pos (M * 10 ^ E)) 0
  else
    let d := 10 ^ (- E) in
    let s := 64 + Z.log2 d in
    let n := M * 2 ^ s in
    let q := n / d in
    let r := n mod d in
    let loc := if r =? 0 then loc_Exact else loc_Inexact (2 * r ?= d) in
    binary_round_aux prec emax neg q (- s) loc.

(** The value stored in the [double] and whether [failbit] is raised. *)
Definition conv_double (field : list ascii) : spec_float * bool :=
  match parse_float field with
  | None => (S754_zero false, true)
  | Some (neg, M, E) =>
      match strtod_round neg M E with
      | S754_infinity s => (DBL_MAX s, true)
      | v => (v, false)
      end
  end.

(** A [double] that is a number: a zero or a finite value. *)
Definition is_finite (v : spec_float) : bool :=
  match v with
  | S754_zero _ | S754_finite _ _ _ => true
  | S754_infinity _ | S754_nan => false
  end.

(** What rounding a number of sign [neg] gives: a zero, a finite value whose
    exponent is in range, or an infinity, of that sign. *)
Definition rounded (neg : bool) (v : spec_float) : Prop :=
  match v with
  | S754_zero s | S754_infinity s => s = neg
  | S754_finite s _ e => s = neg /\ e <= emax - prec
  | S754_nan => False
  end.

(** [m * 2 ^ e] is a multiple of [2 ^ e] nearest to [M * 10 ^ E], the even
    one if there are two.  The two numbers are compared after scaling both
    to integers. *)
Definition nearest_decimal (M E m e : Z) : Prop :=
  let t := Z.max 0 (- e) in
  let u := Z.max 0 (- E) in
  nearest_even (M * 10 ^ (E + u) * 2 ^ t) (2 ^ (e + t) * 10 ^ u) m.

(** No number of binary64, whatever its exponent, is nearer to
    [M * 10 ^ E] than [m * 2 ^ e]. *)
Definition nearest_binary64 (M E m e : Z) : Prop :=
  let u := Z.max 0 (- E) in
  nearest_of_format prec emax (M * 10 ^ (E + u)) (10 ^ u) 0 m e.

#[export] Instance nearest_decimal_dec M E m e : Decision (nearest_decimal M E m e).
Proof. unfold nearest_decimal. apply _. Defined.

(** ** The grammar of a field that converts *)

(** Digits, with at most one point, and at least one digit. *)
Inductive float_mantissa : list ascii -> Prop :=
| mantissa_int ip : ip <> [] -> all_sat isdigit ip -> float_mantissa ip
| mantissa_frac ip fp : ip ++ fp <> [] -> all_sat isdigit ip -> all_sat isdigit fp ->
    float_mantissa (ip ++ "."%char :: fp).

Inductive float_exponent : list ascii -> Prop :=
| exponent_none : float_exponent []
| exponent_unsigned c ds : is_exp c = true -> ds <> [] -> all_sat isdigit ds ->
    float_exponent (c :: ds)
| exponent_signed c s ds : is_exp c = true -> is_sign s = true -> ds <> [] ->
    all_sat isdigit ds -> float_exponent (c :: s :: ds).

Inductive float_field : list ascii -> Prop :=
| field_unsigned m e : float_mantissa m -> float_exponent e -> float_field (m ++ e)
| field_signed s m e : is_sign s = true -> float_mantissa m -> float_exponent e ->
    float_field (s :: m ++ e).

(** ** Stage 2 *)

(** One turn of the loop. *)
Lemma scan_float_loop_cons mant dec sci c b :
  scan_float_loop mant dec sci (c :: b) =
  if isdigit c then
    let (f, r) := scan_float_loop true dec sci b in (c :: f, r)
  else if is_point c && negb dec && negb sci then
    let (f, r) := scan_float_loop mant true sci b in (c :: f, r)
  else if is_exp c && negb sci && mant then
    match b with
    | s :: b' =>
        if is_sign s then
          let (f, r) := scan_float_loop mant dec true b' in (c :: s :: f, r)
        else
          let (f, r) := scan_float_loop mant dec true b in (c :: f, r)
    | [] => ([c], [])
    end
  else ([], c :: b).
Proof. by destruct b. Qed.

Lemma scan_float_loop_app_len n : forall b mant dec sci, (length b <= n)%nat ->
  (scan_float_loop mant dec sci b).1 ++ (scan_float_loop mant dec sci b).2 = b.
Proof.
  induction n as [|n IH]; intros [|c b] mant dec sci Hn; try done; [simpl in Hn; lia|].
  simpl in *. destruct (isdigit c).
  { specialize (IH b true dec sci ltac:(lia)).
    destruct (scan_float_loop true dec sci b). simpl in *. by rewrite IH. }
  destruct (is_point c && negb dec && negb sci).
  { specialize (IH b mant true sci ltac:(lia)).
    destruct (scan_float_loop mant true sci b). simpl in *. by rewrite IH. }
  destruct (is_exp c && negb sci && mant); [|done].
  destruct b as [|s b]; [done|]. destruct (is_sign s).
  - specialize (IH b mant dec true ltac:(simpl in Hn; lia)).
    destruct (scan_float_loop mant dec true b). simpl in *. by rewrite IH.
  - specialize (IH (s :: b) mant dec true ltac:(lia)).
    destruct (scan_float_loop mant dec true (s :: b)). simpl in *. by rewrite IH.
Qed.

Lemma scan_float_loop_app b mant dec sci :
  (scan_float_loop mant dec sci b).1 ++ (scan_float_loop mant dec sci b).2 = b.
Proof. by apply (scan_float_loop_app_len (length b)). Qed.

Lemma scan_float_app b : (scan_float b).1 ++ (scan_float b).2 = b.
Proof.
  unfold scan_float. pose proof (scan_sign_app b) as H.
  destruct (scan_sign b) as [sg b1]. simpl in H.
  pose proof (scan_float_loop_app b1 false false false) as Hl.
  destruct (scan_float_loop false false false b1) as [f r]. simpl in *.
  by rewrite <- app_assoc, Hl.
Qed.

Lemma scan_float_nil : scan_float [] = ([], []).
Proof. reflexivity. Qed.

(** ** Character classes *)

Lemma isdigit_not_float_mark c : isdigit c = true -> is_point c = false /\ is_exp c = false.
Proof. ascii_cases c. Qed.

Lemma is_exp_not_digit c : is_exp c = true -> isdigit c = false /\ is_point c = false.
Proof. ascii_cases c. Qed.

Lemma is_point_not_digit c : is_point c = true -> isdigit c = false /\ is_sign c = false.
Proof. ascii_cases c. Qed.

Lemma isspace_not_float c : isspace c = true ->
  isdigit c = false /\ is_point c = false /\ is_exp c = false /\ is_sign c = false.
Proof. ascii_cases c. Qed.

(** ** The loop on the parts of a field *)

(** A run of digits is accumulated whole. *)
Lemma scan_float_loop_digits ds b dec sci : all_sat isdigit ds -> forall mant,
  scan_float_loop mant dec sci (ds ++ b) =
  let (f, r) := scan_float_loop (mant || negb (is_nil ds)) dec sci b in (ds ++ f, r).
Proof.
  induction 1 as [|c ds Hc _ IH]; intros mant; simpl.
  - rewrite orb_false_r. by destruct (scan_float_loop mant dec sci b).
  - rewrite Hc, IH, orb_true_r. simpl. by destruct (scan_float_loop true dec sci b).
Qed.

Lemma float_char_false c : float_char c = false ->
  isdigit c = false /\ is_point c = false /\ is_exp c = false.
Proof. unfold float_char. by destruct (isdigit c), (is_point c), (is_exp c). Qed.

(** A blank cannot continue a field. *)
Lemma stops_nonspace_float b : stops nonspace b -> stops float_char b.
Proof.
  destruct b as [|c b]; [done|]. simpl. intros H%nonspace_false. unfold float_char.
  by destruct (isspace_not_float c H) as (-> & -> & -> & _).
Qed.

(** The end, or a character that is not a digit, a point or an exponent
    mark, ends the field. *)
Lemma scan_float_loop_stop b mant dec sci : stops float_char b ->
  scan_float_loop mant dec sci b = ([], b).
Proof.
  destruct b as [|c b]; [done|]. simpl. by intros (-> & -> & ->)%float_char_false.
Qed.

(** The exponent mark, with and without a sign, and the point. *)
Lemma scan_float_loop_mark c s b dec : is_exp c = true -> is_sign s = false ->
  scan_float_loop true dec false (c :: s :: b) =
  let (f, r) := scan_float_loop true dec true (s :: b) in (c :: f, r).
Proof.
  intros Hc Hs. destruct (is_exp_not_digit c Hc) as [Hd Hp].
  by rewrite scan_float_loop_cons, Hd, Hp, Hc, Hs.
Qed.

Lemma scan_float_loop_mark_sign c s b dec : is_exp c = true -> is_sign s = true ->
  scan_float_loop true dec false (c :: s :: b) =
  let (f, r) := scan_float_loop true dec true b in (c :: s :: f, r).
Proof.
  intros Hc Hs. destruct (is_exp_not_digit c Hc) as [Hd Hp].
  by rewrite scan_float_loop_cons, Hd, Hp, Hc, Hs.
Qed.

Lemma scan_float_loop_point b mant :
  scan_float_loop mant false false ("."%char :: b) =
  let (f, r) := scan_float_loop mant true false b in ("."%char :: f, r).
Proof. reflexivity. Qed.

Lemma scan_float_loop_exponent e r dec : float_exponent e -> stops float_char r ->
  scan_float_loop true dec false (e ++ r) = (e, r).
Proof.
  intros He Hr. destruct He as [|c ds Hc Hne Hds|c s ds Hc Hs Hne Hds].
  - by apply scan_float_loop_stop.
  - destruct ds as [|d ds]; [done|]. pose proof (Forall_inv Hds) as Hdd. simpl in Hdd.
    rewrite <- !app_comm_cons, scan_float_loop_mark by auto using isdigit_not_sign.
    rewrite (app_comm_cons ds r d), scan_float_loop_digits, scan_float_loop_stop by done.
    by rewrite app_nil_r.
  - rewrite <- !app_comm_cons, scan_float_loop_mark_sign by done.
    rewrite scan_float_loop_digits, scan_float_loop_stop by done. by rewrite app_nil_r.
Qed.

Lemma scan_float_loop_mantissa m b : float_mantissa m ->
  exists dec, scan_float_loop false false false (m ++ b) =
              let (f, r) := scan_float_loop true dec false b in (m ++ f, r).
Proof.
  intros [ip Hne Hip|ip fp Hne Hip Hfp].
  - exists false. rewrite scan_float_loop_digits by done. by destruct ip.
  - exists true. rewrite <- app_assoc, scan_float_loop_digits by done.
    rewrite <- app_comm_cons, scan_float_loop_point, scan_float_loop_digits by done.
    replace (false || negb (is_nil ip) || negb (is_nil fp)) with true by by destruct ip, fp.
    destruct (scan_float_loop true true false b) as [f r]. by rewrite <- app_assoc.
Qed.

Lemma float_mantissa_head m : float_mantissa m ->
  exists c m', m = c :: m' /\ is_sign c = false.
Proof.
  intros [ip Hne Hip|ip fp Hne Hip Hfp]; destruct ip as [|c ip]; try done.
  - exists c, ip. split; [done|]. apply isdigit_not_sign. by inversion Hip.
  - by exists "."%char, fp.
  - exists c, (ip ++ "."%char :: fp). split; [done|]. apply isdigit_not_sign. by inversion Hip.
Qed.

Lemma float_field_head t : float_field t ->
  exists c t', t = c :: t' /\ isspace c = false.
Proof.
  intros [m e Hm He|s m e Hs Hm He].
  - destruct Hm as [ip Hne Hip|ip fp Hne Hip Hfp]; destruct ip as [|c ip]; try done.
    + exists c, (ip ++ e). split; [done|]. apply isdigit_not_space. by inversion Hip.
    + by exists "."%char, (fp ++ e).
    + exists c, ((ip ++ "."%char :: fp) ++ e). split; [done|].
      apply isdigit_not_space. by inversion Hip.
  - exists s, (m ++ e). split; [done|]. by apply is_sign_not_space.
Qed.

Lemma scan_sign_none c b : is_sign c = false -> scan_sign (c :: b) = ([], c :: b).
Proof. intros H. simpl. by rewrite H. Qed.

Lemma scan_sign_some c b : is_sign c = true -> scan_sign (c :: b) = ([c], b).
Proof. intros H. simpl. by rewrite H. Qed.

(** A field of the grammar, followed by the end or by a character that
    cannot continue it, is accumulated whole and alone. *)
Lemma scan_float_field t r : float_field t -> stops float_char r ->
  scan_float (t ++ r) = (t, r).
Proof.
  intros Ht Hr. unfold scan_float.
  assert (forall m e, float_mantissa m -> float_exponent e ->
            scan_float_loop false false false ((m ++ e) ++ r) = (m ++ e, r)) as Hl.
  { intros m e Hm He. rewrite <- app_assoc.
    destruct (scan_float_loop_mantissa m (e ++ r) Hm) as [dec ->].
    by rewrite scan_float_loop_exponent. }
  destruct Ht as [m e Hm He|s m e Hs Hm He].
  - destruct (float_mantissa_head m Hm) as (c & m' & -> & Hc).
    change (((c :: m') ++ e) ++ r) with (c :: (m' ++ e) ++ r).
    rewrite (scan_sign_none c _ Hc).
    change (c :: (m' ++ e) ++ r) with (((c :: m') ++ e) ++ r). by rewrite (Hl _ e Hm He).
  - change ((s :: m ++ e) ++ r) with (s :: (m ++ e) ++ r).
    by rewrite (scan_sign_some s _ Hs), (Hl m e Hm He).
Qed.

(** ** The scan is local *)

(** The scan does not look past a blank. *)
Lemma scan_float_loop_local_len n : forall t mant dec sci r, (length t <= n)%nat ->
  all_sat nonspace t -> stops nonspace r ->
  scan_float_loop mant dec sci (t ++ r) =
  ((scan_float_loop mant dec sci t).1, (scan_float_loop mant dec sci t).2 ++ r).
Proof.
  induction n as [|n IH]; intros [|c t] mant dec sci r Hn Ht Hr;
    try (by rewrite app_nil_l, scan_float_loop_stop by by apply stops_nonspace_float);
    [simpl in Hn; lia|].
  simpl in Hn. inversion Ht as [|? ? Hc Ht']; subst.
  change ((c :: t) ++ r) with (c :: t ++ r). rewrite !(scan_float_loop_cons _ _ _ c).
  destruct (isdigit c).
  { rewrite IH by (done || lia). by destruct (scan_float_loop true dec sci t). }
  destruct (is_point c && negb dec && negb sci).
  { rewrite IH by (done || lia). by destruct (scan_float_loop mant true sci t). }
  destruct (is_exp c && negb sci && mant); [|done].
  destruct t as [|s t]; cbn [app].
  - destruct r as [|s r]; [done|]. simpl in Hr. apply nonspace_false in Hr.
    destruct (isspace_not_float s Hr) as (_ & _ & _ & ->).
    by rewrite scan_float_loop_stop by by apply stops_nonspace_float, nonspace_false.
  - inversion Ht' as [|? ? Hs Ht'']; subst. simpl in Hn. destruct (is_sign s).
    + rewrite IH by (done || lia). by destruct (scan_float_loop mant dec true t).
    + change (s :: t ++ r) with ((s :: t) ++ r). rewrite (IH (s :: t)) by (done || simpl; lia).
      by destruct (scan_float_loop mant dec true (s :: t)).
Qed.

Lemma scan_float_local t r : all_sat nonspace t -> stops nonspace r ->
  scan_float (t ++ r) = ((scan_float t).1, (scan_float t).2 ++ r).
Proof.
  intros Ht Hr. unfold scan_float.
  assert (exists sg b1, scan_sign t = (sg, b1) /\ scan_sign (t ++ r) = (sg, b1 ++ r) /\
                        all_sat nonspace b1) as (sg & b1 & -> & -> & Hb).
  { destruct t as [|c t].
    - exists [], []. split_and!; [done| |done]. destruct r as [|s r]; [done|].
      simpl in Hr. apply nonspace_false in Hr.
      simpl. by destruct (isspace_not_float s Hr) as (_ & _ & _ & ->).
    - inversion Ht; subst. simpl. destruct (is_sign c); by eexists _, _. }
  rewrite (scan_float_loop_local_len (length b1)) by done.
  by destruct (scan_float_loop false false false b1).
Qed.

Lemma scan_float_rest_sat (p : ascii -> bool) t : all_sat p t -> all_sat p (scan_float t).2.
Proof.
  intros H. rewrite <- (scan_float_app t) in H. by apply Forall_app in H as [_ ?].
Qed.

(** ** What [strtod] converts is a field of the grammar *)

Lemma field_sign_inv t neg body : field_sign t = (neg, body) ->
  (exists s, t = s :: body /\ is_sign s = true) \/ t = body.
Proof.
  unfold field_sign. destruct t as [|c ds]; [intros [= <- <-]; by right|].
  repeat case_bool_decide; intros [= <- <-]; subst; [left; by eexists.. | by right].
Qed.

Lemma parse_exp_exponent e x : parse_exp e = Some x -> float_exponent e.
Proof.
  destruct e as [|c e']; [constructor|]. simpl. destruct (is_exp c) eqn:Hc; [|done].
  destruct (field_sign e') as [neg ds] eqn:Ef.
  destruct (bool_decide (ds <> [])) eqn:H1; [|done].
  destruct (bool_decide (all_sat isdigit ds)) eqn:H2; [|done].
  apply bool_decide_eq_true in H1, H2. intros _.
  apply field_sign_inv in Ef as [(s & -> & Hs)| ->]; by constructor.
Qed.

Lemma parse_mantissa_spec body ip fp r2 :
  parse_mantissa body = (ip, fp, r2) -> is_nil (ip ++ fp) = false ->
  exists m, body = m ++ r2 /\ float_mantissa m.
Proof.
  unfold parse_mantissa. pose proof (take_drop_while isdigit body) as Hb.
  pose proof (take_while_all_sat isdigit body) as Hip.
  destruct (drop_while isdigit body) as [|c r] eqn:Er.
  - intros [= <- <- <-] Hn%is_nil_false. rewrite app_nil_r in *.
    exists (take_while isdigit body). split; [by rewrite app_nil_r | by constructor].
  - destruct (is_point c) eqn:Hc.
    + intros [= <- <- <-] Hn%is_nil_false. apply bool_decide_eq_true in Hc as ->.
      exists (take_while isdigit body ++ "."%char :: take_while isdigit r). split.
      * by rewrite <- app_assoc, <- app_comm_cons, take_drop_while.
      * constructor; [done..|apply take_while_all_sat].
    + intros [= <- <- <-] Hn%is_nil_false. rewrite app_nil_r in Hn.
      exists (take_while isdigit body). split; [done | by constructor].
Qed.

Lemma parse_float_field t x : parse_float t = Some x -> float_field t.
Proof.
  unfold parse_float, parse_body. destruct (field_sign t) as [neg body] eqn:Ef.
  destruct (parse_mantissa body) as [[ip fp] r2] eqn:Em.
  destruct (is_nil (ip ++ fp)) eqn:Hn; [done|].
  destruct (parse_exp r2) as [e|] eqn:Ee; [|done]. intros _.
  destruct (parse_mantissa_spec _ _ _ _ Em Hn) as (m & -> & Hm).
  apply parse_exp_exponent in Ee.
  apply field_sign_inv in Ef as [(s & -> & Hs)| ->]; by constructor.
Qed.

(** A conversion without error read a field of the grammar. *)
Lemma conv_double_field t : (conv_double t).2 = false -> float_field t.
Proof.
  unfold conv_double. destruct (parse_float t) as [[[neg M] E]|] eqn:Ep; [|done].
  intros _. by eapply parse_float_field.
Qed.

(** ** [strtod_round] rounds correctly *)

Lemma nearest_decimal_scale M E m e a : 0 <= a -> - e <= a ->
  nearest_even (M * 10 ^ (E + Z.max 0 (- E)) * 2 ^ a) (2 ^ (e + a) * 10 ^ Z.max 0 (- E)) m ->
  nearest_decimal M E m e.
Proof.
  intros Ha Hea H. unfold nearest_decimal.
  apply (nearest_even_scale (2 ^ (a - Z.max 0 (- e)))); [apply pow2_pos; lia|].
  replace (2 ^ a) with (2 ^ Z.max 0 (- e) * 2 ^ (a - Z.max 0 (- e))) in H
    by (rewrite <- Z.pow_add_r by lia; f_equal; lia).
  replace (2 ^ (e + a)) with (2 ^ (e + Z.max 0 (- e)) * 2 ^ (a - Z.max 0 (- e))) in H
    by (rewrite <- Z.pow_add_r by lia; f_equal; lia).
  by replace (M * 10 ^ (E + Z.max 0 (- E)) * 2 ^ Z.max 0 (- e) * 2 ^ (a - Z.max 0 (- e)))
    with (M * 10 ^ (E + Z.max 0 (- E)) * (2 ^ Z.max 0 (- e) * 2 ^ (a - Z.max 0 (- e)))) by lia;
  replace (2 ^ (e + Z.max 0 (- e)) * 10 ^ Z.max 0 (- E) * 2 ^ (a - Z.max 0 (- e)))
    with (2 ^ (e + Z.max 0 (- e)) * 2 ^ (a - Z.max 0 (- e)) * 10 ^ Z.max 0 (- E)) by lia.
Qed.

(** The scaled mantissa of a negative exponent has more digits than the
    format keeps. *)
Lemma scaled_quotient_large M d : 0 < M -> 0 < d ->
  2 ^ 63 <= M * 2 ^ (64 + Z.log2 d) / d.
Proof.
  intros HM Hd. pose proof (Z.log2_spec d Hd) as [_ Hlt]. pose proof (Z.log2_nonneg d).
  apply Z.div_le_lower_bound; [done|].
  replace (64 + Z.log2 d) with (63 + Z.succ (Z.log2 d)) by lia.
  rewrite Z.pow_add_r by lia. pose proof (pow2_pos 63 ltac:(lia)).
  pose proof (pow2_pos (Z.succ (Z.log2 d)) ltac:(lia)). nia.
Qed.

Lemma strtod_round_rounds neg M E : 0 < M ->
  exists m e, 0 <= m /\ fexp prec emax (Zdigits2 m + e) = e /\ nearest_decimal M E m e /\
    nearest_binary64 M E m e /\ strtod_round neg M E = pack prec emax neg m e.
Proof.
  intros HM. unfold strtod_round, nearest_binary64. destruct (Z.eqb_spec M 0) as [|_]; [lia|].
  destruct (Z.leb_spec 0 E) as [HE|HE].
  - assert (0 < M * 10 ^ E) as HP by (pose proof (Z.pow_pos_nonneg 10 E); nia).
    destruct (binary_round_correct prec emax ltac:(done) neg (Z.to_pos (M * 10 ^ E)) 0)
      as (m & e & (Hm & Hee & Hc & Hn) & Hopt & ->).
    exists m, e. rewrite Z2Pos.id in * by done. set (ez := Z.min 0 _) in *.
    split_and!; try done.
    + apply (nearest_decimal_scale M E m e (- ez)); [lia..|].
      rewrite Z.max_l, Z.add_0_r, Z.mul_1_r by lia.
      by replace (e + - ez) with (e - ez) by lia; replace (- ez) with (0 - ez) by lia;
         rewrite <- (Z.mul_1_r (2 ^ (e - ez))).
    + rewrite Z.max_l, Z.add_0_r, Z.pow_0_r by lia.
      apply (nearest_of_format_shift prec emax _ _ _ (0 - ez)); [lia|].
      by replace (0 - (0 - ez)) with ez by lia.
  - set (d := 10 ^ (- E)). assert (0 < d) as Hd by (apply Z.pow_pos_nonneg; lia).
    set (s := 64 + Z.log2 d). pose proof (Z.log2_nonneg d).
    pose proof (scaled_quotient_large M d HM Hd) as Hq. fold s in Hq.
    destruct (binary_round_aux_correct prec emax ltac:(done) neg (M * 2 ^ s / d) (- s)
                (if M * 2 ^ s mod d =? 0 then loc_Exact
                 else loc_Inexact (2 * (M * 2 ^ s mod d) ?= d)) (M * 2 ^ s) d)
      as (m & e & (Hm & Hee & Hc & Hn) & Hopt & ->);
      [done | lia | by apply located_div_mod | |].
    { assert (64 <= Zdigits2 (M * 2 ^ s / d)); [|unfold fexp, prec; lia].
      rewrite Zdigits2_log2 by lia. apply Z.log2_le_pow2 in Hq; lia. }
    exists m, e. split_and!; try done.
    + apply (nearest_decimal_scale M E m e s); [lia..|].
      rewrite Z.max_r, Z.add_opp_diag_r, Z.mul_1_r by lia.
      by replace (e - - s) with (e + s) in Hn by lia.
    + rewrite Z.max_r, Z.add_opp_diag_r, Z.mul_1_r by lia.
      apply (nearest_of_format_shift prec emax _ _ _ s); [unfold s; lia|].
      by replace (0 - s) with (- s) by lia.
Qed.

(** ** Numbers of binary64 written in full *)

(** A canonical mantissa has at most [prec] digits. *)
Lemma canonical_mantissa_bound m e : 0 < m -> fexp prec emax (Zdigits2 m + e) = e ->
  m < 2 ^ prec.
Proof.
  intros Hm Hc. pose proof (Zdigits2_bounds m Hm) as [_ Hlt].
  eapply Z.lt_le_trans; [done|]. apply Z.pow_le_mono_r; [lia|].
  unfold fexp in Hc. lia.
Qed.

(** A decimal that is a number of binary64 is converted to that number:
    [strtod] is exact wherever it can be. *)
Lemma strtod_round_exact neg N p m e : 0 < m -> fexp prec emax (Zdigits2 m + e) = e ->
  e <= emax - prec -> 0 <= p -> N * 2 ^ Z.max 0 (- e) = m * 2 ^ Z.max 0 e * 10 ^ p ->
  strtod_round neg N (- p) = S754_finite neg (Z.to_pos m) e.
Proof.
  intros Hm Hc He Hp Hv. unfold strtod_round.
  assert (0 < 10 ^ p) as Hd by (apply Z.pow_pos_nonneg; lia).
  assert (0 < 2 ^ Z.max 0 (- e) /\ 0 < 2 ^ Z.max 0 e) as [H1 H2]
    by (split; apply Z.pow_pos_nonneg; lia).
  assert (0 < N) as HN by nia.
  destruct (Z.eqb_spec N 0) as [|_]; [lia|]. destruct (Z.leb_spec 0 (- p)) as [H0|H0].
  - assert (p = 0) as -> by lia. simpl Z.opp. rewrite Z.pow_0_r, Z.mul_1_r in *.
    apply (binary_round_exact prec emax ltac:(done)); [done..|]. by rewrite Z2Pos.id.
  - rewrite Z.opp_involutive. set (d := 10 ^ p) in *. set (s := 64 + Z.log2 d).
    pose proof (Z.log2_spec d Hd) as [_ Hlog]. pose proof (Z.log2_nonneg d).
    pose proof (canonical_mantissa_bound m e Hm Hc) as Hb.
    assert (s = 64 + Z.log2 d) as Es by done. clearbody s.
    assert (- s <= e) as Hs.
    { destruct (Z.le_ge_cases 0 e); [lia|]. rewrite Z.max_r, Z.max_l, Z.pow_0_r, Z.mul_1_r in Hv by lia.
      assert (- e < s); [|lia]. apply (Z.pow_lt_mono_r_iff 2); [lia | lia |].
      apply Z.le_lt_trans with (N * 2 ^ (- e)); [nia|]. rewrite Hv.
      apply Z.lt_le_trans with (2 ^ prec * 2 ^ Z.succ (Z.log2 d)); [nia|].
      rewrite <- Z.pow_add_r by (unfold prec; lia). apply Z.pow_le_mono_r; unfold prec; lia. }
    assert (N * 2 ^ s = m * 2 ^ (e - - s) * d) as Hn.
    { destruct (Z.le_ge_cases 0 e).
      - rewrite Z.max_l, Z.max_r, Z.pow_0_r, Z.mul_1_r in Hv by lia.
        replace (e - - s) with (e + s) by lia. rewrite Hv, Z.pow_add_r by lia. lia.
      - rewrite Z.max_r, Z.max_l, Z.pow_0_r, Z.mul_1_r in Hv by lia.
        replace s with (- e + (e - - s)) at 1 by lia. rewrite Z.pow_add_r by lia.
        rewrite Z.mul_assoc, Hv. lia. }
    rewrite Hn, Z.div_mul, Z.mod_mul by lia. simpl.
    apply (binary_round_aux_exact prec emax ltac:(done)); done.
Qed.

Lemma pack_rounded neg m e : 0 <= m -> rounded neg (pack prec emax neg m e).
Proof.
  intros Hm. destruct m as [|p|p]; [done| |lia]. simpl.
  by destruct (Z.leb_spec e (emax - prec)).
Qed.

(** The value keeps the sign and does not leave the range of the exponent. *)
Lemma strtod_round_rounded neg M E : 0 <= M -> rounded neg (strtod_round neg M E).
Proof.
  intros HM. destruct (decide (M = 0)) as [->|]; [done|].
  destruct (strtod_round_rounds neg M E ltac:(lia)) as (m & e & Hm & _ & _ & _ & ->).
  by apply pack_rounded.
Qed.

Lemma parse_mantissa_digits body ip fp r2 : parse_mantissa body = (ip, fp, r2) ->
  all_sat isdigit (ip ++ fp).
Proof.
  unfold parse_mantissa, all_sat. destruct (drop_while isdigit body) as [|c r];
    [|destruct (is_point c)]; intros [= <- <- <-]; rewrite ?app_nil_r;
    rewrite ?Forall_app; try split; apply take_while_all_sat.
Qed.

Lemma parse_float_mantissa t neg M E : parse_float t = Some (neg, M, E) -> 0 <= M.
Proof.
  unfold parse_float, parse_body. destruct (field_sign t) as [neg' body].
  destruct (parse_mantissa body) as [[ip fp] r2] eqn:Em.
  destruct (is_nil (ip ++ fp)); [done|]. destruct (parse_exp r2); [|done].
  intros [= _ <- _]. by eapply digits_val_nonneg, parse_mantissa_digits.
Qed.

(** The three outcomes of the conversion. *)
Lemma conv_double_parsed t neg M E : parse_float t = Some (neg, M, E) ->
  conv_double t =
  if is_finite (strtod_round neg M E) then (strtod_round neg M E, false)
  else (DBL_MAX neg, true).
Proof.
  intros Hp. unfold conv_double. rewrite Hp.
  pose proof (strtod_round_rounded neg M E (parse_float_mantissa _ _ _ _ Hp)) as Hr.
  destruct (strtod_round neg M E); simpl in *; by subst.
Qed.

Lemma conv_double_ok t neg M E : parse_float t = Some (neg, M, E) ->
  is_finite (strtod_round neg M E) = true -> conv_double t = (strtod_round neg M E, false).
Proof. intros Hp Hf. by rewrite (conv_double_parsed t neg M E Hp), Hf. Qed.

Lemma conv_double_finite field : is_finite (conv_double field).1 = true.
Proof.
  destruct (parse_float field) as [[[neg M] E]|] eqn:Ep;
    [|unfold conv_double; by rewrite Ep].
  rewrite (conv_double_parsed _ _ _ _ Ep).
  by destruct (is_finite (strtod_round neg M E)) eqn:Ef.
Qed.

(** ** A field of the grammar is converted *)

Lemma field_sign_none c b : is_sign c = false -> field_sign (c :: b) = (false, c :: b).
Proof.
  unfold is_sign, field_sign. intros [? ?]%orb_false_elim. by repeat case_bool_decide.
Qed.

Lemma field_sign_some s b : is_sign s = true -> exists neg, field_sign (s :: b) = (neg, b).
Proof.
  unfold is_sign, field_sign. intros [?%bool_decide_eq_true|?%bool_decide_eq_true]%orb_true_iff;
    subst; by eexists.
Qed.

Lemma float_exponent_stops e : float_exponent e -> stops isdigit e.
Proof. intros [|c ds Hc _ _|c s ds Hc _ _ _]; [done|..]; by apply is_exp_not_digit. Qed.

Lemma parse_exp_of_exponent e : float_exponent e -> is_Some (parse_exp e).
Proof.
  intros [|c ds Hc Hne Hds|c s ds Hc Hs Hne Hds]; [by eexists|..]; cbn [parse_exp]; rewrite Hc.
  - destruct ds as [|d ds]; [done|].
    rewrite field_sign_none by (apply isdigit_not_sign; by inversion Hds).
    by rewrite !bool_decide_eq_true_2.
  - destruct (field_sign_some s ds Hs) as [neg ->]. by rewrite !bool_decide_eq_true_2.
Qed.

Lemma parse_mantissa_of m e : float_mantissa m -> float_exponent e ->
  exists ip fp, parse_mantissa (m ++ e) = (ip, fp, e) /\ is_nil (ip ++ fp) = false.
Proof.
  intros [ip Hne Hip|ip fp Hne Hip Hfp] He; pose proof (float_exponent_stops e He) as Hs.
  - exists ip, []. unfold parse_mantissa. rewrite take_while_app, drop_while_app by done.
    rewrite app_nil_r. split; [|by apply is_nil_false].
    destruct He as [|c ds Hc _ _|c s ds Hc _ _ _]; [done|..];
      by destruct (is_exp_not_digit c Hc) as [_ ->].
  - exists ip, fp. unfold parse_mantissa. rewrite <- app_assoc, <- app_comm_cons.
    rewrite take_while_app, drop_while_app by done.
    change (is_point "."%char) with true. cbv iota.
    rewrite take_while_app, drop_while_app by done. split; [done | by apply is_nil_false].
Qed.

Lemma parse_body_of neg m e : float_mantissa m -> float_exponent e ->
  is_Some (parse_body neg (m ++ e)).
Proof.
  intros Hm He. unfold parse_body.
  destruct (parse_mantissa_of m e Hm He) as (ip & fp & -> & ->).
  destruct (parse_exp_of_exponent e He) as [x ->]. by eexists.
Qed.

Lemma parse_float_of_field t : float_field t -> is_Some (parse_float t).
Proof.
  intros [m e Hm He|s m e Hs Hm He]; unfold parse_float.
  - destruct (float_mantissa_head m Hm) as (c & m' & -> & Hc).
    change ((c :: m') ++ e) with (c :: m' ++ e). rewrite field_sign_none by done.
    by apply (parse_body_of false (c :: m') e).
  - destruct (field_sign_some s (m ++ e) Hs) as [neg ->]. by apply parse_body_of.
Qed.

(** [strtod] converts exactly the fields of the grammar. *)
Lemma parse_float_iff t : is_Some (parse_float t) <-> float_field t.
Proof. split; [intros [x Hx]; by eapply parse_float_field | apply parse_float_of_field]. Qed.

Lemma conv_double_invalid t : ~ float_field t -> conv_double t = (S754_zero false, true).
Proof.
  intros H. unfold conv_double. destruct (parse_float t) eqn:Ep; [|done].
  destruct H. apply parse_float_iff. by rewrite Ep.
Qed.

(** C12: the conversion of a field to a [double].  The value stored is
    always a number, never an infinity or a NaN.  A field that is not of the
    grammar of [strtod] (an optional sign, digits with at most one point and
    at least one digit, and an optional exponent with at least one digit)
    stores [+0] and raises [failbit].  A field of the grammar denotes a sign,
    a mantissa and a decimal exponent; if the number rounds to a finite
    [double], that value is stored, with the sign of the field and an
    exponent in range, and [failbit] is not raised; if it rounds to an
    infinity, the largest finite value of that sign is stored and [failbit]
    is raised. *)
Theorem conv_double_correct field :
  is_finite (conv_double field).1 = true /\
  (~ float_field field -> conv_double field = (S754_zero false, true)) /\
  (float_field field -> exists neg M E,
     parse_float field = Some (neg, M, E) /\ 0 <= M /\
     rounded neg (strtod_round neg M E) /\
     conv_double field =
       if is_finite (strtod_round neg M E) then (strtod_round neg M E, false)
       else (DBL_MAX neg, true)).
Proof.
  split_and!; [apply conv_double_finite | apply conv_double_invalid |].
  intros [[[neg M] E] Hp]%parse_float_iff. exists neg, M, E.
  pose proof (parse_float_mantissa _ _ _ _ Hp) as HM.
  split_and!; [done | done | by apply strtod_round_rounded | by apply conv_double_parsed].
Qed.

(** The conversion on sample fields: a decimal that is not a binary
    fraction, a negative number with an exponent, the two overflows, an
    underflow to zero, the smallest subnormal, a negative zero, and three
    fields that do not convert. *)
Example conv_double_samples :
  let conv s := conv_double (list_ascii_of_string s) in
  conv "0.1" = (S754_finite false 7205759403792794 (-56), false) /\
  conv "-2.5e-3" = (S754_finite true 5764607523034235 (-61), false) /\
  conv "1e400" = (DBL_MAX false, true) /\ conv "-1e400" = (DBL_MAX true, true) /\
  conv "1e-400" = (S754_zero false, false) /\
  conv "4.9e-324" = (S754_finite false 1 (-1074), false) /\
  conv "-0" = (S754_zero true, false) /\
  conv "1e" = (S754_zero false, true) /\ conv "+" = (S754_zero false, true) /\
  conv "." = (S754_zero false, true).
Proof. by vm_compute. Qed.

(** C13: [strtod] rounds correctly.  For a decimal [M * 10 ^ E] with a
    positive mantissa, the value computed is of the sign asked for and is a
    number of binary64 in canonical form.  If it is finite, its mantissa and
    exponent denote a binary number nearest to the decimal, the one with the
    even mantissa if two are as near, and no number of binary64, whatever
    its exponent, is nearer to the decimal.  It is zero only if zero at the
    least exponent is that nearest number, and an infinity only if the
    nearest number in canonical form has an exponent beyond the range. *)
Theorem strtod_round_correct neg M E : 0 < M ->
  valid_binary prec emax (strtod_round neg M E) = true /\
  match strtod_round neg M E with
  | S754_zero s =>
      s = neg /\ nearest_decimal M E 0 (emin prec emax) /\
      nearest_binary64 M E 0 (emin prec emax)
  | S754_finite s m e =>
      s = neg /\ e <= emax - prec /\ nearest_decimal M E (Z.pos m) e /\
      nearest_binary64 M E (Z.pos m) e
  | S754_infinity s =>
      s = neg /\ exists m e, emax - prec < e /\ fexp prec emax (Zdigits2 m + e) = e /\
                             nearest_decimal M E m e /\ nearest_binary64 M E m e
  | S754_nan => False
  end.
Proof.
  intros HM. destruct (strtod_round_rounds neg M E HM) as (m & e & Hm & Hc & Hn & Ho & ->).
  split; [by apply pack_valid|]. destruct m as [|p|p]; [| |lia]; simpl.
  - split; [done|]. replace (emin prec emax) with e; [done|].
    change (Zdigits2 0) with 0 in Hc. unfold fexp in Hc. assert (0 < prec) by done. lia.
  - destruct (Z.leb_spec e (emax - prec)); [done|]. split; [done|]. by exists (Z.pos p), e.
Qed.

Lemma strtod_round_correct_witness :
  valid_binary prec emax (S754_finite false 7205759403792794 (-56)) = true /\
  false = false /\ -56 <= emax - prec /\ nearest_decimal 1 (-1) 7205759403792794 (-56) /\
  nearest_binary64 1 (-1) 7205759403792794 (-56).
Proof. exact (strtod_round_correct false 1 (-1) eq_refl). Defined.
