(* ===== verification/Seventeen.v ===== *)
(** * Seventeen digits identify a [double]

    Numbers of binary64 are far apart compared with decimals of seventeen
    significant digits: two numbers of the format differ by at least
    [2 ^ -53] of the larger one ([format_gap]), and [2 ^ 53 < 10 ^ 16].  So
    a decimal whose mantissa is above [2 ^ 53] and that lies within half a
    unit of its last digit of a [double] has that [double], and no other,
    as its nearest number of the format; as [strtod] rounds to nearest
    ([strtod_round_rounds]), it converts the decimal to that [double]
    ([strtod_round_nearby]).  [close_decimal N E m e] says that the
    decimal is nearer to the [double] than half the least gap;
    it depends on the value of the decimal only, not on the zeros at its
    end ([close_decimal_strip]), and it is enough for the conversion
    ([strtod_round_close]).  A program that writes a [double] with
    seventeen significant digits, in any notation, is read by [readDouble]
    without loss ([Roundtrip.v], [Exponent.v]). *)

From Stdlib Require Import Floats.SpecFloat.
From S2P Require Import Prelude CType NumGet FloatRound StrToD.

Local Open Scope Z_scope.

(** [N * 10 ^ E] is within half a unit of the last digit of [N] from
    [m * 2 ^ e].  The numbers are compared after scaling both to
    integers. *)
Definition within_half_unit (N E m e : Z) : Prop :=
  let t := Z.max 0 (- e) in
  let u := Z.max 0 (- E) in
  2 * Z.abs (m * 2 ^ (e + t) * 10 ^ u - N * 10 ^ (E + u) * 2 ^ t) <= 10 ^ (E + u) * 2 ^ t.

#[export] Instance within_half_unit_dec N E m e : Decision (within_half_unit N E m e).
Proof. unfold within_half_unit. apply _. Defined.

(** [m * 2 ^ e] is nearer to [N * 10 ^ E] than half the least gap of
    binary64 at [m * 2 ^ e]: their distance is below [2 ^ -54] of
    [m * 2 ^ e].  The numbers are compared at every binary scale [s]. *)
Definition close_decimal (N E m e : Z) : Prop :=
  forall s, s <= 0 -> s <= e ->
    2 ^ (prec + 1) *
      Z.abs (m * 2 ^ (e - s) * 10 ^ Z.max 0 (- E) - N * 10 ^ (E + Z.max 0 (- E)) * 2 ^ (0 - s)) <
    m * 2 ^ (e - s) * 10 ^ Z.max 0 (- E).

(** ** The gaps of a format *)

Section gap.
Context (prec emax : Z) (Hprec : 0 < prec).

#[local] Abbreviation fexp := (SpecFloat.fexp prec emax).

(** A canonical mantissa has at most [prec] digits, and exactly [prec]
    above the least exponent. *)
Lemma canonical_upper m e : 0 < m -> fexp (Zdigits2 m + e) = e -> m < 2 ^ prec.
Proof.
  intros Hm Hc. pose proof (Zdigits2_bounds m Hm) as [_ Hlt].
  eapply Z.lt_le_trans; [done|]. apply Z.pow_le_mono_r; [lia|].
  unfold SpecFloat.fexp in Hc. lia.
Qed.

Lemma canonical_normal m e m' e' : 0 < m -> fexp (Zdigits2 m + e) = e ->
  fexp (Zdigits2 m' + e') = e' -> e' < e -> 2 ^ (prec - 1) <= m.
Proof.
  intros Hm Hc Hc' He. pose proof (Zdigits2_bounds m Hm) as [Hlo _].
  assert (Zdigits2 m = prec) as <- by (unfold SpecFloat.fexp in *; lia). done.
Qed.

(** A number of a larger exponent is above every number of a smaller
    one, by the rest of the first binade at least. *)
Lemma canonical_above m e m' e' : 0 < m -> 0 <= m' ->
  fexp (Zdigits2 m + e) = e -> fexp (Zdigits2 m' + e') = e' -> e' < e ->
  2 ^ prec <= m * 2 ^ (e - e') /\ m' < 2 ^ prec.
Proof.
  intros Hm Hm' Hc Hc' He. pose proof (canonical_normal m e m' e' Hm Hc Hc' He) as Hn.
  split.
  - replace prec with (prec - 1 + 1) at 1 by lia. rewrite Z.pow_add_r by lia.
    assert (2 ^ 1 <= 2 ^ (e - e')) by (apply Z.pow_le_mono_r; lia).
    pose proof (pow2_pos (prec - 1) ltac:(lia)). nia.
  - destruct (decide (m' = 0)) as [->|]; [apply pow2_pos; lia|].
    apply (canonical_upper m' e'); [lia | done].
Qed.

(** Two numbers of the format with the same value are the same number. *)
Lemma canonical_unique m e m' e' s : 0 < m -> 0 <= m' ->
  fexp (Zdigits2 m + e) = e -> fexp (Zdigits2 m' + e') = e' -> s <= e -> s <= e' ->
  m * 2 ^ (e - s) = m' * 2 ^ (e' - s) -> m = m' /\ e = e'.
Proof.
  intros Hm Hm' Hc Hc' Hs Hs' Hv.
  pose proof (pow2_pos (e - s) ltac:(lia)). pose proof (pow2_pos (e' - s) ltac:(lia)).
  assert (0 < m') as Hp by nia.
  destruct (Z.lt_trichotomy e e') as [Hlt|[->|Hlt]]; [exfalso| split; [nia | done] |exfalso].
  - destruct (canonical_above m' e' m e) as [Hlo Hhi]; [lia | lia | done..|].
    replace (e' - s) with ((e' - e) + (e - s)) in Hv by lia. rewrite Z.pow_add_r in Hv by lia. nia.
  - destruct (canonical_above m e m' e') as [Hlo Hhi]; [lia | lia | done..|].
    replace (e - s) with ((e - e') + (e' - s)) in Hv by lia. rewrite Z.pow_add_r in Hv by lia. nia.
Qed.

(** The gap: two numbers of the format that differ, differ by [2 ^ -prec]
    of either at least. *)
Lemma format_gap m e m' e' s : 0 < m -> 0 <= m' ->
  fexp (Zdigits2 m + e) = e -> fexp (Zdigits2 m' + e') = e' -> s <= e -> s <= e' ->
  m * 2 ^ (e - s) <> m' * 2 ^ (e' - s) ->
  m * 2 ^ (e - s) <= 2 ^ prec * Z.abs (m * 2 ^ (e - s) - m' * 2 ^ (e' - s)).
Proof.
  intros Hm Hm' Hc Hc' Hs Hs' Hv.
  pose proof (pow2_pos prec ltac:(lia)) as HP.
  destruct (Z.le_gt_cases e e') as [Hle|Hlt].
  - pose proof (canonical_upper m e Hm Hc) as Hu.
    pose proof (pow2_pos (e - s) ltac:(lia)) as Ha. pose proof (pow2_pos (e' - e) ltac:(lia)) as Hb.
    replace (e' - s) with ((e' - e) + (e - s)) in * by lia. rewrite Z.pow_add_r in * by lia.
    set (A := 2 ^ (e - s)) in *. set (B := 2 ^ (e' - e)) in *.
    replace (m * A - m' * (B * A)) with ((m - m' * B) * A) in * by ring.
    rewrite Z.abs_mul, (Z.abs_eq A) by lia.
    assert (1 <= Z.abs (m - m' * B)) by (destruct (decide (m - m' * B = 0)); [nia | lia]).
    nia.
  - destruct (canonical_above m e m' e') as [Hlo Hhi]; [done..|].
    pose proof (pow2_pos (e' - s) ltac:(lia)) as Ha.
    replace (e - s) with ((e - e') + (e' - s)) in * by lia. rewrite Z.pow_add_r in * by lia.
    set (A := 2 ^ (e' - s)) in *. set (M := m * 2 ^ (e - e')) in *.
    replace (m * (2 ^ (e - e') * A) - m' * A) with ((M - m') * A) by (unfold M; ring).
    replace (m * (2 ^ (e - e') * A)) with (M * A) by (unfold M; ring).
    rewrite Z.abs_mul, (Z.abs_eq A), (Z.abs_eq (M - m')) by lia.
    rewrite Z.mul_assoc. apply Z.mul_le_mono_nonneg_r; [lia | nia].
Qed.

(** A number of the format that is nearer to [N / D * 2 ^ ex] than half
    its gap is the nearest, and the only one. *)
Lemma nearest_of_format_unique N D ex m e mx ex' : 0 < D ->
  0 <= m -> fexp (Zdigits2 m + e) = e -> nearest_of_format prec emax N D ex m e ->
  0 < mx -> fexp (Zdigits2 mx + ex') = ex' ->
  (forall s, s <= ex -> s <= ex' ->
     2 ^ (prec + 1) * Z.abs (mx * 2 ^ (ex' - s) * D - N * 2 ^ (ex - s)) < mx * 2 ^ (ex' - s) * D) ->
  m = mx /\ e = ex'.
Proof.
  intros HD Hm Hc Hn Hmx Hcx Hnear. set (s := Z.min ex (Z.min e ex')).
  specialize (Hn mx ex' ltac:(lia) Hcx s ltac:(lia) ltac:(lia) ltac:(lia)).
  specialize (Hnear s ltac:(lia) ltac:(lia)).
  set (A := mx * 2 ^ (ex' - s)) in *. set (R := m * 2 ^ (e - s)) in *.
  set (T := N * 2 ^ (ex - s)) in *.
  destruct (decide (A = R)) as [E|Hne].
  { destruct (canonical_unique mx ex' m e s) as [-> ->]; [lia | done.. | lia | lia | done | done]. }
  exfalso. pose proof (format_gap mx ex' m e s Hmx Hm Hcx Hc ltac:(lia) ltac:(lia) Hne) as Hg.
  fold A R in Hg. rewrite Z.pow_add_r, Z.pow_1_r in Hnear by lia.
  pose proof (pow2_pos prec ltac:(lia)) as HP.
  assert (0 < A) as HA by (apply Z.mul_pos_pos; [done | apply pow2_pos; lia]).
  clearbody A R T s. set (P := 2 ^ prec) in *. clearbody P.
  assert (Z.abs (A - R) * D <= 2 * Z.abs (A * D - T)) as Htri.
  { rewrite <- (Z.abs_eq D) at 1 by lia. rewrite <- Z.abs_mul.
    replace ((A - R) * D) with ((A * D - T) - (R * D - T)) by ring. lia. }
  assert (A * D <= P * (Z.abs (A - R) * D)) as Hgap.
  { rewrite Z.mul_assoc. apply Z.mul_le_mono_nonneg_r; lia. }
  assert (P * (Z.abs (A - R) * D) <= P * (2 * Z.abs (A * D - T)))
    by (apply Z.mul_le_mono_nonneg_l; lia).
  lia.
Qed.

End gap.

(** ** Decimals near a [double] *)

(** Scaling the two sides of [within_half_unit]. *)
Lemma within_half_unit_scale N E m e s : s <= 0 -> s <= e -> within_half_unit N E m e ->
  let u := Z.max 0 (- E) in
  2 * Z.abs (m * 2 ^ (e - s) * 10 ^ u - N * 10 ^ (E + u) * 2 ^ (0 - s)) <=
  10 ^ (E + u) * 2 ^ (0 - s).
Proof.
  intros Hs He Hw u. unfold within_half_unit in Hw. fold u in Hw.
  set (t := Z.max 0 (- e)) in *. pose proof (pow2_pos (- s - t) ltac:(lia)) as HK.
  replace (e - s) with (e + t + (- s - t)) by lia.
  replace (0 - s) with (t + (- s - t)) by lia.
  rewrite (Z.pow_add_r 2 (e + t)), (Z.pow_add_r 2 t) by lia.
  set (K := 2 ^ (- s - t)) in *. set (a := m * 2 ^ (e + t) * 10 ^ u) in *.
  set (U := 10 ^ (E + u) * 2 ^ t) in *. set (n := N * 10 ^ (E + u) * 2 ^ t) in *.
  replace (m * (2 ^ (e + t) * K) * 10 ^ u - N * 10 ^ (E + u) * (2 ^ t * K))
    with ((a - n) * K) by (unfold a, n; ring).
  replace (10 ^ (E + u) * (2 ^ t * K)) with (U * K) by (unfold U; ring).
  rewrite Z.abs_mul, (Z.abs_eq K), Z.mul_assoc by lia. apply Z.mul_le_mono_nonneg_r; lia.
Qed.

(** A decimal that is close to a [double] is converted to it. *)
Lemma strtod_round_close neg N E m e : 0 < N ->
  0 < m -> fexp prec emax (Zdigits2 m + e) = e -> e <= emax - prec ->
  close_decimal N E m e ->
  strtod_round neg N E = S754_finite neg (Z.to_pos m) e.
Proof.
  intros HN Hm Hc He Hw.
  destruct (strtod_round_rounds neg N E HN) as (m' & e' & Hm' & Hc' & _ & Hn & ->).
  destruct (nearest_of_format_unique prec emax ltac:(done) _ _ _ m' e' m e
              (Z.pow_pos_nonneg 10 (Z.max 0 (- E)) ltac:(lia) ltac:(lia)) Hm' Hc' Hn Hm Hc)
    as [-> ->].
  - intros s Hs Hse. by apply Hw.
  - unfold pack. destruct m; [lia | | lia]. by rewrite (proj2 (Z.leb_le _ _) He).
Qed.

(** A decimal with a mantissa above [2 ^ 53] that is within half a unit
    of its last digit from a number is close to it. *)
Lemma within_half_unit_close N E m e : 2 ^ prec < N -> 0 < m ->
  within_half_unit N E m e -> close_decimal N E m e.
Proof.
  intros HN Hm Hw s Hs Hse. change (2 ^ prec) with 9007199254740992 in HN.
  pose proof (within_half_unit_scale N E m e s Hs Hse Hw) as H. simpl in H.
  set (u := Z.max 0 (- E)) in *.
  assert (0 < 10 ^ (E + u) * 2 ^ (0 - s)) as HU
    by (apply Z.mul_pos_pos; [apply Z.pow_pos_nonneg; lia | apply pow2_pos; lia]).
  rewrite <- (Z.mul_assoc N) in *.
  set (U := 10 ^ (E + u) * 2 ^ (0 - s)) in *. set (a := m * 2 ^ (e - s) * 10 ^ u) in *.
  change (2 ^ (prec + 1)) with 18014398509481984.
  clearbody a U. nia.
Qed.

(** Zeros at the end of a decimal do not count: a number close to a
    decimal is close to it without them. *)
Lemma close_decimal_strip N E j m e : 0 <= j ->
  close_decimal (N * 10 ^ j) (E - j) m e -> close_decimal N E m e.
Proof.
  intros Hj Hw s Hs Hse. specialize (Hw s Hs Hse).
  set (u := Z.max 0 (- E)). set (u1 := Z.max 0 (- (E - j))) in *.
  assert (0 <= u1 - u) as Hd by lia.
  pose proof (Z.pow_pos_nonneg 10 (u1 - u) ltac:(lia) Hd) as HK.
  assert (10 ^ u1 = 10 ^ u * 10 ^ (u1 - u)) as E1
    by (rewrite <- Z.pow_add_r by lia; f_equal; lia).
  assert (10 ^ j * 10 ^ (E - j + u1) = 10 ^ (E + u) * 10 ^ (u1 - u)) as E2
    by (rewrite <- !Z.pow_add_r by lia; f_equal; lia).
  rewrite <- (Z.mul_assoc N), E2, E1 in Hw. set (K := 10 ^ (u1 - u)) in *.
  set (a := m * 2 ^ (e - s)) in *. set (b := 2 ^ (0 - s)) in *.
  replace (a * (10 ^ u * K) - N * (10 ^ (E + u) * K) * b)
    with ((a * 10 ^ u - N * 10 ^ (E + u) * b) * K) in Hw by ring.
  rewrite Z.abs_mul, (Z.abs_eq K), !Z.mul_assoc in Hw by lia.
  by apply Z.mul_lt_mono_pos_r in Hw.
Qed.

(** A decimal with a mantissa above [2 ^ 53] that is within half a unit
    of its last digit from a [double] is converted to that [double]. *)
Lemma strtod_round_nearby neg N E m e : 2 ^ prec < N ->
  0 < m -> fexp prec emax (Zdigits2 m + e) = e -> e <= emax - prec ->
  within_half_unit N E m e ->
  strtod_round neg N E = S754_finite neg (Z.to_pos m) e.
Proof.
  intros HN Hm Hc He Hw. apply strtod_round_close; try done.
  - change (2 ^ prec) with 9007199254740992 in HN. lia.
  - by apply within_half_unit_close.
Qed.

(** Seventeen significant digits are enough: [2 ^ 53 < 10 ^ 16]. *)
Lemma strtod_round_seventeen neg N E m e : 10 ^ 16 <= N ->
  0 < m -> fexp prec emax (Zdigits2 m + e) = e -> e <= emax - prec ->
  within_half_unit N E m e ->
  strtod_round neg N E = S754_finite neg (Z.to_pos m) e.
Proof. intros HN. apply strtod_round_nearby. unfold prec. lia. Qed.

(** The [double] nearest to one tenth, from its seventeen digits. *)
Example strtod_round_tenth :
  strtod_round false 10000000000000001 (-17) = S754_finite false 7205759403792794 (-56).
Proof. by apply (strtod_round_seventeen false _ _ 7205759403792794 (-56)); vm_compute. Qed.

(** Sixteen digits are not: [1 + 2 ^ -52] written with sixteen digits is
    [1.000000000000000], which is read as 1. *)
Example sixteen_digits_lose :
  within_half_unit 1000000000000000 (-15) 4503599627370497 (-52) /\
  strtod_round false 1000000000000000 (-15) <> S754_finite false 4503599627370497 (-52).
Proof. split; [by apply (bool_decide_unpack _); vm_compute|]. by vm_compute. Qed.
