(* ===== verification/Printf.v ===== *)
(** * Formatted output: [vsnprintf]

    [quitf] (testlib.h:170-171) expands its format with [vsnprintf] into a
    buffer of 1024 bytes.  This file models the expansion as the C standard
    describes it (C11 7.21.6.1) for the conversions a checker's message uses.

    A conversion specification is [%], flags ([-], [+], space, [#], [0]), a
    minimum field width, a precision, a length modifier and a conversion
    character; [scan_spec] reads one into a [fmt_spec].  A width or precision
    written [*] is supplied by an [int] argument.  [convert] expands one
    argument:
    - [d], [i]: a signed integer in decimal; [u], [o], [x], [X]: an unsigned
      integer in base 10, 8 or 16; with the length modifiers [hh], [h] (the
      promoted argument is converted back to the narrow type) and [l], [ll],
      [j], [z], [t], which all name a type of 64 bits;
    - [c]: one character; [s]: the characters of a C string, at most as many
      as the precision;
    - [f], [F]: a finite [double] in fixed notation, rounded to the nearest
      decimal of the given precision, ties to even, and an infinity as
      [inf];
    - [e], [E]: a finite [double] in exponent notation, one digit before
      the point and as many as the precision after it, rounded to the
      nearest such decimal, ties to even, with an exponent of two digits
      at least;
    - [g], [G]: a finite [double] with as many significant digits as the
      precision, in fixed or in exponent notation by its exponent, and
      without the zeros at the end of its fraction.

    The model answers [None] where the standard leaves the behaviour
    undefined (an invalid specification, [#] or [0] with a conversion that
    has no alternative form or no zero padding, a precision with [c], an
    argument missing or of another type) and for what it does not cover:
    [a], [p], [n], wide characters, [long double], NaN, and a
    [char] argument above 127, whose value as an [int] depends on the
    signedness of [char].

    The recursion of [format_fuel] is on a fuel of one unit per character
    of the format; [format_c] supplies the length of the format, which is
    enough ([format_fuel_enough]). *)

From Stdlib Require Import Floats.SpecFloat.
From S2P Require Import Prelude CType NumGet FloatRound.

Local Open Scope Z_scope.
Local Open Scope chk_scope.

(** ** Arguments *)

(** An argument passed through the ellipsis, after the default argument
    promotions: an [int], a pointer to a C string, a [char] (promoted to
    [int]), an [unsigned], a [long] or [long long], an [unsigned long] or
    [unsigned long long], a [double]. *)
Inductive fmt_arg : Type :=
| ArgInt (z : Z)
| ArgStr (s : string)
| ArgChar (c : ascii)
| ArgUInt (z : Z)
| ArgLong (z : Z)
| ArgULong (z : Z)
| ArgDouble (x : spec_float).

(** ** Conversion specifications *)

Record fmt_flags : Type := Flags {
  fl_left : bool;    (* [-]: left-justified *)
  fl_plus : bool;    (* [+]: a sign always *)
  fl_space : bool;   (* space: a space where a sign would be *)
  fl_alt : bool;     (* [#]: alternative form *)
  fl_zero : bool     (* [0]: padding with zeros *)
}.

Definition no_flags : fmt_flags := Flags false false false false false.

Definition set_left (fl : fmt_flags) : fmt_flags :=
  Flags true (fl_plus fl) (fl_space fl) (fl_alt fl) (fl_zero fl).

(** The flags with the one [c] names, when it names one. *)
Definition set_flag (c : ascii) (fl : fmt_flags) : option fmt_flags :=
  if bool_decide (c = "-"%char) then Some (set_left fl)
  else if bool_decide (c = "+"%char) then
    Some (Flags (fl_left fl) true (fl_space fl) (fl_alt fl) (fl_zero fl))
  else if bool_decide (c = " "%char) then
    Some (Flags (fl_left fl) (fl_plus fl) true (fl_alt fl) (fl_zero fl))
  else if bool_decide (c = "#"%char) then
    Some (Flags (fl_left fl) (fl_plus fl) (fl_space fl) true (fl_zero fl))
  else if bool_decide (c = "0"%char) then
    Some (Flags (fl_left fl) (fl_plus fl) (fl_space fl) (fl_alt fl) true)
  else None.

Fixpoint scan_flags (fl : fmt_flags) (fmt : list ascii) : fmt_flags * list ascii :=
  match fmt with
  | c :: r =>
      match set_flag c fl with
      | Some fl' => scan_flags fl' r
      | None => (fl, fmt)
      end
  | [] => (fl, [])
  end.

(** A field width or a precision: left out, written in digits, or [*]. *)
Inductive fmt_count : Type :=
| Omitted
| Number (n : Z)
| FromArg.

Definition scan_count (fmt : list ascii) : fmt_count * list ascii :=
  match fmt with
  | c :: r =>
      if bool_decide (c = "*"%char) then (FromArg, r)
      else if isdigit c then
        (Number (digits_val (take_while isdigit fmt)), drop_while isdigit fmt)
      else (Omitted, fmt)
  | [] => (Omitted, [])
  end.

(** A precision is a period and a count; the period alone is precision 0. *)
Definition scan_precision (fmt : list ascii) : fmt_count * list ascii :=
  match fmt with
  | c :: r =>
      if bool_decide (c = "."%char) then
        match scan_count r with
        | (Omitted, r') => (Number 0, r')
        | found => found
        end
      else (Omitted, fmt)
  | [] => (Omitted, [])
  end.

Inductive fmt_length : Type :=
| LenNone | LenHH | LenH | LenL | LenLL | LenJ | LenZ | LenT | LenBigL.

#[export] Instance fmt_length_eq_dec : EqDecision fmt_length.
Proof. solve_decision. Defined.

Definition scan_length (fmt : list ascii) : fmt_length * list ascii :=
  match fmt with
  | c :: r =>
      if bool_decide (c = "h"%char) then
        match r with
        | c' :: r' => if bool_decide (c' = "h"%char) then (LenHH, r') else (LenH, r)
        | [] => (LenH, r)
        end
      else if bool_decide (c = "l"%char) then
        match r with
        | c' :: r' => if bool_decide (c' = "l"%char) then (LenLL, r') else (LenL, r)
        | [] => (LenL, r)
        end
      else if bool_decide (c = "j"%char) then (LenJ, r)
      else if bool_decide (c = "z"%char) then (LenZ, r)
      else if bool_decide (c = "t"%char) then (LenT, r)
      else if bool_decide (c = "L"%char) then (LenBigL, r)
      else (LenNone, fmt)
  | [] => (LenNone, [])
  end.

Inductive fmt_conv : Type :=
| ConvSigned                              (* [d], [i] *)
| ConvUnsigned (base : Z) (upper : bool)  (* [u], [o], [x], [X] *)
| ConvChar                                (* [c] *)
| ConvString                              (* [s] *)
| ConvFixed (upper : bool)                (* [f], [F] *)
| ConvExp (upper : bool)                  (* [e], [E] *)
| ConvGen (upper : bool).                 (* [g], [G] *)

Definition conv_of (c : ascii) : option fmt_conv :=
  if bool_decide (c = "d"%char) || bool_decide (c = "i"%char) then Some ConvSigned
  else if bool_decide (c = "u"%char) then Some (ConvUnsigned 10 false)
  else if bool_decide (c = "o"%char) then Some (ConvUnsigned 8 false)
  else if bool_decide (c = "x"%char) then Some (ConvUnsigned 16 false)
  else if bool_decide (c = "X"%char) then Some (ConvUnsigned 16 true)
  else if bool_decide (c = "c"%char) then Some ConvChar
  else if bool_decide (c = "s"%char) then Some ConvString
  else if bool_decide (c = "f"%char) then Some (ConvFixed false)
  else if bool_decide (c = "F"%char) then Some (ConvFixed true)
  else if bool_decide (c = "e"%char) then Some (ConvExp false)
  else if bool_decide (c = "E"%char) then Some (ConvExp true)
  else if bool_decide (c = "g"%char) then Some (ConvGen false)
  else if bool_decide (c = "G"%char) then Some (ConvGen true)
  else None.

Record fmt_spec : Type := Spec {
  sp_flags : fmt_flags;
  sp_width : fmt_count;
  sp_prec : fmt_count;
  sp_length : fmt_length;
  sp_conv : fmt_conv
}.

(** The specification that follows a [%], and the format after it. *)
Definition scan_spec (fmt : list ascii) : option (fmt_spec * list ascii) :=
  let (fl, r1) := scan_flags no_flags fmt in
  let (wd, r2) := scan_count r1 in
  let (pr, r3) := scan_precision r2 in
  let (ln, r4) := scan_length r3 in
  match r4 with
  | c :: r5 => cv ← conv_of c; Some (Spec fl wd pr ln cv, r5)
  | [] => None
  end.

(** ** Digits *)

(** The digit [d] of a base up to 16. *)
Definition radix_char (upper : bool) (d : Z) : ascii :=
  if d <? 10 then digit_char d
  else ascii_of_N (Z.to_N ((if upper then 55 else 87) + d)).

(** The value of a digit of a base up to 16, in either case. *)
Definition radix_digit (c : ascii) : Z :=
  let n := Z.of_N (N_of_ascii c) in
  if n <? 58 then n - 48 else if n <? 97 then n - 55 else n - 87.

(** Digits of [n] in [base], least significant first, pushed on [acc]. *)
Fixpoint print_radix_fuel (base : Z) (upper : bool) (fuel : nat) (n : Z) (acc : list ascii) :
    list ascii :=
  match fuel with
  | O => acc
  | S f =>
      let acc' := radix_char upper (n mod base) :: acc in
      if n / base =? 0 then acc' else print_radix_fuel base upper f (n / base) acc'
  end.

Definition print_radix (base : Z) (upper : bool) (n : Z) : list ascii :=
  print_radix_fuel base upper (S (Z.to_nat (Z.log2 n))) n [].

(** The value of a run of digits of [base], most significant first. *)
Definition radix_val (base : Z) (ds : list ascii) : Z :=
  fold_left (fun a c => base * a + radix_digit c) ds 0.

(** ** Fields *)

Definition len (l : list ascii) : Z := Z.of_nat (length l).

Definition zeros (n : Z) : list ascii := replicate (Z.to_nat n) "0"%char.
Definition spaces (n : Z) : list ascii := replicate (Z.to_nat n) " "%char.

(** Padding with spaces to the field width, on the right when the field is
    left-justified. *)
Definition justify (left : bool) (width : Z) (body : list ascii) : list ascii :=
  if left then body ++ spaces (width - len body) else spaces (width - len body) ++ body.

(** The sign of a signed conversion. *)
Definition sign_of (fl : fmt_flags) (neg : bool) : list ascii :=
  if neg then ["-"%char]
  else if fl_plus fl then ["+"%char]
  else if fl_space fl then [" "%char]
  else [].

(** A numeric field: sign or base prefix, then digits.  The flag [0] pads
    with zeros between the two, unless the field is left-justified or (for
    integers, [zero_ok] false) a precision is given. *)
Definition field (fl : fmt_flags) (zero_ok : bool) (width : Z) (head digits : list ascii) :
    list ascii :=
  if fl_zero fl && zero_ok && negb (fl_left fl)
  then head ++ zeros (width - len (head ++ digits)) ++ digits
  else justify (fl_left fl) width (head ++ digits).

(** The digits of an integer: at least as many as the precision, 1 by
    default, and none for the value 0 with precision 0. *)
Definition int_digits (prec : option Z) (base : Z) (upper : bool) (n : Z) : list ascii :=
  if (n =? 0) && bool_decide (prec = Some 0) then []
  else let ds := print_radix base upper n in zeros (default 1 prec - len ds) ++ ds.

(** The alternative form of an octal number starts with a zero. *)
Definition alt_octal (ds : list ascii) : list ascii :=
  match ds with
  | c :: _ => if bool_decide (c = "0"%char) then ds else "0"%char :: ds
  | [] => ["0"%char]
  end.

Definition expand_signed (fl : fmt_flags) (width : Z) (prec : option Z) (v : Z) : list ascii :=
  field fl (bool_decide (prec = None)) width (sign_of fl (v <? 0))
    (int_digits prec 10 false (Z.abs v)).

Definition expand_unsigned (fl : fmt_flags) (width : Z) (prec : option Z)
    (base : Z) (upper : bool) (n : Z) : list ascii :=
  let ds := int_digits prec base upper n in
  let ds := if fl_alt fl && (base =? 8) then alt_octal ds else ds in
  let px := if fl_alt fl && (base =? 16) && negb (n =? 0)
            then ["0"%char; if upper then "X"%char else "x"%char] else [] in
  field fl (bool_decide (prec = None)) width px ds.

(** ** Fixed notation *)

(** The integer nearest to [n / d], the even one of two. *)
Definition round_div (n d : Z) : Z :=
  let q := n / d in
  let r := n mod d in
  if 2 * r <? d then q
  else if d <? 2 * r then q + 1
  else if Z.even q then q else q + 1.

(** [m * 2 ^ e * 10 ^ p], rounded to an integer. *)
Definition scaled (m e p : Z) : Z :=
  if 0 <=? e then m * 2 ^ e * 10 ^ p else round_div (m * 10 ^ p) (2 ^ (- e)).

(** The digits of [n / 10 ^ p]: those before the point, one at least,
    and the [p] digits after it. *)
Definition split_digits (p n : Z) : list ascii * list ascii :=
  let ds := print_radix 10 false n in
  let ds := zeros (p + 1 - len ds) ++ ds in
  let k := (length ds - Z.to_nat p)%nat in
  (take k ds, drop k ds).

(** The digits of [n / 10 ^ p] with [p] digits after the point; the point
    is written when a digit follows or in the alternative form. *)
Definition fixed_digits (alt : bool) (p n : Z) : list ascii :=
  let (ip, fp) := split_digits p n in
  ip ++ (if (0 <? p) || alt then ["."%char] else []) ++ fp.

Definition expand_fixed (fl : fmt_flags) (width : Z) (prec : option Z) (upper : bool)
    (x : spec_float) : option (list ascii) :=
  let p := default 6 prec in
  match x with
  | S754_zero s => Some (field fl true width (sign_of fl s) (fixed_digits (fl_alt fl) p 0))
  | S754_finite s m e =>
      Some (field fl true width (sign_of fl s)
              (fixed_digits (fl_alt fl) p (scaled (Z.pos m) e p)))
  | S754_infinity s =>
      Some (justify (fl_left fl) width (sign_of fl s ++ (if upper then $"INF" else $"inf")))
  | S754_nan => None
  end.

(** ** Exponent notation *)

(** The number of decimal digits of [n], for [0 < n]. *)
Fixpoint dec_digits_fuel (fuel : nat) (n : Z) : Z :=
  match fuel with
  | O => 0
  | S f => if n <? 10 then 1 else 1 + dec_digits_fuel f (n / 10)
  end.

Definition dec_digits (n : Z) : Z := dec_digits_fuel (S (Z.to_nat (Z.log2 n))) n.

(** A number of binary64 is a decimal: [m * 2 ^ e] is [D * 10 ^ (- k)]
    for the integer [D] and the number [k] of digits after the point that
    [exact_decimal] gives. *)
Definition exact_decimal (m e : Z) : Z * Z :=
  if 0 <=? e then (m * 2 ^ e, 0) else (m * 5 ^ (- e), - e).

(** [D * 10 ^ (- k)] rounded to [p + 1] significant digits: the digits as
    an integer and the decimal exponent of the first of them.  A decimal
    of fewer digits is written in full; rounding can carry into one more
    digit, which raises the exponent. *)
Definition exp_decimal (p D k : Z) : Z * Z :=
  let n := dec_digits D in
  if n <=? p + 1 then (D * 10 ^ (p + 1 - n), n - 1 - k)
  else
    let q := round_div D (10 ^ (n - (p + 1))) in
    if q =? 10 ^ (p + 1) then (10 ^ p, n - k) else (q, n - 1 - k).

(** The exponent: the mark, a sign, and two digits at least. *)
Definition exp_part (upper : bool) (X : Z) : list ascii :=
  let ds := print_radix 10 false (Z.abs X) in
  (if upper then "E"%char else "e"%char) :: (if X <? 0 then "-"%char else "+"%char)
    :: zeros (2 - len ds) ++ ds.

Definition expand_exp (fl : fmt_flags) (width : Z) (prec : option Z) (upper : bool)
    (x : spec_float) : option (list ascii) :=
  let p := default 6 prec in
  match x with
  | S754_zero s =>
      Some (field fl true width (sign_of fl s) (fixed_digits (fl_alt fl) p 0 ++ exp_part upper 0))
  | S754_finite s m e =>
      let (D, k) := exact_decimal (Z.pos m) e in
      let (q, X) := exp_decimal p D k in
      Some (field fl true width (sign_of fl s) (fixed_digits (fl_alt fl) p q ++ exp_part upper X))
  | S754_infinity s =>
      Some (justify (fl_left fl) width (sign_of fl s ++ (if upper then $"INF" else $"inf")))
  | S754_nan => None
  end.

(** ** General notation *)

(** The digits of a fraction without the zeros at its end. *)
Definition strip_zeros (fp : list ascii) : list ascii :=
  reverse (drop_while (fun c => bool_decide (c = "0"%char)) (reverse fp)).

(** The digits of [n / 10 ^ p] as [%g] writes them: all of them and the
    point in the alternative form, and otherwise without the zeros at the
    end of the fraction, and without the point when no digit follows. *)
Definition gen_digits (alt : bool) (p n : Z) : list ascii :=
  let (ip, fp) := split_digits p n in
  let fp := if alt then fp else strip_zeros fp in
  ip ++ (if alt || negb (is_nil fp) then ["."%char] else []) ++ fp.

(** [%g] with precision [P] (1 at least, 6 by default) writes [P]
    significant digits: in fixed notation when the exponent [X] that
    [%e] would write is at least -4 and below [P], and in exponent
    notation otherwise. *)
Definition expand_gen (fl : fmt_flags) (width : Z) (prec : option Z) (upper : bool)
    (x : spec_float) : option (list ascii) :=
  let P := Z.max 1 (default 6 prec) in
  match x with
  | S754_zero s => Some (field fl true width (sign_of fl s) (gen_digits (fl_alt fl) (P - 1) 0))
  | S754_finite s m e =>
      let (D, k) := exact_decimal (Z.pos m) e in
      let (q, X) := exp_decimal (P - 1) D k in
      Some (field fl true width (sign_of fl s)
              (if (-4 <=? X) && (X <? P)
               then gen_digits (fl_alt fl) (P - 1 - X) (scaled (Z.pos m) e (P - 1 - X))
               else gen_digits (fl_alt fl) (P - 1) q ++ exp_part upper X))
  | S754_infinity s =>
      Some (justify (fl_left fl) width (sign_of fl s ++ (if upper then $"INF" else $"inf")))
  | S754_nan => None
  end.

(** ** Fetching arguments *)

Definition wrap_signed (bits z : Z) : Z :=
  (z + 2 ^ (bits - 1)) mod 2 ^ bits - 2 ^ (bits - 1).

Definition wrap_unsigned (bits z : Z) : Z := z mod 2 ^ bits.

(** The value of an argument read as an [int]: an [int], a [char] whose
    value does not depend on its signedness, or an [unsigned] whose value
    an [int] can hold. *)
Definition arg_int (a : fmt_arg) : option Z :=
  match a with
  | ArgInt z => Some z
  | ArgChar c => let n := Z.of_N (N_of_ascii c) in if n <? 128 then Some n else None
  | ArgUInt z => if z <=? INT_MAX then Some z else None
  | _ => None
  end.

Definition arg_uint (a : fmt_arg) : option Z :=
  match a with
  | ArgUInt z => Some z
  | ArgInt z => if 0 <=? z then Some z else None
  | ArgChar c => let n := Z.of_N (N_of_ascii c) in if n <? 128 then Some n else None
  | _ => None
  end.

Definition arg_long (a : fmt_arg) : option Z :=
  match a with
  | ArgLong z => Some z
  | ArgULong z => if z <=? LONG_MAX then Some z else None
  | _ => None
  end.

Definition arg_ulong (a : fmt_arg) : option Z :=
  match a with
  | ArgULong z => Some z
  | ArgLong z => if 0 <=? z then Some z else None
  | _ => None
  end.

(** The integer a conversion with length modifier [ln] prints. *)
Definition int_arg (signed : bool) (ln : fmt_length) (a : fmt_arg) : option Z :=
  match ln with
  | LenNone => if signed then arg_int a else arg_uint a
  | LenHH => (if signed then wrap_signed 8 else wrap_unsigned 8) <$> arg_int a
  | LenH => (if signed then wrap_signed 16 else wrap_unsigned 16) <$> arg_int a
  | LenL | LenLL | LenJ | LenZ | LenT => if signed then arg_long a else arg_ulong a
  | LenBigL => None
  end.

(** [%c]: the [int] argument converted to [unsigned char]. *)
Definition char_arg (a : fmt_arg) : option ascii :=
  match a with
  | ArgChar c => Some c
  | ArgInt z => Some (ascii_of_N (Z.to_N (z mod 256)))
  | _ => None
  end.

(** [%s]: the characters before the terminating NUL. *)
Definition str_arg (a : fmt_arg) : option (list ascii) :=
  match a with
  | ArgStr s => Some (list_ascii_of_string (c_str s))
  | _ => None
  end.

Definition double_arg (a : fmt_arg) : option spec_float :=
  match a with
  | ArgDouble x => Some x
  | _ => None
  end.

(** The count of a width or precision, fetching the argument of a [*]. *)
Definition take_count (c : fmt_count) (args : list fmt_arg) : option (option Z * list fmt_arg) :=
  match c with
  | Omitted => Some (None, args)
  | Number n => Some (Some n, args)
  | FromArg =>
      match args with
      | a :: args' => n ← arg_int a; Some (Some n, args')
      | [] => None
      end
  end.

(** ** Expansion *)

(** One argument under a specification whose width and precision are
    known. *)
Definition convert (fl : fmt_flags) (width : Z) (prec : option Z) (ln : fmt_length)
    (cv : fmt_conv) (a : fmt_arg) : option (list ascii) :=
  match cv with
  | ConvSigned =>
      if fl_alt fl then None else expand_signed fl width prec <$> int_arg true ln a
  | ConvUnsigned base upper =>
      if fl_alt fl && (base =? 10) then None
      else expand_unsigned fl width prec base upper <$> int_arg false ln a
  | ConvChar =>
      if fl_alt fl || fl_zero fl || bool_decide (prec <> None) || bool_decide (ln <> LenNone)
      then None
      else (fun c => justify (fl_left fl) width [c]) <$> char_arg a
  | ConvString =>
      if fl_alt fl || fl_zero fl || bool_decide (ln <> LenNone) then None
      else (fun s => justify (fl_left fl) width
                       match prec with Some p => take (Z.to_nat p) s | None => s end)
           <$> str_arg a
  | ConvFixed upper =>
      if bool_decide (ln = LenNone) || bool_decide (ln = LenL)
      then double_arg a ≫= expand_fixed fl width prec upper
      else None
  | ConvExp upper =>
      if bool_decide (ln = LenNone) || bool_decide (ln = LenL)
      then double_arg a ≫= expand_exp fl width prec upper
      else None
  | ConvGen upper =>
      if bool_decide (ln = LenNone) || bool_decide (ln = LenL)
      then double_arg a ≫= expand_gen fl width prec upper
      else None
  end.

(** One specification: the arguments of [*] come first, a negative width
    is the flag [-] and a width, a negative precision is no precision. *)
Definition expand (sp : fmt_spec) (args : list fmt_arg) : option (list ascii * list fmt_arg) :=
  '(w, args1) ← take_count (sp_width sp) args;
  '(p, args2) ← take_count (sp_prec sp) args1;
  let fl := if bool_decide (default 0 w < 0) then set_left (sp_flags sp) else sp_flags sp in
  let prec := p ≫= fun n => if n <? 0 then None else Some n in
  match args2 with
  | a :: args3 =>
      out ← convert fl (Z.abs (default 0 w)) prec (sp_length sp) (sp_conv sp) a;
      Some (out, args3)
  | [] => None
  end.

(** The expansion of a format, without the size limit. *)
Fixpoint format_fuel (fuel : nat) (fmt : list ascii) (args : list fmt_arg) :
    option (list ascii) :=
  match fmt, fuel with
  | [], _ => Some []
  | _ :: _, O => None
  | c :: fmt', S f =>
      if bool_decide (c = "%"%char) then
        match fmt' with
        | [] => None
        | d :: r =>
            if bool_decide (d = "%"%char) then cons "%"%char <$> format_fuel f r args
            else
              '(sp, r') ← scan_spec fmt';
              '(out, args') ← expand sp args;
              app out <$> format_fuel f r' args'
        end
      else cons c <$> format_fuel f fmt' args
  end.

Arguments format_fuel : simpl never.

Definition format_c (fmt : list ascii) (args : list fmt_arg) : option (list ascii) :=
  format_fuel (length fmt) fmt args.

(** [vsnprintf(buffer, size, format, ap)]: the format is a C string; the
    buffer receives at most [size - 1] characters of the expansion and a
    NUL.  The result is the C string the buffer then holds, which is what
    [std::cout << buffer] prints: a [%c] with argument 0 ends it early. *)
Definition vsnprintf (size : nat) (format : string) (args : list fmt_arg) : option string :=
  (fun out => c_str (string_of_list_ascii (take (size - 1) out))) <$>
  format_c (list_ascii_of_string (c_str format)) args.

(** Text to be copied: a format with no directive, and no NUL that would
    end it early. *)
Definition plain (fmt : list ascii) : Prop := ("%"%char ∉ fmt) /\ (NUL ∉ fmt).

#[export] Instance plain_dec fmt : Decision (plain fmt).
Proof. unfold plain. apply _. Defined.

(** The bare directive [%d], [%s], ...: no flag, width, precision or
    length modifier. *)
Definition bare (cv : fmt_conv) : fmt_spec := Spec no_flags Omitted Omitted LenNone cv.

(** ** The scanners consume what they read *)

Lemma scan_flags_length fmt : forall fl, (length (scan_flags fl fmt).2 <= length fmt)%nat.
Proof.
  induction fmt as [|c r IH]; intros fl; simpl; [done|].
  destruct (set_flag c fl); simpl; [|done]. specialize (IH f). lia.
Qed.

Lemma scan_count_length fmt : (length (scan_count fmt).2 <= length fmt)%nat.
Proof.
  destruct fmt as [|c r]; [done|]. unfold scan_count.
  pose proof (drop_while_length isdigit (c :: r)).
  case_bool_decide; [simpl; lia|]. by destruct (isdigit c).
Qed.

Lemma scan_precision_length fmt : (length (scan_precision fmt).2 <= length fmt)%nat.
Proof.
  destruct fmt as [|c r]; [done|]. unfold scan_precision.
  case_bool_decide; [|done]. pose proof (scan_count_length r).
  destruct (scan_count r) as [[] r']; simpl in *; lia.
Qed.

Lemma scan_length_length fmt : (length (scan_length fmt).2 <= length fmt)%nat.
Proof.
  destruct fmt as [|c [|c' r]]; simpl; [done|..]; repeat case_bool_decide; simpl; lia.
Qed.

(** A specification has at least its conversion character. *)
Lemma scan_spec_length fmt sp r : scan_spec fmt = Some (sp, r) -> (length r < length fmt)%nat.
Proof.
  unfold scan_spec.
  pose proof (scan_flags_length fmt no_flags). destruct (scan_flags no_flags fmt) as [fl r1].
  pose proof (scan_count_length r1). destruct (scan_count r1) as [wd r2].
  pose proof (scan_precision_length r2). destruct (scan_precision r2) as [pr r3].
  pose proof (scan_length_length r3). destruct (scan_length r3) as [ln [|c r5]]; [done|].
  destruct (conv_of c); [|done]. intros [= <- <-]. simpl in *. lia.
Qed.

(** ** Fuel *)

Lemma format_fuel_nil fuel args : format_fuel fuel [] args = Some [].
Proof. by destruct fuel. Qed.

Lemma format_fuel_S f c fmt args :
  format_fuel (S f) (c :: fmt) args =
  if bool_decide (c = "%"%char) then
    match fmt with
    | [] => None
    | d :: r =>
        if bool_decide (d = "%"%char) then cons "%"%char <$> format_fuel f r args
        else
          '(sp, r') ← scan_spec fmt;
          '(out, args') ← expand sp args;
          app out <$> format_fuel f r' args'
    end
  else cons c <$> format_fuel f fmt args.
Proof. reflexivity. Qed.

Lemma format_fuel_more fuel : forall fmt args extra, (length fmt <= fuel)%nat ->
  format_fuel (fuel + extra) fmt args = format_fuel fuel fmt args.
Proof.
  induction fuel as [|f IH]; intros [|c fmt] args extra Hl; simpl in Hl;
    rewrite ?format_fuel_nil; try done; try lia.
  rewrite Nat.add_succ_l, !format_fuel_S.
  case_bool_decide; [|by rewrite IH by lia].
  destruct fmt as [|d r]; [done|]. simpl in Hl. case_bool_decide; [by rewrite IH by lia|].
  destruct (scan_spec (d :: r)) as [[sp r']|] eqn:E; [|done]. simpl.
  apply scan_spec_length in E. simpl in E.
  destruct (expand sp args) as [[out args']|]; [|done]. simpl.
  by rewrite IH by lia.
Qed.

Lemma format_fuel_length fuel fmt args : (length fmt <= fuel)%nat ->
  format_fuel fuel fmt args = format_c fmt args.
Proof.
  intros Hl. unfold format_c.
  replace fuel with (length fmt + (fuel - length fmt))%nat by lia.
  by apply format_fuel_more.
Qed.

(** ** The equations of [format_c] *)

Lemma format_c_nil args : format_c [] args = Some [].
Proof. reflexivity. Qed.

Lemma format_c_cons c fmt args :
  format_c (c :: fmt) args =
  if bool_decide (c = "%"%char) then
    match fmt with
    | [] => None
    | d :: r =>
        if bool_decide (d = "%"%char) then cons "%"%char <$> format_fuel (length fmt) r args
        else
          '(sp, r') ← scan_spec fmt;
          '(out, args') ← expand sp args;
          app out <$> format_fuel (length fmt) r' args'
    end
  else cons c <$> format_c fmt args.
Proof. reflexivity. Qed.

Lemma format_c_text c fmt args : c <> "%"%char ->
  format_c (c :: fmt) args = cons c <$> format_c fmt args.
Proof. intros Hc. by rewrite format_c_cons, bool_decide_false. Qed.

Lemma format_c_percent fmt args :
  format_c ("%"%char :: "%"%char :: fmt) args = cons "%"%char <$> format_c fmt args.
Proof.
  rewrite format_c_cons. cbv beta iota. rewrite !bool_decide_true by done.
  by rewrite format_fuel_length by (simpl; lia).
Qed.

(** A directive: its specification is scanned, expanded on the arguments,
    and the rest of the format continues with the arguments left. *)
Lemma format_c_spec fmt args sp r :
  scan_spec fmt = Some (sp, r) ->
  format_c ("%"%char :: fmt) args =
    '(out, args') ← expand sp args; app out <$> format_c r args'.
Proof.
  intros E. rewrite format_c_cons, bool_decide_true by done.
  destruct fmt as [|d fmt]; [done|]. case_bool_decide as Hd.
  { subst d. by vm_compute in E. }
  rewrite E. simpl. destruct (expand sp args) as [[out args']|]; [|done]. simpl.
  apply scan_spec_length in E. by rewrite format_fuel_length by (simpl in *; lia).
Qed.

Lemma plain_cons c fmt : plain (c :: fmt) <-> c <> "%"%char /\ c <> NUL /\ plain fmt.
Proof.
  unfold plain. rewrite !not_elem_of_cons.
  split; [intros [[] []] | intros (? & ? & [])]; split_and!; done.
Qed.

Lemma format_c_plain fmt args : plain fmt -> format_c fmt args = Some fmt.
Proof.
  induction fmt as [|c fmt IH]; [done|]. intros (Hc & _ & H)%plain_cons.
  by rewrite format_c_text, (IH H).
Qed.

(** Text before the first directive is copied. *)
Lemma format_c_app pre fmt args : plain pre ->
  format_c (pre ++ fmt) args = app pre <$> format_c fmt args.
Proof.
  induction pre as [|c pre IH]; intros H; simpl.
  - by destruct (format_c fmt args).
  - apply plain_cons in H as (Hc & _ & H).
    rewrite format_c_text, (IH H) by done. by destruct (format_c fmt args).
Qed.

(** ** Padding *)

Lemma len_app a b : len (a ++ b) = len a + len b.
Proof. unfold len. rewrite length_app. lia. Qed.

Lemma len_nonneg l : 0 <= len l.
Proof. unfold len. lia. Qed.

Lemma len_zeros n : len (zeros n) = Z.max 0 n.
Proof. unfold len, zeros. rewrite length_replicate. lia. Qed.

Lemma len_spaces n : len (spaces n) = Z.max 0 n.
Proof. unfold len, spaces. rewrite length_replicate. lia. Qed.

Lemma zeros_nonpos n : n <= 0 -> zeros n = [].
Proof. intros H. unfold zeros. by replace (Z.to_nat n) with 0%nat by lia. Qed.

Lemma spaces_nonpos n : n <= 0 -> spaces n = [].
Proof. intros H. unfold spaces. by replace (Z.to_nat n) with 0%nat by lia. Qed.

Lemma all_sat_replicate (p : ascii -> bool) n c : p c = true -> all_sat p (replicate n c).
Proof. intros H. unfold all_sat. apply Forall_replicate, H. Qed.

Lemma zeros_digits n : all_sat isdigit (zeros n).
Proof. by apply all_sat_replicate. Qed.

Lemma spaces_blank n : all_sat isspace (spaces n).
Proof. by apply all_sat_replicate. Qed.

(** A field is as wide as asked, and wider only when its content is. *)
Lemma justify_length left width body :
  len (justify left width body) = Z.max width (len body).
Proof.
  pose proof (len_nonneg body).
  unfold justify. destruct left; rewrite len_app, len_spaces; lia.
Qed.

Lemma field_length fl zero_ok width head digits :
  len (field fl zero_ok width head digits) = Z.max width (len (head ++ digits)).
Proof.
  pose proof (len_nonneg head). pose proof (len_nonneg digits).
  unfold field. case_test; [|apply justify_length].
  rewrite !len_app, len_zeros, ?len_app. lia.
Qed.

(** The three layouts of a numeric field. *)
Lemma field_layout fl zero_ok width head digits :
  exists l z r, field fl zero_ok width head digits =
    spaces l ++ head ++ zeros z ++ digits ++ spaces r.
Proof.
  unfold field, justify. case_test; [|destruct (fl_left fl)].
  - exists 0, (width - len (head ++ digits)), 0. by rewrite app_nil_r.
  - exists 0, 0, (width - len (head ++ digits)). by rewrite <- app_assoc.
  - exists (width - len (head ++ digits)), 0, 0. by rewrite !app_nil_r.
Qed.

(** With no flag and no width a field is its content. *)
Lemma field_bare zero_ok head digits :
  field no_flags zero_ok 0 head digits = head ++ digits.
Proof.
  unfold field, justify. simpl. rewrite spaces_nonpos; [done|].
  pose proof (len_nonneg (head ++ digits)). lia.
Qed.

Lemma justify_bare body : justify false 0 body = body.
Proof. unfold justify. rewrite spaces_nonpos; [done|]. pose proof (len_nonneg body). lia. Qed.

(** ** Digits *)

Lemma radix_char_decimal upper d : d < 10 -> radix_char upper d = digit_char d.
Proof. intros H. unfold radix_char. by rewrite (proj2 (Z.ltb_lt d 10)). Qed.

Lemma print_radix_fuel_decimal upper fuel : forall n acc,
  print_radix_fuel 10 upper fuel n acc = print_nat_fuel fuel n acc.
Proof.
  induction fuel as [|f IH]; intros n acc; [done|]. simpl.
  rewrite radix_char_decimal by (apply Z.mod_pos_bound; lia). by rewrite IH.
Qed.

(** In base 10 the digits are those of [operator<<]. *)
Lemma print_radix_decimal upper n : print_radix 10 upper n = print_nat n.
Proof. apply print_radix_fuel_decimal. Qed.

Lemma radix_digit_char upper d : 0 <= d < 16 -> radix_digit (radix_char upper d) = d.
Proof.
  intros H.
  assert (d ∈ [0; 1; 2; 3; 4; 5; 6; 7; 8; 9; 10; 11; 12; 13; 14; 15]) as Hd.
  { rewrite !elem_of_cons. lia. }
  destruct upper; repeat (apply elem_of_cons in Hd as [->|Hd]; [done|]); by apply elem_of_nil in Hd.
Qed.

Lemma radix_val_snoc base ds c :
  radix_val base (ds ++ [c]) = base * radix_val base ds + radix_digit c.
Proof. unfold radix_val. by rewrite fold_left_app. Qed.

Lemma print_radix_fuel_S base upper f n acc :
  print_radix_fuel base upper (S f) n acc =
  if n / base =? 0 then radix_char upper (n mod base) :: acc
  else print_radix_fuel base upper f (n / base) (radix_char upper (n mod base) :: acc).
Proof. reflexivity. Qed.

(** One digit per unit of fuel: the fuel of [print_radix] is never
    exhausted, and the digits printed have the value [n]. *)
Lemma print_radix_fuel_spec base upper : 2 <= base <= 16 ->
  forall fuel n acc, 0 <= n < 2 ^ Z.of_nat (S fuel) ->
  exists ds, print_radix_fuel base upper (S fuel) n acc = ds ++ acc /\ ds <> [] /\
             radix_val base ds = n.
Proof.
  intros Hb. induction fuel as [|f IH]; intros n acc Hn;
    assert (0 <= n mod base < base) as Hm by (apply Z.mod_pos_bound; lia);
    rewrite print_radix_fuel_S; destruct (n / base =? 0) eqn:E.
  1,3: exists [radix_char upper (n mod base)]; apply Z.eqb_eq in E;
    repeat split; [done|]; unfold radix_val; simpl; rewrite radix_digit_char by lia;
    rewrite (Z.div_mod n base) at 2 by lia; lia.
  - apply Z.eqb_neq in E. exfalso. apply E, Z.div_small. simpl in Hn. lia.
  - apply Z.eqb_neq in E.
    destruct (IH (n / base) (radix_char upper (n mod base) :: acc)) as (ds & -> & Hne & Hv).
    { rewrite (Nat2Z.inj_succ (S f)), Z.pow_succ_r in Hn by lia.
      split; [apply Z.div_pos; lia|]. apply Z.div_lt_upper_bound; nia. }
    exists (ds ++ [radix_char upper (n mod base)]). repeat split.
    + by rewrite <- app_assoc.
    + by destruct ds.
    + rewrite radix_val_snoc, Hv, radix_digit_char by lia.
      rewrite (Z.div_mod n base) at 3 by lia. lia.
Qed.

Lemma print_radix_spec base upper n : 2 <= base <= 16 -> 0 <= n ->
  print_radix base upper n <> [] /\ radix_val base (print_radix base upper n) = n.
Proof.
  intros Hb Hn. unfold print_radix.
  destruct (print_radix_fuel_spec base upper Hb (Z.to_nat (Z.log2 n)) n []) as (ds & -> & ? & ?).
  - split; [done|]. rewrite Nat2Z.inj_succ, Z2Nat.id by apply Z.log2_nonneg.
    destruct (decide (n = 0)) as [->|]; [done|]. apply Z.log2_spec. lia.
  - by rewrite app_nil_r.
Qed.

Lemma digits_acc_zeros n a : digits_acc a (zeros n) = a * 10 ^ Z.max 0 n.
Proof.
  unfold zeros, digits_acc.
  replace (Z.max 0 n) with (Z.of_nat (Z.to_nat n)) by lia.
  generalize (Z.to_nat n). intros k. revert a.
  induction k as [|k IH]; intros a; simpl replicate; simpl fold_left; [simpl; lia|].
  rewrite IH, Nat2Z.inj_succ, Z.pow_succ_r by lia. change (digit_val "0") with 0. lia.
Qed.

(** Leading zeros do not change the value. *)
Lemma digits_val_zeros n ds : digits_val (zeros n ++ ds) = digits_val ds.
Proof. unfold digits_val. by rewrite digits_acc_app, digits_acc_zeros. Qed.

(** The digits of an integer conversion, unless there are none. *)
Lemma int_digits_decimal prec n : 0 <= n -> ~ (n = 0 /\ prec = Some 0) ->
  let ds := int_digits prec 10 false n in
  ds <> [] /\ all_sat isdigit ds /\ digits_val ds = n.
Proof.
  intros Hn Hz. unfold int_digits.
  destruct ((n =? 0) && bool_decide (prec = Some 0)) eqn:E.
  { apply andb_true_iff in E as [E1%Z.eqb_eq E2%bool_decide_eq_true]. tauto. }
  rewrite print_radix_decimal. destruct (print_nat_spec n Hn) as (Hne & Hd & Hv).
  cbv zeta. rewrite digits_val_zeros. split_and!; [|by apply Forall_app; split; [apply zeros_digits|] | done].
  intros [_ ?]%app_eq_nil. done.
Qed.

Lemma int_digits_bare n : 0 <= n -> int_digits None 10 false n = print_nat n.
Proof.
  intros Hn. unfold int_digits. rewrite andb_false_r, print_radix_decimal. simpl.
  rewrite zeros_nonpos; [done|]. pose proof (print_nat_nonempty n Hn).
  unfold len. destruct (print_nat n); [done|]. simpl. lia.
Qed.

Lemma print_int_no_nul z : NUL ∉ print_int z.
Proof.
  assert (forall n, 0 <= n -> NUL ∉ print_nat n) as Hn.
  { intros n Hn H. pose proof (print_nat_digits n Hn) as Hd.
    unfold all_sat in Hd. rewrite list.Forall_forall in Hd. by apply Hd in H. }
  unfold print_int. destruct (z <? 0) eqn:E; [apply Z.ltb_lt in E | apply Z.ltb_ge in E].
  - apply not_elem_of_cons. split; [done | apply Hn; lia].
  - by apply Hn.
Qed.

(** ** Bare directives *)

Lemma expand_signed_bare z : expand_signed no_flags 0 None z = print_int z.
Proof.
  unfold expand_signed, print_int. rewrite field_bare, int_digits_bare by lia.
  unfold sign_of. simpl. destruct (z <? 0) eqn:E; [|apply Z.ltb_ge in E]; simpl.
  - apply Z.ltb_lt in E. by rewrite Z.abs_neq by lia.
  - by rewrite Z.abs_eq.
Qed.

Lemma conv_of_cases c cv : conv_of c = Some cv -> c ∈ $"diuoxXcsfFeEgG".
Proof.
  intros H. destruct (decide (c ∈ $"diuoxXcsfFeEgG")) as [|Hn]; [done|]. exfalso.
  simpl in Hn. rewrite !not_elem_of_cons in Hn. unfold conv_of in H.
  by rewrite !bool_decide_false in H by tauto.
Qed.

Lemma scan_spec_bare c cv r : conv_of c = Some cv -> scan_spec (c :: r) = Some (bare cv, r).
Proof.
  intros Hc. pose proof (conv_of_cases c cv Hc) as Hin. simpl in Hin.
  repeat (apply elem_of_cons in Hin as [->|Hin];
          [vm_compute in Hc; by injection Hc as <-|]).
  by apply elem_of_nil in Hin.
Qed.

Lemma expand_bare cv a args :
  expand (bare cv) (a :: args) = out ← convert no_flags 0 None LenNone cv a; Some (out, args).
Proof. reflexivity. Qed.

(** The directive [%d] prints an [int] as [operator<<] does. *)
Lemma format_c_d r z args :
  format_c ("%"%char :: "d"%char :: r) (ArgInt z :: args) = app (print_int z) <$> format_c r args.
Proof.
  rewrite (format_c_spec _ _ (bare ConvSigned) r) by by apply scan_spec_bare.
  rewrite expand_bare. simpl. by rewrite expand_signed_bare.
Qed.

(** The directive [%s] copies a C string. *)
Lemma format_c_s r s args :
  format_c ("%"%char :: "s"%char :: r) (ArgStr s :: args) =
  app (list_ascii_of_string (c_str s)) <$> format_c r args.
Proof.
  rewrite (format_c_spec _ _ (bare ConvString) r) by by apply scan_spec_bare.
  rewrite expand_bare. simpl. by rewrite ?spaces_nonpos by (unfold len; lia).
Qed.

(** The directive [%c] writes a character. *)
Lemma format_c_c r c args :
  format_c ("%"%char :: "c"%char :: r) (ArgChar c :: args) = cons c <$> format_c r args.
Proof.
  rewrite (format_c_spec _ _ (bare ConvChar) r) by by apply scan_spec_bare.
  rewrite expand_bare. simpl. by rewrite ?spaces_nonpos by (unfold len; lia).
Qed.

(** ** Signed fields as input *)

Lemma sign_of_cases fl neg :
  sign_of fl neg = [" "%char] /\ neg = false \/
  sign_of fl neg = [] /\ neg = false \/
  sign_of fl neg = ["+"%char] /\ neg = false \/
  sign_of fl neg = ["-"%char] /\ neg = true.
Proof. unfold sign_of. destruct neg, (fl_plus fl), (fl_space fl); auto. Qed.

(** Digits, or a sign and digits, are an integer token. *)
Lemma int_token_digits ds : ds <> [] -> all_sat isdigit ds ->
  int_token ds /\ signed_val ds = digits_val ds.
Proof.
  intros Hne Hd. destruct ds as [|d ds]; [done|].
  unfold int_token, signed_val. by rewrite field_sign_digit by by inversion Hd.
Qed.

Lemma int_token_plus ds : ds <> [] -> all_sat isdigit ds ->
  int_token ("+"%char :: ds) /\ signed_val ("+"%char :: ds) = digits_val ds.
Proof. done. Qed.

Lemma int_token_minus ds : ds <> [] -> all_sat isdigit ds ->
  int_token ("-"%char :: ds) /\ signed_val ("-"%char :: ds) = - digits_val ds.
Proof. done. Qed.

(** What [%d] writes, under any flags, width and precision, is blanks, an
    integer token of the value printed, and blanks; only the value 0 under
    precision 0 is written with no digit at all. *)
Lemma expand_signed_token fl width prec v : ~ (v = 0 /\ prec = Some 0) ->
  exists sp t k, expand_signed fl width prec v = sp ++ t ++ spaces k /\
    all_sat isspace sp /\ int_token t /\ signed_val t = v.
Proof.
  intros Hz. unfold expand_signed.
  destruct (field_layout fl (bool_decide (prec = None)) width (sign_of fl (v <? 0))
              (int_digits prec 10 false (Z.abs v))) as (l & z & r & ->).
  destruct (int_digits_decimal prec (Z.abs v)) as (Hne & Hd & Hv);
    [lia | intros [? ?]; apply Hz; split; [lia | done] |].
  set (ds := zeros z ++ int_digits prec 10 false (Z.abs v)).
  assert (ds <> [] /\ all_sat isdigit ds /\ digits_val ds = Z.abs v) as (Hne' & Hd' & Hv').
  { unfold ds. rewrite digits_val_zeros.
    split_and!; [|apply Forall_app; split; [apply zeros_digits | done] | done].
    by intros [_ ?]%app_eq_nil. }
  replace (zeros z ++ int_digits prec 10 false (Z.abs v) ++ spaces r) with (ds ++ spaces r)
    by (unfold ds; by rewrite <- app_assoc).
  destruct (sign_of_cases fl (v <? 0)) as [[-> E]|[[-> E]|[[-> E]|[-> E]]]];
    [apply Z.ltb_ge in E.. | apply Z.ltb_lt in E].
  - exists (spaces l ++ [" "%char]), ds, r. rewrite <- !app_assoc. split; [done|].
    split; [apply Forall_app; split; [apply spaces_blank | by repeat constructor]|].
    destruct (int_token_digits ds) as [? ->]; [done..|]. split; [done | lia].
  - exists (spaces l), ds, r. split; [done|]. split; [apply spaces_blank|].
    destruct (int_token_digits ds) as [? ->]; [done..|]. split; [done | lia].
  - exists (spaces l), ("+"%char :: ds), r. split; [done|]. split; [apply spaces_blank|].
    destruct (int_token_plus ds) as [? ->]; [done..|]. split; [done | lia].
  - exists (spaces l), ("-"%char :: ds), r. split; [done|]. split; [apply spaces_blank|].
    destruct (int_token_minus ds) as [? ->]; [done..|]. split; [done | lia].
Qed.

(** ** Field widths *)

Lemma expand_fixed_width fl width prec upper x out :
  expand_fixed fl width prec upper x = Some out -> width <= len out.
Proof.
  destruct x; simpl; intros [= <-]; rewrite ?field_length, ?justify_length; lia.
Qed.

Lemma expand_exp_width fl width prec upper x out :
  expand_exp fl width prec upper x = Some out -> width <= len out.
Proof.
  unfold expand_exp. destruct x as [s|s| |s m e]; [| |done|];
    [..|destruct (exact_decimal _ _) as [D k]; destruct (exp_decimal _ _ _) as [q X]];
    intros [= <-]; rewrite ?field_length, ?justify_length; lia.
Qed.

Lemma expand_gen_width fl width prec upper x out :
  expand_gen fl width prec upper x = Some out -> width <= len out.
Proof.
  unfold expand_gen. destruct x as [s|s| |s m e]; [| |done|];
    [..|destruct (exact_decimal _ _) as [D k]; destruct (exp_decimal _ _ _) as [q X]];
    intros [= <-]; rewrite ?field_length, ?justify_length; lia.
Qed.

Lemma convert_width fl width prec ln cv a out :
  convert fl width prec ln cv a = Some out -> width <= len out.
Proof.
  destruct cv; cbn [convert]; repeat case_test; try done.
  all: try (intros (? & _ & ->)%fmap_Some; unfold expand_signed, expand_unsigned;
            rewrite ?field_length, ?justify_length; lia).
  all: intros (x & _ & H)%bind_Some;
    match type of H with
    | expand_fixed _ _ _ _ _ = _ => by eapply expand_fixed_width
    | expand_exp _ _ _ _ _ = _ => by eapply expand_exp_width
    | expand_gen _ _ _ _ _ = _ => by eapply expand_gen_width
    end.
Qed.

(** ** Rounding to a decimal *)

Lemma round_div_nearest n d : 0 < d -> nearest_even n d (round_div n d).
Proof.
  intros Hd. unfold nearest_even, round_div.
  pose proof (Z.div_mod n d ltac:(lia)). pose proof (Z.mod_pos_bound n d Hd).
  repeat case_test; try apply Z.ltb_lt in Heqb; try apply Z.ltb_ge in Heqb;
    try apply Z.ltb_ge in Heqb0; (split; [nia|]); intros; try nia.
  - done.
  - rewrite Z.even_add. by rewrite Heqb1.
Qed.

(** The decimal printed is [x] rounded to the precision: exact when the
    exponent is not negative, the nearest multiple of [10 ^ - p] otherwise. *)
Lemma scaled_spec m e p : 0 <= p ->
  if 0 <=? e then scaled m e p = m * 2 ^ e * 10 ^ p
  else nearest_even (m * 10 ^ p) (2 ^ (- e)) (scaled m e p).
Proof.
  intros Hp. unfold scaled. destruct (0 <=? e) eqn:E; [done|].
  apply Z.leb_gt in E. apply round_div_nearest, Z.pow_pos_nonneg; lia.
Qed.

Lemma scaled_nonneg m e p : 0 <= m -> 0 <= p -> 0 <= scaled m e p.
Proof.
  intros Hm Hp. unfold scaled, round_div. destruct (0 <=? e) eqn:E.
  - apply Z.leb_le in E. apply Z.mul_nonneg_nonneg; [apply Z.mul_nonneg_nonneg|]; lia.
  - apply Z.leb_gt in E. assert (0 < 2 ^ (- e)) by (apply Z.pow_pos_nonneg; lia).
    assert (0 <= m * 10 ^ p / 2 ^ (- e)) by (apply Z.div_pos; [|done]; apply Z.mul_nonneg_nonneg; lia).
    repeat case_test; lia.
Qed.

(** The digits in fixed notation: at least one before the point, exactly
    [p] after it, and together the digits of [n]. *)
Lemma split_digits_spec p n : 0 <= p -> 0 <= n ->
  exists ip fp, split_digits p n = (ip, fp) /\
    ip <> [] /\ all_sat isdigit (ip ++ fp) /\ len fp = p /\ digits_val (ip ++ fp) = n.
Proof.
  intros Hp Hn. unfold split_digits. rewrite print_radix_decimal.
  destruct (print_nat_spec n Hn) as (Hne & Hd & Hv).
  set (ds := zeros (p + 1 - len (print_nat n)) ++ print_nat n).
  assert (p + 1 <= len ds) as Hl.
  { unfold ds. rewrite len_app, len_zeros. lia. }
  exists (take (length ds - Z.to_nat p) ds), (drop (length ds - Z.to_nat p) ds).
  unfold len in *. rewrite take_drop, length_drop. split_and!; [done| |..].
  - intros Ht%(f_equal length). rewrite length_take in Ht. simpl in Ht. lia.
  - unfold ds. apply Forall_app. split; [apply zeros_digits | done].
  - lia.
  - unfold ds. by rewrite digits_val_zeros.
Qed.

Lemma fixed_digits_spec alt p n : 0 <= p -> 0 <= n ->
  exists ip fp, fixed_digits alt p n =
      ip ++ (if (0 <? p) || alt then ["."%char] else []) ++ fp /\
    ip <> [] /\ all_sat isdigit (ip ++ fp) /\ len fp = p /\ digits_val (ip ++ fp) = n.
Proof.
  intros Hp Hn. destruct (split_digits_spec p n Hp Hn) as (ip & fp & E & H).
  exists ip, fp. unfold fixed_digits. by rewrite E.
Qed.

(** ** [vsnprintf] *)

Lemma vsnprintf_expand size format args out :
  format_c (list_ascii_of_string (c_str format)) args = Some out ->
  vsnprintf size format args = Some (c_str (string_of_list_ascii (take (size - 1) out))).
Proof. intros H. unfold vsnprintf. by rewrite H. Qed.

(** An expansion that fits the buffer and holds no NUL is not cut. *)
Lemma vsnprintf_fits format args out :
  NUL ∉ list_ascii_of_string format ->
  format_c (list_ascii_of_string format) args = Some out ->
  NUL ∉ out -> (length out < 1024)%nat ->
  vsnprintf 1024 format args = Some (string_of_list_ascii out).
Proof.
  intros Hf He Hn Hl. rewrite (vsnprintf_expand _ _ _ out) by by rewrite c_str_id.
  by rewrite take_ge, c_str_id by (rewrite ?list_ascii_of_string_of_list_ascii; done || lia).
Qed.

Lemma vsnprintf_plain size format args : plain (list_ascii_of_string format) ->
  vsnprintf size format args =
  Some (string_of_list_ascii (take (size - 1) (list_ascii_of_string format))).
Proof.
  intros [Hp Hn]. rewrite (vsnprintf_expand _ _ _ (list_ascii_of_string format)).
  - rewrite c_str_id; [done|]. rewrite list_ascii_of_string_of_list_ascii.
    intros H. by apply Hn, (subseteq_take (size - 1)).
  - rewrite c_str_id by done. by apply format_c_plain.
Qed.

(** The buffer holds a C string of fewer than [size] characters. *)
Lemma vsnprintf_length size format args out :
  vsnprintf size format args = Some out -> (String.length out <= size - 1)%nat.
Proof.
  unfold vsnprintf. destruct (format_c _ _) as [l|]; [|done]. intros [= <-].
  etrans; [apply c_str_length|].
  rewrite string_length_list, list_ascii_of_string_of_list_ascii, length_take. lia.
Qed.

Lemma vsnprintf_no_nul size format args out :
  vsnprintf size format args = Some out -> NUL ∉ list_ascii_of_string out.
Proof.
  unfold vsnprintf. destruct (format_c _ _) as [l|]; [|done]. intros [= <-].
  apply c_str_no_nul.
Qed.

Lemma vsnprintf_short format args : plain (list_ascii_of_string format) ->
  (String.length format < 1024)%nat -> vsnprintf 1024 format args = Some format.
Proof.
  intros Hp Hl. rewrite vsnprintf_plain by done. f_equal.
  rewrite take_ge by (rewrite <- string_length_list; lia).
  apply string_of_list_ascii_of_string.
Qed.

(** What the buffer holds is the beginning of the expansion. *)
Lemma vsnprintf_prefix size format args msg :
  vsnprintf size format args = Some msg ->
  exists out, format_c (list_ascii_of_string (c_str format)) args = Some out /\
    list_ascii_of_string msg `prefix_of` out.
Proof.
  unfold vsnprintf. destruct (format_c _ _) as [l|]; [|done]. intros [= <-].
  exists l. split; [done|]. rewrite c_str_take_while, list_ascii_of_string_of_list_ascii.
  exists (drop_while not_nul (take (size - 1) l) ++ drop (size - 1) l).
  by rewrite app_assoc, take_drop_while, take_drop.
Qed.

Lemma vsnprintf_is_Some size format args :
  is_Some (vsnprintf size format args) <->
  is_Some (format_c (list_ascii_of_string (c_str format)) args).
Proof. unfold vsnprintf. by rewrite fmap_is_Some. Qed.

(** ** Properties of the expansion *)

(** The fuel of [format_c] is enough.  The expansion consumes at least
    one character of the format for each unit of fuel, so with any fuel of
    at least the length of the format the result is the one of [format_c]:
    an answer [None] of [format_c] is never for lack of fuel, but an
    invalid directive or an argument that is missing or of another type. *)
Theorem format_fuel_enough fuel fmt args : (length fmt <= fuel)%nat ->
  format_fuel fuel fmt args = format_c fmt args.
Proof. apply format_fuel_length. Qed.

Lemma format_fuel_enough_witness :
  format_fuel 100 $"%5d|%-3s|%c" [ArgInt 42; ArgStr "ok"; ArgChar "!"] =
  format_c $"%5d|%-3s|%c" [ArgInt 42; ArgStr "ok"; ArgChar "!"].
Proof.
  exact (format_fuel_enough 100 $"%5d|%-3s|%c" [ArgInt 42; ArgStr "ok"; ArgChar "!"]
           ltac:(simpl; lia)).
Defined.

(** Field widths and precisions bound what a directive writes.  Every
    conversion writes at least as many characters as its field width, and
    [%s] with a precision writes no more than the larger of the width and
    the precision, however long the string is. *)
Theorem convert_bounds fl width pr ln cv a out :
  convert fl width pr ln cv a = Some out ->
  width <= len out /\
  (forall p, cv = ConvString -> pr = Some p -> 0 <= p -> len out <= Z.max width p).
Proof.
  intros H. split; [by eapply convert_width|]. intros p -> -> Hp. simpl in H.
  repeat case_match; try done. apply fmap_Some in H as (s & _ & ->).
  rewrite justify_length. unfold len. rewrite length_take. lia.
Qed.

Lemma convert_bounds_witness :
  8 <= len $"   found" /\
  (forall p, ConvString = ConvString -> Some 5 = Some p -> 0 <= p -> len $"   found" <= Z.max 8 p).
Proof.
  exact (convert_bounds no_flags 8 (Some 5) LenNone ConvString (ArgStr "found 3 tokens")
           $"   found" eq_refl).
Defined.
