(* ===== verification/IfStream.v ===== *)
(** * [std::ifstream]: the stream and its state

    The header reads through three [std::ifstream] objects (testlib.h:30-32).
    A stream is modelled by what a reader can observe of it: whether a file
    is open, the characters not yet read, and the state bits [eofbit] and
    [failbit].  This file holds the stream and the operations that do not
    extract a value, with the semantics the C++ standard gives them:

    - [open] (lines 44, 127-129): fails, raising [failbit], when the stream is
      already open or the file cannot be opened; otherwise clears the state;
    - [sentry]: the prologue of every input function.  A stream that is not
      [good] gets [failbit]; a formatted input function then skips blanks, and
      raises [eofbit] and [failbit] when nothing but blanks was left;
    - [ws] (line 111): the manipulator [std::ws];
    - [eof], [fail], [is_open] (lines 58, 57, 131).

    [wf_ifstream] is the invariant of a stream; every operation keeps it. *)

From S2P Require Import Prelude CType.

Local Open Scope Z_scope.

(** ** The stream *)

Record ifstream : Type := mk_ifstream {
  opened : bool;            (* a file is associated with the stream *)
  rdbuf : list ascii;       (* the characters not yet read *)
  eofbit : bool;
  failbit : bool
}.

#[export] Instance ifstream_eq_dec : EqDecision ifstream.
Proof. solve_decision. Defined.

(** A default-constructed stream: [std::ifstream inf;]. *)
Definition closed_stream : ifstream :=
  {| opened := false; rdbuf := []; eofbit := false; failbit := false |}.

(** A stream freshly opened on a file with the given contents. *)
Definition stream_of (content : list ascii) : ifstream :=
  {| opened := true; rdbuf := content; eofbit := false; failbit := false |}.

Definition is_open (s : ifstream) : bool := opened s.
Definition eof (s : ifstream) : bool := eofbit s.
Definition fail (s : ifstream) : bool := failbit s.
Definition good (s : ifstream) : bool := negb (eofbit s || failbit s).

(** [setstate]: raise the given bits; bits already raised stay. *)
Definition setstate (e f : bool) (s : ifstream) : ifstream :=
  {| opened := opened s; rdbuf := rdbuf s;
     eofbit := eofbit s || e; failbit := failbit s || f |}.

(** The stream after its unread characters became [b]. *)
Definition advance (b : list ascii) (s : ifstream) : ifstream :=
  {| opened := opened s; rdbuf := b; eofbit := eofbit s; failbit := failbit s |}.

(** [open]: [content] is what the file system holds at the path, [None] when
    the file cannot be opened. *)
Definition open (content : option (list ascii)) (s : ifstream) : ifstream :=
  if opened s then setstate false true s
  else match content with
       | Some c => stream_of c
       | None => setstate false true s
       end.

(** The sentry of an input function.  [noskipws] is true for unformatted
    input ([getline], [ws]).  The boolean says whether input may proceed. *)
Definition sentry (noskipws : bool) (s : ifstream) : ifstream * bool :=
  if good s then
    if noskipws then (s, true)
    else
      match drop_while isspace (rdbuf s) with
      | [] => (setstate true true (advance [] s), false)
      | c :: b => (advance (c :: b) s, true)
      end
  else (setstate false true s, false).

(** [std::ws]: skips blanks; raises [eofbit], and not [failbit], when it
    runs out of characters. *)
Definition ws (s : ifstream) : ifstream :=
  let (s1, ok) := sentry true s in
  if ok then
    let b := drop_while isspace (rdbuf s1) in
    setstate (is_nil b) false (advance b s1)
  else s1.

(** ** The invariant

    Once [eofbit] is raised there is nothing left to read, and a stream with
    no file has nothing to read. *)
Definition wf_ifstream (s : ifstream) : Prop :=
  (eofbit s = true -> rdbuf s = []) /\ (opened s = false -> rdbuf s = []).

#[export] Instance wf_ifstream_dec s : Decision (wf_ifstream s).
Proof. unfold wf_ifstream. apply _. Defined.

(** ** State bits *)

Lemma good_true s : good s = true <-> eofbit s = false /\ failbit s = false.
Proof. unfold good. destruct (eofbit s), (failbit s); simpl; split; (done || by intros []). Qed.

Lemma good_false s : good s = false <-> eofbit s = true \/ failbit s = true.
Proof. unfold good. destruct (eofbit s), (failbit s); simpl; split; auto; by intros []. Qed.

Lemma good_stream_of c : good (stream_of c) = true.
Proof. reflexivity. Qed.

Lemma wf_stream_of c : wf_ifstream (stream_of c).
Proof. by split. Qed.

Lemma wf_closed_stream : wf_ifstream closed_stream.
Proof. by split. Qed.

Lemma wf_setstate e f s : wf_ifstream s -> (e = true -> rdbuf s = []) ->
  wf_ifstream (setstate e f s).
Proof.
  intros [He Ho] H. split; simpl; [|done].
  intros [?|?]%orb_true_iff; auto.
Qed.

Lemma wf_advance b s : wf_ifstream s -> b `suffix_of` rdbuf s -> wf_ifstream (advance b s).
Proof.
  intros [He Ho] Hb. split; simpl; intros H.
  - rewrite (He H) in Hb. by apply suffix_nil_inv.
  - rewrite (Ho H) in Hb. by apply suffix_nil_inv.
Qed.

Lemma wf_good_advance b s : good s = true -> opened s = true -> wf_ifstream (advance b s).
Proof. intros [He _]%good_true Ho. split; simpl; congruence. Qed.

(** A well-formed stream that is good and has input is open. *)
Lemma wf_input_opened s : wf_ifstream s -> rdbuf s <> [] -> opened s = true.
Proof. intros [_ Ho] Hb. destruct (opened s); [done|]. by specialize (Ho eq_refl). Qed.

(** ** [open] *)

Lemma open_ok c s : opened s = false -> open (Some c) s = stream_of c.
Proof. unfold open. by intros ->. Qed.

Lemma open_missing s : opened s = false -> open None s = setstate false true s.
Proof. unfold open. by intros ->. Qed.

Lemma open_twice c s : opened s = true -> open c s = setstate false true s.
Proof. unfold open. by intros ->. Qed.

(** What an [open] leaves to read: what was there, or the file. *)
Lemma rdbuf_open c s : rdbuf (open c s) = rdbuf s \/ c = Some (rdbuf (open c s)).
Proof. unfold open. destruct (opened s), c; auto. Qed.

Lemma is_open_open c s : is_open (open c s) = opened s || bool_decide (is_Some c).
Proof. unfold open, is_open. destruct (opened s) eqn:E, c; simpl; by rewrite ?E. Qed.

Lemma wf_open c s : wf_ifstream s -> wf_ifstream (open c s).
Proof.
  intros H. unfold open. destruct (opened s), c; try by apply wf_setstate.
  apply wf_stream_of.
Qed.

(** ** [sentry] *)

Lemma sentry_not_good n s : good s = false -> sentry n s = (setstate false true s, false).
Proof. unfold sentry. by intros ->. Qed.

Lemma sentry_unformatted s : good s = true -> sentry true s = (s, true).
Proof. unfold sentry. by intros ->. Qed.

Lemma sentry_blank s : good s = true -> all_sat isspace (rdbuf s) ->
  sentry false s = (setstate true true (advance [] s), false).
Proof. unfold sentry. intros -> H%drop_while_nil. by rewrite H. Qed.

Lemma sentry_token s sp c b : good s = true -> rdbuf s = sp ++ c :: b ->
  all_sat isspace sp -> isspace c = false ->
  sentry false s = (advance (c :: b) s, true).
Proof.
  unfold sentry. intros -> -> Hsp Hc. by rewrite drop_while_app.
Qed.

(** The three ways a sentry can end. *)
Inductive sentry_view (n : bool) (s : ifstream) : ifstream * bool -> Prop :=
| sentry_refused : good s = false -> sentry_view n s (setstate false true s, false)
| sentry_at_end : good s = true -> n = false -> all_sat isspace (rdbuf s) ->
    sentry_view n s (setstate true true (advance [] s), false)
| sentry_ready b : good s = true -> b `suffix_of` rdbuf s ->
    (n = true -> b = rdbuf s) ->
    (n = false -> b = drop_while isspace (rdbuf s) /\ b <> []) ->
    sentry_view n s (advance b s, true).

Lemma sentry_spec n s : sentry_view n s (sentry n s).
Proof.
  unfold sentry. destruct (good s) eqn:G; [|by constructor].
  destruct n.
  - replace s with (advance (rdbuf s) s) at 2 by by destruct s.
    by apply sentry_ready.
  - destruct (drop_while isspace (rdbuf s)) as [|c b] eqn:E.
    + apply sentry_at_end; [done..|]. by apply drop_while_nil.
    + apply sentry_ready; [done| |done|done].
      rewrite <- E. apply drop_while_suffix.
Qed.

Lemma sentry_wf n s : wf_ifstream s -> wf_ifstream (sentry n s).1.
Proof.
  intros H. destruct (sentry_spec n s); simpl.
  - by apply wf_setstate.
  - apply wf_setstate; [|done]. apply wf_advance; [done|]. apply suffix_nil.
  - by apply wf_advance.
Qed.

Lemma sentry_suffix n s : rdbuf (sentry n s).1 `suffix_of` rdbuf s.
Proof. destruct (sentry_spec n s); simpl; [done | apply suffix_nil | done]. Qed.

Lemma sentry_opened n s : opened (sentry n s).1 = opened s.
Proof. by destruct (sentry_spec n s). Qed.

Lemma sentry_ok_good n s : (sentry n s).2 = true -> good s = true /\ good (sentry n s).1 = true.
Proof. destruct (sentry_spec n s); simpl; try done. Qed.

Lemma sentry_fail n s : (sentry n s).2 = false -> fail (sentry n s).1 = true.
Proof.
  destruct (sentry_spec n s); simpl; try done; intros _; unfold fail; simpl;
    apply orb_true_r.
Qed.

(** [sentry_cases n s]: the three cases of the sentry in the goal. *)
Ltac sentry_cases n s :=
  let G := fresh "Hgood" in
  destruct (sentry_spec n s) as [G|G ? ?|? G ? ? ?]; simpl.

Lemma advance_advance b b' s : advance b (advance b' s) = advance b s.
Proof. reflexivity. Qed.

Lemma advance_rdbuf s : advance (rdbuf s) s = s.
Proof. by destruct s. Qed.

Lemma setstate_bits e f s :
  eofbit (setstate e f s) = eofbit s || e /\ failbit (setstate e f s) = failbit s || f /\
  rdbuf (setstate e f s) = rdbuf s /\ opened (setstate e f s) = opened s.
Proof. done. Qed.

Lemma good_setstate_fail s : good s = true -> forall e f,
  fail (setstate e f s) = f /\ eof (setstate e f s) = e.
Proof. intros [He Hf]%good_true e f. unfold fail, eof. simpl. by rewrite He, Hf. Qed.

(** ** [ws] *)

Lemma ws_not_good s : good s = false -> ws s = setstate false true s.
Proof. intros H. unfold ws. by rewrite sentry_not_good. Qed.

Lemma ws_good s : good s = true ->
  ws s = setstate (is_nil (drop_while isspace (rdbuf s))) false
           (advance (drop_while isspace (rdbuf s)) s).
Proof. intros H. unfold ws. by rewrite sentry_unformatted. Qed.

Lemma ws_wf s : wf_ifstream s -> wf_ifstream (ws s).
Proof.
  intros H. destruct (good s) eqn:G.
  - rewrite ws_good by done. apply wf_setstate.
    + apply wf_advance; [done | apply drop_while_suffix].
    + simpl. apply is_nil_true.
  - rewrite ws_not_good by done. by apply wf_setstate.
Qed.

Lemma ws_suffix s : rdbuf (ws s) `suffix_of` rdbuf s.
Proof.
  destruct (good s) eqn:G.
  - rewrite ws_good by done. apply drop_while_suffix.
  - by rewrite ws_not_good.
Qed.

Lemma ws_opened s : opened (ws s) = opened s.
Proof. destruct (good s) eqn:G; [by rewrite ws_good | by rewrite ws_not_good]. Qed.

(** After [ws] either the end was reached or the next character is not a
    blank. *)
Lemma ws_stops s : good s = true -> stops isspace (rdbuf (ws s)).
Proof. intros G. rewrite ws_good by done. apply drop_while_stops. Qed.

(** [ws] answers [eof] exactly when only blanks were left. *)
Lemma ws_eof s : good s = true -> eof (ws s) = true <-> all_sat isspace (rdbuf s).
Proof.
  intros G. rewrite ws_good by done.
  destruct (good_setstate_fail (advance (drop_while isspace (rdbuf s)) s) G
    (is_nil (drop_while isspace (rdbuf s))) false) as [_ ->].
  by rewrite is_nil_true, drop_while_nil.
Qed.

(** [ws] never raises [failbit] on a good stream. *)
Lemma ws_no_fail s : good s = true -> fail (ws s) = false.
Proof.
  intros G. rewrite ws_good by done.
  by destruct (good_setstate_fail (advance (drop_while isspace (rdbuf s)) s) G
    (is_nil (drop_while isspace (rdbuf s))) false) as [-> _].
Qed.

Lemma ws_idemp s : good (ws s) = true -> ws (ws s) = ws s.
Proof.
  intros G. destruct (good s) eqn:Gs.
  - rewrite (ws_good s) in * by done. rewrite ws_good by done. simpl.
    rewrite drop_while_idemp. unfold setstate, advance. simpl.
    f_equal; by destruct (eofbit s), (failbit s), (is_nil _).
  - rewrite ws_not_good in G by done. unfold good in G. simpl in G.
    by rewrite !orb_true_r in G.
Qed.
