(* ===== verification/Extract.v ===== *)
(** * Extraction from a stream

    The input functions that store a value, on the stream of [IfStream.v]:

    - [extract_int], [extract_double], [extract_string] (testlib.h:57, 85,
      71): [operator>>] into an [int], a [double] and a [std::string]; the
      two numeric extractions are [extract_num] on their scanner and
      conversion;
    - [getline] (line 99): [std::getline] with the newline delimiter.

    An extraction returns the new stream and the value it stored in its
    argument, if it stored one.  The class [Extractor] states what the
    readers of [InStream] rely on, for any extraction: the invariant is
    kept, only a prefix of the input is consumed, success means that a value
    was stored and that input was consumed, and a stream that is not good is
    not read.  The extractions and [getline] are its instances. *)

From Stdlib Require Import Floats.SpecFloat.
From S2P Require Import Prelude CType NumGet StrToD IfStream.

Local Open Scope Z_scope.

(** The extraction of a number by [num_get]: the sentry, stage 2 ([scan])
    and stage 3 ([conv]).  The value is stored even when the conversion
    raises [failbit]; reaching the end of the input raises [eofbit]. *)
Definition extract_num {A : Type} (scan : list ascii -> list ascii * list ascii)
    (conv : list ascii -> A * bool) (s : ifstream) : ifstream * option A :=
  let (s1, ok) := sentry false s in
  if ok then
    let (field, rest) := scan (rdbuf s1) in
    let (v, err) := conv field in
    (setstate (is_nil rest) err (advance rest s1), Some v)
  else (s1, None).

(** [operator>>(int&)]. *)
Definition extract_int (s : ifstream) : ifstream * option Z :=
  let (s1, ok) := sentry false s in
  if ok then
    let (field, rest) := scan_int (rdbuf s1) in
    let (v, err) := conv_int field in
    (setstate (is_nil rest) err (advance rest s1), Some v)
  else (s1, None).

(** [operator>>(double&)]. *)
Definition extract_double (s : ifstream) : ifstream * option spec_float :=
  let (s1, ok) := sentry false s in
  if ok then
    let (field, rest) := scan_float (rdbuf s1) in
    let (v, err) := conv_double field in
    (setstate (is_nil rest) err (advance rest s1), Some v)
  else (s1, None).

(** [operator>>(std::string&)]: the longest run of non-blank characters. *)
Definition extract_string (s : ifstream) : ifstream * option string :=
  let (s1, ok) := sentry false s in
  if ok then
    let tok := take_while nonspace (rdbuf s1) in
    let rest := drop_while nonspace (rdbuf s1) in
    (setstate (is_nil rest) (is_nil tok) (advance rest s1),
     Some (string_of_list_ascii tok))
  else (s1, None).

(** [std::getline(stream, result)]: the characters before the next newline;
    the newline is consumed and not stored.  Reaching the end raises
    [eofbit]; extracting nothing at all raises [failbit]. *)
Definition getline (s : ifstream) : ifstream * option string :=
  let (s1, ok) := sentry true s in
  if ok then
    let line := take_while not_newline (rdbuf s1) in
    match drop_while not_newline (rdbuf s1) with
    | [] => (setstate true (is_nil line) (advance [] s1),
             Some (string_of_list_ascii line))
    | _ :: rest => (advance rest s1, Some (string_of_list_ascii line))
    end
  else (s1, None).

(** ** What a reader may assume of an extraction *)

Class Extractor (A : Type) := {
  extract : ifstream -> ifstream * option A;
  (* the invariant is kept *)
  extract_wf s : wf_ifstream s -> wf_ifstream (extract s).1;
  (* only a prefix of the input is consumed *)
  extract_suffix s : rdbuf (extract s).1 `suffix_of` rdbuf s;
  (* the open flag is not touched *)
  extract_opened s : opened (extract s).1 = opened s;
  (* success means a value was stored *)
  extract_stored s : fail (extract s).1 = false -> is_Some (extract s).2;
  (* a stream that is not good fails and is not read *)
  extract_not_good s : good s = false ->
    fail (extract s).1 = true /\ rdbuf (extract s).1 = rdbuf s /\
    eof (extract s).1 = eof s;
  (* on a good stream with no input left, the extraction fails at the end *)
  extract_empty s : good s = true -> rdbuf s = [] ->
    fail (extract s).1 = true /\ eof (extract s).1 = true;
  (* success means input was consumed *)
  extract_progress s : fail (extract s).1 = false ->
    (length (rdbuf (extract s).1) < length (rdbuf s))%nat
}.

Arguments extract {A} _ s : rename.

(** ** Numeric extraction

    What holds of [extract_num] for any scanner that splits its input. *)

Section extract_num.
Context {A : Type} (scan : list ascii -> list ascii * list ascii) (conv : list ascii -> A * bool).
Hypothesis scan_app : forall b, (scan b).1 ++ (scan b).2 = b.

Lemma extract_num_not_good s : good s = false ->
  extract_num scan conv s = (setstate false true s, None).
Proof. intros H. unfold extract_num. by rewrite sentry_not_good. Qed.

Lemma extract_num_blank s : good s = true -> all_sat isspace (rdbuf s) ->
  extract_num scan conv s = (setstate true true (advance [] s), None).
Proof. intros G H. unfold extract_num. by rewrite sentry_blank. Qed.

Lemma extract_num_token s sp c b : good s = true -> rdbuf s = sp ++ c :: b ->
  all_sat isspace sp -> isspace c = false ->
  extract_num scan conv s =
    (setstate (is_nil (scan (c :: b)).2) (conv (scan (c :: b)).1).2
       (advance (scan (c :: b)).2 s),
     Some (conv (scan (c :: b)).1).1).
Proof.
  intros G Hb Hsp Hc. unfold extract_num.
  rewrite (sentry_token s sp c b) by done. simpl rdbuf.
  destruct (scan (c :: b)) as [field rest]. simpl.
  by destruct (conv field).
Qed.

(** The three shapes of the result, for any stream. *)
Inductive extract_num_view (s : ifstream) : ifstream * option A -> Prop :=
| extract_num_refused : good s = false ->
    extract_num_view s (setstate false true s, None)
| extract_num_at_end : good s = true -> all_sat isspace (rdbuf s) ->
    extract_num_view s (setstate true true (advance [] s), None)
| extract_num_scanned b field rest v err : good s = true ->
    b = drop_while isspace (rdbuf s) -> b <> [] ->
    scan b = (field, rest) -> conv field = (v, err) ->
    extract_num_view s (setstate (is_nil rest) err (advance rest s), Some v).

Lemma extract_num_spec s : extract_num_view s (extract_num scan conv s).
Proof.
  unfold extract_num. sentry_cases false s; try by constructor.
  destruct (scan b) as [field rest] eqn:Es.
  destruct (conv field) as [v err] eqn:Ec.
  destruct H1 as [-> Hne]; [done|]. rewrite advance_advance.
  by eapply extract_num_scanned.
Qed.

Lemma scan_suffix b : (scan b).2 `suffix_of` b.
Proof. exists (scan b).1. symmetry. apply scan_app. Qed.

(** What a scan leaves is a suffix of the input of the stream. *)
Lemma scan_rest_suffix s field rest :
  scan (drop_while isspace (rdbuf s)) = (field, rest) -> rest `suffix_of` rdbuf s.
Proof.
  intros Es. etrans; [|apply drop_while_suffix].
  replace rest with (scan (drop_while isspace (rdbuf s))).2 by by rewrite Es.
  apply scan_suffix.
Qed.

Lemma extract_num_wf s : wf_ifstream s -> wf_ifstream (extract_num scan conv s).1.
Proof.
  intros H. destruct (extract_num_spec s) as [G|G ?|b field rest v err G -> Hne Es Ec]; simpl.
  - by apply wf_setstate.
  - apply wf_setstate; [|done]. apply wf_advance; [done | apply suffix_nil].
  - apply wf_setstate; [|apply is_nil_true]. apply wf_advance; [done|].
    by eapply scan_rest_suffix.
Qed.

Lemma extract_num_suffix s : rdbuf (extract_num scan conv s).1 `suffix_of` rdbuf s.
Proof.
  destruct (extract_num_spec s) as [G|G ?|b field rest v err G -> Hne Es Ec]; simpl;
    [done | apply suffix_nil | by eapply scan_rest_suffix].
Qed.

Lemma extract_num_opened s : opened (extract_num scan conv s).1 = opened s.
Proof. by destruct (extract_num_spec s). Qed.

Lemma extract_num_stored s :
  fail (extract_num scan conv s).1 = false -> is_Some (extract_num scan conv s).2.
Proof.
  destruct (extract_num_spec s); unfold fail; simpl; rewrite ?orb_true_r; by eauto.
Qed.

(** A conversion that does not fail has consumed its field. *)
Lemma extract_num_progress s : (forall field, (conv field).2 = false -> field <> []) ->
  fail (extract_num scan conv s).1 = false ->
  (length (rdbuf (extract_num scan conv s).1) < length (rdbuf s))%nat.
Proof.
  intros Hconv. destruct (extract_num_spec s) as [G|G ?|b field rest v err G -> Hne Es Ec];
    unfold fail; simpl; rewrite ?orb_true_r; try done.
  apply good_true in G as [_ ->]. simpl. intros ->.
  pose proof (scan_app (drop_while isspace (rdbuf s))) as Ha. rewrite Es in Ha.
  pose proof (Hconv field) as Hf. rewrite Ec in Hf.
  pose proof (drop_while_length isspace (rdbuf s)) as Hl.
  rewrite <- Ha, length_app in Hl. destruct field; [by destruct Hf|simpl in Hl; lia].
Qed.

End extract_num.

(** ** [extract_int] *)

Lemma extract_int_not_good s : good s = false ->
  extract_int s = (setstate false true s, None).
Proof. apply extract_num_not_good. Qed.

Lemma extract_int_blank s : good s = true -> all_sat isspace (rdbuf s) ->
  extract_int s = (setstate true true (advance [] s), None).
Proof. apply extract_num_blank. Qed.

Lemma extract_int_token s sp c b : good s = true -> rdbuf s = sp ++ c :: b ->
  all_sat isspace sp -> isspace c = false ->
  extract_int s =
    (setstate (is_nil (scan_int (c :: b)).2) (conv_int (scan_int (c :: b)).1).2
       (advance (scan_int (c :: b)).2 s),
     Some (conv_int (scan_int (c :: b)).1).1).
Proof. apply extract_num_token. Qed.

(** The three shapes of the result, for any stream. *)
Inductive extract_int_view (s : ifstream) : ifstream * option Z -> Prop :=
| extract_int_refused : good s = false ->
    extract_int_view s (setstate false true s, None)
| extract_int_at_end : good s = true -> all_sat isspace (rdbuf s) ->
    extract_int_view s (setstate true true (advance [] s), None)
| extract_int_scanned b field rest v err : good s = true ->
    b = drop_while isspace (rdbuf s) -> b <> [] ->
    scan_int b = (field, rest) -> conv_int field = (v, err) ->
    extract_int_view s (setstate (is_nil rest) err (advance rest s), Some v).

Lemma extract_int_spec s : extract_int_view s (extract_int s).
Proof.
  change (extract_int s) with (extract_num scan_int conv_int s).
  destruct (extract_num_spec scan_int conv_int s); [by constructor..|].
  by eapply extract_int_scanned.
Qed.

Lemma scan_int_suffix b : (scan_int b).2 `suffix_of` b.
Proof. apply scan_suffix, scan_int_app. Qed.

Lemma extract_int_wf s : wf_ifstream s -> wf_ifstream (extract_int s).1.
Proof. apply extract_num_wf, scan_int_app. Qed.

Lemma extract_int_suffix s : rdbuf (extract_int s).1 `suffix_of` rdbuf s.
Proof. apply extract_num_suffix, scan_int_app. Qed.

Lemma extract_int_opened s : opened (extract_int s).1 = opened s.
Proof. apply extract_num_opened. Qed.

Lemma extract_int_stored s : fail (extract_int s).1 = false -> is_Some (extract_int s).2.
Proof. apply extract_num_stored. Qed.

Lemma extract_int_in_int s v : (extract_int s).2 = Some v -> in_int v.
Proof.
  destruct (extract_int_spec s) as [| |b field rest v' err G -> Hne Es Ec]; simpl; try done.
  intros [= <-]. replace v' with (conv_int field).1 by by rewrite Ec.
  apply conv_int_in_int.
Qed.

(** ** [extract_double] *)

Lemma extract_double_not_good s : good s = false ->
  extract_double s = (setstate false true s, None).
Proof. apply extract_num_not_good. Qed.

Lemma extract_double_blank s : good s = true -> all_sat isspace (rdbuf s) ->
  extract_double s = (setstate true true (advance [] s), None).
Proof. apply extract_num_blank. Qed.

(** A field of the grammar of [strtod], followed by the end or by a
    character that cannot continue it. *)
Lemma extract_double_token s sp t r : good s = true -> rdbuf s = sp ++ t ++ r ->
  all_sat isspace sp -> float_field t -> stops float_char r ->
  extract_double s =
    (setstate (is_nil r) (conv_double t).2 (advance r s), Some (conv_double t).1).
Proof.
  intros G Hb Hsp Ht Hr. destruct (float_field_head t Ht) as (c & t' & -> & Hc).
  unfold extract_double. fold (extract_num scan_float conv_double s).
  rewrite (extract_num_token _ _ s sp c (t' ++ r)) by done.
  by rewrite (app_comm_cons t' r c), scan_float_field.
Qed.

Lemma extract_double_finite s v : (extract_double s).2 = Some v -> is_finite v = true.
Proof.
  change (extract_double s) with (extract_num scan_float conv_double s).
  destruct (extract_num_spec scan_float conv_double s)
    as [| |b field rest v' err G -> Hne Es Ec]; simpl; try done.
  intros [= <-]. replace v' with (conv_double field).1 by by rewrite Ec.
  apply conv_double_finite.
Qed.

(** ** [extract_string] *)

Lemma extract_string_not_good s : good s = false ->
  extract_string s = (setstate false true s, None).
Proof. intros H. unfold extract_string. by rewrite sentry_not_good. Qed.

Lemma extract_string_blank s : good s = true -> all_sat isspace (rdbuf s) ->
  extract_string s = (setstate true true (advance [] s), None).
Proof. intros G H. unfold extract_string. by rewrite sentry_blank. Qed.

Lemma extract_string_token s sp tok r : good s = true -> rdbuf s = sp ++ tok ++ r ->
  all_sat isspace sp -> all_sat nonspace tok -> tok <> [] -> stops nonspace r ->
  extract_string s =
    (setstate (is_nil r) false (advance r s), Some (string_of_list_ascii tok)).
Proof.
  intros G Hb Hsp Htok Hne Hr. unfold extract_string.
  destruct tok as [|c tok]; [done|]. inversion Htok as [|? ? Hc Htok']; subst.
  rewrite (sentry_token s sp c (tok ++ r)); [|done..|by apply nonspace_true].
  simpl rdbuf. rewrite (app_comm_cons tok r c).
  by rewrite take_while_app, drop_while_app by done.
Qed.

Inductive extract_string_view (s : ifstream) : ifstream * option string -> Prop :=
| extract_string_refused : good s = false ->
    extract_string_view s (setstate false true s, None)
| extract_string_at_end : good s = true -> all_sat isspace (rdbuf s) ->
    extract_string_view s (setstate true true (advance [] s), None)
| extract_string_scanned b tok rest : good s = true ->
    b = drop_while isspace (rdbuf s) ->
    tok = take_while nonspace b -> rest = drop_while nonspace b -> tok <> [] ->
    extract_string_view s
      (setstate (is_nil rest) false (advance rest s), Some (string_of_list_ascii tok)).

Lemma extract_string_spec s : extract_string_view s (extract_string s).
Proof.
  unfold extract_string. sentry_cases false s; try by constructor.
  destruct H1 as [-> Hne]; [done|].
  assert (take_while nonspace (drop_while isspace (rdbuf s)) <> []) as Htok.
  { pose proof (drop_while_stops isspace (rdbuf s)) as Hs.
    destruct (drop_while isspace (rdbuf s)) as [|c b]; [done|]. simpl in *.
    unfold nonspace at 1. by rewrite Hs. }
  replace (is_nil (take_while nonspace (drop_while isspace (rdbuf s)))) with false
    by (symmetry; by apply is_nil_false).
  rewrite advance_advance. by eapply extract_string_scanned.
Qed.

Lemma extract_string_wf s : wf_ifstream s -> wf_ifstream (extract_string s).1.
Proof.
  intros H. destruct (extract_string_spec s) as [G|G ?|b tok rest G -> -> -> Hne]; simpl.
  - by apply wf_setstate.
  - apply wf_setstate; [|done]. apply wf_advance; [done | apply suffix_nil].
  - apply wf_setstate; [|apply is_nil_true]. apply wf_advance; [done|].
    etrans; apply drop_while_suffix.
Qed.

Lemma extract_string_suffix s : rdbuf (extract_string s).1 `suffix_of` rdbuf s.
Proof.
  destruct (extract_string_spec s) as [G|G ?|b tok rest G -> -> -> Hne]; simpl;
    [done | apply suffix_nil | etrans; apply drop_while_suffix].
Qed.

Lemma extract_string_opened s : opened (extract_string s).1 = opened s.
Proof. by destruct (extract_string_spec s). Qed.

Lemma extract_string_stored s :
  fail (extract_string s).1 = false -> is_Some (extract_string s).2.
Proof.
  destruct (extract_string_spec s); unfold fail; simpl; rewrite ?orb_true_r; by eauto.
Qed.

(** ** [getline] *)

Lemma getline_not_good s : good s = false -> getline s = (setstate false true s, None).
Proof. intros H. unfold getline. by rewrite sentry_not_good. Qed.

(** A line that ends in a newline: the newline is consumed and the state
    bits stay clear, even when the newline was the last character. *)
Lemma getline_line s line rest : good s = true -> rdbuf s = line ++ LF :: rest ->
  all_sat not_newline line ->
  getline s = (advance rest s, Some (string_of_list_ascii line)).
Proof.
  intros G Hb Hl. unfold getline. rewrite sentry_unformatted by done.
  by rewrite Hb, take_while_app, drop_while_app.
Qed.

(** The last line, with no newline after it. *)
Lemma getline_last s : good s = true -> all_sat not_newline (rdbuf s) ->
  getline s = (setstate true (is_nil (rdbuf s)) (advance [] s),
               Some (string_of_list_ascii (rdbuf s))).
Proof.
  intros G Hl. unfold getline. rewrite sentry_unformatted by done.
  by rewrite take_while_all, (proj2 (drop_while_nil _ _) Hl).
Qed.

Inductive getline_view (s : ifstream) : ifstream * option string -> Prop :=
| getline_refused : good s = false -> getline_view s (setstate false true s, None)
| getline_to_end : good s = true -> all_sat not_newline (rdbuf s) ->
    getline_view s (setstate true (is_nil (rdbuf s)) (advance [] s),
                    Some (string_of_list_ascii (rdbuf s)))
| getline_to_newline line rest : good s = true -> rdbuf s = line ++ LF :: rest ->
    all_sat not_newline line ->
    getline_view s (advance rest s, Some (string_of_list_ascii line)).

Lemma stops_not_newline c r : stops not_newline (c :: r) -> c = LF.
Proof. simpl. unfold not_newline. by intros ?%negb_false_iff%bool_decide_eq_true. Qed.

Lemma getline_spec s : getline_view s (getline s).
Proof.
  destruct (good s) eqn:G; [|rewrite getline_not_good by done; by constructor].
  destruct (drop_while not_newline (rdbuf s)) as [|c r] eqn:E.
  - apply drop_while_nil in E. rewrite getline_last by done. by constructor.
  - pose proof (drop_while_stops not_newline (rdbuf s)) as Hs. rewrite E in Hs.
    apply stops_not_newline in Hs as ->.
    pose proof (take_drop_while not_newline (rdbuf s)) as Hb. rewrite E in Hb.
    rewrite (getline_line s (take_while not_newline (rdbuf s)) r);
      [|done..|apply take_while_all_sat].
    eapply getline_to_newline; [done..|apply take_while_all_sat].
Qed.

Lemma getline_wf s : wf_ifstream s -> wf_ifstream (getline s).1.
Proof.
  intros H. destruct (getline_spec s) as [G|G Hl|line rest G Hb Hl]; simpl.
  - by apply wf_setstate.
  - apply wf_setstate; [|done]. apply wf_advance; [done | apply suffix_nil].
  - apply wf_advance; [done|]. rewrite Hb. apply suffix_app_r, suffix_cons_r. done.
Qed.

Lemma getline_suffix s : rdbuf (getline s).1 `suffix_of` rdbuf s.
Proof.
  destruct (getline_spec s) as [G|G Hl|line rest G Hb Hl]; simpl;
    [done | apply suffix_nil |].
  rewrite Hb. by apply suffix_app_r, suffix_cons_r.
Qed.

Lemma getline_opened s : opened (getline s).1 = opened s.
Proof. by destruct (getline_spec s). Qed.

Lemma getline_stored s : fail (getline s).1 = false -> is_Some (getline s).2.
Proof.
  destruct (getline_spec s); unfold fail; simpl; rewrite ?orb_true_r; by eauto.
Qed.

(** ** Progress *)

Lemma conv_ok_nonempty field : (conv_int field).2 = false -> field <> [].
Proof. intros [H _]%conv_int_ok_iff ->. by apply H. Qed.

Lemma conv_double_nonempty field : (conv_double field).2 = false -> field <> [].
Proof. intros (c & t & -> & _)%conv_double_field%float_field_head. done. Qed.

Lemma extract_int_progress s : fail (extract_int s).1 = false ->
  (length (rdbuf (extract_int s).1) < length (rdbuf s))%nat.
Proof. apply extract_num_progress; [apply scan_int_app | apply conv_ok_nonempty]. Qed.

Lemma extract_double_progress s : fail (extract_double s).1 = false ->
  (length (rdbuf (extract_double s).1) < length (rdbuf s))%nat.
Proof. apply extract_num_progress; [apply scan_float_app | apply conv_double_nonempty]. Qed.

Lemma extract_string_progress s : fail (extract_string s).1 = false ->
  (length (rdbuf (extract_string s).1) < length (rdbuf s))%nat.
Proof.
  destruct (extract_string_spec s) as [G|G ?|b tok rest G -> -> -> Hne];
    unfold fail; simpl; rewrite ?orb_true_r; try done. intros _.
  pose proof (take_while_length nonspace (drop_while isspace (rdbuf s))) as Ha.
  pose proof (drop_while_length isspace (rdbuf s)) as Hl.
  destruct (take_while nonspace _); [done|simpl in Ha; lia].
Qed.

Lemma getline_progress s : fail (getline s).1 = false ->
  (length (rdbuf (getline s).1) < length (rdbuf s))%nat.
Proof.
  destruct (getline_spec s) as [G|G Hl|line rest G Hb Hl];
    unfold fail; simpl; rewrite ?orb_true_r; try done.
  - apply good_true in G as [_ ->]. simpl. by destruct (rdbuf s); [|simpl; lia].
  - intros _. rewrite Hb, length_app. simpl. lia.
Qed.

(** ** The extractions as instances of [Extractor] *)

Lemma setstate_fail_not_good s : good s = false ->
  fail (setstate false true s) = true /\ rdbuf (setstate false true s) = rdbuf s /\
  eof (setstate false true s) = eof s.
Proof.
  intros _. unfold fail, eof. simpl. by rewrite orb_true_r, orb_false_r.
Qed.

Lemma setstate_end_fail s b : good s = true ->
  fail (setstate true true (advance b s)) = true /\
  eof (setstate true true (advance b s)) = true.
Proof. intros _. unfold fail, eof. simpl. by rewrite !orb_true_r. Qed.

#[export] Program Instance int_extractor : Extractor Z := {| extract := extract_int |}.
Next Obligation. apply extract_int_wf. Qed.
Next Obligation. apply extract_int_suffix. Qed.
Next Obligation. apply extract_int_opened. Qed.
Next Obligation. apply extract_int_stored. Qed.
Next Obligation.
  intros s G. rewrite extract_int_not_good by done. by apply setstate_fail_not_good.
Qed.
Next Obligation.
  intros s G Hb. rewrite extract_int_blank; [|done|by rewrite Hb; constructor].
  by apply setstate_end_fail.
Qed.
Next Obligation. apply extract_int_progress. Qed.

#[export] Program Instance double_extractor : Extractor spec_float :=
  {| extract := extract_double |}.
Next Obligation. apply extract_num_wf, scan_float_app. Qed.
Next Obligation. apply extract_num_suffix, scan_float_app. Qed.
Next Obligation. apply extract_num_opened. Qed.
Next Obligation. apply extract_num_stored. Qed.
Next Obligation.
  intros s G. rewrite extract_double_not_good by done. by apply setstate_fail_not_good.
Qed.
Next Obligation.
  intros s G Hb. rewrite extract_double_blank; [|done|by rewrite Hb; constructor].
  by apply setstate_end_fail.
Qed.
Next Obligation. apply extract_double_progress. Qed.

#[export] Program Instance string_extractor : Extractor string :=
  {| extract := extract_string |}.
Next Obligation. apply extract_string_wf. Qed.
Next Obligation. apply extract_string_suffix. Qed.
Next Obligation. apply extract_string_opened. Qed.
Next Obligation. apply extract_string_stored. Qed.
Next Obligation.
  intros s G. rewrite extract_string_not_good by done. by apply setstate_fail_not_good.
Qed.
Next Obligation.
  intros s G Hb. rewrite extract_string_blank; [|done|by rewrite Hb; constructor].
  by apply setstate_end_fail.
Qed.
Next Obligation. apply extract_string_progress. Qed.

(** [getline] as an extraction of lines.  The instance is not exported:
    [extract] on a [string] means [operator>>]. *)
Program Definition line_extractor : Extractor string := {| extract := getline |}.
Next Obligation. apply getline_wf. Qed.
Next Obligation. apply getline_suffix. Qed.
Next Obligation. apply getline_opened. Qed.
Next Obligation. apply getline_stored. Qed.
Next Obligation.
  intros s G. rewrite getline_not_good by done. by apply setstate_fail_not_good.
Qed.
Next Obligation.
  intros s G Hb. rewrite getline_last; [|done|by rewrite Hb; constructor].
  rewrite Hb. by apply setstate_end_fail.
Qed.
Next Obligation. apply getline_progress. Qed.

(** ** Facts that hold of every extraction *)

Section extractor_facts.
Context {A : Type} (E : Extractor A).

(** No extraction lengthens the input: a loop of reads terminates. *)
Lemma extract_length s : (length (rdbuf (extract E s).1) <= length (rdbuf s))%nat.
Proof. apply suffix_length, extract_suffix. Qed.

(** A failed extraction at the end of the input reports [eof]. *)
Lemma extract_fail_eof_end s : eof s = true ->
  fail (extract E s).1 = true /\ eof (extract E s).1 = true.
Proof.
  intros He. destruct (extract_not_good s) as (Hf & _ & He').
  - unfold eof in He. apply good_false. by left.
  - split; [done|]. by rewrite He'.
Qed.

(** After a success the stream is still well-formed and has not failed. *)
Lemma extract_ok_wf s : wf_ifstream s -> fail (extract E s).1 = false ->
  wf_ifstream (extract E s).1 /\ good s = true.
Proof.
  intros Hwf Hf. split; [by apply extract_wf|].
  destruct (good s) eqn:G; [done|].
  destruct (extract_not_good s G) as (Hf' & _). congruence.
Qed.

End extractor_facts.

(** ** Printing, then extracting *)

Lemma print_int_head z : exists c b, print_int z = c :: b /\ isspace c = false.
Proof.
  unfold print_int. destruct (Z.ltb_spec z 0) as [Hz|Hz]; [by eauto|].
  destruct (print_nat_head z Hz) as (d & ds & -> & Hd). eauto with chk.
Qed.

Lemma extract_int_of_token s sp t r : good s = true -> rdbuf s = sp ++ t ++ r ->
  all_sat isspace sp -> int_token t -> stops isdigit r -> in_int (signed_val t) ->
  extract_int s = (setstate (is_nil r) false (advance r s), Some (signed_val t)).
Proof.
  intros G Hb Hsp Ht Hr Hz. destruct (int_token_head t Ht) as (c & b & Hp & Hc).
  rewrite (extract_int_token s sp c (b ++ r)); [|done|by rewrite Hb, Hp|done..].
  rewrite (app_comm_cons b r c), <- Hp, scan_int_token by done. simpl.
  by rewrite conv_int_token.
Qed.

Lemma extract_int_print s sp z r : good s = true -> rdbuf s = sp ++ print_int z ++ r ->
  all_sat isspace sp -> stops isdigit r -> in_int z ->
  extract_int s = (setstate (is_nil r) false (advance r s), Some z).
Proof.
  intros G Hb Hsp Hr Hz.
  rewrite (extract_int_of_token s sp (print_int z) r); auto with chk;
    by rewrite signed_val_print_int.
Qed.

(** ** A stream with nothing but blanks left

    The stream may be good, or at the end already ([eofbit] raised by the
    read that consumed the last token); it has not failed. *)

Lemma setstate_at_end s : wf_ifstream s -> eofbit s = true ->
  setstate false true s = setstate true true (advance [] s).
Proof.
  intros [He _] H. destruct s as [o b e f]. simpl in *. subst e.
  by rewrite (He eq_refl).
Qed.

Lemma not_good_at_end s : fail s = false -> good s = false -> eofbit s = true.
Proof. intros Hf [?|?]%good_false; [done|]. unfold fail in Hf. congruence. Qed.

Lemma extract_int_exhausted s : wf_ifstream s -> fail s = false ->
  all_sat isspace (rdbuf s) ->
  extract_int s = (setstate true true (advance [] s), None).
Proof.
  intros Hwf Hf Hb. destruct (good s) eqn:G; [by apply extract_int_blank|].
  rewrite extract_int_not_good by done. f_equal.
  by apply setstate_at_end, not_good_at_end.
Qed.

Lemma extract_string_exhausted s : wf_ifstream s -> fail s = false ->
  all_sat isspace (rdbuf s) ->
  extract_string s = (setstate true true (advance [] s), None).
Proof.
  intros Hwf Hf Hb. destruct (good s) eqn:G; [by apply extract_string_blank|].
  rewrite extract_string_not_good by done. f_equal.
  by apply setstate_at_end, not_good_at_end.
Qed.

Lemma getline_exhausted s : wf_ifstream s -> fail s = false -> rdbuf s = [] ->
  (getline s).1 = setstate true true (advance [] s).
Proof.
  intros Hwf Hf Hb. destruct (good s) eqn:G.
  - rewrite getline_last; [|done|by rewrite Hb; constructor]. by rewrite Hb.
  - rewrite getline_not_good by done. by apply setstate_at_end, not_good_at_end.
Qed.

Lemma ws_rdbuf s : wf_ifstream s -> fail s = false ->
  rdbuf (ws s) = drop_while isspace (rdbuf s).
Proof.
  intros [He _] Hf. destruct (good s) eqn:G; [by rewrite ws_good|].
  rewrite ws_not_good by done. simpl.
  by rewrite (He (not_good_at_end s Hf G)).
Qed.

Lemma ws_eof_iff s : wf_ifstream s -> fail s = false ->
  eof (ws s) = true <-> all_sat isspace (rdbuf s).
Proof.
  intros [He _] Hf. destruct (good s) eqn:G; [by apply ws_eof|].
  rewrite ws_not_good by done. pose proof (not_good_at_end s Hf G) as H.
  unfold eof. simpl. rewrite H, (He H). split; [constructor | done].
Qed.

(** ** Progress, stickiness, invariant *)

Lemma setstate_failed s : fail s = true -> setstate false true s = s.
Proof.
  unfold fail. intros H. destruct s as [o b e f]. simpl in *. subst f.
  unfold setstate. simpl. by rewrite orb_false_r.
Qed.

Lemma failed_not_good s : fail s = true -> good s = false.
Proof. intros H. apply good_false. by right. Qed.

(** A successful extraction consumes input.  When [operator>>] into an
    [int], a [double] or a [std::string], or [std::getline], leaves the stream without
    [failbit], the unread input is strictly shorter than before; [std::ws]
    never lengthens it.  A loop that reads until a read fails terminates. *)
Theorem extraction_progress s :
  (fail (extract_int s).1 = false ->
     (length (rdbuf (extract_int s).1) < length (rdbuf s))%nat) /\
  (fail (extract_double s).1 = false ->
     (length (rdbuf (extract_double s).1) < length (rdbuf s))%nat) /\
  (fail (extract_string s).1 = false ->
     (length (rdbuf (extract_string s).1) < length (rdbuf s))%nat) /\
  (fail (getline s).1 = false ->
     (length (rdbuf (getline s).1) < length (rdbuf s))%nat) /\
  (length (rdbuf (ws s)) <= length (rdbuf s))%nat.
Proof.
  split_and!; [apply extract_int_progress | apply extract_double_progress |
               apply extract_string_progress | apply getline_progress |
               apply suffix_length, ws_suffix].
Qed.

(** Failure is sticky.  On a stream with [failbit] raised, every input
    operation is the identity: nothing is consumed, nothing is stored, and
    the state bits stay as they are. *)
Theorem failure_is_sticky s : fail s = true ->
  extract_int s = (s, None) /\ extract_double s = (s, None) /\
  extract_string s = (s, None) /\ getline s = (s, None) /\ ws s = s.
Proof.
  intros Hf. pose proof (failed_not_good s Hf) as G.
  rewrite extract_int_not_good, extract_double_not_good, extract_string_not_good,
    getline_not_good, ws_not_good, setstate_failed by done. done.
Qed.

Lemma failure_is_sticky_witness :
  let s := mk_ifstream true (list_ascii_of_string "12") false true in
  extract_int s = (s, None) /\ extract_double s = (s, None) /\
  extract_string s = (s, None) /\ getline s = (s, None) /\ ws s = s.
Proof.
  exact (failure_is_sticky (mk_ifstream true (list_ascii_of_string "12") false true) eq_refl).
Defined.

(** The invariant of a stream (nothing is left to read once [eofbit]
    is raised, or when no file is open) is kept by every operation: [open],
    the sentry, [ws], the three extractions and [getline]. *)
Theorem stream_ops_preserve_wf s : wf_ifstream s ->
  (forall c, wf_ifstream (open c s)) /\ (forall n, wf_ifstream (sentry n s).1) /\
  wf_ifstream (ws s) /\ wf_ifstream (extract_int s).1 /\ wf_ifstream (extract_double s).1 /\
  wf_ifstream (extract_string s).1 /\ wf_ifstream (getline s).1.
Proof.
  intros H. split_and!;
    [intros c; by apply wf_open | intros n; by apply sentry_wf | by apply ws_wf |
     by apply extract_int_wf | by apply (extract_wf (Extractor := double_extractor)) |
     by apply extract_string_wf | by apply getline_wf].
Qed.

Lemma stream_ops_preserve_wf_witness :
  let s := stream_of (list_ascii_of_string "1 2") in
  (forall c, wf_ifstream (open c s)) /\ (forall n, wf_ifstream (sentry n s).1) /\
  wf_ifstream (ws s) /\ wf_ifstream (extract_int s).1 /\ wf_ifstream (extract_double s).1 /\
  wf_ifstream (extract_string s).1 /\ wf_ifstream (getline s).1.
Proof.
  exact (stream_ops_preserve_wf (stream_of (list_ascii_of_string "1 2"))
           (wf_stream_of (list_ascii_of_string "1 2"))).
Defined.
