(* ===== verification/Process.v ===== *)
(** * The process: global state, output channels and [exit]

    The header keeps its state in globals: the streams [inf], [ouf], [ans]
    (testlib.h:30-32) and the [InStream] objects [inf_], [ouf_], [ans_] that
    wrap them (lines 116-118).  Its functions write to [std::cout] and
    [std::cerr] and end the process with [exit].  This file gives

    - [World]: the globals, the file system the streams are opened on, and
      the text written so far to each output channel;
    - [Outcome]: how a call can end: it returns, the process exits with a
      status, or the behaviour is undefined;
    - [Proc]: the monad of functions over the world, with [exit], output and
      access to a stream by its identifier;
    - the monad laws, up to the pointwise equality [proc_eq].

    An [InStream] refers to its stream by a [StreamId]; two parts of a
    checker that use the same stream see each other's reads. *)

From stdpp Require Import gmap.
From S2P Require Import Prelude CType NumGet IfStream.

Local Open Scope Z_scope.

(** ** Data *)

(** The three streams of a checker. *)
Inductive StreamId : Type := Inf | Ouf | Ans.

#[export] Instance StreamId_eq_dec : EqDecision StreamId.
Proof. solve_decision. Defined.

(** An object of class [InStream]: the stream it refers to, its name and
    the number of reads made through it. *)
Record InStream : Type := mk_InStream {
  stream : StreamId;
  name : string;
  readCount : Z
}.

#[export] Instance InStream_eq_dec : EqDecision InStream.
Proof. solve_decision. Defined.

Record World : Type := mk_World {
  fs : gmap string (list ascii);   (* path to contents; absent: cannot be opened *)
  inf : ifstream;
  ouf : ifstream;
  ans : ifstream;
  inf_ : InStream;
  ouf_ : InStream;
  ans_ : InStream;
  cout : string;
  cerr : string
}.

Inductive Outcome (A : Type) : Type :=
| Returned (a : A) (w : World)     (* the call returns [a] *)
| Exited (status : Z) (w : World)  (* [exit(status)] was called *)
| Undefined.                       (* undefined behaviour *)

Arguments Returned {A} a w.
Arguments Exited {A} status w.
Arguments Undefined {A}.

Definition Proc (A : Type) : Type := World -> Outcome A.

(** ** Access to the globals *)

Definition get_stream (i : StreamId) (w : World) : ifstream :=
  match i with Inf => inf w | Ouf => ouf w | Ans => ans w end.

Definition set_stream (i : StreamId) (s : ifstream) (w : World) : World :=
  match i with
  | Inf => mk_World (fs w) s (ouf w) (ans w) (inf_ w) (ouf_ w) (ans_ w) (cout w) (cerr w)
  | Ouf => mk_World (fs w) (inf w) s (ans w) (inf_ w) (ouf_ w) (ans_ w) (cout w) (cerr w)
  | Ans => mk_World (fs w) (inf w) (ouf w) s (inf_ w) (ouf_ w) (ans_ w) (cout w) (cerr w)
  end.

Definition get_obj (i : StreamId) (w : World) : InStream :=
  match i with Inf => inf_ w | Ouf => ouf_ w | Ans => ans_ w end.

Definition set_obj (i : StreamId) (o : InStream) (w : World) : World :=
  match i with
  | Inf => mk_World (fs w) (inf w) (ouf w) (ans w) o (ouf_ w) (ans_ w) (cout w) (cerr w)
  | Ouf => mk_World (fs w) (inf w) (ouf w) (ans w) (inf_ w) o (ans_ w) (cout w) (cerr w)
  | Ans => mk_World (fs w) (inf w) (ouf w) (ans w) (inf_ w) (ouf_ w) o (cout w) (cerr w)
  end.

Definition set_cout (t : string) (w : World) : World :=
  mk_World (fs w) (inf w) (ouf w) (ans w) (inf_ w) (ouf_ w) (ans_ w) t (cerr w).

Definition set_cerr (t : string) (w : World) : World :=
  mk_World (fs w) (inf w) (ouf w) (ans w) (inf_ w) (ouf_ w) (ans_ w) (cout w) t.

(** ** Static initialisation *)

(** [InStream(s, name) : stream(s), name(name), readCount(0)]. *)
Definition InStream_new (s : StreamId) (name : string) : InStream :=
  {| stream := s; name := name; readCount := 0 |}.

(** The state after static initialisation: the streams are default
    constructed, each object wraps the stream of its name, nothing has been
    written. *)
Definition initial_world (files : gmap string (list ascii)) : World :=
  {| fs := files;
     inf := closed_stream; ouf := closed_stream; ans := closed_stream;
     inf_ := InStream_new Inf "inf";
     ouf_ := InStream_new Ouf "ouf";
     ans_ := InStream_new Ans "ans";
     cout := ""; cerr := "" |}.

(** The state in which a checker starts to read: static initialisation, then
    the three streams opened on files with the given contents. *)
Definition opened_world (input output answer : list ascii) : World :=
  {| fs := ∅;
     inf := stream_of input; ouf := stream_of output; ans := stream_of answer;
     inf_ := InStream_new Inf "inf";
     ouf_ := InStream_new Ouf "ouf";
     ans_ := InStream_new Ans "ans";
     cout := ""; cerr := "" |}.

(** ** The monad *)

#[export] Instance Proc_ret : MRet Proc := fun A a w => Returned a w.

#[export] Instance Proc_bind : MBind Proc := fun A B f m w =>
  match m w with
  | Returned a w' => f a w'
  | Exited status w' => Exited status w'
  | Undefined => Undefined
  end.

(** [exit(status)]: the process ends; nothing after the call runs. *)
Definition exit {A : Type} (status : Z) : Proc A := fun w => Exited status w.

(** Behaviour the language leaves undefined. *)
Definition undefined {A : Type} : Proc A := fun _ => Undefined.

(** The value of a local variable that an extraction was to store: reading
    it when nothing was stored is undefined. *)
Definition stored {A : Type} (o : option A) : Proc A :=
  match o with Some a => mret a | None => undefined end.

(** [std::endl]: a newline (flushing is not observable in the model). *)
Definition endl : string := String LF "".

(** [std::cout << t] and [std::cerr << t]. *)
Definition cout_put (t : string) : Proc unit :=
  fun w => Returned tt (set_cout (cout w +:+ t) w).

Definition cerr_put (t : string) : Proc unit :=
  fun w => Returned tt (set_cerr (cerr w +:+ t) w).

(** An operation on the stream [i] that changes it and yields a value. *)
Definition stream_do {A : Type} (i : StreamId) (f : ifstream -> ifstream * A) : Proc A :=
  fun w => let (s', a) := f (get_stream i w) in Returned a (set_stream i s' w).

(** An operation that changes the stream [i] only. *)
Definition stream_upd (i : StreamId) (f : ifstream -> ifstream) : Proc unit :=
  fun w => Returned tt (set_stream i (f (get_stream i w)) w).

(** An observation of the stream [i]. *)
Definition stream_get {A : Type} (i : StreamId) (f : ifstream -> A) : Proc A :=
  fun w => Returned (f (get_stream i w)) w.

(** The object [i], and an update of it. *)
Definition obj_get (i : StreamId) : Proc InStream :=
  fun w => Returned (get_obj i w) w.

Definition obj_upd (i : StreamId) (f : InStream -> InStream) : Proc unit :=
  fun w => Returned tt (set_obj i (f (get_obj i w)) w).

(** The file at a path, if it can be opened. *)
Definition fs_lookup (path : string) : Proc (option (list ascii)) :=
  fun w => Returned (fs w !! path) w.

(** The status the parent process observes: the low eight bits. *)
Definition wait_status {A : Type} (o : Outcome A) : option Z :=
  match o with
  | Exited status _ => Some (status mod 256)
  | _ => None
  end.

(** The world in which an outcome leaves the process, when it has one. *)
Definition final_world {A : Type} (o : Outcome A) : option World :=
  match o with
  | Returned _ w | Exited _ w => Some w
  | Undefined => None
  end.

(** ** Equality of procedures *)

Definition proc_eq {A : Type} (m1 m2 : Proc A) : Prop := forall w, m1 w = m2 w.

Infix "=p=" := proc_eq (at level 70, no associativity) : chk_scope.

Local Open Scope chk_scope.

#[export] Instance proc_eq_equiv {A} : Equivalence (@proc_eq A).
Proof.
  split; [by intros m w | by intros m1 m2 H w | intros m1 m2 m3 H1 H2 w].
  by rewrite H1.
Qed.

#[export] Instance mbind_proper {A B} :
  Proper (pointwise_relation A proc_eq ==> proc_eq ==> proc_eq) (@mbind Proc _ A B).
Proof.
  intros f g Hfg m1 m2 Hm w. unfold mbind, Proc_bind. rewrite Hm.
  destruct (m2 w); [apply Hfg | done | done].
Qed.

(** ** Monad laws *)

Lemma proc_bind_ret_l {A B} (a : A) (f : A -> Proc B) : (mret a ≫= f) =p= f a.
Proof. by intros w. Qed.

Lemma proc_bind_ret_r {A} (m : Proc A) : (m ≫= mret) =p= m.
Proof. intros w. unfold mbind, Proc_bind. by destruct (m w). Qed.

Lemma proc_bind_assoc {A B C} (m : Proc A) (f : A -> Proc B) (g : B -> Proc C) :
  ((m ≫= f) ≫= g) =p= (m ≫= fun a => f a ≫= g).
Proof. intros w. unfold mbind, Proc_bind. by destruct (m w). Qed.

(** [exit] and undefined behaviour absorb what follows. *)
Lemma proc_bind_exit {A B} status (f : A -> Proc B) : (exit status ≫= f) =p= exit status.
Proof. by intros w. Qed.

Lemma proc_bind_undefined {A B} (f : A -> Proc B) : (undefined ≫= f) =p= undefined.
Proof. by intros w. Qed.

(** ** Running a bind *)

Lemma run_bind_returned {A B} (m : Proc A) (f : A -> Proc B) w a w' :
  m w = Returned a w' -> (m ≫= f) w = f a w'.
Proof. unfold mbind, Proc_bind. by intros ->. Qed.

Lemma run_bind_exited {A B} (m : Proc A) (f : A -> Proc B) w status w' :
  m w = Exited status w' -> (m ≫= f) w = Exited status w'.
Proof. unfold mbind, Proc_bind. by intros ->. Qed.

Lemma run_bind_undefined {A B} (m : Proc A) (f : A -> Proc B) w :
  m w = Undefined -> (m ≫= f) w = Undefined.
Proof. unfold mbind, Proc_bind. by intros ->. Qed.

(** A bind returns only if both parts return. *)
Lemma run_bind_unfold {A B} (m : Proc A) (f : A -> Proc B) w :
  (m ≫= f) w =
  match m w with
  | Returned a w' => f a w'
  | Exited status w' => Exited status w'
  | Undefined => Undefined
  end.
Proof. reflexivity. Qed.

Lemma run_bind_ext {A B : Type} (m : Proc A) (f g : A -> Proc B) w :
  (forall a w', f a w' = g a w') -> (m ≫= f) w = (m ≫= g) w.
Proof. intros H. unfold mbind, Proc_bind. by destruct (m w). Qed.

Lemma run_bind_inv {A B} (m : Proc A) (f : A -> Proc B) w b w'' :
  (m ≫= f) w = Returned b w'' ->
  exists a w', m w = Returned a w' /\ f a w' = Returned b w''.
Proof. unfold mbind, Proc_bind. destruct (m w); [by eauto | done | done]. Qed.

(** ** The globals as a store *)

Lemma get_set_stream i s w : get_stream i (set_stream i s w) = s.
Proof. by destruct i. Qed.

Lemma get_set_stream_ne i j s w : i <> j -> get_stream j (set_stream i s w) = get_stream j w.
Proof. by destruct i, j. Qed.

Lemma set_get_stream i w : set_stream i (get_stream i w) w = w.
Proof. by destruct i, w. Qed.

Lemma set_set_stream i s s' w : set_stream i s (set_stream i s' w) = set_stream i s w.
Proof. by destruct i. Qed.

Lemma get_set_obj i o w : get_obj i (set_obj i o w) = o.
Proof. by destruct i. Qed.

Lemma get_set_obj_ne i j o w : i <> j -> get_obj j (set_obj i o w) = get_obj j w.
Proof. by destruct i, j. Qed.

Lemma get_obj_set_stream i j s w : get_obj j (set_stream i s w) = get_obj j w.
Proof. by destruct i, j. Qed.

Lemma get_stream_set_obj i j o w : get_stream j (set_obj i o w) = get_stream j w.
Proof. by destruct i, j. Qed.

Lemma get_stream_set_cout i t w : get_stream i (set_cout t w) = get_stream i w.
Proof. by destruct i. Qed.

Lemma get_stream_set_cerr i t w : get_stream i (set_cerr t w) = get_stream i w.
Proof. by destruct i. Qed.

Lemma get_obj_set_cout i t w : get_obj i (set_cout t w) = get_obj i w.
Proof. by destruct i. Qed.

Lemma get_obj_set_cerr i t w : get_obj i (set_cerr t w) = get_obj i w.
Proof. by destruct i. Qed.

Lemma cout_set_stream i s w : cout (set_stream i s w) = cout w.
Proof. by destruct i. Qed.

Lemma cerr_set_stream i s w : cerr (set_stream i s w) = cerr w.
Proof. by destruct i. Qed.

Lemma cout_set_obj i o w : cout (set_obj i o w) = cout w.
Proof. by destruct i. Qed.

Lemma cerr_set_obj i o w : cerr (set_obj i o w) = cerr w.
Proof. by destruct i. Qed.

Lemma fs_set_stream i s w : fs (set_stream i s w) = fs w.
Proof. by destruct i. Qed.

Lemma fs_set_obj i o w : fs (set_obj i o w) = fs w.
Proof. by destruct i. Qed.

Lemma set_cout_set_cout t t' w : set_cout t (set_cout t' w) = set_cout t w.
Proof. reflexivity. Qed.

Lemma set_cerr_set_cerr t t' w : set_cerr t (set_cerr t' w) = set_cerr t w.
Proof. reflexivity. Qed.

Lemma cout_set_cout t w : cout (set_cout t w) = t.
Proof. reflexivity. Qed.

Lemma cerr_set_cerr t w : cerr (set_cerr t w) = t.
Proof. reflexivity. Qed.

Lemma cout_set_cerr t w : cout (set_cerr t w) = cout w.
Proof. reflexivity. Qed.

Lemma cerr_set_cout t w : cerr (set_cout t w) = cerr w.
Proof. reflexivity. Qed.

Lemma fs_set_cout t w : fs (set_cout t w) = fs w.
Proof. reflexivity. Qed.

Lemma fs_set_cerr t w : fs (set_cerr t w) = fs w.
Proof. reflexivity. Qed.

#[export] Hint Rewrite set_cout_set_cout set_cerr_set_cerr cout_set_cout cerr_set_cerr
  cout_set_cerr cerr_set_cout fs_set_cout fs_set_cerr : chk.
#[export] Hint Rewrite get_set_stream get_set_obj get_obj_set_stream get_stream_set_obj
  get_stream_set_cout get_stream_set_cerr get_obj_set_cout get_obj_set_cerr
  cout_set_stream cerr_set_stream cout_set_obj cerr_set_obj fs_set_stream fs_set_obj
  set_set_stream set_get_stream : chk.
#[export] Hint Rewrite get_set_stream_ne get_set_obj_ne using done : chk.

(** [proc_run]: unfold the monad and the primitive operations, and reduce the
    matches on outcomes that this exposes. *)
Ltac proc_run :=
  repeat (progress (
    unfold mbind, mret, Proc_bind, Proc_ret, exit, undefined, stored, cout_put, cerr_put,
      stream_do, stream_upd, stream_get, obj_get, obj_upd, fs_lookup in *;
    cbv beta match in *)).
