(* ===== verification/Verdict.v ===== *)
(** * Exit codes and the verdict reporter [quitf]

    The exit codes (testlib.h:21-27), [setName] (lines 147-150) and [quitf]
    (lines 152-176).  [quitf] prints the label that belongs to the exit code,
    formats the message with [vsnprintf] into a buffer of 1024 bytes, prints
    the buffer and a newline, and calls [exit].

    [vsnprintf] is modelled in [Printf.v]; where it answers [None] (a
    directive that is invalid or outside the model, an argument that is
    missing or of another type) [quitf] is [Undefined].  The enumeration
    [Verdict] is the abstract view of the six codes. *)

From S2P Require Import Prelude CType NumGet Printf IfStream Process.

Local Open Scope Z_scope.
Local Open Scope chk_scope.

(** ** Exit codes *)

Definition _ok : Z := 0.
Definition _wa : Z := 1.
Definition _pe : Z := 2.
Definition _fail : Z := 3.
Definition _dirt : Z := 4.
Definition _points : Z := 7.

(** The verdicts a checker can report. *)
Inductive Verdict : Type :=
| Accepted | WrongAnswer | PresentationError | InternalFail | Dirt | PartialScore.

#[export] Instance Verdict_eq_dec : EqDecision Verdict.
Proof. solve_decision. Defined.

Definition all_verdicts : list Verdict :=
  [Accepted; WrongAnswer; PresentationError; InternalFail; Dirt; PartialScore].

Definition exit_code (v : Verdict) : Z :=
  match v with
  | Accepted => _ok
  | WrongAnswer => _wa
  | PresentationError => _pe
  | InternalFail => _fail
  | Dirt => _dirt
  | PartialScore => _points
  end.

Definition verdict_of (code : Z) : option Verdict :=
  if code =? _ok then Some Accepted
  else if code =? _wa then Some WrongAnswer
  else if code =? _pe then Some PresentationError
  else if code =? _fail then Some InternalFail
  else if code =? _dirt then Some Dirt
  else if code =? _points then Some PartialScore
  else None.

(** The label [quitf] prints for an exit code: the chain of comparisons of
    lines 156-168, which prints nothing for any other code. *)
Definition label (exitCode : Z) : string :=
  if exitCode =? _ok then "OK "
  else if exitCode =? _wa then "Wrong Answer "
  else if exitCode =? _pe then "Presentation Error "
  else if exitCode =? _fail then "FAIL "
  else if exitCode =? _dirt then "DIRT "
  else if exitCode =? _points then "points "
  else "".

(** ** [setName] and [quitf] *)

(** [setName] ignores its arguments. *)
Definition setName (format : string) (args : list fmt_arg) : Proc unit := mret tt.

(** [quitf] does not return: its result type has no value.  [buffer] is
    the C string that [vsnprintf] leaves in the array of 1024 bytes. *)
Definition quitf (exitCode : Z) (format : string) (args : list fmt_arg) : Proc Empty_set :=
  cout_put (label exitCode);;
  buffer ← stored (vsnprintf 1024 format args);
  cout_put (buffer +:+ endl);;
  exit exitCode.

(** ** The table of codes *)

Lemma exit_code_inj : Inj (=) (=) exit_code.
Proof. intros [] [] H; (done || discriminate H). Qed.

Lemma verdict_of_exit_code v : verdict_of (exit_code v) = Some v.
Proof. by destruct v. Qed.

Lemma verdict_of_Some code v : verdict_of code = Some v -> code = exit_code v.
Proof.
  unfold verdict_of. repeat case_test; intros [= <-];
    match goal with H : (_ =? _) = true |- _ => by apply Z.eqb_eq in H end.
Qed.

Lemma verdict_of_None code : verdict_of code = None <-> forall v, code <> exit_code v.
Proof.
  split.
  - intros H v ->. by rewrite verdict_of_exit_code in H.
  - intros H. destruct (verdict_of code) as [v|] eqn:E; [|done].
    by apply verdict_of_Some, H in E.
Qed.

Lemma label_unknown code : verdict_of code = None -> label code = "".
Proof. unfold verdict_of, label. by repeat case_test. Qed.

Lemma label_known code v : verdict_of code = Some v -> label code <> "".
Proof. unfold verdict_of, label. by repeat case_test. Qed.

(** ** [quitf] in closed form *)

Lemma quitf_run exitCode format args w :
  quitf exitCode format args w =
  match vsnprintf 1024 format args with
  | Some buffer =>
      Exited exitCode (set_cout (cout w +:+ label exitCode +:+ (buffer +:+ endl)) w)
  | None => Undefined
  end.
Proof.
  unfold quitf. proc_run. destruct (vsnprintf 1024 format args); [|done].
  by rewrite set_cout_set_cout, cout_set_cout, <- string_app_assoc.
Qed.

Lemma quitf_plain exitCode msg args w :
  plain (list_ascii_of_string msg) -> (String.length msg < 1024)%nat ->
  quitf exitCode msg args w =
  Exited exitCode (set_cout (cout w +:+ label exitCode +:+ msg +:+ endl) w).
Proof. intros Hp Hl. by rewrite quitf_run, vsnprintf_short. Qed.

Lemma quitf_message exitCode format args msg w :
  vsnprintf 1024 format args = Some msg ->
  quitf exitCode format args w =
  Exited exitCode (set_cout (cout w +:+ label exitCode +:+ msg +:+ endl) w).
Proof. intros He. by rewrite quitf_run, He, string_app_assoc. Qed.

(** ** The reporter *)

(** C2: the verdict table.  For each verdict, [quitf] with the code of the
    verdict and a message of fewer than 1024 characters without directives
    appends the label of the table, the message and a newline to [cout],
    writes nothing to [cerr], and exits with the code of the table. *)
Theorem quitf_verdict_table v msg args w :
  plain (list_ascii_of_string msg) -> (String.length msg < 1024)%nat ->
  quitf (exit_code v) msg args w =
  Exited match v with
         | Accepted => 0 | WrongAnswer => 1 | PresentationError => 2
         | InternalFail => 3 | Dirt => 4 | PartialScore => 7
         end
    (set_cout (cout w +:+
               match v with
               | Accepted => "OK " | WrongAnswer => "Wrong Answer "
               | PresentationError => "Presentation Error " | InternalFail => "FAIL "
               | Dirt => "DIRT " | PartialScore => "points "
               end +:+ msg +:+ endl) w).
Proof. intros Hp Hl. rewrite quitf_plain by done. by destruct v. Qed.

Lemma quitf_verdict_table_witness :
  quitf 0 "answer is correct" [] (opened_world $"3 5" $"8" $"8") =
  Exited 0 (set_cout "OK answer is correct
" (opened_world $"3 5" $"8" $"8")).
Proof.
  exact (quitf_verdict_table Accepted "answer is correct" [] (opened_world $"3 5" $"8" $"8")
           ltac:(by apply (bool_decide_unpack _); vm_compute) ltac:(simpl; lia)).
Defined.

(** C27: [quitf] never returns, and the status it exits with is the code
    it was given, whatever the format, the arguments and the state of the
    process: the exit code is a function of the verdict alone. *)
Theorem quitf_exit_code exitCode format args w :
  (forall a w', quitf exitCode format args w <> Returned a w') /\
  (forall status w', quitf exitCode format args w = Exited status w' -> status = exitCode).
Proof.
  split; [by intros []|]. intros status w'. rewrite quitf_run.
  destruct (vsnprintf 1024 format args); [|done]. by intros [= <- _].
Qed.

(** C35: the message is cut to the buffer and to a C string.  What [quitf]
    appends to [cout] is the label, a beginning of the expanded message of
    at most 1023 characters and without a NUL, and a newline; nothing is
    written to [cerr]. *)
Theorem quitf_truncates exitCode format args w status w' :
  quitf exitCode format args w = Exited status w' ->
  exists out buffer,
    format_c (list_ascii_of_string (c_str format)) args = Some out /\
    list_ascii_of_string buffer `prefix_of` out /\
    (NUL ∉ list_ascii_of_string buffer) /\ (String.length buffer <= 1023)%nat /\
    cout w' = cout w +:+ label exitCode +:+ buffer +:+ endl /\ cerr w' = cerr w.
Proof.
  rewrite quitf_run. destruct (vsnprintf 1024 format args) as [buffer|] eqn:E; [|done].
  intros [= _ <-]. destruct (vsnprintf_prefix _ _ _ _ E) as (out & Ho & Hp).
  exists out, buffer. split_and!; try done.
  - by eapply vsnprintf_no_nul.
  - by apply vsnprintf_length in E.
Qed.

Lemma quitf_truncates_witness :
  exists out buffer,
    format_c (list_ascii_of_string (c_str "found %c%c, expected %d"))
      [ArgChar "x"; ArgInt 0; ArgInt 9] = Some out /\
    list_ascii_of_string buffer `prefix_of` out /\
    (NUL ∉ list_ascii_of_string buffer) /\ (String.length buffer <= 1023)%nat /\
    cout (set_cout "Wrong Answer found x
" (opened_world [] [] [])) = "" +:+ label 1 +:+ buffer +:+ endl /\
    cerr (set_cout "Wrong Answer found x
" (opened_world [] [] [])) = "".
Proof.
  exact (quitf_truncates 1 "found %c%c, expected %d" [ArgChar "x"; ArgInt 0; ArgInt 9]
           (opened_world [] [] []) 1
           (set_cout "Wrong Answer found x
" (opened_world [] [] [])) eq_refl).
Defined.

(** C36: a code outside the table.  [quitf] accepts any [int]: for a code
    that is none of the six it prints the message with no label and exits
    with that code, of which the parent process sees the low eight bits. *)
Theorem quitf_unlisted_code exitCode msg args w :
  verdict_of exitCode = None ->
  plain (list_ascii_of_string msg) -> (String.length msg < 1024)%nat ->
  quitf exitCode msg args w = Exited exitCode (set_cout (cout w +:+ msg +:+ endl) w) /\
  wait_status (quitf exitCode msg args w) = Some (exitCode mod 256).
Proof.
  intros Hv Hp Hl. rewrite quitf_plain by done. by rewrite (label_unknown _ Hv).
Qed.

Lemma quitf_unlisted_code_witness :
  quitf 256 "anything" [] (opened_world [] [] []) =
    Exited 256 (set_cout "anything
" (opened_world [] [] [])) /\
  wait_status (quitf 256 "anything" [] (opened_world [] [] [])) = Some 0.
Proof.
  exact (quitf_unlisted_code 256 "anything" [] (opened_world [] [] []) eq_refl
           ltac:(by apply (bool_decide_unpack _); vm_compute) ltac:(simpl; lia)).
Defined.

