(* ===== verification/InStream.v ===== *)
(** * Class [InStream]

    The class of testlib.h:37-114 and its three objects (lines 116-118).
    Every reader has the same shape: [readCount++], which is undefined when
    the counter, an [int], is at [INT_MAX]; an extraction from the wrapped
    stream; and, when the stream has failed, a diagnostic on
    [std::cerr] that tells an exhausted stream from a malformed token by
    [stream.eof()], followed by [exit(_pe)].  [read_with] is that shape for any
    [Extractor]; [readInt], [readString], [readDouble] and [readLine] are
    written out as the source has them and shown to be instances of it.  [seekEof] skips blanks
    with [std::ws] and answers [stream.eof()].

    A method takes the identifier [this] of the object it is called on; the
    object's [stream] field says which stream of the world it reads. *)

From Stdlib Require Import Floats.SpecFloat.
From stdpp Require Import gmap.
From S2P Require Import Prelude CType NumGet StrToD IfStream Extract Process Verdict.

Local Open Scope Z_scope.

(** The object with its counter one higher. *)
Definition bump (o : InStream) : InStream :=
  {| stream := stream o; name := name o; readCount := readCount o + 1 |}.

(** [readCount++] on the [int] member: at [INT_MAX] the increment
    overflows, which is undefined behaviour. *)
Definition incr_readCount (this : StreamId) : Proc unit :=
  o ← obj_get this;
  if readCount o <? INT_MAX then obj_upd this bump else undefined.

(** ** The methods *)

Definition initFile (this : StreamId) (fileName : string) : Proc unit :=
  o ← obj_get this;
  content ← fs_lookup (c_str fileName);
  stream_upd (stream o) (open content);;
  is_opened ← stream_get (stream o) is_open;
  if negb is_opened then
    cerr_put ("Failed to open " +:+ name o +:+ " file: " +:+ fileName +:+ endl);;
    exit _fail
  else mret tt.

Definition readInt (this : StreamId) : Proc Z :=
  incr_readCount this;;
  o ← obj_get this;
  result ← stream_do (stream o) extract_int;
  failed ← stream_get (stream o) fail;
  if (failed : bool) then
    at_eof ← stream_get (stream o) eof;
    (if (at_eof : bool)
     then cerr_put ("Unexpected EOF when reading integer from " +:+ name o +:+ endl)
     else cerr_put ("Failed to read integer from " +:+ name o +:+ endl));;
    exit _pe
  else stored result.

Definition readString (this : StreamId) : Proc string :=
  incr_readCount this;;
  o ← obj_get this;
  result ← stream_do (stream o) extract_string;
  failed ← stream_get (stream o) fail;
  if (failed : bool) then
    at_eof ← stream_get (stream o) eof;
    (if (at_eof : bool)
     then cerr_put ("Unexpected EOF when reading string from " +:+ name o +:+ endl)
     else cerr_put ("Failed to read string from " +:+ name o +:+ endl));;
    exit _pe
  else mret (default EmptyString result).

Definition readDouble (this : StreamId) : Proc spec_float :=
  incr_readCount this;;
  o ← obj_get this;
  result ← stream_do (stream o) extract_double;
  failed ← stream_get (stream o) fail;
  if (failed : bool) then
    at_eof ← stream_get (stream o) eof;
    (if (at_eof : bool)
     then cerr_put ("Unexpected EOF when reading double from " +:+ name o +:+ endl)
     else cerr_put ("Failed to read double from " +:+ name o +:+ endl));;
    exit _pe
  else stored result.

Definition readLine (this : StreamId) : Proc string :=
  incr_readCount this;;
  o ← obj_get this;
  result ← stream_do (stream o) getline;
  failed ← stream_get (stream o) fail;
  if (failed : bool) then
    at_eof ← stream_get (stream o) eof;
    (if (at_eof : bool)
     then cerr_put ("Unexpected EOF when reading line from " +:+ name o +:+ endl)
     else cerr_put ("Failed to read line from " +:+ name o +:+ endl));;
    exit _pe
  else mret (default EmptyString result).

Definition seekEof (this : StreamId) : Proc bool :=
  o ← obj_get this;
  stream_upd (stream o) ws;;
  stream_get (stream o) eof.

(** ** The shape the readers share

    [finish] is [return result]: it reads the local that the extraction was
    to store.  An [int result;] or a [double result;] that was not stored is
    uninitialised and reading it is undefined; a [std::string result;]
    starts out empty. *)
Definition read_with {A : Type} (E : Extractor A) (finish : option A -> Proc A)
    (eof_msg fail_msg : string) (this : StreamId) : Proc A :=
  incr_readCount this;;
  o ← obj_get this;
  result ← stream_do (stream o) (extract E);
  failed ← stream_get (stream o) fail;
  if (failed : bool) then
    at_eof ← stream_get (stream o) eof;
    (if (at_eof : bool)
     then cerr_put (eof_msg +:+ name o +:+ endl)
     else cerr_put (fail_msg +:+ name o +:+ endl));;
    exit _pe
  else finish result.

(** The stream the object [this] reads. *)
Definition stream_of_obj (this : StreamId) (w : World) : ifstream :=
  get_stream (stream (get_obj this w)) w.

(** The world after a read through [this] left its stream as [s']: the
    counter is bumped and the stream replaced. *)
Definition after_read (this : StreamId) (s' : ifstream) (w : World) : World :=
  set_stream (stream (get_obj this w)) s' (set_obj this (bump (get_obj this w)) w).

(** The line a failed read writes to [std::cerr]. *)
Definition diagnostic (eof_msg fail_msg : string) (o : InStream) (s' : ifstream) : string :=
  (if eof s' then eof_msg else fail_msg) +:+ name o +:+ endl.

(** ** The invariant of the world *)

Definition wf_world (w : World) : Prop :=
  forall i, wf_ifstream (get_stream i w) /\ 0 <= readCount (get_obj i w) <= INT_MAX.

(** The counter of the object can take one more read. *)
Definition can_count (this : StreamId) (w : World) : Prop :=
  readCount (get_obj this w) < INT_MAX.

(** The counter of the object can take as many reads as its stream has
    characters left, and one more. *)
Definition has_room (this : StreamId) (w : World) : Prop :=
  readCount (get_obj this w) + Z.of_nat (length (rdbuf (stream_of_obj this w))) < INT_MAX.

(** Every object has room: the invariant of a sequence of reads. *)
Definition roomy (w : World) : Prop := forall i, has_room i w.

#[export] Instance can_count_dec this w : Decision (can_count this w).
Proof. unfold can_count. apply _. Defined.

#[export] Instance has_room_dec this w : Decision (has_room this w).
Proof. unfold has_room. apply _. Defined.

(** Every object wraps the stream of its name, as after static
    initialisation. *)
Definition bound (w : World) : Prop := forall i, stream (get_obj i w) = i.

#[export] Instance StreamId_finite_forall (P : StreamId -> Prop) `{forall i, Decision (P i)} :
  Decision (forall i, P i).
Proof.
  destruct (decide (P Inf)) as [?|N]; [|right; by intros H'; apply N].
  destruct (decide (P Ouf)) as [?|N]; [|right; by intros H'; apply N].
  destruct (decide (P Ans)) as [?|N]; [|right; by intros H'; apply N].
  left. by intros [].
Defined.

#[export] Instance wf_world_dec w : Decision (wf_world w).
Proof. unfold wf_world. apply _. Defined.

#[export] Instance bound_dec w : Decision (bound w).
Proof. unfold bound. apply _. Defined.

#[export] Instance roomy_dec w : Decision (roomy w).
Proof. unfold roomy. apply _. Defined.

(** The procedure [m], run in [w], ends in a world that satisfies the
    invariant (it returns or exits; it is not undefined). *)
Definition leaves_wf {A : Type} (m : Proc A) (w : World) : Prop :=
  exists w', final_world (m w) = Some w' /\ wf_world w'.

(** The world [o] in which a read through [this] started in [w] ends: one
    more read is counted, and nothing but the object and its stream
    changed. *)
Definition counted (this : StreamId) (w : World) (o : option World) : Prop :=
  exists w', o = Some w' /\
    readCount (get_obj this w') = readCount (get_obj this w) + 1 /\
    (forall j, this <> j -> get_obj j w' = get_obj j w) /\
    (forall j, stream (get_obj this w) <> j -> get_stream j w' = get_stream j w) /\
    cout w' = cout w /\ fs w' = fs w.

(** ** The readers are instances of [read_with] *)

Lemma readInt_read_with this :
  readInt this = read_with int_extractor stored
    "Unexpected EOF when reading integer from " "Failed to read integer from " this.
Proof. reflexivity. Qed.

Lemma readString_read_with this :
  readString this = read_with string_extractor (fun r => mret (default EmptyString r))
    "Unexpected EOF when reading string from " "Failed to read string from " this.
Proof. reflexivity. Qed.

Lemma readDouble_read_with this :
  readDouble this = read_with double_extractor stored
    "Unexpected EOF when reading double from " "Failed to read double from " this.
Proof. reflexivity. Qed.

Lemma readLine_read_with this :
  readLine this = read_with line_extractor (fun r => mret (default EmptyString r))
    "Unexpected EOF when reading line from " "Failed to read line from " this.
Proof. reflexivity. Qed.

(** ** [read_with] in closed form *)

Section read_with.
Context {A : Type} (E : Extractor A) (finish : option A -> Proc A).
Context (eof_msg fail_msg : string).
Hypothesis finish_stored : forall v, finish (Some v) = mret v.
Implicit Types (this : StreamId) (w : World).

Lemma incr_readCount_run this w :
  incr_readCount this w =
  if readCount (get_obj this w) <? INT_MAX
  then Returned tt (set_obj this (bump (get_obj this w)) w) else Undefined.
Proof. unfold incr_readCount. proc_run. by destruct (_ <? _). Qed.

Lemma read_with_run this w :
  read_with E finish eof_msg fail_msg this w =
  if readCount (get_obj this w) <? INT_MAX then
    let o := get_obj this w in
    let r := extract E (stream_of_obj this w) in
    let w' := after_read this r.1 w in
    if fail r.1 then
      Exited _pe (set_cerr (cerr w +:+ diagnostic eof_msg fail_msg o r.1) w')
    else finish r.2 w'
  else Undefined.
Proof.
  unfold read_with. rewrite (run_bind_unfold (incr_readCount this)), incr_readCount_run.
  destruct (_ <? _); [|done].
  unfold after_read, stream_of_obj, diagnostic. proc_run.
  rewrite !get_set_obj. simpl stream. rewrite !get_stream_set_obj.
  destruct (extract E _) as [s' r]. simpl. rewrite !get_set_stream.
  destruct (fail s'); [|done].
  rewrite !get_set_stream. destruct (eof s'); simpl;
    by rewrite cerr_set_stream, cerr_set_obj.
Qed.

(** A read at the limit of the counter. *)
Lemma read_with_overflow this w : ~ can_count this w ->
  read_with E finish eof_msg fail_msg this w = Undefined.
Proof.
  intros Hc. rewrite read_with_run. by destruct (Z.ltb_spec (readCount (get_obj this w)) INT_MAX).
Qed.

Lemma read_with_counted this w : can_count this w ->
  read_with E finish eof_msg fail_msg this w =
  let r := extract E (stream_of_obj this w) in
  if fail r.1 then
    Exited _pe (set_cerr (cerr w +:+ diagnostic eof_msg fail_msg (get_obj this w) r.1)
                  (after_read this r.1 w))
  else finish r.2 (after_read this r.1 w).
Proof. intros Hc%Z.ltb_lt. by rewrite read_with_run, Hc. Qed.

(** A read that succeeds. *)
Lemma read_with_ok this w s' v : can_count this w ->
  extract E (stream_of_obj this w) = (s', Some v) -> fail s' = false ->
  read_with E finish eof_msg fail_msg this w = Returned v (after_read this s' w).
Proof. intros Hc He Hf. rewrite read_with_counted, He by done. simpl. by rewrite Hf, finish_stored. Qed.

(** A read that fails. *)
Lemma read_with_fail this w s' r : can_count this w ->
  extract E (stream_of_obj this w) = (s', r) -> fail s' = true ->
  read_with E finish eof_msg fail_msg this w =
  Exited _pe (set_cerr (cerr w +:+ diagnostic eof_msg fail_msg (get_obj this w) s')
                (after_read this s' w)).
Proof. intros Hc He Hf. rewrite read_with_counted, He by done. simpl. by rewrite Hf. Qed.

(** The outcome of a read on the two branches of its test. *)
Lemma read_with_cases this w : can_count this w ->
  let s' := (extract E (stream_of_obj this w)).1 in
  (fail s' = true /\
   read_with E finish eof_msg fail_msg this w =
   Exited _pe (set_cerr (cerr w +:+ diagnostic eof_msg fail_msg (get_obj this w) s')
                 (after_read this s' w))) \/
  (fail s' = false /\ exists v, (extract E (stream_of_obj this w)).2 = Some v /\
   read_with E finish eof_msg fail_msg this w = Returned v (after_read this s' w)).
Proof.
  intros Hc. simpl. pose proof (extract_stored (stream_of_obj this w)) as Hs.
  destruct (extract E (stream_of_obj this w)) as [s' r] eqn:He. simpl in *.
  destruct (fail s') eqn:Hf; [left | right]; split; try done.
  - by eapply read_with_fail.
  - destruct (Hs eq_refl) as [v ->]. exists v. split; [done|]. by apply read_with_ok.
Qed.

(** A read is undefined only at the limit of the counter. *)
Lemma read_with_undefined this w :
  read_with E finish eof_msg fail_msg this w = Undefined <-> ~ can_count this w.
Proof.
  split; [|apply read_with_overflow]. intros Hu Hc.
  destruct (read_with_cases this w Hc) as [[_ E']|[_ (v & _ & E')]]; congruence.
Qed.

End read_with.

(** ** The world after a read *)

Lemma stream_after_read this s' w : stream_of_obj this (after_read this s' w) = s'.
Proof. unfold stream_of_obj, after_read. by autorewrite with chk. Qed.

Lemma obj_after_read this s' w : get_obj this (after_read this s' w) = bump (get_obj this w).
Proof. unfold after_read. by autorewrite with chk. Qed.

Lemma obj_after_read_ne this j s' w : this <> j ->
  get_obj j (after_read this s' w) = get_obj j w.
Proof. intros H. unfold after_read. by autorewrite with chk. Qed.

Lemma get_stream_after_read this j s' w : stream (get_obj this w) <> j ->
  get_stream j (after_read this s' w) = get_stream j w.
Proof. intros H. unfold after_read. by autorewrite with chk. Qed.

Lemma get_stream_after_read_eq this s' w :
  get_stream (stream (get_obj this w)) (after_read this s' w) = s'.
Proof. unfold after_read. by autorewrite with chk. Qed.

Lemma cout_after_read this s' w : cout (after_read this s' w) = cout w.
Proof. unfold after_read. by autorewrite with chk. Qed.

Lemma cerr_after_read this s' w : cerr (after_read this s' w) = cerr w.
Proof. unfold after_read. by autorewrite with chk. Qed.

Lemma fs_after_read this s' w : fs (after_read this s' w) = fs w.
Proof. unfold after_read. by autorewrite with chk. Qed.

Lemma readCount_after_read this s' w :
  readCount (get_obj this (after_read this s' w)) = readCount (get_obj this w) + 1.
Proof. by rewrite obj_after_read. Qed.

Lemma stream_obj_after_read this j s' w :
  stream (get_obj j (after_read this s' w)) = stream (get_obj j w).
Proof.
  destruct (decide (this = j)) as [->|H]; [by rewrite obj_after_read|].
  by rewrite obj_after_read_ne.
Qed.

#[export] Hint Rewrite stream_after_read obj_after_read get_stream_after_read_eq
  cout_after_read cerr_after_read fs_after_read stream_obj_after_read : chk.
#[export] Hint Rewrite obj_after_read_ne get_stream_after_read using done : chk.

Lemma wf_after_read this s' w : wf_world w -> can_count this w -> wf_ifstream s' ->
  wf_world (after_read this s' w).
Proof.
  intros Hw Hc Hs j. split.
  - destruct (decide (stream (get_obj this w) = j)) as [<-|H]; autorewrite with chk;
      [done | apply Hw].
  - destruct (decide (this = j)) as [<-|H]; autorewrite with chk; [|apply Hw].
    unfold can_count in Hc. simpl. destruct (Hw this). lia.
Qed.

Lemma bound_after_read this s' w : bound w -> bound (after_read this s' w).
Proof. intros H j. by autorewrite with chk. Qed.

Lemma wf_set_cerr t w : wf_world w -> wf_world (set_cerr t w).
Proof. intros H j. autorewrite with chk. apply H. Qed.

Lemma wf_set_cout t w : wf_world w -> wf_world (set_cout t w).
Proof. intros H j. autorewrite with chk. apply H. Qed.

Lemma wf_opened_world i o a : wf_world (opened_world i o a).
Proof. intros []; split; simpl; (apply wf_stream_of || done). Qed.

Lemma has_room_can_count this w : has_room this w -> can_count this w.
Proof. unfold has_room, can_count. lia. Qed.

(** Room is kept when the counter stays and the stream does not grow. *)
Lemma has_room_shrink i w w' : has_room i w ->
  readCount (get_obj i w') = readCount (get_obj i w) ->
  rdbuf (stream_of_obj i w') `suffix_of` rdbuf (stream_of_obj i w) -> has_room i w'.
Proof. unfold has_room. intros H -> Hs%suffix_length. lia. Qed.

(** Replacing a stream by one with less to read keeps the room of every
    object. *)
Lemma roomy_set_stream j s' w : roomy w -> rdbuf s' `suffix_of` rdbuf (get_stream j w) ->
  roomy (set_stream j s' w).
Proof.
  intros Hr Hs i. apply (has_room_shrink i w); [done | by autorewrite with chk |].
  unfold stream_of_obj. autorewrite with chk.
  destruct (decide (j = stream (get_obj i w))) as [<-|Hn]; by autorewrite with chk.
Qed.

Lemma bound_opened_world i o a : bound (opened_world i o a).
Proof. by intros []. Qed.

Lemma wf_initial_world files : wf_world (initial_world files).
Proof. intros []; split; simpl; (apply wf_closed_stream || done). Qed.

(** ** [initFile] in closed form *)

(** [initFile] opens the stream of the object on the file at the path, which
    is the name up to its first NUL, and exits with [_fail] after a
    diagnostic when the stream is not open afterwards. *)
Lemma initFile_run this fileName w :
  initFile this fileName w =
  let o := get_obj this w in
  let s' := open (fs w !! c_str fileName) (stream_of_obj this w) in
  let w' := set_stream (stream o) s' w in
  if is_open s' then Returned tt w'
  else Exited _fail
         (set_cerr (cerr w +:+ "Failed to open " +:+ name o +:+ " file: " +:+ fileName +:+ endl)
            w').
Proof.
  unfold initFile, stream_of_obj. proc_run. autorewrite with chk.
  destruct (is_open _); [done|]. simpl. by autorewrite with chk.
Qed.

(** On a closed stream and a file that exists, the stream is fresh on the
    contents of the file. *)
Lemma initFile_opens this fileName c w :
  opened (stream_of_obj this w) = false -> fs w !! c_str fileName = Some c ->
  initFile this fileName w = Returned tt (set_stream (stream (get_obj this w)) (stream_of c) w).
Proof. intros Ho Hc. rewrite initFile_run, Hc. cbv zeta. by rewrite open_ok. Qed.

(** On a closed stream and a file that cannot be opened, the process ends
    with status 3; the diagnostic names the object and the file. *)
Lemma initFile_missing this fileName w :
  opened (stream_of_obj this w) = false -> fs w !! c_str fileName = None ->
  exists w', initFile this fileName w = Exited 3 w' /\ cout w' = cout w /\
    cerr w' = cerr w +:+ "Failed to open " +:+ name (get_obj this w) +:+ " file: "
              +:+ fileName +:+ endl.
Proof.
  intros Ho Hc. rewrite initFile_run, Hc. cbv zeta.
  rewrite is_open_open, Ho. simpl. eexists. split; [done|]. by autorewrite with chk.
Qed.


(** ** [seekEof] in closed form *)

Lemma seekEof_run this w :
  seekEof this w =
  Returned (eof (ws (stream_of_obj this w)))
    (set_stream (stream (get_obj this w)) (ws (stream_of_obj this w)) w).
Proof.
  unfold seekEof, stream_of_obj. proc_run. by autorewrite with chk.
Qed.

(** ** Facts that hold of every reader *)

Section read_with_facts.
Context {A : Type} (E : Extractor A) (finish : option A -> Proc A).
Context (eof_msg fail_msg : string).
Hypothesis finish_stored : forall v, finish (Some v) = mret v.
Implicit Types (this : StreamId) (w : World).

#[local] Abbreviation read := (read_with E finish eof_msg fail_msg).

(** A read never has undefined behaviour: when the stream has not failed the
    extraction has stored a value. *)
Lemma read_with_defined this w : can_count this w -> read this w <> Undefined.
Proof. intros Hc Hu. by apply (read_with_undefined E finish eof_msg fail_msg finish_stored) in Hu. Qed.

(** The two outcomes of a read, whatever the counter: a read that is not
    undefined was counted. *)
Lemma read_with_inv this w : read this w <> Undefined -> can_count this w.
Proof.
  intros Hu. destruct (decide (can_count this w)) as [|Hn]; [done|].
  destruct Hu. by apply read_with_overflow.
Qed.

(** A read that exits does so with [_pe], after one line of diagnostic on
    [cerr] and nothing on [cout], and the stream has failed. *)
Lemma read_with_exited this w status w' : read this w = Exited status w' ->
  status = _pe /\ cout w' = cout w /\ fail (stream_of_obj this w') = true /\
  cerr w' = cerr w +:+ diagnostic eof_msg fail_msg (get_obj this w) (stream_of_obj this w').
Proof.
  intros Hr. assert (can_count this w) as Hc by (apply read_with_inv; congruence).
  revert Hr. destruct (read_with_cases E finish eof_msg fail_msg finish_stored this w Hc)
    as [[Hf ->]|[_ (v & _ & ->)]]; [|done].
  intros [= <- <-]. unfold stream_of_obj. by autorewrite with chk.
Qed.

(** A read that returns has stored the value it returns, has not failed, and
    has written nothing. *)
Lemma read_with_returned this w v w' : read this w = Returned v w' ->
  (extract E (stream_of_obj this w)).2 = Some v /\
  w' = after_read this (extract E (stream_of_obj this w)).1 w /\
  fail (stream_of_obj this w') = false.
Proof.
  intros Hr. assert (can_count this w) as Hc by (apply read_with_inv; congruence).
  revert Hr. destruct (read_with_cases E finish eof_msg fail_msg finish_stored this w Hc)
    as [[Hf ->]|[Hf (v' & Hv & ->)]]; [done|].
  intros [= <- <-]. by autorewrite with chk.
Qed.

(** Whatever the outcome, the world it leaves is the world after the read,
    up to the diagnostic. *)
Lemma read_with_final this w : can_count this w ->
  exists w', final_world (read this w) = Some w' /\
    get_obj this w' = bump (get_obj this w) /\
    stream_of_obj this w' = (extract E (stream_of_obj this w)).1 /\
    (forall j, this <> j -> get_obj j w' = get_obj j w) /\
    (forall j, stream (get_obj this w) <> j -> get_stream j w' = get_stream j w) /\
    cout w' = cout w /\ fs w' = fs w.
Proof.
  intros Hc. destruct (read_with_cases E finish eof_msg fail_msg finish_stored this w Hc)
    as [[Hf ->]|[Hf (v' & Hv & ->)]]; eexists; (split; [done|]);
    unfold stream_of_obj; autorewrite with chk;
    repeat split; try done; intros j Hj; by autorewrite with chk.
Qed.

(** The invariant of the world is kept, whatever the outcome. *)
Lemma read_with_wf this w : wf_world w -> can_count this w ->
  exists w', final_world (read this w) = Some w' /\ wf_world w'.
Proof.
  intros Hw Hc. assert (wf_ifstream (extract E (stream_of_obj this w)).1) as Hs
    by apply extract_wf, Hw.
  destruct (read_with_cases E finish eof_msg fail_msg finish_stored this w Hc)
    as [[Hf ->]|[Hf (v' & Hv & ->)]]; eexists; (split; [done|]).
  - by apply wf_set_cerr, wf_after_read.
  - by apply wf_after_read.
Qed.

(** A read that returns has consumed input. *)
Lemma read_with_consumes this w v w' : read this w = Returned v w' ->
  (length (rdbuf (stream_of_obj this w')) < length (rdbuf (stream_of_obj this w)))%nat.
Proof.
  intros (_ & -> & Hf)%read_with_returned. rewrite stream_after_read in *.
  by apply extract_progress.
Qed.

(** A read that returns leaves room for the reads that can follow. *)
Lemma read_with_room this w v w' : has_room this w -> read this w = Returned v w' ->
  has_room this w'.
Proof.
  intros Hr Hw. pose proof (read_with_consumes _ _ _ _ Hw) as Hl.
  apply read_with_returned in Hw as (_ & -> & _). unfold has_room in *.
  rewrite obj_after_read in *. simpl. rewrite stream_after_read in *. lia.
Qed.

(** And the room of the other objects, whose counters it does not touch. *)
Lemma read_with_roomy this w v w' : roomy w -> read this w = Returned v w' -> roomy w'.
Proof.
  intros Hr Hw i. destruct (decide (this = i)) as [<-|Hi]; [by eapply read_with_room|].
  apply read_with_returned in Hw as (_ & -> & _).
  apply (has_room_shrink i w); [done | by autorewrite with chk |].
  unfold stream_of_obj. autorewrite with chk.
  destruct (decide (stream (get_obj this w) = stream (get_obj i w))) as [<-|Hn];
    autorewrite with chk; [apply extract_suffix | done].
Qed.

End read_with_facts.

(** [seekEof] counts nothing and only skips: it keeps the room. *)
Lemma seekEof_room this w : has_room this w ->
  has_room this (set_stream (stream (get_obj this w)) (ws (stream_of_obj this w)) w).
Proof.
  intros Hr. apply (has_room_shrink this w); [done | by autorewrite with chk |].
  unfold stream_of_obj. autorewrite with chk. apply ws_suffix.
Qed.

Lemma seekEof_roomy this w : roomy w ->
  roomy (set_stream (stream (get_obj this w)) (ws (stream_of_obj this w)) w).
Proof. intros Hr. apply roomy_set_stream; [done | apply ws_suffix]. Qed.

(** ** The readers, branch by branch *)

Local Open Scope chk_scope.

Section readers.
Implicit Types (this : StreamId) (w : World).

Lemma good_setstate_no_fail s b e : good s = true -> fail (setstate e false (advance b s)) = false.
Proof. intros G. by destruct (good_setstate_fail (advance b s) G e false). Qed.

(** C1: [readInt] on a stream whose unread input is blanks, then a
    well-formed integer token (an optional sign and digits) whose value fits
    an [int], then a character that is not a digit or the end of the input:
    it returns the value of the token, consumes the blanks and exactly the
    token, raises [eofbit] only if the token ended the input, bumps the
    counter of the object, and writes nothing. *)
Theorem readInt_token this w sp t r :
  can_count this w ->
  good (stream_of_obj this w) = true ->
  rdbuf (stream_of_obj this w) = sp ++ t ++ r ->
  all_sat isspace sp -> int_token t -> stops isdigit r -> in_int (signed_val t) ->
  readInt this w =
    Returned (signed_val t)
      (after_read this (setstate (is_nil r) false (advance r (stream_of_obj this w))) w).
Proof.
  intros Hc G Hb Hsp Ht Hr Hz. rewrite readInt_read_with.
  apply read_with_ok; [done.. | by eapply extract_int_of_token | by apply good_setstate_no_fail].
Qed.

Lemma readInt_token_witness :
  readInt Ouf (opened_world $"3 5" $"  -8 extra" $"-8") =
  Returned (-8)
    (after_read Ouf (stream_of $" extra") (opened_world $"3 5" $"  -8 extra" $"-8")).
Proof.
  exact (readInt_token Ouf (opened_world $"3 5" $"  -8 extra" $"-8") $"  " $"-8" $" extra"
           eq_refl eq_refl eq_refl ltac:(by repeat constructor)
           ltac:(by split; [|repeat constructor]) eq_refl ltac:(done)).
Defined.

(** C4: reading past the last token.  When the stream has not failed and
    nothing but blanks is left (the stream may already be at the end),
    [readInt] exits with status 2; it has written
    "Unexpected EOF when reading integer from <name>" and a newline to
    [cerr], nothing to [cout], and the stream is left empty with [eofbit]
    and [failbit] raised. *)
Theorem readInt_exhausted this w :
  can_count this w ->
  wf_ifstream (stream_of_obj this w) -> fail (stream_of_obj this w) = false ->
  all_sat isspace (rdbuf (stream_of_obj this w)) ->
  readInt this w =
    Exited 2
      (set_cerr (cerr w +:+ "Unexpected EOF when reading integer from "
                 +:+ name (get_obj this w) +:+ endl)
         (after_read this (setstate true true (advance [] (stream_of_obj this w))) w)).
Proof.
  intros Hc Hwf Hf Hb. rewrite readInt_read_with.
  erewrite read_with_fail; [|done|by apply extract_int_exhausted|].
  - unfold diagnostic, eof. simpl. by rewrite orb_true_r.
  - unfold fail. simpl. by rewrite orb_true_r.
Qed.

Lemma readInt_exhausted_witness :
  readInt Ouf (opened_world $"3 5" $" " $"8") =
  Exited 2
    (set_cerr "Unexpected EOF when reading integer from ouf
"
       (after_read Ouf (mk_ifstream true [] true true) (opened_world $"3 5" $" " $"8"))).
Proof.
  exact (readInt_exhausted Ouf (opened_world $"3 5" $" " $"8")
           eq_refl ltac:(by split) eq_refl ltac:(by repeat constructor)).
Defined.

(** C7: [seekEof] never exits and never fails.  On a stream that has not
    failed it consumes the blanks at the front of the input and nothing else,
    answers [true] exactly when nothing but blanks was left, and leaves the
    counter and the output channels alone. *)
Theorem seekEof_spec this w :
  wf_ifstream (stream_of_obj this w) -> fail (stream_of_obj this w) = false ->
  exists w',
    seekEof this w =
      Returned (bool_decide (all_sat isspace (rdbuf (stream_of_obj this w)))) w' /\
    rdbuf (stream_of_obj this w') = drop_while isspace (rdbuf (stream_of_obj this w)) /\
    get_obj this w' = get_obj this w /\ cout w' = cout w /\ cerr w' = cerr w.
Proof.
  intros Hwf Hf. eexists. rewrite seekEof_run. split; [f_equal|].
  - apply eq_true_iff_eq. rewrite bool_decide_eq_true. by apply ws_eof_iff.
  - unfold stream_of_obj. autorewrite with chk. by rewrite <- ws_rdbuf.
Qed.

Lemma seekEof_spec_witness :
  exists w',
    seekEof Ouf (after_read Ouf (stream_of $" extra
") (opened_world $"3 5" $"8 extra
" $"8")) = Returned false w' /\
    rdbuf (stream_of_obj Ouf w') = $"extra
" /\
    get_obj Ouf w' = bump (InStream_new Ouf "ouf") /\ cout w' = "" /\ cerr w' = "".
Proof.
  exact (seekEof_spec Ouf (after_read Ouf (stream_of $" extra
") (opened_world $"3 5" $"8 extra
" $"8")) ltac:(by split) eq_refl).
Defined.

Lemma string_app_neq (a b : string) : b <> EmptyString -> (a +:+ b)%string <> a.
Proof.
  intros Hb H. apply Hb, (string_app_inv_head a). by rewrite string_app_nil_r.
Qed.

Lemma diagnostic_nonempty em fm o s' : diagnostic em fm o s' <> EmptyString.
Proof.
  unfold diagnostic, endl. intros H%(f_equal String.length).
  rewrite !string_app_length in H. simpl in H. lia.
Qed.

(** C25: the only undefined behaviour of a reader is the overflow of its
    counter: [readInt], [readString], [readDouble] and [readLine] are
    undefined exactly when [readCount] is [INT_MAX] at the call, so that
    [readInt] and [readDouble] return their uninitialised local only after
    the extraction stored a value in it; [seekEof], which does not count, is
    never undefined. *)
Theorem readers_defined this w :
  (readInt this w = Undefined <-> ~ can_count this w) /\
  (readString this w = Undefined <-> ~ can_count this w) /\
  (readDouble this w = Undefined <-> ~ can_count this w) /\
  (readLine this w = Undefined <-> ~ can_count this w) /\
  seekEof this w <> Undefined.
Proof.
  rewrite readInt_read_with, readString_read_with, readDouble_read_with,
    readLine_read_with, seekEof_run.
  split_and!; try done; by apply read_with_undefined.
Qed.

(** C8: the failure protocol of the readers.  If [readInt], [readString],
    [readDouble] or [readLine] ends the process, the exit status is 2,
    nothing was written to [cout], a diagnostic was appended to [cerr], and
    the stream is in the failed state. *)
Theorem read_failure_protocol this w status w' :
  readInt this w = Exited status w' \/ readString this w = Exited status w' \/
  readDouble this w = Exited status w' \/ readLine this w = Exited status w' ->
  status = 2 /\ cout w' = cout w /\ fail (stream_of_obj this w') = true /\
  (exists line, cerr w' = cerr w +:+ line /\ line <> EmptyString).
Proof.
  rewrite readInt_read_with, readString_read_with, readDouble_read_with.
  rewrite readLine_read_with.
  intros [H|[H|[H|H]]]; apply read_with_exited in H as (-> & Hc & Hf & He); try done;
    repeat split; try done; eexists; (split; [exact He | apply diagnostic_nonempty]).
Qed.

Lemma read_failure_protocol_witness :
  2 = 2 /\ cout (set_cerr "Failed to read integer from ouf
" (after_read Ouf (mk_ifstream true $"x" false true) (opened_world [] $"x" []))) = "" /\
  fail (mk_ifstream true $"x" false true) = true /\
  (exists line, "Failed to read integer from ouf
" = "" +:+ line /\ line <> EmptyString).
Proof.
  exact (read_failure_protocol Ouf (opened_world [] $"x" []) 2
    (set_cerr "Failed to read integer from ouf
" (after_read Ouf (mk_ifstream true $"x" false true) (opened_world [] $"x" [])))
    (or_introl eq_refl)).
Defined.

(** Printing an [int] and reading it back.  For every [z] in the range
    of [int], [readInt] on blanks, the decimal print of [z], and input that
    does not continue with a digit returns [z] and stops right after the
    printed digits. *)
Theorem readInt_print_int this w sp z r :
  can_count this w ->
  good (stream_of_obj this w) = true ->
  rdbuf (stream_of_obj this w) = sp ++ print_int z ++ r ->
  all_sat isspace sp -> stops isdigit r -> in_int z ->
  readInt this w =
    Returned z (after_read this (setstate (is_nil r) false (advance r (stream_of_obj this w))) w).
Proof.
  intros Hc G Hb Hsp Hr Hz. rewrite readInt_read_with.
  apply read_with_ok; [done.. | by eapply extract_int_print | by apply good_setstate_no_fail].
Qed.

Lemma readInt_print_int_witness :
  readInt Ans (opened_world [] [] $"-2147483648") =
  Returned (-2147483648)
    (after_read Ans (mk_ifstream true [] true false) (opened_world [] [] $"-2147483648")).
Proof.
  exact (readInt_print_int Ans (opened_world [] [] $"-2147483648") [] (-2147483648) []
           eq_refl eq_refl eq_refl ltac:(constructor) I ltac:(done)).
Defined.

(** The value [readInt] returns is in the range of [int], whatever the
    input. *)
Theorem readInt_in_range this w v w' : readInt this w = Returned v w' -> in_int v.
Proof.
  rewrite readInt_read_with. intros (Hv & _)%read_with_returned; [|done].
  by eapply extract_int_in_int.
Qed.

Lemma readInt_in_range_witness : in_int 2147483647.
Proof.
  exact (readInt_in_range Ouf (opened_world [] $"2147483647 " []) 2147483647
           (after_read Ouf (stream_of $" ") (opened_world [] $"2147483647 " [])) eq_refl).
Defined.

(** C24: the invariant of the world (every stream is well-formed: nothing is
    left to read once [eofbit] is raised or when no file is open; counters
    are values of [int] that are not negative) is kept by every reader whose
    counter can be incremented and by [seekEof], whether the call returns or
    exits. *)
Theorem readers_preserve_wf this w : wf_world w -> can_count this w ->
  leaves_wf (readInt this) w /\ leaves_wf (readString this) w /\
  leaves_wf (readDouble this) w /\ leaves_wf (readLine this) w /\
  leaves_wf (seekEof this) w.
Proof.
  intros Hw Hc. unfold leaves_wf.
  rewrite readInt_read_with, readString_read_with, readDouble_read_with,
    readLine_read_with, seekEof_run.
  repeat split; try by apply read_with_wf.
  eexists. split; [done|]. intros j. autorewrite with chk. split; [|apply Hw].
  destruct (decide (stream (get_obj this w) = j)) as [<-|?]; autorewrite with chk;
    [apply ws_wf|]; apply Hw.
Qed.

Lemma readers_preserve_wf_witness :
  leaves_wf (readInt Inf) (opened_world $"3 5" $"8" $"8") /\
  leaves_wf (readString Inf) (opened_world $"3 5" $"8" $"8") /\
  leaves_wf (readDouble Inf) (opened_world $"3 5" $"8" $"8") /\
  leaves_wf (readLine Inf) (opened_world $"3 5" $"8" $"8") /\
  leaves_wf (seekEof Inf) (opened_world $"3 5" $"8" $"8").
Proof.
  exact (readers_preserve_wf Inf (opened_world $"3 5" $"8" $"8")
           (wf_opened_world $"3 5" $"8" $"8") eq_refl).
Defined.

(** C9: [readString] on blanks followed by a run of non-blank characters
    returns exactly that run: the blanks before it are skipped, the blank
    that ends it is not consumed, and [eofbit] is raised only when the token
    ended the input. *)
Theorem readString_token this w sp tok r :
  can_count this w ->
  good (stream_of_obj this w) = true ->
  rdbuf (stream_of_obj this w) = sp ++ tok ++ r ->
  all_sat isspace sp -> all_sat nonspace tok -> tok <> [] -> stops nonspace r ->
  readString this w =
    Returned (string_of_list_ascii tok)
      (after_read this (setstate (is_nil r) false (advance r (stream_of_obj this w))) w).
Proof.
  intros Hc G Hb Hsp Htok Hne Hr. rewrite readString_read_with.
  apply read_with_ok; [done.. | by eapply extract_string_token | by apply good_setstate_no_fail].
Qed.

Lemma readString_token_witness :
  readString Ouf (opened_world [] $" yes
no" []) =
  Returned "yes" (after_read Ouf (stream_of $"
no") (opened_world [] $" yes
no" [])).
Proof.
  exact (readString_token Ouf (opened_world [] $" yes
no" []) $" " $"yes" $"
no" eq_refl eq_refl eq_refl ltac:(by repeat constructor) ltac:(by repeat constructor)
    ltac:(done) eq_refl).
Defined.

(** C11: [readDouble] on a stream whose unread input is blanks, then a field
    of the grammar of [strtod] that denotes the sign [neg], the mantissa [M]
    and the decimal exponent [E] and whose value rounds to a finite
    [double], then the end of the input or a character that is not a digit,
    a point or an exponent mark: it returns the [double] nearest to
    [M * 10 ^ E], consumes the blanks and exactly the field, raises [eofbit]
    only if the field ended the input, bumps the counter, and writes
    nothing. *)
Theorem readDouble_token this w sp t r neg M E :
  can_count this w ->
  good (stream_of_obj this w) = true ->
  rdbuf (stream_of_obj this w) = sp ++ t ++ r ->
  all_sat isspace sp -> stops float_char r ->
  parse_float t = Some (neg, M, E) -> is_finite (strtod_round neg M E) = true ->
  readDouble this w =
    Returned (strtod_round neg M E)
      (after_read this (setstate (is_nil r) false (advance r (stream_of_obj this w))) w).
Proof.
  intros Hc G Hb Hsp Hr Hp Hfin. rewrite readDouble_read_with.
  pose proof (conv_double_ok t neg M E Hp Hfin) as Hv.
  apply read_with_ok; [done.. | | by apply good_setstate_no_fail].
  simpl. erewrite extract_double_token by eauto using parse_float_field. by rewrite Hv.
Qed.

Lemma readDouble_token_witness :
  readDouble Ouf (opened_world [] $" 3.14
" []) =
  Returned (S754_finite false 7070651414971679 (-51))
    (after_read Ouf (stream_of $"
") (opened_world [] $" 3.14
" [])).
Proof.
  exact (readDouble_token Ouf (opened_world [] $" 3.14
" []) $" " $"3.14" $"
" false 314 (-2) eq_refl eq_refl eq_refl ltac:(by repeat constructor) eq_refl eq_refl eq_refl).
Defined.

(** C10: [readLine] on a good stream with input left returns the characters
    before the first newline.  The newline is consumed and not returned; when
    there is no newline the rest of the input is returned and [eofbit] is
    raised.  The call does not fail, also when the line is empty. *)
Theorem readLine_spec this w :
  can_count this w ->
  good (stream_of_obj this w) = true -> rdbuf (stream_of_obj this w) <> [] ->
  readLine this w =
    Returned (string_of_list_ascii (take_while not_newline (rdbuf (stream_of_obj this w))))
      (after_read this
         match drop_while not_newline (rdbuf (stream_of_obj this w)) with
         | [] => setstate true false (advance [] (stream_of_obj this w))
         | _ :: rest => advance rest (stream_of_obj this w)
         end w).
Proof.
  intros Hc G Hne. rewrite readLine_read_with. set (s := stream_of_obj this w) in *.
  destruct (getline_spec s) as [G'|_ Hl|line rest _ Hb Hl]; [congruence| |].
  - rewrite take_while_all, (proj2 (drop_while_nil _ _) Hl) by done.
    replace (is_nil (rdbuf s)) with false by (symmetry; by apply is_nil_false).
    eapply read_with_ok; [done.. | |by apply good_setstate_no_fail].
    rewrite <- (proj2 (is_nil_false (rdbuf s)) Hne). by apply getline_last.
  - rewrite Hb, take_while_app, drop_while_app by done.
    eapply read_with_ok; [done.. | by apply getline_line |].
    unfold fail. simpl. by apply good_true in G as [_ ->].
Qed.

Lemma readLine_spec_witness :
  readLine Ans (opened_world [] [] $"first line
second") =
  Returned "first line" (after_read Ans (stream_of $"second") (opened_world [] [] $"first line
second")).
Proof.
  exact (readLine_spec Ans (opened_world [] [] $"first line
second") eq_refl eq_refl ltac:(done)).
Defined.

(** C32: a malformed integer that is followed by more input.  When the
    field that [num_get] accumulates does not convert (no digit after the
    optional sign, or a value outside [int]) and the scan stopped before the
    end of the input, [readInt] exits with status 2 and the diagnostic
    "Failed to read integer from <name>"; the characters of the field have
    been consumed, the character that stopped the scan has not. *)
Theorem readInt_malformed this w sp c b :
  can_count this w ->
  good (stream_of_obj this w) = true ->
  rdbuf (stream_of_obj this w) = sp ++ c :: b ->
  all_sat isspace sp -> isspace c = false ->
  (conv_int (scan_int (c :: b)).1).2 = true -> (scan_int (c :: b)).2 <> [] ->
  readInt this w =
    Exited 2
      (set_cerr (cerr w +:+ "Failed to read integer from " +:+ name (get_obj this w) +:+ endl)
         (after_read this
            (setstate false true (advance (scan_int (c :: b)).2 (stream_of_obj this w))) w)).
Proof.
  intros Hn G Hb Hsp Hc Herr Hrest. rewrite readInt_read_with.
  apply is_nil_false in Hrest.
  erewrite read_with_fail; [|done|by erewrite extract_int_token|]; rewrite Hrest, Herr.
  - unfold diagnostic, eof. simpl. apply good_true in G as [-> _]. done.
  - unfold fail. simpl. by rewrite orb_true_r.
Qed.

Lemma readInt_malformed_witness :
  readInt Ouf (opened_world [] $" -x" []) =
  Exited 2
    (set_cerr "Failed to read integer from ouf
" (after_read Ouf (mk_ifstream true $"x" false true) (opened_world [] $" -x" []))).
Proof.
  exact (readInt_malformed Ouf (opened_world [] $" -x" []) $" " "-"%char $"x"
           eq_refl eq_refl eq_refl ltac:(by repeat constructor) eq_refl eq_refl ltac:(done)).
Defined.

(** C33: a malformed integer at the end of the input is reported as an end
    of file.  When the field does not convert and the scan reached the end
    of the input (a lone sign, or digits that overflow [int], with nothing
    after them), the diagnostic is "Unexpected EOF when reading integer
    from <name>" although a token was present. *)
Theorem readInt_misreports_eof this w sp c b :
  can_count this w ->
  good (stream_of_obj this w) = true ->
  rdbuf (stream_of_obj this w) = sp ++ c :: b ->
  all_sat isspace sp -> isspace c = false ->
  (conv_int (scan_int (c :: b)).1).2 = true -> (scan_int (c :: b)).2 = [] ->
  readInt this w =
    Exited 2
      (set_cerr (cerr w +:+ "Unexpected EOF when reading integer from "
                 +:+ name (get_obj this w) +:+ endl)
         (after_read this (setstate true true (advance [] (stream_of_obj this w))) w)).
Proof.
  intros Hn G Hb Hsp Hc Herr Hrest. rewrite readInt_read_with.
  erewrite read_with_fail; [|done|by erewrite extract_int_token|]; rewrite Hrest, Herr.
  - unfold diagnostic, eof. simpl. by rewrite orb_true_r.
  - unfold fail. simpl. by rewrite orb_true_r.
Qed.

Lemma readInt_misreports_eof_witness :
  readInt Ouf (opened_world [] $"99999999999" []) =
  Exited 2
    (set_cerr "Unexpected EOF when reading integer from ouf
" (after_read Ouf (mk_ifstream true [] true true) (opened_world [] $"99999999999" []))).
Proof.
  exact (readInt_misreports_eof Ouf (opened_world [] $"99999999999" []) [] "9"%char
           $"9999999999" eq_refl eq_refl eq_refl ltac:(constructor) eq_refl eq_refl eq_refl).
Defined.

(** Every read is counted once.  Whether [readInt], [readString],
    [readDouble] or [readLine] returns or exits, when the counter of the
    object was below [INT_MAX] the world the call leaves has it one higher;
    the other objects, the streams the object does not wrap, [cout] and the
    file system are untouched. *)
Theorem reads_are_counted this w : can_count this w ->
  counted this w (final_world (readInt this w)) /\
  counted this w (final_world (readString this w)) /\
  counted this w (final_world (readDouble this w)) /\
  counted this w (final_world (readLine this w)).
Proof.
  rewrite readInt_read_with, readString_read_with, readDouble_read_with.
  rewrite readLine_read_with.
  intros Hn. unfold counted. repeat split;
    match goal with |- context [read_with ?E ?f ?em ?fm this w] =>
      destruct (read_with_final E f em fm (fun _ => eq_refl) this w Hn)
        as (w' & -> & Ho & _ & Hj & Hs & Hc & Hfs)
    end; exists w'; rewrite Ho; by repeat split.
Qed.

Lemma reads_are_counted_witness :
  counted Ouf (opened_world [] $"7" []) (final_world (readInt Ouf (opened_world [] $"7" []))) /\
  counted Ouf (opened_world [] $"7" []) (final_world (readString Ouf (opened_world [] $"7" []))) /\
  counted Ouf (opened_world [] $"7" []) (final_world (readDouble Ouf (opened_world [] $"7" []))) /\
  counted Ouf (opened_world [] $"7" []) (final_world (readLine Ouf (opened_world [] $"7" []))).
Proof. exact (reads_are_counted Ouf (opened_world [] $"7" []) eq_refl). Defined.

End readers.
