(* ===== verification/Register.v ===== *)
(** * Bootstrap: [registerTestlibCmd]

    [registerTestlibCmd(argc, argv)] (testlib.h:120-145) checks that the
    checker was given three arguments, opens the three files on the global
    streams, and then checks, in the order input, output, answer, that each
    stream is open.  A failure writes a diagnostic to [std::cerr] and calls
    [exit(_fail)].

    The arguments are a list of strings; [argv[i]] beyond the list is
    undefined behaviour.  The file system of the [World] maps a path to the
    contents of the file; a path it does not map cannot be opened.

    The registration does not touch the objects.  [fits] is the state in
    which a checker can start: the counters of the objects have room for
    the files named, so that every object has room after the opens
    ([register_roomy]). *)

From stdpp Require Import gmap.
From S2P Require Import Prelude CType NumGet IfStream Extract Process Verdict InStream.

Local Open Scope Z_scope.
Local Open Scope chk_scope.

(** [argv[i]]. *)
Definition arg (argv : list string) (i : nat) : Proc string := stored (argv !! i).

(** [if (cond) { body }] where the body ends the process or falls through. *)
Definition when_ (cond : bool) (body : Proc unit) : Proc unit :=
  if cond then body else mret tt.

Definition registerTestlibCmd (argc : Z) (argv : list string) : Proc unit :=
  when_ (negb (argc =? 4))
    (cerr_put ("Invalid number of arguments for checker" +:+ endl);;
     cerr_put ("Usage: checker <input-file> <output-file> <answer-file>" +:+ endl);;
     exit _fail);;
  a1 ← arg argv 1; c1 ← fs_lookup a1; stream_upd Inf (open c1);;
  a2 ← arg argv 2; c2 ← fs_lookup a2; stream_upd Ouf (open c2);;
  a3 ← arg argv 3; c3 ← fs_lookup a3; stream_upd Ans (open c3);;
  inf_open ← stream_get Inf is_open;
  when_ (negb inf_open)
    (cerr_put ("Failed to open input file: " +:+ a1 +:+ endl);; exit _fail);;
  ouf_open ← stream_get Ouf is_open;
  when_ (negb ouf_open)
    (cerr_put ("Failed to open output file: " +:+ a2 +:+ endl);; exit _fail);;
  ans_open ← stream_get Ans is_open;
  when_ (negb ans_open)
    (cerr_put ("Failed to open answer file: " +:+ a3 +:+ endl);; exit _fail).

(** The world after the three opens. *)
Definition after_opens (p1 p2 p3 : string) (w : World) : World :=
  set_stream Ans (open (fs w !! p3) (ans w))
    (set_stream Ouf (open (fs w !! p2) (ouf w))
       (set_stream Inf (open (fs w !! p1) (inf w)) w)).

(** The first stream, in the order of the checks, that is not open after the
    opens, with the word that names it in the diagnostic and its path. *)
Definition first_unopened (p1 p2 p3 : string) (w : World) : option (string * string) :=
  if negb (is_open (inf (after_opens p1 p2 p3 w))) then Some ("input", p1)
  else if negb (is_open (ouf (after_opens p1 p2 p3 w))) then Some ("output", p2)
  else if negb (is_open (ans (after_opens p1 p2 p3 w))) then Some ("answer", p3)
  else None.

(** The first path, in the order input, output, answer, that the file system
    does not hold, with the word that names it in the diagnostic. *)
Definition first_missing (p1 p2 p3 : string) (files : gmap string (list ascii)) :
    option (string * string) :=
  match files !! p1, files !! p2, files !! p3 with
  | None, _, _ => Some ("input", p1)
  | Some _, None, _ => Some ("output", p2)
  | Some _, Some _, None => Some ("answer", p3)
  | Some _, Some _, Some _ => None
  end.

(** No stream of the world is open: the state before registration. *)
Definition all_closed (w : World) : Prop :=
  forall i, opened (get_stream i w) = false.

#[export] Instance all_closed_dec w : Decision (all_closed w).
Proof. unfold all_closed. apply _. Defined.

(** The counter of the object [i] has room for the file at [path], if there
    is one. *)
Definition file_fits (w : World) (i : StreamId) (path : string) : Prop :=
  match fs w !! path with
  | Some c => readCount (get_obj i w) + Z.of_nat (length c) < INT_MAX
  | None => True
  end.

(** The state in which a checker can start: the counters have room for what
    the streams hold and for the files the arguments name.  At the start of
    a process the counters are 0 and the streams are closed: the files are
    then to be shorter than [INT_MAX]. *)
Definition fits (argv : list string) (w : World) : Prop :=
  roomy w /\ forall i, Forall (file_fits w i) argv.

#[export] Instance file_fits_dec w i path : Decision (file_fits w i path).
Proof. unfold file_fits. destruct (fs w !! path); apply _. Defined.

#[export] Instance fits_dec argv w : Decision (fits argv w).
Proof. unfold fits. apply _. Defined.

(** ** Closed form *)

Lemma registerTestlibCmd_bad_argc argc argv w : argc <> 4 ->
  registerTestlibCmd argc argv w =
  Exited _fail
    (set_cerr (cerr w +:+ "Invalid number of arguments for checker" +:+ endl
               +:+ "Usage: checker <input-file> <output-file> <answer-file>" +:+ endl) w).
Proof.
  intros H. unfold registerTestlibCmd, when_. apply Z.eqb_neq in H. rewrite H. simpl.
  proc_run. rewrite set_cerr_set_cerr, cerr_set_cerr.
  by rewrite <- !string_app_assoc.
Qed.

Lemma registerTestlibCmd_run prog p1 p2 p3 w :
  registerTestlibCmd 4 [prog; p1; p2; p3] w =
  match first_unopened p1 p2 p3 w with
  | Some (role, path) =>
      Exited _fail
        (set_cerr (cerr w +:+ "Failed to open " +:+ role +:+ " file: " +:+ path +:+ endl)
           (after_opens p1 p2 p3 w))
  | None => Returned tt (after_opens p1 p2 p3 w)
  end.
Proof.
  unfold registerTestlibCmd, when_, arg, first_unopened, after_opens. simpl.
  proc_run. simpl. destruct (is_open (open (fs w !! p1) (inf w))); simpl; [|done].
  destruct (is_open (open (fs w !! p2) (ouf w))); simpl; [|done].
  by destruct (is_open (open (fs w !! p3) (ans w))).
Qed.

Lemma cout_after_opens p1 p2 p3 w : cout (after_opens p1 p2 p3 w) = cout w.
Proof. unfold after_opens. by autorewrite with chk. Qed.

Lemma cerr_after_opens p1 p2 p3 w : cerr (after_opens p1 p2 p3 w) = cerr w.
Proof. unfold after_opens. by autorewrite with chk. Qed.

Lemma obj_after_opens p1 p2 p3 i w : get_obj i (after_opens p1 p2 p3 w) = get_obj i w.
Proof. unfold after_opens. by autorewrite with chk. Qed.

(** The registration leaves the objects, and so their counters, as they
    were. *)
Lemma register_objs argc argv w w' i : Z.of_nat (length argv) = argc ->
  registerTestlibCmd argc argv w = Returned tt w' -> get_obj i w' = get_obj i w.
Proof.
  intros Hl. destruct (decide (argc = 4)) as [->|Hn];
    [|by rewrite registerTestlibCmd_bad_argc].
  destruct argv as [|prog [|p1 [|p2 [|p3 [|]]]]]; simpl in Hl; try lia.
  rewrite registerTestlibCmd_run. destruct (first_unopened p1 p2 p3 w) as [[role path]|]; [done|].
  intros [= <-]. apply obj_after_opens.
Qed.

(** The room of an object after its stream was opened on a file that fits. *)
Lemma has_room_open i path s w : file_fits w i path ->
  readCount (get_obj i w) + Z.of_nat (length (rdbuf s)) < INT_MAX ->
  readCount (get_obj i w) + Z.of_nat (length (rdbuf (open (fs w !! path) s))) < INT_MAX.
Proof.
  unfold file_fits. intros Hf Hs. destruct (rdbuf_open (fs w !! path) s) as [->|Hc]; [done|].
  by rewrite Hc in Hf.
Qed.

(** After the opens every object has room, in a state that fits. *)
Lemma roomy_after_opens prog p1 p2 p3 w : fits [prog; p1; p2; p3] w ->
  roomy (after_opens p1 p2 p3 w).
Proof.
  intros [Hr Hf] i. specialize (Hr i). specialize (Hf i).
  rewrite !list.Forall_cons in Hf. destruct Hf as (_ & H1 & H2 & H3 & _).
  unfold has_room, stream_of_obj in *. rewrite obj_after_opens. unfold after_opens.
  destruct (stream (get_obj i w)); simpl in *; by apply has_room_open.
Qed.

Lemma register_roomy argc argv w w' : Z.of_nat (length argv) = argc -> fits argv w ->
  registerTestlibCmd argc argv w = Returned tt w' -> roomy w'.
Proof.
  intros Hl Hf. destruct (decide (argc = 4)) as [->|Hn];
    [|by rewrite registerTestlibCmd_bad_argc].
  destruct argv as [|prog [|p1 [|p2 [|p3 [|]]]]]; simpl in Hl; try lia.
  rewrite registerTestlibCmd_run. destruct (first_unopened p1 p2 p3 w) as [[role path]|]; [done|].
  intros [= <-]. by eapply roomy_after_opens.
Qed.

(** A process starts in a state that fits when the files named are shorter
    than [INT_MAX]. *)
Lemma fits_initial_world argv files :
  Forall (fun path => forall c, files !! path = Some c -> Z.of_nat (length c) < INT_MAX) argv ->
  fits argv (initial_world files).
Proof.
  intros H. split; [by intros []|]. intros i. eapply list.Forall_impl; [exact H|].
  intros path Hp. unfold file_fits. simpl fs.
  destruct (files !! path) as [c|] eqn:E; [|done]. specialize (Hp c E). by destruct i.
Qed.

Lemma is_open_open_closed c s : opened s = false ->
  is_open (open c s) = bool_decide (is_Some c).
Proof. intros H. by rewrite is_open_open, H. Qed.

Lemma first_unopened_closed p1 p2 p3 w : all_closed w ->
  first_unopened p1 p2 p3 w = first_missing p1 p2 p3 (fs w).
Proof.
  intros H. unfold first_unopened, first_missing, after_opens. simpl.
  rewrite !is_open_open_closed by (apply (H Inf) || apply (H Ouf) || apply (H Ans)).
  by destruct (fs w !! p1), (fs w !! p2), (fs w !! p3).
Qed.

(** ** The bootstrap, case by case *)

(** C38: a wrong number of arguments.  When [argc] is not 4,
    [registerTestlibCmd] exits with status 3 after writing the two usage
    lines to [cerr]; no stream has been opened or touched, and nothing was
    written to [cout]. *)
Theorem register_wrong_argc argc argv w : argc <> 4 ->
  exists w', registerTestlibCmd argc argv w = Exited 3 w' /\
    cerr w' = cerr w +:+ "Invalid number of arguments for checker
Usage: checker <input-file> <output-file> <answer-file>
" /\ cout w' = cout w /\ fs w' = fs w /\
    (forall i, get_stream i w' = get_stream i w /\ get_obj i w' = get_obj i w).
Proof.
  intros H. eexists. rewrite registerTestlibCmd_bad_argc by done.
  split; [done|]. repeat split; by autorewrite with chk.
Qed.

Lemma register_wrong_argc_witness :
  exists w', registerTestlibCmd 3 ["checker"; "in.txt"; "out.txt"] (initial_world ∅) =
             Exited 3 w' /\
    cerr w' = "" +:+ "Invalid number of arguments for checker
Usage: checker <input-file> <output-file> <answer-file>
" /\ cout w' = "" /\ fs w' = ∅ /\
    (forall i, get_stream i w' = get_stream i (initial_world ∅) /\
               get_obj i w' = get_obj i (initial_world ∅)).
Proof.
  exact (register_wrong_argc 3 ["checker"; "in.txt"; "out.txt"] (initial_world ∅)
           ltac:(done)).
Defined.

(** C3: registration with three arguments, before any stream is open.
    All three opens are made first.  If every file can be opened the call
    returns with each stream fresh on the contents of its file and nothing
    written.  Otherwise it exits with status 3 after one line on [cerr] that
    names the first file, in the order input, output, answer, that could not
    be opened. *)
Theorem register_spec prog p1 p2 p3 w : all_closed w ->
  registerTestlibCmd 4 [prog; p1; p2; p3] w =
  match first_missing p1 p2 p3 (fs w) with
  | Some (role, path) =>
      Exited 3
        (set_cerr (cerr w +:+ "Failed to open " +:+ role +:+ " file: " +:+ path +:+ endl)
           (after_opens p1 p2 p3 w))
  | None =>
      Returned tt
        (set_stream Ans (stream_of (default [] (fs w !! p3)))
           (set_stream Ouf (stream_of (default [] (fs w !! p2)))
              (set_stream Inf (stream_of (default [] (fs w !! p1))) w)))
  end.
Proof.
  intros H. rewrite registerTestlibCmd_run, first_unopened_closed by done.
  unfold first_missing, after_opens.
  destruct (fs w !! p1) eqn:E1, (fs w !! p2) eqn:E2, (fs w !! p3) eqn:E3; try done.
  by rewrite !open_ok by (apply (H Inf) || apply (H Ouf) || apply (H Ans)).
Qed.

Lemma register_spec_witness :
  registerTestlibCmd 4 ["checker"; "in.txt"; "out.txt"; "ans.txt"]
    (initial_world {[ "in.txt" := $"3 5"; "ans.txt" := $"8" ]}) =
  Exited 3
    (set_cerr "Failed to open output file: out.txt
"
       (after_opens "in.txt" "out.txt" "ans.txt"
          (initial_world {[ "in.txt" := $"3 5"; "ans.txt" := $"8" ]}))).
Proof.
  exact (register_spec "checker" "in.txt" "out.txt" "ans.txt"
           (initial_world {[ "in.txt" := $"3 5"; "ans.txt" := $"8" ]})
           ltac:(by intros [])).
Defined.

(** C39: registering twice.  When the three streams are already open, a
    second [registerTestlibCmd] returns without a diagnostic, whatever the
    paths; every stream keeps its unread input and has [failbit] raised, so
    that every later read through it fails. *)
Theorem register_twice prog p1 p2 p3 w :
  (forall i, opened (get_stream i w) = true) ->
  exists w', registerTestlibCmd 4 [prog; p1; p2; p3] w = Returned tt w' /\
    cerr w' = cerr w /\ cout w' = cout w /\
    (forall i, fail (get_stream i w') = true /\
               rdbuf (get_stream i w') = rdbuf (get_stream i w)).
Proof.
  intros H. pose proof (H Inf) as Hi. pose proof (H Ouf) as Ho. pose proof (H Ans) as Ha.
  simpl in Hi, Ho, Ha. eexists. rewrite registerTestlibCmd_run.
  unfold first_unopened, after_opens. simpl. rewrite !open_twice by done.
  unfold is_open. simpl. rewrite Hi, Ho, Ha. simpl.
  split; [done|]. repeat split; try done; destruct i; simpl; unfold fail; simpl;
    by rewrite ?orb_true_r.
Qed.

Lemma register_twice_witness :
  exists w', registerTestlibCmd 4 ["checker"; "a"; "b"; "c"] (opened_world $"3 5" $"8" $"8") =
             Returned tt w' /\
    cerr w' = "" /\ cout w' = "" /\
    (forall i, fail (get_stream i w') = true /\
               rdbuf (get_stream i w') = rdbuf (get_stream i (opened_world $"3 5" $"8" $"8"))).
Proof.
  exact (register_twice "checker" "a" "b" "c" (opened_world $"3 5" $"8" $"8")
           ltac:(by intros [])).
Defined.
