(* ===== verification/TokenSpec.v ===== *)
(** * The abstract view: a stream is a queue of tokens

    What a checker observes of a stream through [readString], [readInt],
    [readDouble] and [seekEof] depends only on the whitespace-separated
    tokens left in it.
    This file states that contract and proves that class [InStream]
    implements it:

    - [tokens] cuts a character sequence into its tokens;
    - [spec_op] is the abstract machine: its state is the list of tokens
      left; [readString] pops the first token, [readInt] and [readDouble]
      convert the field that their scanner accumulates from the first token
      and leave the rest of the token at the front, [seekEof] tests for
      emptiness; a read from the empty queue, and a field that does not
      convert, end the run with status 2;
    - [run_ops] runs a sequence of operations on the concrete stream of an
      object and collects what the checker observes; a sequence of reads
      longer than the unread input ends with an exit ([reads_drain]);
    - [token_refinement]: from related states, the concrete run and the
      abstract run of any sequence of operations give the same
      observations.  The states are related by [abs_rel]: the stream is
      well-formed, has failed only at the end of its input, and its unread
      input has the tokens of the abstract state.  The abstract machine
      has no counter: the refinement holds while [readCount] has room for
      the unread input ([has_room]), which every step keeps, and then no
      step is undefined ([counter_never_overflows]). *)

From Stdlib Require Import Floats.SpecFloat.
From Equations Require Import Equations.
From S2P Require Import Prelude CType NumGet StrToD IfStream Extract Process Verdict InStream.

Local Open Scope Z_scope.
Local Open Scope chk_scope.

(** ** Tokens *)

Equations? tokens (b : list ascii) : list (list ascii) by wf (length b) lt :=
  tokens [] := [];
  tokens (c :: b) with isspace c := {
    | true := tokens b;
    | false := (c :: take_while nonspace b) :: tokens (drop_while nonspace b) }.
Proof. all: simpl; pose proof (drop_while_length nonspace b); lia. Qed.

(** ** Operations and observations *)

Inductive op : Type := ReadString | ReadInt | ReadDouble | SeekEof.

Inductive obs : Type :=
| GotString (s : string)
| GotInt (z : Z)
| GotDouble (v : spec_float)
| GotBool (b : bool)
| Died (status : Z)     (* the process exited *)
| Crashed.              (* undefined behaviour *)

#[export] Instance op_eq_dec : EqDecision op.
Proof. solve_decision. Defined.

#[export] Instance spec_float_eq_dec : EqDecision spec_float.
Proof. solve_decision. Defined.

#[export] Instance obs_eq_dec : EqDecision obs.
Proof. solve_decision. Defined.

(** ** The abstract machine *)

(** A numeric read: the scanner takes a field from the front of the first
    token and the conversion decides. *)
Definition spec_num {A : Type} (scan : list ascii -> list ascii * list ascii)
    (conv : list ascii -> A * bool) (f : A -> obs) (q : list (list ascii)) :
    obs * option (list (list ascii)) :=
  match q with
  | [] => (Died 2, None)
  | t :: q' =>
      let (field, rest) := scan t in
      let (v, err) := conv field in
      if err then (Died 2, None)
      else (f v, Some (if is_nil rest then q' else rest :: q'))
  end.

Definition spec_op (o : op) (q : list (list ascii)) : obs * option (list (list ascii)) :=
  match o with
  | SeekEof => (GotBool (is_nil q), Some q)
  | ReadString =>
      match q with
      | [] => (Died 2, None)
      | t :: q' => (GotString (string_of_list_ascii t), Some q')
      end
  | ReadInt => spec_num scan_int conv_int GotInt q
  | ReadDouble => spec_num scan_float conv_double GotDouble q
  end.

Fixpoint spec_ops (ops : list op) (q : list (list ascii)) : list obs :=
  match ops with
  | [] => []
  | o :: ops' =>
      match spec_op o q with
      | (ob, Some q') => ob :: spec_ops ops' q'
      | (ob, None) => [ob]
      end
  end.

(** ** The concrete machine *)

Definition observe {A : Type} (f : A -> obs) (o : Outcome A) : obs * option World :=
  match o with
  | Returned a w' => (f a, Some w')
  | Exited status _ => (Died status, None)
  | Undefined => (Crashed, None)
  end.

Definition run_op (this : StreamId) (o : op) (w : World) : obs * option World :=
  match o with
  | ReadString => observe GotString (readString this w)
  | ReadInt => observe GotInt (readInt this w)
  | ReadDouble => observe GotDouble (readDouble this w)
  | SeekEof => observe GotBool (seekEof this w)
  end.

Fixpoint run_ops (this : StreamId) (ops : list op) (w : World) : list obs :=
  match ops with
  | [] => []
  | o :: ops' =>
      match run_op this o w with
      | (ob, Some w') => ob :: run_ops this ops' w'
      | (ob, None) => [ob]
      end
  end.

(** ** The abstraction relation *)

Definition abs_rel (s : ifstream) (q : list (list ascii)) : Prop :=
  wf_ifstream s /\ (fail s = true -> eof s = true) /\ tokens (rdbuf s) = q.

(** ** Tokens of a sequence *)

Lemma tokens_cons_space c b : isspace c = true -> tokens (c :: b) = tokens b.
Proof. intros H. simp tokens. by rewrite H. Qed.

Lemma tokens_cons_nonspace c b : isspace c = false ->
  tokens (c :: b) = (c :: take_while nonspace b) :: tokens (drop_while nonspace b).
Proof. intros H. simp tokens. by rewrite H. Qed.

Lemma tokens_skip sp b : all_sat isspace sp -> tokens (sp ++ b) = tokens b.
Proof. induction 1 as [|c sp Hc _ IH]; [done|]. simpl. by rewrite tokens_cons_space. Qed.

Lemma tokens_blank b : all_sat isspace b -> tokens b = [].
Proof. intros H. rewrite <- (app_nil_r b). by rewrite tokens_skip. Qed.

Lemma tokens_drop_blank b : tokens (drop_while isspace b) = tokens b.
Proof.
  rewrite <- (tokens_skip (take_while isspace b)) by apply take_while_all_sat.
  by rewrite take_drop_while.
Qed.

(** The closed form of [tokens]: skip the blanks, cut the token. *)
Lemma tokens_closed_form b :
  tokens b =
  match drop_while isspace b with
  | [] => []
  | c :: b' => take_while nonspace (c :: b') :: tokens (drop_while nonspace (c :: b'))
  end.
Proof.
  rewrite <- tokens_drop_blank.
  pose proof (drop_while_stops isspace b) as Hs.
  destruct (drop_while isspace b) as [|c b']; [done|]. simpl in Hs.
  rewrite tokens_cons_nonspace by done. simpl. by rewrite (proj2 (nonspace_true c) Hs).
Qed.

Lemma tokens_token tok r : tok <> [] -> all_sat nonspace tok -> stops nonspace r ->
  tokens (tok ++ r) = tok :: tokens r.
Proof.
  intros Hne Ht Hr. destruct tok as [|c tok]; [done|].
  inversion Ht as [|? ? Hc Ht']; subst. simpl.
  rewrite tokens_cons_nonspace by by apply nonspace_true.
  by rewrite take_while_app, drop_while_app.
Qed.

Lemma tokens_nil b : tokens b = [] <-> all_sat isspace b.
Proof.
  split; [|apply tokens_blank]. rewrite tokens_closed_form. intros H.
  apply drop_while_nil. by destruct (drop_while isspace b).
Qed.

(** A first token: where it sits in the input. *)
Lemma tokens_cons_inv b t q : tokens b = t :: q ->
  exists sp r, b = sp ++ t ++ r /\ all_sat isspace sp /\ all_sat nonspace t /\ t <> [] /\
               stops nonspace r /\ tokens r = q.
Proof.
  rewrite tokens_closed_form. pose proof (take_drop_while isspace b) as Hb.
  pose proof (drop_while_stops isspace b) as Hs.
  destruct (drop_while isspace b) as [|c b'] eqn:E; [done|]. intros [= <- <-].
  exists (take_while isspace b), (drop_while nonspace (c :: b')).
  split_and!; [|apply take_while_all_sat|apply (take_while_all_sat nonspace (c :: b'))| |
               apply drop_while_stops|done].
  - change (b = take_while isspace b ++ take_while nonspace (c :: b') ++
                drop_while nonspace (c :: b')).
    by rewrite take_drop_while.
  - simpl in *. by rewrite (proj2 (nonspace_true c) Hs).
Qed.

(** Every token is a non-empty run of non-blank characters. *)
Lemma tokens_Forall b : Forall (fun t => t <> [] /\ all_sat nonspace t) (tokens b).
Proof.
  funelim (tokens b); [constructor|done|].
  constructor; [|done]. split; [done|].
  constructor; [by apply nonspace_true | apply take_while_all_sat].
Qed.

(** What a numeric scan leaves of a token is the next token. *)
Lemma tokens_rest rest r : all_sat nonspace rest -> stops nonspace r ->
  tokens (rest ++ r) = if is_nil rest then tokens r else rest :: tokens r.
Proof.
  intros Ha Hr. destruct rest as [|c rest]; [done|]. by apply tokens_token.
Qed.

(** A printed integer and a newline: one token. *)
Lemma tokens_print_line z : tokens (print_int z ++ [LF]) = [print_int z].
Proof.
  rewrite tokens_token; [by rewrite tokens_blank by by repeat constructor | |
                         apply print_int_nonspace | done].
  pose proof (int_token_print_int z) as H%int_token_has_digits.
  intros E. by rewrite E in H.
Qed.

(** ** Related states *)

Lemma abs_rel_stream_of c : abs_rel (stream_of c) (tokens c).
Proof. split_and!; [apply wf_stream_of | done | done]. Qed.

(** With a token left, the stream is good. *)
Lemma abs_rel_good s t q : abs_rel s (t :: q) ->
  good s = true /\ rdbuf s <> [] /\ opened s = true.
Proof.
  intros ([He Ho] & Hf & Ht).
  assert (rdbuf s <> []) as Hb by (intros E; by rewrite E, tokens_equation_1 in Ht).
  split_and!; [|done|by apply wf_input_opened].
  unfold fail, eof in Hf. apply good_true.
  destruct (eofbit s); [by specialize (He eq_refl)|].
  split; [done|]. destruct (failbit s); [by specialize (Hf eq_refl)|done].
Qed.

(** With no token left, blanks are all that is left. *)
Lemma abs_rel_blank s : abs_rel s [] -> all_sat isspace (rdbuf s).
Proof. intros (_ & _ & Ht). by apply tokens_nil. Qed.

(** A good stream moved to [r] is related to the tokens of [r]. *)
Lemma abs_rel_advance s r : good s = true -> opened s = true ->
  abs_rel (setstate (is_nil r) false (advance r s)) (tokens r).
Proof.
  intros G Ho. split_and!; [|by rewrite good_setstate_no_fail|done].
  apply wf_setstate; [by apply wf_good_advance | simpl; apply is_nil_true].
Qed.

(** ** The extractions on related states *)

Lemma extract_string_abs s t q : abs_rel s (t :: q) ->
  exists s', extract_string s = (s', Some (string_of_list_ascii t)) /\
             fail s' = false /\ abs_rel s' q.
Proof.
  intros H. destruct (abs_rel_good _ _ _ H) as (G & _ & Ho). destruct H as (_ & _ & Ht).
  apply tokens_cons_inv in Ht as (sp & r & Hb & Hsp & Htok & Hne & Hr & <-).
  eexists. split_and!; [by eapply extract_string_token | by apply good_setstate_no_fail |
                        by apply abs_rel_advance].
Qed.

Section extract_num_abs.
Context {A : Type} (scan : list ascii -> list ascii * list ascii) (conv : list ascii -> A * bool).
Hypothesis scan_app : forall b, (scan b).1 ++ (scan b).2 = b.
Hypothesis scan_local : forall t r, t <> [] -> all_sat nonspace t -> stops nonspace r ->
  scan (t ++ r) = ((scan t).1, (scan t).2 ++ r).

Lemma extract_num_abs s t q : abs_rel s (t :: q) ->
  exists s', extract_num scan conv s = (s', Some (conv (scan t).1).1) /\
    fail s' = (conv (scan t).1).2 /\
    (fail s' = false -> abs_rel s' (if is_nil (scan t).2 then q else (scan t).2 :: q)).
Proof.
  intros H. destruct (abs_rel_good _ _ _ H) as (G & _ & Ho). destruct H as (_ & _ & Ht).
  apply tokens_cons_inv in Ht as (sp & r & Hb & Hsp & Htok & Hne & Hr & <-).
  assert (all_sat nonspace (scan t).2) as Hrest.
  { rewrite <- (scan_app t) in Htok. by apply Forall_app in Htok as [_ ?]. }
  destruct t as [|c t]; [done|]. inversion Htok as [|? ? Hc _]; subst.
  rewrite (extract_num_token scan conv s sp c (t ++ r)) by (done || by apply nonspace_true).
  rewrite (app_comm_cons t r c), scan_local by done.
  cbn [fst snd]. eexists. split; [done|].
  destruct (good_setstate_fail (advance ((scan (c :: t)).2 ++ r) s) G
    (is_nil ((scan (c :: t)).2 ++ r)) (conv (scan (c :: t)).1).2) as [Hf _].
  split; [done|]. intros He. rewrite Hf in He. rewrite He.
  rewrite <- tokens_rest by done. by apply abs_rel_advance.
Qed.

Lemma extract_num_abs_nil s : abs_rel s [] ->
  fail (extract_num scan conv s).1 = true /\ eof (extract_num scan conv s).1 = true /\
  (extract_num scan conv s).2 = None.
Proof.
  intros H. pose proof (abs_rel_blank _ H) as Hb. destruct H as (_ & Hf & _).
  unfold fail, eof in *. destruct (good s) eqn:G.
  - rewrite extract_num_blank by done. simpl. by rewrite !orb_true_r.
  - rewrite extract_num_not_good by done. simpl. rewrite orb_true_r, orb_false_r.
    split; [done|]. split; [|done]. apply good_false in G as [?|?]; auto.
Qed.

End extract_num_abs.

Lemma extract_int_abs s t q : abs_rel s (t :: q) ->
  exists s', extract_int s = (s', Some (conv_int (scan_int t).1).1) /\
    fail s' = (conv_int (scan_int t).1).2 /\
    (fail s' = false -> abs_rel s' (if is_nil (scan_int t).2 then q else (scan_int t).2 :: q)).
Proof.
  apply extract_num_abs; [apply scan_int_app|].
  intros; apply scan_int_local; auto using stops_nonspace_isdigit.
Qed.

Lemma extract_double_abs s t q : abs_rel s (t :: q) ->
  exists s', extract_double s = (s', Some (conv_double (scan_float t).1).1) /\
    fail s' = (conv_double (scan_float t).1).2 /\
    (fail s' = false ->
     abs_rel s' (if is_nil (scan_float t).2 then q else (scan_float t).2 :: q)).
Proof. apply extract_num_abs; [apply scan_float_app | intros; by apply scan_float_local]. Qed.

(** With no token left, an extraction fails. *)
Lemma extract_string_abs_nil s : abs_rel s [] -> fail (extract_string s).1 = true.
Proof.
  intros H%abs_rel_blank. destruct (good s) eqn:G.
  - rewrite extract_string_blank by done. unfold fail. simpl. apply orb_true_r.
  - rewrite extract_string_not_good by done. unfold fail. simpl. apply orb_true_r.
Qed.

Lemma extract_int_abs_nil s : abs_rel s [] ->
  fail (extract_int s).1 = true /\ eof (extract_int s).1 = true /\ (extract_int s).2 = None.
Proof. apply extract_num_abs_nil. Qed.

Lemma extract_double_abs_nil s : abs_rel s [] -> fail (extract_double s).1 = true.
Proof. apply extract_num_abs_nil. Qed.

(** A printed integer at the front is read back. *)
Lemma extract_int_abs_print s z q : in_int z -> abs_rel s (print_int z :: q) ->
  exists s', extract_int s = (s', Some z) /\ fail s' = false /\ abs_rel s' q.
Proof.
  intros Hz (s' & He & Hf & Hr)%extract_int_abs.
  rewrite <- (app_nil_r (print_int z)), scan_int_print_int in He, Hf, Hr by done.
  cbn [fst snd] in *. rewrite conv_int_print_int in He, Hf by done.
  exists s'. split_and!; [done..|by apply Hr].
Qed.

(** [ws] keeps the tokens, and reports the end exactly when none is left. *)
Lemma ws_abs s q : abs_rel s q -> abs_rel (ws s) q /\ eof (ws s) = is_nil q.
Proof.
  intros (Hwf & Hf & Ht). destruct (good s) eqn:G.
  - split.
    + rewrite ws_good by done. split_and!.
      * rewrite <- ws_good by done. by apply ws_wf.
      * by rewrite good_setstate_no_fail.
      * simpl. by rewrite tokens_drop_blank.
    + apply eq_true_iff_eq. rewrite ws_eof, is_nil_true, <- Ht by done.
      symmetry. apply tokens_nil.
  - assert (eof s = true) as He.
    { apply good_false in G as [?|?]; [done | by apply Hf]. }
    destruct Hwf as [Hw Ho]. rewrite ws_not_good by done.
    unfold eof in *.
    split; [split_and!; [by apply wf_setstate | intros _; simpl; by rewrite He | done]|].
    simpl. rewrite orb_false_r, He. symmetry. apply is_nil_true.
    by rewrite <- Ht, (Hw He).
Qed.

(** ** The operations on related states *)

Lemma stream_after_seekEof this s' w :
  stream_of_obj this (set_stream (stream (get_obj this w)) s' w) = s'.
Proof. unfold stream_of_obj. by autorewrite with chk. Qed.

Section read_abs.
Context {A : Type} (E : Extractor A) (finish : option A -> Proc A).
Context (eof_msg fail_msg : string).
Hypothesis finish_stored : forall v, finish (Some v) = mret v.

(** A read whose extraction fails is observed as an exit with status 2. *)
Lemma observe_read_fail (f : A -> obs) this w : can_count this w ->
  fail (extract E (stream_of_obj this w)).1 = true ->
  observe f (read_with E finish eof_msg fail_msg this w) = (Died 2, None).
Proof. intros Hc H. rewrite read_with_counted by done. cbv zeta. by rewrite H. Qed.

(** A read whose extraction succeeds is observed as its value. *)
Lemma observe_read_ok (f : A -> obs) this w s' v : can_count this w ->
  extract E (stream_of_obj this w) = (s', Some v) -> fail s' = false ->
  observe f (read_with E finish eof_msg fail_msg this w) =
  (f v, Some (after_read this s' w)).
Proof. intros Hc He Hf. by erewrite read_with_ok. Qed.

(** A read exits with status 2 or returns after consuming input. *)
Lemma observe_read_cases (f : A -> obs) this w : can_count this w ->
  observe f (read_with E finish eof_msg fail_msg this w) = (Died 2, None) \/
  exists ob w', observe f (read_with E finish eof_msg fail_msg this w) = (ob, Some w') /\
    (length (rdbuf (stream_of_obj this w')) < length (rdbuf (stream_of_obj this w)))%nat.
Proof.
  intros Hc. destruct (read_with_cases E finish eof_msg fail_msg finish_stored this w Hc)
    as [[_ Hr]|[_ (v & _ & Hr)]]; [left; by rewrite Hr | right].
  eexists _, _. rewrite Hr. split; [done|]. by eapply read_with_consumes.
Qed.

(** A numeric read does what [spec_num] says, when its extraction does. *)
Lemma read_num_refines scan conv (f : A -> obs) this w q :
  (forall s t q', abs_rel s (t :: q') ->
     exists s', extract E s = (s', Some (conv (scan t).1).1) /\
       fail s' = (conv (scan t).1).2 /\
       (fail s' = false -> abs_rel s' (if is_nil (scan t).2 then q' else (scan t).2 :: q'))) ->
  (forall s, abs_rel s [] -> fail (extract E s).1 = true) ->
  can_count this w -> abs_rel (stream_of_obj this w) q ->
  match spec_num scan conv f q with
  | (ob, Some q') =>
      exists w', observe f (read_with E finish eof_msg fail_msg this w) = (ob, Some w') /\
                 abs_rel (stream_of_obj this w') q'
  | (ob, None) => observe f (read_with E finish eof_msg fail_msg this w) = (ob, None)
  end.
Proof.
  intros Habs Hnil Hc H. destruct q as [|t q]; cbn [spec_num].
  - apply observe_read_fail; [done|]. by apply Hnil.
  - destruct (Habs _ _ _ H) as (s' & He & Hf & Hr).
    destruct (scan t) as [field rest]. cbn [fst snd] in *.
    destruct (conv field) as [v err]. cbn [fst snd] in *. destruct err.
    + apply observe_read_fail; [done|]. by rewrite He.
    + eexists. split; [by eapply observe_read_ok|]. rewrite stream_after_read. auto.
Qed.

(** A read that is observed to return has kept the room of the object. *)
Lemma observe_read_room (f : A -> obs) this w ob w' : has_room this w ->
  observe f (read_with E finish eof_msg fail_msg this w) = (ob, Some w') -> has_room this w'.
Proof.
  intros Hr. destruct (read_with _ _ _ _ this w) as [v w1| |] eqn:Hw; [|done..].
  intros [= _ <-]. by eapply read_with_room.
Qed.

End read_abs.

(** One step: the concrete operation does what the abstract one does, and
    leaves related states. *)
Lemma run_op_refines this o w q : can_count this w -> abs_rel (stream_of_obj this w) q ->
  match spec_op o q with
  | (ob, Some q') =>
      exists w', run_op this o w = (ob, Some w') /\ abs_rel (stream_of_obj this w') q'
  | (ob, None) => run_op this o w = (ob, None)
  end.
Proof.
  intros Hc H. destruct o; unfold run_op; cbn [spec_op];
    rewrite ?readString_read_with, ?readInt_read_with, ?readDouble_read_with.
  - destruct q as [|t q].
    + apply observe_read_fail; [done|]. by apply extract_string_abs_nil.
    + destruct (extract_string_abs _ _ _ H) as (s' & He & Hf & Hr).
      eexists. split; [by eapply observe_read_ok|]. by rewrite stream_after_read.
  - apply read_num_refines; auto using extract_int_abs.
    intros s Hs. by apply extract_int_abs_nil.
  - apply read_num_refines; auto using extract_double_abs, extract_double_abs_nil.
  - rewrite seekEof_run. destruct (ws_abs _ _ H) as [Hr ->].
    eexists. split; [done|]. by rewrite stream_after_seekEof.
Qed.

(** One step keeps the room of the object. *)
Lemma run_op_room this o w ob w' : has_room this w -> run_op this o w = (ob, Some w') ->
  has_room this w'.
Proof.
  intros Hr. destruct o; unfold run_op;
    rewrite ?readString_read_with, ?readInt_read_with, ?readDouble_read_with;
    try by apply observe_read_room.
  rewrite seekEof_run. intros [= _ <-]. by apply seekEof_room.
Qed.

(** The abstract [readInt] on a printed integer. *)
Lemma spec_readInt_print z q : in_int z ->
  spec_op ReadInt (print_int z :: q) = (GotInt z, Some q).
Proof.
  intros Hz. cbn [spec_op spec_num].
  rewrite <- (app_nil_r (print_int z)), scan_int_print_int by done.
  by rewrite conv_int_print_int.
Qed.

(** One step is defined while the counter can take it. *)
Lemma run_op_defined this o w : can_count this w -> (run_op this o w).1 <> Crashed.
Proof.
  intros Hc. destruct o; unfold run_op;
    rewrite ?readString_read_with, ?readInt_read_with, ?readDouble_read_with, ?seekEof_run;
    [| | |done];
    match goal with |- context [read_with ?E ?f ?em ?fm this w] =>
      by destruct (read_with_cases E f em fm (fun _ => eq_refl) this w Hc)
        as [[_ ->]|[_ (v & _ & ->)]]
    end.
Qed.

(** Any sequence of steps. *)
Lemma run_ops_refines this ops w q : has_room this w -> abs_rel (stream_of_obj this w) q ->
  run_ops this ops w = spec_ops ops q.
Proof.
  revert w q. induction ops as [|o ops IH]; intros w q Hc H; [done|]. simpl.
  pose proof (run_op_refines this o w q (has_room_can_count _ _ Hc) H) as Hs.
  destruct (spec_op o q) as [ob [q'|]].
  - destruct Hs as (w' & Hw & Hr). rewrite Hw. f_equal. apply IH; [|done].
    by eapply run_op_room.
  - by rewrite Hs.
Qed.

(** ** Reading drains the stream *)

Lemma run_read_cases this o w : can_count this w -> o <> SeekEof ->
  run_op this o w = (Died 2, None) \/
  exists ob w', run_op this o w = (ob, Some w') /\
    (length (rdbuf (stream_of_obj this w')) < length (rdbuf (stream_of_obj this w)))%nat.
Proof.
  intros Hc Ho. destruct o; [..|done]; unfold run_op;
    rewrite ?readString_read_with, ?readInt_read_with, ?readDouble_read_with;
    by apply observe_read_cases.
Qed.

(** A checker cannot read from a stream for ever: of a sequence of reads
    longer than the unread input, one exits with status 2. *)
Lemma reads_drain this ops : forall w, has_room this w ->
  Forall (fun o => o <> SeekEof) ops ->
  (length (rdbuf (stream_of_obj this w)) < length ops)%nat ->
  Died 2 ∈ run_ops this ops w.
Proof.
  induction ops as [|o ops IH]; intros w Hc Ho Hl; [simpl in Hl; lia|].
  inversion Ho as [|? ? Hr Ho']; subst. simpl in *.
  destruct (run_read_cases this o w (has_room_can_count _ _ Hc) Hr)
    as [->|(ob & w' & Hw & Hlt)]; [by left|].
  rewrite Hw. right. apply IH; [by eapply run_op_room | done | lia].
Qed.

(** No step of a sequence overflows the counter, when it has room. *)
Lemma run_ops_defined this ops : forall w, has_room this w -> Crashed ∉ run_ops this ops w.
Proof.
  induction ops as [|o ops IH]; intros w Hr; simpl; [by apply not_elem_of_nil|].
  pose proof (run_op_defined this o w (has_room_can_count _ _ Hr)) as Hd.
  destruct (run_op this o w) as [ob [w'|]] eqn:E; simpl in Hd.
  - apply not_elem_of_cons. split; [done|]. apply IH. by eapply run_op_room.
  - apply not_elem_of_cons. split; [done | apply not_elem_of_nil].
Qed.

(** ** Refinement *)

(** C5: the readers implement the token queue.  When the stream of an
    object is well-formed and has failed only at its end, and the counter of
    the object has room for the characters left, any sequence of
    [readString], [readInt], [readDouble] and [seekEof] through the object
    is observed exactly as the abstract machine runs it on the tokens of the
    unread input: the same values, the same answers to [seekEof], and the
    same exit with status 2 at the first read that has no token or whose
    token does not start with a field that converts. *)
Theorem token_refinement this ops w q :
  has_room this w -> abs_rel (stream_of_obj this w) q ->
  run_ops this ops w = spec_ops ops q.
Proof. apply run_ops_refines. Qed.

Lemma token_refinement_witness :
  run_ops Ouf [SeekEof; ReadInt; ReadString; ReadDouble; ReadString; ReadInt; SeekEof; ReadDouble]
    (opened_world $"3 5" $"  12abc
 2.5e1x -7 " $"8") =
  [GotBool false; GotInt 12; GotString "abc";
   GotDouble (S754_finite false 7036874417766400 (-48)); GotString "x"; GotInt (-7);
   GotBool true; Died 2].
Proof.
  exact (token_refinement Ouf
           [SeekEof; ReadInt; ReadString; ReadDouble; ReadString; ReadInt; SeekEof; ReadDouble]
           (opened_world $"3 5" $"  12abc
 2.5e1x -7 " $"8") [$"12abc"; $"2.5e1x"; $"-7"] eq_refl
           ltac:(by split_and!; [apply wf_stream_of| |vm_compute])).
Defined.

(** C26: the counter does not overflow on input of ordinary size.  When the
    number of reads counted through an object and the number of characters
    its stream still holds are together below [INT_MAX], no sequence of
    [readString], [readInt], [readDouble] and [seekEof] through the object,
    however long, reaches the signed overflow of [readCount++]: every read
    that returns has consumed a character, and the first that finds none
    ends the process. *)
Theorem counter_never_overflows this ops w :
  has_room this w -> Crashed ∉ run_ops this ops w.
Proof. apply run_ops_defined. Qed.

Lemma counter_never_overflows_witness :
  Crashed ∉ run_ops Ouf [ReadInt; ReadInt; ReadInt; ReadInt] (opened_world [] $"1 2" []).
Proof.
  exact (counter_never_overflows Ouf [ReadInt; ReadInt; ReadInt; ReadInt]
           (opened_world [] $"1 2" []) eq_refl).
Defined.

(** Blanks do not matter.  Two streams with the same tokens cannot be
    told apart by any sequence of [readString], [readInt], [readDouble] and
    [seekEof], when the counter of the object has room on both: the amount
    and the kind of whitespace between tokens, before the first
    and after the last, is never observed. *)
Theorem whitespace_insensitive this ops w1 w2 q :
  has_room this w1 -> has_room this w2 ->
  abs_rel (stream_of_obj this w1) q -> abs_rel (stream_of_obj this w2) q ->
  run_ops this ops w1 = run_ops this ops w2.
Proof.
  intros R1 R2 H1 H2.
  by rewrite (run_ops_refines this ops w1 q R1 H1), (run_ops_refines this ops w2 q R2 H2).
Qed.

Lemma whitespace_insensitive_witness :
  run_ops Ouf [ReadInt; ReadString; SeekEof] (opened_world $"3 5" $"8 yes" $"8") =
  run_ops Ouf [ReadInt; ReadString; SeekEof] (opened_world $"3 5" $"
   8
yes
" $"8").
Proof.
  exact (whitespace_insensitive Ouf [ReadInt; ReadString; SeekEof]
           (opened_world $"3 5" $"8 yes" $"8")
           (opened_world $"3 5" $"
   8
yes
" $"8") [$"8"; $"yes"] eq_refl eq_refl
           ltac:(by split_and!; [apply wf_stream_of| |vm_compute])
           ltac:(by split_and!; [apply wf_stream_of| |vm_compute])).
Defined.

(** C30: integers written are integers read.  When the tokens left in a
    stream are the decimal forms [print_int] gives to a list of values that
    fit an [int], that many calls of [readInt] return exactly these values,
    in order, and none fails. *)
Theorem read_ints_roundtrip this w zs : Forall in_int zs -> has_room this w ->
  abs_rel (stream_of_obj this w) (map print_int zs) ->
  run_ops this (replicate (length zs) ReadInt) w = map GotInt zs.
Proof.
  intros Hz Hr ->%(run_ops_refines this (replicate (length zs) ReadInt)); [|done].
  induction Hz as [|z zs Hz _ IH]; [done|].
  cbn [length replicate map spec_ops]. by rewrite spec_readInt_print, IH.
Qed.

Lemma read_ints_roundtrip_witness :
  run_ops Ans (replicate 3 ReadInt) (opened_world $"3 5" $"8" $" 2147483647
-2147483648  0") = [GotInt 2147483647; GotInt (-2147483648); GotInt 0].
Proof.
  exact (read_ints_roundtrip Ans (opened_world $"3 5" $"8" $" 2147483647
-2147483648  0") [2147483647; -2147483648; 0]
           ltac:(by repeat constructor) eq_refl
           ltac:(by split_and!; [apply wf_stream_of| |vm_compute])).
Defined.
