(* ===== verification/Interleave.v ===== *)
(** * Independent streams

    The three objects of a checker wrap three different streams (spec
    section 2: three independent instances).  A method of class [InStream]
    reads and writes its object and the stream the object wraps, and, when
    it fails, [std::cerr]; it touches nothing else.  This file states that
    locality and what follows from it:

    - [method] names the public methods of the class and [call] runs one;
      [effect_of] gives what a method does as a function of the object and
      of the stream alone, and [call_effect] shows that the method, as the
      source has it, does exactly that to the world;
    - [judged] is what the judge sees of an outcome: the exit status and
      the text on [std::cout]; it is an equivalence, coarser than equality,
      that [mbind] respects;
    - [calls_commute]: two calls on objects that wrap different streams can
      be swapped; the run is judged the same, and when both return the
      values and the state are the same. *)

From Stdlib Require Import Floats.SpecFloat.
From stdpp Require Import gmap.
From S2P Require Import Prelude CType NumGet StrToD IfStream Extract Process Verdict InStream.
From S2P Require Import TokenSpec.

Local Open Scope Z_scope.
Local Open Scope chk_scope.

(** ** The methods of the class *)

Inductive method : Type -> Type :=
| ReadIntM : method Z
| ReadStringM : method string
| ReadDoubleM : method spec_float
| ReadLineM : method string
| SeekEofM : method bool.

Definition call {A : Type} (m : method A) (this : StreamId) : Proc A :=
  match m with
  | ReadIntM => readInt this
  | ReadStringM => readString this
  | ReadDoubleM => readDouble this
  | ReadLineM => readLine this
  | SeekEofM => seekEof this
  end.

(** ** Methods as functions of the object and its stream *)

(** What a call does: it returns a value or fails with a line of
    diagnostic, and leaves an object and a stream; [None] is undefined
    behaviour. *)
Definition effect (A : Type) : Type :=
  InStream -> ifstream -> option ((A + string) * InStream * ifstream).

(** The world after the object [this] and the stream it wraps were
    replaced. *)
Definition upd (this : StreamId) (o' : InStream) (s' : ifstream) (w : World) : World :=
  set_stream (stream (get_obj this w)) s' (set_obj this o' w).

(** How an effect ends in the process: a failure writes its line to
    [std::cerr] and exits with [_pe]. *)
Definition conclude {A : Type} (r : A + string) (w w' : World) : Outcome A :=
  match r with
  | inl a => Returned a w'
  | inr line => Exited _pe (set_cerr (cerr w +:+ line) w')
  end.

Definition apply_effect {A : Type} (f : effect A) (this : StreamId) : Proc A := fun w =>
  match f (get_obj this w) (stream_of_obj this w) with
  | Some (r, o', s') => conclude r w (upd this o' s' w)
  | None => Undefined
  end.

(** A reader: count, extract, test. *)
Definition read_effect {A : Type} (E : Extractor A) (eof_msg fail_msg : string) : effect A :=
  fun o s =>
    if readCount o <? INT_MAX then
      let r := extract E s in
      if fail r.1 then Some (inr (diagnostic eof_msg fail_msg o r.1), bump o, r.1)
      else match r.2 with
           | Some v => Some (inl v, bump o, r.1)
           | None => None
           end
    else None.

Definition seekEof_effect : effect bool := fun o s => Some (inl (eof (ws s)), o, ws s).

Definition effect_of {A : Type} (m : method A) : effect A :=
  match m with
  | ReadIntM =>
      read_effect int_extractor "Unexpected EOF when reading integer from "
        "Failed to read integer from "
  | ReadStringM =>
      read_effect string_extractor "Unexpected EOF when reading string from "
        "Failed to read string from "
  | ReadDoubleM =>
      read_effect double_extractor "Unexpected EOF when reading double from "
        "Failed to read double from "
  | ReadLineM =>
      read_effect line_extractor "Unexpected EOF when reading line from "
        "Failed to read line from "
  | SeekEofM => seekEof_effect
  end.

(** An effect that leaves the reference of the object to its stream. *)
Definition keeps_stream {A : Type} (f : effect A) : Prop :=
  forall o s r o' s', f o s = Some (r, o', s') -> stream o' = stream o.

(** ** Sequences of calls *)

(** A method, whatever it returns. *)
Definition any_method : Type := { A : Type & method A }.

(** The value a method returned, as an observation. *)
Definition seen {A : Type} (m : method A) : A -> obs :=
  match m with
  | ReadIntM => GotInt
  | ReadStringM => GotString
  | ReadDoubleM => GotDouble
  | ReadLineM => GotString
  | SeekEofM => GotBool
  end.

Definition run_call (this : StreamId) (m : any_method) (w : World) : obs * option World :=
  observe (seen (projT2 m)) (call (projT2 m) this w).

(** A checker's calls on the three objects, in the order it makes them, and
    what it observes, call by call, up to the first that ends the
    process. *)
Fixpoint run_calls (l : list (StreamId * any_method)) (w : World) : list (StreamId * obs) :=
  match l with
  | [] => []
  | (i, m) :: l' =>
      match run_call i m w with
      | (ob, Some w') => (i, ob) :: run_calls l' w'
      | (ob, None) => [(i, ob)]
      end
  end.

(** The calls on one object alone. *)
Fixpoint run_solo (this : StreamId) (ms : list any_method) (w : World) : list obs :=
  match ms with
  | [] => []
  | m :: ms' =>
      match run_call this m w with
      | (ob, Some w') => ob :: run_solo this ms' w'
      | (ob, None) => [ob]
      end
  end.

(** The part of a sequence that concerns the object [i]. *)
Definition at_obj {X : Type} (i : StreamId) (l : list (StreamId * X)) : list X :=
  omap (fun x => if decide (x.1 = i) then Some x.2 else None) l.

(** A value, as opposed to the end of the process. *)
Definition alive (ob : obs) : Prop :=
  match ob with Died _ | Crashed => False | _ => True end.

(** Different objects wrap different streams. *)
Definition separate (w : World) : Prop :=
  forall i j, i <> j -> stream (get_obj i w) <> stream (get_obj j w).

(** The method an operation of the token machine stands for. *)
Definition method_of_op (o : op) : any_method :=
  match o with
  | ReadString => existT _ ReadStringM
  | ReadInt => existT _ ReadIntM
  | ReadDouble => existT _ ReadDoubleM
  | SeekEof => existT _ SeekEofM
  end.

#[export] Instance alive_dec ob : Decision (alive ob).
Proof. destruct ob; simpl; apply _. Defined.

#[export] Instance separate_dec w : Decision (separate w).
Proof. unfold separate. apply _. Defined.

(** ** What the judge sees *)

(** Two outcomes are judged the same when they return the same value in the
    same state, or exit with the same status after writing the same text to
    [std::cout] and leaving the same files; what a process that exits
    leaves on [std::cerr] and in its streams is not seen. *)
Definition judged {A : Type} (o1 o2 : Outcome A) : Prop :=
  match o1, o2 with
  | Returned a1 w1, Returned a2 w2 => a1 = a2 /\ w1 = w2
  | Exited s1 w1, Exited s2 w2 => s1 = s2 /\ cout w1 = cout w2 /\ fs w1 = fs w2
  | Undefined, Undefined => True
  | _, _ => False
  end.

Definition proc_judged {A : Type} (m1 m2 : Proc A) : Prop := forall w, judged (m1 w) (m2 w).

Infix "=j=" := proc_judged (at level 70, no associativity) : chk_scope.

#[export] Instance judged_equiv {A} : Equivalence (@judged A).
Proof.
  split.
  - by intros [a w|s w|].
  - intros [a1 w1|s1 w1|] [a2 w2|s2 w2|]; simpl; try done.
    + by intros [-> ->].
    + by intros (-> & -> & ->).
  - intros [a1 w1|s1 w1|] [a2 w2|s2 w2|] [a3 w3|s3 w3|]; simpl; try done.
    + by intros [-> ->].
    + by intros (-> & -> & ->).
Qed.

#[export] Instance proc_judged_equiv {A} : Equivalence (@proc_judged A).
Proof.
  split.
  - by intros m w.
  - intros m1 m2 H w. symmetry. apply H.
  - intros m1 m2 m3 H1 H2 w. etrans; [apply H1 | apply H2].
Qed.

#[export] Instance proc_eq_judged {A} : subrelation (@proc_eq A) (@proc_judged A).
Proof. intros m1 m2 H w. by rewrite H. Qed.

#[export] Instance mbind_judged {A B} :
  Proper (pointwise_relation A proc_judged ==> proc_judged ==> proc_judged)
    (@mbind Proc _ A B).
Proof.
  intros f g Hfg m1 m2 Hm w. unfold mbind, Proc_bind. specialize (Hm w).
  destruct (m1 w) as [a1 w1|s1 w1|], (m2 w) as [a2 w2|s2 w2|]; try done.
  destruct Hm as [-> ->]. apply Hfg.
Qed.

(** ** The world as a store *)

Lemma world_ext w1 w2 :
  (forall i, get_stream i w1 = get_stream i w2) -> (forall i, get_obj i w1 = get_obj i w2) ->
  cout w1 = cout w2 -> cerr w1 = cerr w2 -> fs w1 = fs w2 -> w1 = w2.
Proof.
  intros Hs Ho. destruct w1, w2. simpl.
  pose proof (Hs Inf). pose proof (Hs Ouf). pose proof (Hs Ans).
  pose proof (Ho Inf). pose proof (Ho Ouf). pose proof (Ho Ans). simpl in *. congruence.
Qed.

Lemma set_get_obj i w : set_obj i (get_obj i w) w = w.
Proof. by destruct i, w. Qed.

Section upd.
Implicit Types (this that : StreamId) (w : World).

Lemma get_obj_upd this o' s' w : get_obj this (upd this o' s' w) = o'.
Proof. unfold upd. by autorewrite with chk. Qed.

Lemma get_obj_upd_ne this that o' s' w : this <> that ->
  get_obj that (upd this o' s' w) = get_obj that w.
Proof. intros H. unfold upd. by autorewrite with chk. Qed.

Lemma get_stream_upd this o' s' w :
  get_stream (stream (get_obj this w)) (upd this o' s' w) = s'.
Proof. unfold upd. by autorewrite with chk. Qed.

Lemma get_stream_upd_ne this j o' s' w : stream (get_obj this w) <> j ->
  get_stream j (upd this o' s' w) = get_stream j w.
Proof. intros H. unfold upd. by autorewrite with chk. Qed.

Lemma stream_of_obj_upd this o' s' w : stream o' = stream (get_obj this w) ->
  stream_of_obj this (upd this o' s' w) = s'.
Proof. intros H. unfold stream_of_obj. rewrite get_obj_upd, H. apply get_stream_upd. Qed.

Lemma cout_upd this o' s' w : cout (upd this o' s' w) = cout w.
Proof. unfold upd. by autorewrite with chk. Qed.

Lemma cerr_upd this o' s' w : cerr (upd this o' s' w) = cerr w.
Proof. unfold upd. by autorewrite with chk. Qed.

Lemma fs_upd this o' s' w : fs (upd this o' s' w) = fs w.
Proof. unfold upd. by autorewrite with chk. Qed.

Lemma upd_set_cerr this o' s' t w : upd this o' s' (set_cerr t w) = set_cerr t (upd this o' s' w).
Proof. unfold upd. by destruct this, (stream _). Qed.

End upd.

#[export] Hint Rewrite get_obj_upd get_stream_upd cout_upd cerr_upd fs_upd : chk.
#[export] Hint Rewrite get_obj_upd_ne get_stream_upd_ne using done : chk.

(** ** The methods do what their effects say *)

Section read_effect.
Context {A : Type} (E : Extractor A) (finish : option A -> Proc A).
Context (eof_msg fail_msg : string).
Hypothesis finish_stored : forall v, finish (Some v) = mret v.

Lemma read_with_effect this :
  read_with E finish eof_msg fail_msg this =p= apply_effect (read_effect E eof_msg fail_msg) this.
Proof.
  intros w. rewrite read_with_run. unfold apply_effect, read_effect.
  destruct (_ <? _); [|done]. cbv zeta.
  destruct (fail (extract E (stream_of_obj this w)).1) eqn:Hf; [done|].
  destruct (extract_stored _ Hf) as [v ->]. by rewrite finish_stored.
Qed.

Lemma read_effect_keeps_stream : keeps_stream (read_effect E eof_msg fail_msg).
Proof.
  intros o s r o' s'. unfold read_effect. destruct (_ <? _); [|done]. cbv zeta.
  destruct (fail _); [by intros [= _ <- _]|]. destruct (extract E s).2; [|done].
  by intros [= _ <- _].
Qed.

End read_effect.

Lemma seekEof_effect_run this : seekEof this =p= apply_effect seekEof_effect this.
Proof.
  intros w. rewrite seekEof_run. unfold apply_effect, seekEof_effect, conclude, upd.
  by rewrite set_get_obj.
Qed.

(** Every method is its effect on the object and the stream. *)
Lemma call_effect {A} (m : method A) this : call m this =p= apply_effect (effect_of m) this.
Proof.
  destruct m; simpl call; simpl effect_of;
    rewrite ?readInt_read_with, ?readString_read_with, ?readDouble_read_with,
      ?readLine_read_with;
    first [apply seekEof_effect_run | by apply read_with_effect].
Qed.

Lemma effect_of_keeps_stream {A} (m : method A) : keeps_stream (effect_of m).
Proof. destruct m; try apply read_effect_keeps_stream. by intros o s r o' s' [= _ <- _]. Qed.

(** ** Two calls on different streams *)

Section commute.
Context {A B : Type} (f : effect A) (g : effect B) (this that : StreamId) (w : World).
Hypothesis Hd : stream (get_obj this w) <> stream (get_obj that w).

Lemma differ_objs : this <> that.
Proof using Hd. by intros ->. Qed.

(** The call on [that] after the object [this] and its stream changed. *)
Lemma apply_effect_after o' s' :
  apply_effect g that (upd this o' s' w) =
  match g (get_obj that w) (stream_of_obj that w) with
  | Some (r, o2, s2) => conclude r (upd this o' s' w) (upd that o2 s2 (upd this o' s' w))
  | None => Undefined
  end.
Proof using Hd.
  pose proof differ_objs. unfold apply_effect, stream_of_obj. by autorewrite with chk.
Qed.

Lemma upd_comm o1 s1 o2 s2 :
  upd that o2 s2 (upd this o1 s1 w) = upd this o1 s1 (upd that o2 s2 w).
Proof using Hd.
  pose proof differ_objs as Hn. assert (that <> this) as Hn' by done.
  assert (stream (get_obj that w) <> stream (get_obj this w)) as Hd' by done.
  unfold upd at 1 3. rewrite (get_obj_upd_ne this that), (get_obj_upd_ne that this) by done.
  apply world_ext; [intros i..| | |]; autorewrite with chk; try done.
  - destruct (decide (stream (get_obj that w) = i)) as [E1|E1],
      (decide (stream (get_obj this w) = i)) as [E2|E2];
      try congruence; try subst i; by autorewrite with chk.
  - destruct (decide (that = i)) as [E1|E1], (decide (this = i)) as [E2|E2];
      try congruence; try subst i; by autorewrite with chk.
Qed.

End commute.

(** Two effects on different streams, in either order. *)
Lemma effects_commute {A B C} (f : effect A) (g : effect B) (k : A -> B -> Proc C)
    this that w :
  stream (get_obj this w) <> stream (get_obj that w) ->
  f (get_obj this w) (stream_of_obj this w) <> None ->
  g (get_obj that w) (stream_of_obj that w) <> None ->
  judged ((a ← apply_effect f this; b ← apply_effect g that; k a b) w)
         ((b ← apply_effect g that; a ← apply_effect f this; k a b) w).
Proof.
  intros Hd Hf Hg. assert (stream (get_obj that w) <> stream (get_obj this w)) as Hd' by done.
  rewrite !run_bind_unfold. unfold apply_effect at 1 3.
  destruct (f _ _) as [[[r1 o1] s1]|] eqn:Ef; [|done].
  destruct (g _ _) as [[[r2 o2] s2]|] eqn:Eg; [|done].
  destruct r1 as [a|d1], r2 as [b|d2]; simpl conclude; cbv beta iota;
    rewrite ?run_bind_unfold, ?(apply_effect_after g this that w Hd),
      ?(apply_effect_after f that this w Hd'), ?Ef, ?Eg; simpl conclude; cbv beta iota.
  by rewrite (upd_comm this that w Hd).
  all: unfold judged; by autorewrite with chk.
Qed.

(** ** The order of reads from different files *)

Lemma two_calls_effect {A B C} (m1 : method A) (m2 : method B) (k : A -> B -> Proc C) this that :
  (a ← call m1 this; b ← call m2 that; k a b) =p=
  (a ← apply_effect (effect_of m1) this; b ← apply_effect (effect_of m2) that; k a b).
Proof. f_equiv; [intros a; f_equiv|]; apply call_effect. Qed.

(** C19: reads from different files can be swapped.  When two objects wrap
    different streams and neither call is undefined, calling a method on one
    and then a method on the other, or the two in the other order, before
    the rest of the checker, is judged the same: if both calls return, the
    values and the state are the same in both orders; if one fails, the
    process exits with status 2 and nothing on [std::cout] in both orders,
    only the diagnostic on [std::cerr] can differ. *)
Theorem calls_commute {A B C} (m1 : method A) (m2 : method B) (k : A -> B -> Proc C)
    this that w :
  stream (get_obj this w) <> stream (get_obj that w) ->
  call m1 this w <> Undefined -> call m2 that w <> Undefined ->
  judged ((a ← call m1 this; b ← call m2 that; k a b) w)
         ((b ← call m2 that; a ← call m1 this; k a b) w).
Proof.
  intros Hd H1 H2.
  rewrite (call_effect m1 this w) in H1. rewrite (call_effect m2 that w) in H2.
  rewrite (two_calls_effect m1 m2 k this that w),
    (two_calls_effect m2 m1 (fun b a => k a b) that this w).
  apply effects_commute; [done|..]; intros E; unfold apply_effect in *; by rewrite E in *.
Qed.

Lemma calls_commute_witness :
  judged ((a ← readInt Ans; b ← readString Ouf; mret (a, b)) (opened_world $"3 5" $"yes" $"8"))
         ((b ← readString Ouf; a ← readInt Ans; mret (a, b)) (opened_world $"3 5" $"yes" $"8")).
Proof.
  exact (calls_commute ReadIntM ReadStringM (fun a b => mret (a, b)) Ans Ouf
           (opened_world $"3 5" $"yes" $"8") ltac:(done) ltac:(by vm_compute)
           ltac:(by vm_compute)).
Defined.

(** ** Sequences of calls on the three objects *)

Lemma at_obj_cons_eq {X} i (x : X) l : at_obj i ((i, x) :: l) = x :: at_obj i l.
Proof. unfold at_obj. simpl. by rewrite decide_True. Qed.

Lemma at_obj_cons_ne {X} i j (x : X) l : j <> i -> at_obj i ((j, x) :: l) = at_obj i l.
Proof. intros H. unfold at_obj. simpl. by rewrite decide_False. Qed.

(** A call in closed form. *)
Lemma run_call_effect this (m : any_method) w :
  run_call this m w =
  match effect_of (projT2 m) (get_obj this w) (stream_of_obj this w) with
  | Some (inl a, o', s') => (seen (projT2 m) a, Some (upd this o' s' w))
  | Some (inr _, _, _) => (Died _pe, None)
  | None => (Crashed, None)
  end.
Proof.
  unfold run_call. rewrite (call_effect (projT2 m) this w). unfold apply_effect.
  by destruct (effect_of _ _ _) as [[[[a|d] o'] s']|].
Qed.

(** A call goes on exactly when it observed a value. *)
Lemma run_call_alive this m w ob o : run_call this m w = (ob, o) -> alive ob <-> is_Some o.
Proof.
  rewrite run_call_effect. destruct (effect_of _ _ _) as [[[[a|d] o'] s']|]; intros [= <- <-].
  - split; [by eexists|]. intros _. by destruct m as [A []].
  - split; [done | by intros [? ?]].
  - split; [done | by intros [? ?]].
Qed.

(** What a call leaves of the object it was made on and of the others. *)
Lemma run_call_obj this m w ob w' : run_call this m w = (ob, Some w') ->
  stream (get_obj this w') = stream (get_obj this w) /\
  forall j, this <> j -> get_obj j w' = get_obj j w.
Proof.
  rewrite run_call_effect.
  destruct (effect_of _ _ _) as [[[[a|d] o'] s']|] eqn:E; intros [= _ <-].
  split; [|intros j Hj; by autorewrite with chk].
  autorewrite with chk. by eapply effect_of_keeps_stream.
Qed.

Lemma run_call_separate this m w ob w' : separate w -> run_call this m w = (ob, Some w') ->
  separate w'.
Proof.
  intros Hs (Hk & Ho)%run_call_obj i j Hij.
  destruct (decide (this = i)) as [<-|Hi], (decide (this = j)) as [<-|Hj]; [done|..];
    rewrite ?Hk, ?(Ho i), ?(Ho j) by done; by apply Hs.
Qed.

(** A call leaves the streams it does not wrap. *)
Lemma run_call_frame this i m w ob w' : separate w -> this <> i ->
  run_call this m w = (ob, Some w') ->
  get_obj i w' = get_obj i w /\ stream_of_obj i w' = stream_of_obj i w.
Proof.
  intros Hs Hi Hr. pose proof (run_call_obj _ _ _ _ _ Hr) as [_ Ho]. split; [by apply Ho|].
  revert Hr. rewrite run_call_effect.
  destruct (effect_of _ _ _) as [[[[a|d] o'] s']|]; intros [= _ <-].
  unfold stream_of_obj. autorewrite with chk. rewrite get_stream_upd_ne; [done | by apply Hs].
Qed.

(** What a sequence of calls on one object observes depends on the object
    and on its stream only. *)
Lemma run_solo_local this ms : forall w1 w2,
  get_obj this w1 = get_obj this w2 -> stream_of_obj this w1 = stream_of_obj this w2 ->
  run_solo this ms w1 = run_solo this ms w2.
Proof.
  induction ms as [|m ms IH]; intros w1 w2 Ho Hs; [done|]. simpl.
  rewrite !run_call_effect, Ho, Hs.
  destruct (effect_of _ _ _) as [[[[a|d] o'] s']|] eqn:E; [|done..].
  f_equal. apply effect_of_keeps_stream in E.
  apply IH; [by autorewrite with chk|]. rewrite !stream_of_obj_upd; congruence.
Qed.

(** The observations on one object within any sequence of calls. *)
Lemma run_calls_at i l : forall w, separate w ->
  at_obj i (run_calls l w) `prefix_of` run_solo i (at_obj i l) w /\
  (Forall (fun x => alive x.2) (run_calls l w) ->
   at_obj i (run_calls l w) = run_solo i (at_obj i l) w).
Proof.
  induction l as [|[j m] l IH]; intros w Hs; [done|]. simpl run_calls.
  destruct (run_call j m w) as [ob [w'|]] eqn:E.
  - destruct (IH w') as [Hp He]; [by eapply run_call_separate|].
    destruct (decide (j = i)) as [->|Hj].
    + rewrite !at_obj_cons_eq. simpl run_solo. rewrite E.
      split; [by apply prefix_cons|]. intros [_ Ha]%list.Forall_cons. by rewrite He.
    + rewrite !at_obj_cons_ne by done.
      destruct (run_call_frame j i m w ob w' Hs Hj E) as [Ho Hst].
      rewrite <- (run_solo_local i _ w' w Ho Hst).
      split; [done|]. intros [_ Ha]%list.Forall_cons. by apply He.
  - destruct (decide (j = i)) as [->|Hj].
    + rewrite !at_obj_cons_eq. simpl. by rewrite E.
    + rewrite !at_obj_cons_ne by done. split; [apply prefix_nil|].
      intros [Ha _]%list.Forall_cons. apply (run_call_alive _ _ _ _ _ E) in Ha. by destruct Ha.
Qed.

(** C18: the files are read independently.  In a state where the three
    objects wrap three different streams, whatever the order in which a
    checker calls the methods on them, what it observes on one object is
    what it would observe by making the calls on that object alone: the
    same values in the same order, up to the call at which the process
    ends, and all of them when no call ends it.  A read of one file never
    changes what is read from another. *)
Theorem streams_independent i l w : separate w ->
  at_obj i (run_calls l w) `prefix_of` run_solo i (at_obj i l) w /\
  (Forall (fun x => alive x.2) (run_calls l w) ->
   at_obj i (run_calls l w) = run_solo i (at_obj i l) w).
Proof. apply run_calls_at. Qed.

Lemma bound_separate w : bound w -> separate w.
Proof. intros H i j. by rewrite !H. Qed.

Lemma streams_independent_witness :
  at_obj Ouf (run_calls [(Ans, existT _ ReadIntM); (Ouf, existT _ ReadIntM);
                         (Ans, existT _ ReadStringM); (Ouf, existT _ SeekEofM)]
                (opened_world $"3 5" $"8 " $"8")) `prefix_of`
  run_solo Ouf [existT _ ReadIntM; existT _ SeekEofM] (opened_world $"3 5" $"8 " $"8") /\
  (Forall (fun x => alive x.2)
     (run_calls [(Ans, existT _ ReadIntM); (Ouf, existT _ ReadIntM);
                 (Ans, existT _ ReadStringM); (Ouf, existT _ SeekEofM)]
        (opened_world $"3 5" $"8 " $"8")) ->
   at_obj Ouf (run_calls [(Ans, existT _ ReadIntM); (Ouf, existT _ ReadIntM);
                          (Ans, existT _ ReadStringM); (Ouf, existT _ SeekEofM)]
                 (opened_world $"3 5" $"8 " $"8")) =
   run_solo Ouf [existT _ ReadIntM; existT _ SeekEofM] (opened_world $"3 5" $"8 " $"8")).
Proof.
  exact (streams_independent Ouf
           [(Ans, existT _ ReadIntM); (Ouf, existT _ ReadIntM);
            (Ans, existT _ ReadStringM); (Ouf, existT _ SeekEofM)]
           (opened_world $"3 5" $"8 " $"8")
           (bound_separate _ (bound_opened_world _ _ _))).
Defined.

(** ** With the token machine *)

Lemma at_obj_map {X Y} (f : X -> Y) i (l : list (StreamId * X)) :
  at_obj i (map (fun x => (x.1, f x.2)) l) = map f (at_obj i l).
Proof.
  induction l as [|[j x] l IH]; [done|]. simpl map. destruct (decide (j = i)) as [->|H].
  - rewrite !at_obj_cons_eq. simpl. by rewrite IH.
  - by rewrite !at_obj_cons_ne.
Qed.

Lemma run_solo_ops this ops : forall w,
  run_solo this (map method_of_op ops) w = run_ops this ops w.
Proof.
  induction ops as [|o ops IH]; intros w; [done|]. simpl.
  replace (run_call this (method_of_op o) w) with (run_op this o w) by by destruct o.
  destruct (run_op this o w) as [ob [w'|]]; by rewrite ?IH.
Qed.

(** Whatever a checker does with the other files, what it reads from one is
    what the token machine gives on the tokens of that file. *)
Corollary interleaved_refinement i l w q : separate w -> has_room i w ->
  abs_rel (stream_of_obj i w) q ->
  at_obj i (run_calls (map (fun x => (x.1, method_of_op x.2)) l) w) `prefix_of`
  spec_ops (at_obj i l) q.
Proof.
  intros Hs Hr Ha. rewrite <- (run_ops_refines i _ w q Hr Ha), <- run_solo_ops, <- at_obj_map.
  by apply run_calls_at.
Qed.
