(* ===== verification/Lines.v ===== *)
(** * The abstract view of [readLine]: a stream is a queue of lines

    [readLine] does not see tokens: it returns what is left of the current
    line, blanks included, and consumes the newline that ends it.  [lines]
    cuts the unread input the way successive calls of [std::getline] do: a
    newline ends a line, and what follows the last newline is a line when
    it is not empty.  [spec_lines] is the abstract machine, a queue of
    lines that a read pops, and [read_lines] the run of that many calls of
    [readLine] through an object.

    - [read_lines_refinement]: the calls return the lines of the unread
      input, in order, and the call after the last line ends the process
      with status 2;
    - [unlines] writes lines the way [<< line << '\n'] does, and
      [lines_unlines] is the round trip. *)

From Equations Require Import Equations.
From stdpp Require Import gmap.
From S2P Require Import Prelude CType NumGet StrToD IfStream Extract Process Verdict InStream.
From S2P Require Import TokenSpec Interleave.

Local Open Scope Z_scope.
Local Open Scope chk_scope.

(** ** Lines *)

Equations? lines (b : list ascii) : list (list ascii) by wf (length b) lt :=
  lines [] := [];
  lines (c :: b) :=
    take_while not_newline (c :: b) :: lines (drop 1 (drop_while not_newline (c :: b))).
Proof.
  rewrite length_drop. pose proof (drop_while_length not_newline (c :: b)). simpl in *. lia.
Qed.

(** Lines as written by [<< line << '\n']. *)
Definition unlines (ls : list (list ascii)) : list ascii :=
  concat (map (fun l => l ++ [LF]) ls).

(** ** The abstract machine *)

(** [n] calls of [readLine] on a queue of lines. *)
Fixpoint spec_lines (n : nat) (q : list (list ascii)) : list obs :=
  match n, q with
  | O, _ => []
  | S _, [] => [Died _pe]
  | S n', l :: q' => GotString (string_of_list_ascii l) :: spec_lines n' q'
  end.

(** [n] calls of [readLine] through the object [this]. *)
Definition read_lines (this : StreamId) (n : nat) (w : World) : list obs :=
  run_solo this (replicate n (existT _ ReadLineM)) w.

(** The stream is well-formed, has failed only at its end, and its unread
    input has the lines [q]. *)
Definition abs_lines (s : ifstream) (q : list (list ascii)) : Prop :=
  wf_ifstream s /\ (fail s = true -> eof s = true) /\ lines (rdbuf s) = q.

(** ** Lines of a sequence *)

Lemma lines_nil b : lines b = [] <-> b = [].
Proof. split; [|by intros ->]. destruct b; [done|]. by simp lines. Qed.

(** A line that a newline ends. *)
Lemma lines_line l r : all_sat not_newline l -> lines (l ++ LF :: r) = l :: lines r.
Proof.
  intros Hl. destruct l as [|c l].
  - simpl. by simp lines.
  - change ((c :: l) ++ LF :: r) with (c :: (l ++ LF :: r)). simp lines.
    change (c :: (l ++ LF :: r)) with ((c :: l) ++ LF :: r).
    by rewrite take_while_app, drop_while_app.
Qed.

(** What follows the last newline. *)
Lemma lines_last l : all_sat not_newline l -> l <> [] -> lines l = [l].
Proof.
  intros Hl Hn. destruct l as [|c l]; [done|]. simp lines.
  by rewrite take_while_all, (proj2 (drop_while_nil _ _) Hl).
Qed.

(** The closed form of [lines]: cut at the first newline. *)
Lemma lines_closed_form b :
  lines b =
  match b, drop_while not_newline b with
  | [], _ => []
  | _ :: _, [] => [b]
  | _ :: _, _ :: rest => take_while not_newline b :: lines rest
  end.
Proof.
  destruct b as [|c b]; [done|].
  destruct (drop_while not_newline (c :: b)) as [|d rest] eqn:E.
  - apply drop_while_nil in E. by apply lines_last.
  - pose proof (drop_while_stops not_newline (c :: b)) as Hs. rewrite E in Hs.
    apply stops_not_newline in Hs as ->.
    rewrite <- (take_drop_while not_newline (c :: b)) at 1. rewrite E.
    apply lines_line, take_while_all_sat.
Qed.

(** Reading back what was written. *)
Lemma lines_unlines ls : Forall (all_sat not_newline) ls -> lines (unlines ls) = ls.
Proof.
  induction 1 as [|l ls Hl _ IH]; [done|]. unfold unlines in *. simpl.
  rewrite <- app_assoc. cbn [app]. by rewrite lines_line, IH.
Qed.

(** No line holds a newline. *)
Lemma lines_Forall b : Forall (all_sat not_newline) (lines b).
Proof.
  assert (forall n b, (length b < n)%nat -> Forall (all_sat not_newline) (lines b)) as H;
    [|apply (H (S (length b))); lia].
  clear b. induction n as [|n IH]; intros b Hn; [lia|].
  rewrite lines_closed_form. destruct b as [|c b]; [done|].
  pose proof (take_while_length not_newline (c :: b)) as Hb.
  destruct (drop_while not_newline (c :: b)) as [|d rest] eqn:E.
  - constructor; [by apply drop_while_nil | done].
  - constructor; [apply take_while_all_sat|]. apply IH. simpl in *. lia.
Qed.

(** ** [getline] on related states *)

(** With a line left, the stream is good. *)
Lemma abs_lines_good s l q : abs_lines s (l :: q) -> good s = true.
Proof.
  intros ([He Ho] & Hf & Hl).
  assert (rdbuf s <> []) as Hb by (intros E; by rewrite E in Hl).
  unfold fail, eof in Hf. apply good_true.
  destruct (eofbit s); [by specialize (He eq_refl)|].
  split; [done|]. by destruct (failbit s); [specialize (Hf eq_refl)|].
Qed.

(** With no line left, [getline] fails. *)
Lemma getline_abs_nil s : abs_lines s [] -> fail (getline s).1 = true.
Proof.
  intros (Hwf & Hf & Hl%lines_nil). destruct (fail s) eqn:F.
  - rewrite getline_not_good; [by unfold fail; simpl; rewrite orb_true_r|].
    apply good_false. by right.
  - rewrite getline_exhausted by done. unfold fail. simpl. apply orb_true_r.
Qed.

(** [getline] pops the first line. *)
Lemma getline_abs s l q : abs_lines s (l :: q) ->
  exists s', getline s = (s', Some (string_of_list_ascii l)) /\ fail s' = false /\
             abs_lines s' q.
Proof.
  intros H. pose proof (abs_lines_good _ _ _ H) as G. destruct H as (Hwf & Hf & Hl).
  pose proof (getline_wf s Hwf) as Hwf'. pose proof (good_setstate_fail s G) as Hbits.
  destruct (proj1 (good_true s) G) as [He Hfb].
  destruct (getline_spec s) as [G'|_ Ha|line rest _ Hb Ha]; [congruence|..]; simpl in Hwf'.
  - destruct (rdbuf s) as [|c b] eqn:Eb; [done|]. rewrite lines_last in Hl by done.
    injection Hl as <- <-. eexists. split; [done|].
    destruct (Hbits true false) as [Hf' He']. simpl is_nil. by split_and!.
  - rewrite Hb, lines_line in Hl by done. injection Hl as <- <-. eexists. split; [done|].
    unfold abs_lines, fail, eof. simpl. rewrite ?He, ?Hfb. by split_and!.
Qed.

(** ** Refinement *)

Lemma run_call_readLine this w :
  run_call this (existT _ ReadLineM) w =
  observe GotString
    (read_with line_extractor (fun r => mret (default EmptyString r))
       "Unexpected EOF when reading line from " "Failed to read line from " this w).
Proof. reflexivity. Qed.

(** Any number of calls. *)
Lemma read_lines_refines this n : forall w q,
  has_room this w -> abs_lines (stream_of_obj this w) q ->
  read_lines this n w = spec_lines n q.
Proof.
  unfold read_lines. induction n as [|n IH]; intros w q Hr Ha; [done|].
  pose proof (has_room_can_count _ _ Hr) as Hc.
  cbn [replicate run_solo spec_lines]. rewrite run_call_readLine. destruct q as [|l q].
  - rewrite observe_read_fail; [done..|]. by apply getline_abs_nil.
  - destruct (getline_abs _ _ _ Ha) as (s' & He & Hf & Ha').
    rewrite (observe_read_ok line_extractor _ _ _ (fun _ => eq_refl) GotString this w s' _ Hc He Hf).
    f_equal.
    apply IH; [|by rewrite stream_after_read].
    eapply (read_with_room line_extractor (fun r => mret (default EmptyString r))
              "Unexpected EOF when reading line from " "Failed to read line from "
              (fun _ => eq_refl)); [exact Hr|].
    by apply read_with_ok.
Qed.

(** C20: [readLine] reads the lines in order.  When the stream of an object
    is well-formed and has failed only at its end, and the counter of the
    object has room for the characters left, [n] calls of [readLine]
    through the object return the first [n] lines of the unread input: the
    characters between one newline and the next, blanks included, and what
    follows the last newline when it is not empty.  The call made when no
    line is left ends the process with status 2. *)
Theorem read_lines_refinement this n w q :
  has_room this w -> abs_lines (stream_of_obj this w) q ->
  read_lines this n w = spec_lines n q.
Proof. apply read_lines_refines. Qed.

Lemma read_lines_refinement_witness :
  read_lines Ans 4 (opened_world $"3 5" $"8" $" first line

last") = [GotString " first line"; GotString ""; GotString "last"; Died 2].
Proof.
  exact (read_lines_refinement Ans 4 (opened_world $"3 5" $"8" $" first line

last") [$" first line"; []; $"last"] eq_refl
           ltac:(by split_and!; [apply wf_stream_of| |vm_compute])).
Defined.

(** Lines written are lines read: [readLine] gives back, one by one, lines
    that were written each with a newline after it, and the call after the
    last of them ends the process with status 2. *)
Corollary read_lines_unlines this w ls :
  Forall (all_sat not_newline) ls -> has_room this w ->
  wf_ifstream (stream_of_obj this w) -> fail (stream_of_obj this w) = false ->
  rdbuf (stream_of_obj this w) = unlines ls ->
  read_lines this (S (length ls)) w =
  map (fun l => GotString (string_of_list_ascii l)) ls ++ [Died 2].
Proof.
  intros Hl Hr Hwf Hf Hb.
  rewrite (read_lines_refines this _ w ls Hr);
    [|split_and!; [done | congruence | by rewrite Hb, lines_unlines]].
  clear. induction ls as [|l ls IH]; [done|]. simpl. by rewrite <- IH.
Qed.

(** [readLine] after a token read returns what is left of the line the
    token was on: here the empty string, not the next line. *)
Example readLine_after_readInt :
  run_solo Ouf [existT _ ReadIntM; existT _ ReadLineM; existT _ ReadLineM]
    (opened_world [] $"5
hello
" []) = [GotInt 5; GotString ""; GotString "hello"].
Proof. by vm_compute. Qed.

(** Only a newline ends a line: the carriage return of a line that ends in
    CR LF is part of what [readLine] returns. *)
Example readLine_keeps_cr :
  read_lines Ouf 2 (opened_world [] ($"ab" ++ ["013"%char; LF] ++ $"cd") []) =
  [GotString (string_of_list_ascii ($"ab" ++ ["013"%char])); GotString "cd"].
Proof. by vm_compute. Qed.
