(* ===== verification/Roundtrip.v ===== *)
(** * What [printf] writes, the Stream Reader reads back

    The files a checker reads are written by programs, and the usual way
    for a C or C++ program to write a number is a directive of [printf].
    This file composes the model of the directives ([Printf.v]) with the
    readers of the class [InStream]:
    - [readInt] reads back the value of every [int] that [%d] wrote, under
      any flags, width and precision, the padding included;
    - [readDouble] reads back every [double] that [%f] wrote in full or
      with more digits than [2 ^ 53] has: the number itself, not a
      neighbour, because [strtod] is exact on a decimal that is a number
      of binary64, and because a decimal of that many digits has only one
      number of binary64 within half a unit of its last digit
      ([Seventeen.v]);
    - [readString] reads back a word that [%s] wrote.

    [fixed_exact p x] says that [p] digits after the point are enough to
    write [x] exactly, [many_digits p x] that the digits written with [p]
    digits after the point make a number above [2 ^ 53]. *)

From Stdlib Require Import Floats.SpecFloat.
From S2P Require Import Prelude CType NumGet FloatRound StrToD Seventeen Printf.
From S2P Require Import IfStream Extract Process Verdict InStream.

Local Open Scope Z_scope.
Local Open Scope chk_scope.

(** [x * 10 ^ p] is an integer: fixed notation with [p] digits after the
    point shows the whole of [x]. *)
Definition fixed_exact (p : Z) (x : spec_float) : Prop :=
  match x with
  | S754_zero _ => True
  | S754_finite _ m e => 0 <= e \/ (Z.pos m * 10 ^ p) mod 2 ^ (- e) = 0
  | S754_infinity _ | S754_nan => False
  end.

#[export] Instance fixed_exact_dec p x : Decision (fixed_exact p x).
Proof. destruct x; simpl; apply _. Defined.

(** The decimal that [%.pf] writes for a number: its sign and its digits
    as an integer. *)
Definition fixed_decimal (p : Z) (x : spec_float) : option (bool * Z) :=
  match x with
  | S754_zero s => Some (s, 0)
  | S754_finite s m e => Some (s, scaled (Z.pos m) e p)
  | S754_infinity _ | S754_nan => None
  end.

(** The digits that [%.pf] writes for [x], read as an integer, are above
    [2 ^ 53]: seventeen significant digits, or sixteen that begin high. *)
Definition many_digits (p : Z) (x : spec_float) : Prop :=
  match fixed_decimal p x with
  | Some (_, n) => 2 ^ prec < n
  | None => False
  end.

#[export] Instance many_digits_dec p x : Decision (many_digits p x).
Proof. unfold many_digits. destruct (fixed_decimal p x) as [[? ?]|]; apply _. Defined.

(** ** Padding is blank *)

Lemma stops_spaces (q : ascii -> bool) k r :
  q " "%char = false -> stops q r -> stops q (spaces k ++ r).
Proof. intros Hq Hr. unfold spaces. by destruct (Z.to_nat k). Qed.

(** ** A decimal written by [printf] is a field of [strtod] *)

(** Digits before the point, digits after it, and an exponent or
    nothing. *)
Lemma parse_body_decimal neg ip fp pt ex X :
  ip <> [] -> all_sat isdigit (ip ++ fp) -> pt = ["."%char] \/ pt = [] /\ fp = [] ->
  stops isdigit ex -> stops is_point ex -> parse_exp ex = Some X ->
  parse_body neg (ip ++ pt ++ fp ++ ex) = Some (neg, digits_val (ip ++ fp), X - len fp).
Proof.
  intros Hne [Hip Hfp]%Forall_app Hpt Hd Hp HX. unfold parse_body, parse_mantissa, len.
  assert (is_nil (ip ++ fp) = false) as Hn by by destruct ip.
  destruct Hpt as [->|[-> ->]].
  - change (ip ++ ["."%char] ++ fp ++ ex) with (ip ++ "."%char :: fp ++ ex).
    rewrite take_while_app, drop_while_app by done. change (is_point "."%char) with true.
    cbv iota. by rewrite take_while_app, drop_while_app, Hn, HX by done.
  - cbn [app]. rewrite take_while_app, drop_while_app by done.
    destruct ex as [|c ex]; [|simpl in Hp; rewrite Hp]; by rewrite Hn, HX.
Qed.

(** The sign that [printf] writes is the sign that [strtod] reads. *)
Lemma parse_float_sign_of fl neg d body : sign_of fl neg <> [" "%char] -> isdigit d = true ->
  parse_float (sign_of fl neg ++ d :: body) = parse_body neg (d :: body).
Proof.
  intros Hs Hd. unfold parse_float.
  destruct (sign_of_cases fl neg) as [[E _]|[[-> ->]|[[-> ->]|[-> ->]]]]; [done| |done..].
  cbn [app]. by rewrite field_sign_digit.
Qed.

(** A decimal in a field of [printf] is blanks, a field of [strtod] that
    denotes the decimal, and blanks; the zeros that pad the field do not
    count. *)
Lemma decimal_field_token fl width neg ip pt fp ex X :
  ip <> [] -> all_sat isdigit (ip ++ fp) -> pt = ["."%char] \/ pt = [] /\ fp = [] ->
  stops isdigit ex -> stops is_point ex -> parse_exp ex = Some X ->
  exists sp t k,
    field fl true width (sign_of fl neg) (ip ++ pt ++ fp ++ ex) = sp ++ t ++ spaces k /\
    all_sat isspace sp /\ parse_float t = Some (neg, digits_val (ip ++ fp), X - len fp).
Proof.
  intros Hne Hd Hpt Hsd Hsp HX.
  destruct (field_layout fl true width (sign_of fl neg) (ip ++ pt ++ fp ++ ex))
    as (l & z & r & ->).
  assert (exists d ip', zeros z ++ ip = d :: ip' /\ isdigit d = true /\
            all_sat isdigit ((d :: ip') ++ fp) /\
            digits_val ((d :: ip') ++ fp) = digits_val (ip ++ fp))
    as (d & ip' & Ez & Hd1 & Hd' & Hv').
  { assert (all_sat isdigit ((zeros z ++ ip) ++ fp)) as Ha
      by (rewrite <- app_assoc; apply Forall_app; split; [apply zeros_digits | done]).
    destruct (zeros z ++ ip) as [|d ip'] eqn:Ez; [by apply app_eq_nil in Ez as [_ ?]|].
    exists d, ip'. split_and!; [done | by inversion Ha | done |].
    by rewrite <- Ez, <- app_assoc, digits_val_zeros. }
  pose proof (parse_body_decimal neg (d :: ip') fp pt ex X ltac:(done) Hd' Hpt Hsd Hsp HX) as Hb.
  rewrite Hv' in Hb. destruct (sign_of_cases fl neg) as [[E ->]|Hs].
  - exists (spaces l ++ [" "%char]), ((d :: ip') ++ pt ++ fp ++ ex), r. split_and!.
    + rewrite E, <- Ez. by rewrite <- !app_assoc.
    + apply Forall_app. split; [apply spaces_blank | by repeat constructor].
    + etrans; [exact (parse_float_sign_of no_flags false d _ ltac:(done) Hd1) | exact Hb].
  - exists (spaces l), (sign_of fl neg ++ (d :: ip') ++ pt ++ fp ++ ex), r. split_and!.
    + rewrite <- Ez. by rewrite <- !app_assoc.
    + apply spaces_blank.
    + rewrite <- Hb. apply parse_float_sign_of; [|done].
      by destruct Hs as [[-> _]|[[-> _]|[-> _]]].
Qed.

(** The point is written unless no digit follows. *)
Lemma point_cases (b : bool) p fp : len fp = p -> 0 <= p ->
  let pt := if (0 <? p) || b then ["."%char] else [] in
  pt = ["."%char] \/ pt = [] /\ fp = [].
Proof.
  intros Hl Hp. destruct ((0 <? p) || b) eqn:E; [by left | right].
  split; [done|]. apply orb_false_iff in E as [E%Z.ltb_ge _].
  apply length_zero_iff_nil. unfold len in Hl. lia.
Qed.

(** What [%f] writes for a number is blanks, a field of [strtod] that
    denotes the decimal printed, and blanks. *)
Lemma expand_fixed_token fl width pr upper x neg n out : 0 <= default 6 pr ->
  fixed_decimal (default 6 pr) x = Some (neg, n) -> 0 <= n ->
  expand_fixed fl width pr upper x = Some out ->
  exists sp t k, out = sp ++ t ++ spaces k /\ all_sat isspace sp /\
    parse_float t = Some (neg, n, - default 6 pr).
Proof.
  intros Hp Hx Hn Ho.
  assert (out = field fl true width (sign_of fl neg) (fixed_digits (fl_alt fl) (default 6 pr) n)) as ->.
  { destruct x; simpl in Hx, Ho; by simplify_eq. }
  destruct (fixed_digits_spec (fl_alt fl) (default 6 pr) n Hp Hn) as (ip & fp & -> & Hne & Hd & Hl & Hv).
  destruct (decimal_field_token fl width neg ip _ fp [] 0 Hne Hd
              (point_cases (fl_alt fl) _ fp Hl Hp)) as (sp & t & k & E & Hsp & Hpar); [done..|].
  exists sp, t, k. rewrite app_nil_r in E. by rewrite Hv, Hl in Hpar.
Qed.

(** ** Numbers written in full *)

Lemma scaled_exact m e p : 0 < m -> 0 <= p -> 0 <= e \/ (m * 10 ^ p) mod 2 ^ (- e) = 0 ->
  scaled m e p * 2 ^ Z.max 0 (- e) = m * 2 ^ Z.max 0 e * 10 ^ p.
Proof.
  intros Hm Hp H. unfold scaled. destruct (Z.leb_spec 0 e) as [He|He].
  - rewrite Z.max_l, Z.max_r, Z.pow_0_r by lia. lia.
  - destruct H as [|H]; [lia|]. rewrite Z.max_r, Z.max_l, Z.pow_0_r, Z.mul_1_r by lia.
    assert (0 < 2 ^ (- e)) as Hd by (apply Z.pow_pos_nonneg; lia).
    unfold round_div. rewrite H. rewrite (proj2 (Z.ltb_lt (2 * 0) _)) by lia.
    pose proof (Z.div_mod (m * 10 ^ p) (2 ^ (- e)) ltac:(lia)). lia.
Qed.

(** A number of binary64 written in full is converted to itself. *)
Lemma strtod_round_fixed p x neg n : 0 <= p ->
  valid_binary prec emax x = true -> fixed_exact p x -> fixed_decimal p x = Some (neg, n) ->
  0 <= n /\ strtod_round neg n (- p) = x.
Proof.
  intros Hp Hv He Hd. destruct x as [s| | |s m e]; simpl in *; simplify_eq; [done|].
  split; [apply scaled_nonneg; lia|].
  apply andb_true_iff in Hv as [Hc%Z.eqb_eq Hb%Z.leb_le].
  change (Z.pos (digits2_pos m)) with (Zdigits2 (Z.pos m)) in Hc.
  by rewrite (strtod_round_exact neg _ p (Z.pos m) e) by (done || by apply scaled_exact).
Qed.

(** The decimal written is within half a unit of its last digit. *)
Lemma scaled_within m e p : 0 <= p -> within_half_unit (scaled m e p) (- p) m e.
Proof.
  intros Hp. pose proof (scaled_spec m e p Hp) as H. unfold within_half_unit.
  rewrite Z.opp_involutive, (Z.max_r 0 p), Z.add_opp_diag_l, Z.pow_0_r by lia.
  destruct (Z.leb_spec 0 e) as [He|He].
  - rewrite H, Z.max_l, Z.add_0_r, Z.pow_0_r by lia.
    replace (_ - _) with 0 by ring. simpl. lia.
  - destruct H as [H _]. rewrite Z.max_r, Z.add_opp_diag_r, Z.pow_0_r by lia.
    replace (m * 1 * 10 ^ p - scaled m e p * 1 * 2 ^ (- e))
      with (- (scaled m e p * 2 ^ (- e) - m * 10 ^ p)) by ring.
    rewrite Z.abs_opp. lia.
Qed.

(** A number of binary64 written in full, or with many digits, is
    converted to itself. *)
Lemma strtod_round_printed p x neg n : 0 <= p ->
  valid_binary prec emax x = true -> fixed_exact p x \/ many_digits p x ->
  fixed_decimal p x = Some (neg, n) ->
  0 <= n /\ strtod_round neg n (- p) = x.
Proof.
  intros Hp Hv [He|Hm] Hd; [by apply strtod_round_fixed|].
  unfold many_digits in Hm. rewrite Hd in Hm.
  destruct x as [s| | |s m e]; simpl in *; simplify_eq.
  { by change (2 ^ prec) with 9007199254740992 in Hm. }
  split; [apply scaled_nonneg; lia|].
  apply andb_true_iff in Hv as [Hc%Z.eqb_eq Hb%Z.leb_le].
  change (Z.pos (digits2_pos m)) with (Zdigits2 (Z.pos m)) in Hc.
  by rewrite (strtod_round_nearby _ _ _ (Z.pos m) e) by (done || by apply scaled_within).
Qed.

(** ** The readers on the output of [printf] *)

(** [readDouble] on blanks, a field of [strtod], the padding of the field
    and input that cannot continue a number: it returns the [double] that
    [strtod] makes of the decimal of the field. *)
Lemma readDouble_field this w bl sp t k r neg n E :
  can_count this w -> good (stream_of_obj this w) = true ->
  rdbuf (stream_of_obj this w) = bl ++ (sp ++ t ++ spaces k) ++ r ->
  all_sat isspace bl -> all_sat isspace sp -> stops float_char r ->
  parse_float t = Some (neg, n, E) -> is_finite (strtod_round neg n E) = true ->
  readDouble this w =
    Returned (strtod_round neg n E)
      (after_read this
         (setstate (is_nil (spaces k ++ r)) false (advance (spaces k ++ r) (stream_of_obj this w)))
         w).
Proof.
  intros Hc G Hb Hbl Hsp Hr Hpar Hfin. rewrite readDouble_read_with.
  pose proof (conv_double_ok t neg n _ Hpar Hfin) as Hcv.
  apply read_with_ok; [done.. | | by apply good_setstate_no_fail].
  simpl. erewrite (extract_double_token _ (bl ++ sp) t);
    [by rewrite Hcv | done | by rewrite Hb, <- !app_assoc | by apply Forall_app
     | by eapply parse_float_field | by apply stops_spaces].
Qed.

(** [readDouble] on a number in fixed notation: it returns the [double]
    that [strtod] makes of the decimal printed. *)
Lemma readDouble_fixed this w fl width pr upper x neg n bl out r :
  can_count this w -> good (stream_of_obj this w) = true ->
  expand_fixed fl width pr upper x = Some out ->
  rdbuf (stream_of_obj this w) = bl ++ out ++ r -> all_sat isspace bl -> stops float_char r ->
  0 <= default 6 pr -> fixed_decimal (default 6 pr) x = Some (neg, n) ->
  is_finite (strtod_round neg n (- default 6 pr)) = true ->
  exists k, readDouble this w =
    Returned (strtod_round neg n (- default 6 pr))
      (after_read this
         (setstate (is_nil (spaces k ++ r)) false (advance (spaces k ++ r) (stream_of_obj this w)))
         w).
Proof.
  intros Hc G Ho Hb Hbl Hr Hp Ed Hfin.
  assert (0 <= n) as Hn by (destruct x; simpl in Ed; simplify_eq; [done | apply scaled_nonneg; lia]).
  destruct (expand_fixed_token fl width pr upper x neg n out Hp Ed Hn Ho)
    as (sp & t & k & -> & Hsp & Hpar).
  exists k. by apply (readDouble_field this w bl sp t k r neg n (- default 6 pr)).
Qed.

(** C21: an [int] written by [%d] is read back by [readInt].  Whatever the
    flags ([-], [+], space, [0]), the field width and the precision of the
    directive, [readInt] on blanks, the field, and input that is not a digit
    returns the value written, and leaves in the stream the padding on the
    right of the field and what follows.  The only exception is the value 0
    under precision 0, for which [printf] writes no digit. *)
Theorem readInt_printf this w fl width pr v bl r :
  can_count this w -> good (stream_of_obj this w) = true ->
  rdbuf (stream_of_obj this w) = bl ++ expand_signed fl width pr v ++ r ->
  all_sat isspace bl -> stops isdigit r -> in_int v -> ~ (v = 0 /\ pr = Some 0) ->
  exists k, readInt this w =
    Returned v
      (after_read this
         (setstate (is_nil (spaces k ++ r)) false (advance (spaces k ++ r) (stream_of_obj this w)))
         w).
Proof.
  intros Hc G Hb Hbl Hr Hv Hz.
  destruct (expand_signed_token fl width pr v Hz) as (sp & t & k & E & Hsp & Ht & <-).
  exists k. rewrite readInt_read_with.
  apply read_with_ok; [done.. | | by apply good_setstate_no_fail].
  apply (extract_int_of_token _ (bl ++ sp) t);
    [done | by rewrite Hb, E, <- !app_assoc | by apply Forall_app | done
     | by apply stops_spaces | done].
Qed.

Lemma readInt_printf_witness :
  exists k, readInt Ouf (opened_world [] $" +00042 and more" []) =
    Returned 42
      (after_read Ouf
         (setstate (is_nil (spaces k ++ $" and more")) false
            (advance (spaces k ++ $" and more")
               (stream_of_obj Ouf (opened_world [] $" +00042 and more" []))))
         (opened_world [] $" +00042 and more" [])).
Proof.
  exact (readInt_printf Ouf (opened_world [] $" +00042 and more" [])
           (Flags false true false false true) 6 None 42 $" " $" and more"
           eq_refl eq_refl eq_refl ltac:(by repeat constructor) eq_refl ltac:(by vm_compute)
           ltac:(by intros [? _])).
Defined.

(** C22: a [double] written by [%f] in full, or with seventeen digits, is
    read back by [readDouble].  For a number [x] of binary64 and a directive
    [%f] whose precision shows all of [x] ([x * 10 ^ p] is an integer), or
    shows so many digits that they make a number above [2 ^ 53], under any
    flags and field width, [readDouble] on blanks, the field, and input
    that cannot continue a number returns [x] itself, sign of zero
    included, and leaves the padding on the right of the field and what
    follows. *)
Theorem readDouble_printf this w fl width pr upper x bl out r :
  can_count this w -> good (stream_of_obj this w) = true ->
  expand_fixed fl width pr upper x = Some out ->
  rdbuf (stream_of_obj this w) = bl ++ out ++ r -> all_sat isspace bl -> stops float_char r ->
  0 <= default 6 pr -> valid_binary prec emax x = true ->
  fixed_exact (default 6 pr) x \/ many_digits (default 6 pr) x ->
  exists k, readDouble this w =
    Returned x
      (after_read this
         (setstate (is_nil (spaces k ++ r)) false (advance (spaces k ++ r) (stream_of_obj this w)))
         w).
Proof.
  intros Hc G Ho Hb Hbl Hr Hp Hv He.
  destruct (fixed_decimal (default 6 pr) x) as [[neg n]|] eqn:Ed;
    [|destruct He as [He|He]; [by destruct x | by unfold many_digits in He; rewrite Ed in He]].
  destruct (strtod_round_printed _ x neg n Hp Hv He Ed) as [Hn Hx].
  destruct (readDouble_fixed this w fl width pr upper x neg n bl out r) as [k Hk]; try done.
  - rewrite Hx. by destruct x.
  - exists k. by rewrite Hk, Hx.
Qed.

Lemma readDouble_printf_witness :
  exists k, readDouble Ouf (opened_world [] $" 0.10000000000000001" []) =
    Returned (S754_finite false 7205759403792794 (-56))
      (after_read Ouf
         (setstate (is_nil (spaces k ++ [])) false
            (advance (spaces k ++ [])
               (stream_of_obj Ouf (opened_world [] $" 0.10000000000000001" []))))
         (opened_world [] $" 0.10000000000000001" [])).
Proof.
  exact (readDouble_printf Ouf (opened_world [] $" 0.10000000000000001" []) no_flags 20
           (Some 17) false (S754_finite false 7205759403792794 (-56)) []
           $" 0.10000000000000001" []
           eq_refl eq_refl eq_refl eq_refl ltac:(constructor) I ltac:(done) eq_refl
           ltac:(right; by apply (bool_decide_unpack _); vm_compute)).
Defined.

(** ** Strings *)

(** A field padded to its width is its content between spaces. *)
Lemma justify_layout left width body :
  exists l k, justify left width body = spaces l ++ body ++ spaces k.
Proof.
  unfold justify. destruct left.
  - exists 0, (width - len body). by rewrite (spaces_nonpos 0).
  - exists (width - len body), 0. by rewrite (spaces_nonpos 0), app_nil_r.
Qed.

(** A word written by [%s] is read back by [readString]: under any width,
    to the left or to the right of its field, the C string of the argument
    is returned when it is not empty and holds no white space, and the
    padding on its right is left in the stream. *)
Lemma readString_printf this w fl width s bl out r :
  can_count this w -> good (stream_of_obj this w) = true ->
  convert fl width None LenNone ConvString (ArgStr s) = Some out ->
  rdbuf (stream_of_obj this w) = bl ++ out ++ r ->
  all_sat isspace bl -> stops nonspace r ->
  c_str s <> EmptyString -> all_sat nonspace (list_ascii_of_string (c_str s)) ->
  exists k, readString this w =
    Returned (c_str s)
      (after_read this
         (setstate (is_nil (spaces k ++ r)) false (advance (spaces k ++ r) (stream_of_obj this w)))
         w).
Proof.
  intros Hc G Ho Hb Hbl Hr Hne Hs. simpl in Ho. destruct (_ || _); [done|].
  injection Ho as <-.
  destruct (justify_layout (fl_left fl) width (list_ascii_of_string (c_str s))) as (l & k & E).
  exists k. rewrite readString_read_with.
  apply read_with_ok; [done.. | | by apply good_setstate_no_fail].
  rewrite <- (string_of_list_ascii_of_string (c_str s)).
  apply (extract_string_token _ (bl ++ spaces l));
    [done | by rewrite Hb, E, <- !app_assoc | apply Forall_app; split; [done | apply spaces_blank]
     | done | by destruct (c_str s) | by apply stops_spaces].
Qed.

Example readString_printf_yes :
  exists k, readString Ouf (opened_world [] $"yes   no" []) =
    Returned "yes"
      (after_read Ouf
         (setstate (is_nil (spaces k ++ $" no")) false
            (advance (spaces k ++ $" no") (stream_of_obj Ouf (opened_world [] $"yes   no" []))))
         (opened_world [] $"yes   no" [])).
Proof.
  apply (readString_printf Ouf _ (Flags true false false false false) 5 "yes" [] $"yes  " $" no");
    try by vm_compute.
  by repeat constructor.
Qed.
