(* ===== verification/Exponent.v ===== *)
(** * Seventeen digits, read back

    A program that writes a [double] for another program to read writes
    seventeen significant digits: [%e] with a precision of 16, or [%g]
    with a precision of 17.  This file shows that the Stream Reader then
    reads the number written, whatever the number: [readDouble] on the
    field that [expand_exp] or [expand_gen] of [Printf.v] writes for a
    [double] returns that [double].

    The digits written are those of [exp_decimal] on the decimal that the
    number is ([exact_decimal]); they make an integer of [p + 1] digits,
    within half a unit of its last digit from the number
    ([exp_decimal_spec], [exp_decimal_within]), and with [16 <= p] such a
    decimal has one number of binary64 that near ([Seventeen.v]).
    [exp_printed] is the decimal that [%e] writes: its sign, its digits
    and its exponent.  [%g] writes the same digits, or those of [%f] at
    the precision that shows as many, which differ from them by one at
    most ([gen_decimal_near]), and leaves out the zeros at their end: the
    decimal is the same, and so is the number it is close to
    ([strtod_round_stripped]).  [seventeen_digits] names the directives
    of the theorem. *)

From Stdlib Require Import Floats.SpecFloat.
From S2P Require Import Prelude CType NumGet FloatRound StrToD Seventeen Printf.
From S2P Require Import IfStream Extract Process Verdict InStream Roundtrip.

Local Open Scope Z_scope.
Local Open Scope chk_scope.

(** The decimal that [%.pe] writes for a number: its sign, its digits as
    an integer and the exponent of the last of them. *)
Definition exp_printed (p : Z) (x : spec_float) : option (bool * Z * Z) :=
  match x with
  | S754_zero s => Some (s, 0, - p)
  | S754_finite s m e =>
      let (D, k) := exact_decimal (Z.pos m) e in
      let (q, X) := exp_decimal p D k in Some (s, q, X - p)
  | S754_infinity _ | S754_nan => None
  end.

(** The directives that write seventeen significant digits: [%e] with a
    precision of 16 or more, and [%g] with one of 17 or more. *)
Definition seventeen_digits (cv : fmt_conv) (pr : option Z) : Prop :=
  match cv with
  | ConvExp _ => 16 <= default 6 pr
  | ConvGen _ => 17 <= default 6 pr
  | _ => False
  end.

#[export] Instance seventeen_digits_dec cv pr : Decision (seventeen_digits cv pr).
Proof. destruct cv; simpl; apply _. Defined.

(** ** Counting digits *)

Lemma pow10_pos k : 0 <= k -> 0 < 10 ^ k.
Proof. by apply Z.pow_pos_nonneg. Qed.

Lemma pow10_S k : 0 <= k -> 10 ^ (k + 1) = 10 * 10 ^ k.
Proof. intros Hk. rewrite Z.pow_add_r by lia. lia. Qed.

Lemma dec_digits_fuel_spec fuel : forall n, 0 < n < 2 ^ Z.of_nat fuel ->
  1 <= dec_digits_fuel fuel n /\
  10 ^ (dec_digits_fuel fuel n - 1) <= n < 10 ^ dec_digits_fuel fuel n.
Proof.
  induction fuel as [|f IH]; intros n Hn; [simpl in Hn; lia|].
  cbn [dec_digits_fuel]. destruct (Z.ltb_spec n 10) as [H|H]; [simpl; lia|].
  rewrite Nat2Z.inj_succ, Z.pow_succ_r in Hn by lia.
  pose proof (Z.div_mod n 10 ltac:(lia)). pose proof (Z.mod_pos_bound n 10 ltac:(lia)).
  destruct (IH (n / 10)) as (Hd & Hl & Hu); [lia|].
  set (d := dec_digits_fuel f (n / 10)) in *.
  replace (1 + d - 1) with (d - 1 + 1) by lia. rewrite (Z.add_comm 1 d), !pow10_S by lia. lia.
Qed.

(** A number of [n] digits is between [10 ^ (n - 1)] and [10 ^ n]. *)
Lemma dec_digits_spec n : 0 < n ->
  1 <= dec_digits n /\ 10 ^ (dec_digits n - 1) <= n < 10 ^ dec_digits n.
Proof.
  intros Hn. apply dec_digits_fuel_spec. rewrite Nat2Z.inj_succ, Z2Nat.id by apply Z.log2_nonneg.
  pose proof (Z.log2_spec n Hn). lia.
Qed.

(** ** The digits written *)

(** [within_half_unit] of an integer. *)
Lemma within_half_unit_int N E D :
  within_half_unit N E D 0 <->
  2 * Z.abs (D * 10 ^ Z.max 0 (- E) - N * 10 ^ (E + Z.max 0 (- E))) <= 10 ^ (E + Z.max 0 (- E)).
Proof.
  unfold within_half_unit. change (Z.max 0 (- 0)) with 0. rewrite Z.add_0_l, Z.pow_0_r.
  by rewrite !Z.mul_1_r.
Qed.

(** A decimal of fewer digits than asked is written in full. *)
Lemma exp_decimal_short p D : 0 < D -> dec_digits D <= p + 1 ->
  let q := D * 10 ^ (p + 1 - dec_digits D) in
  10 ^ p <= q < 10 ^ (p + 1) /\ within_half_unit q (dec_digits D - 1 - p) D 0.
Proof.
  intros HD Hn. destruct (dec_digits_spec D HD) as (Hd & Hl & Hu). set (n := dec_digits D) in *.
  pose proof (pow10_pos (p + 1 - n) ltac:(lia)) as Hb. split.
  - assert (10 ^ p = 10 ^ (n - 1) * 10 ^ (p + 1 - n)) as ->
      by (rewrite <- Z.pow_add_r by lia; f_equal; lia).
    assert (10 ^ (p + 1) = 10 ^ n * 10 ^ (p + 1 - n)) as ->
      by (rewrite <- Z.pow_add_r by lia; f_equal; lia).
    split; [by apply Z.mul_le_mono_nonneg_r; [lia|] | by apply Z.mul_lt_mono_pos_r].
  - apply within_half_unit_int. rewrite Z.max_r by lia.
    replace (n - 1 - p + - (n - 1 - p)) with 0 by lia.
    replace (- (n - 1 - p)) with (p + 1 - n) by lia. rewrite Z.pow_0_r.
    replace (_ - _) with 0 by ring. simpl. lia.
Qed.

(** A decimal of more digits is rounded, to a number of as many digits as
    asked or to the power of ten above them. *)
Lemma exp_decimal_round p D : 0 <= p -> 0 < D -> p + 1 < dec_digits D ->
  let t := dec_digits D - (p + 1) in
  let q := round_div D (10 ^ t) in
  10 ^ p <= q <= 10 ^ (p + 1) /\ 2 * Z.abs (D - q * 10 ^ t) <= 10 ^ t.
Proof.
  intros Hp HD Hn t q. destruct (dec_digits_spec D HD) as (Hd & Hl & Hu).
  pose proof (pow10_pos t ltac:(lia)) as HT. pose proof (pow10_pos p Hp) as HP.
  destruct (round_div_nearest D (10 ^ t) HT) as [Hr _]. fold q in Hr.
  replace (dec_digits D - 1) with (p + t) in Hl by lia.
  replace (dec_digits D) with (p + 1 + t) in Hu by lia.
  rewrite Z.pow_add_r in Hl, Hu by lia. rewrite pow10_S in * by lia.
  set (T := 10 ^ t) in *. set (P := 10 ^ p) in *. split; [nia | lia].
Qed.

(** The digits of [exp_decimal] are [p + 1] digits, within half a unit
    of the last of them from the decimal. *)
Lemma exp_decimal_spec p D k q X : 0 <= p -> 0 < D -> exp_decimal p D k = (q, X) ->
  10 ^ p <= q < 10 ^ (p + 1) /\ within_half_unit q (X - p + k) D 0.
Proof.
  intros Hp HD. unfold exp_decimal. destruct (Z.leb_spec (dec_digits D) (p + 1)) as [Hn|Hn].
  { intros [= <- <-]. replace (_ - p + k) with (dec_digits D - 1 - p) by lia.
    by apply exp_decimal_short. }
  destruct (exp_decimal_round p D Hp HD Hn) as [Hq Hr].
  set (t := dec_digits D - (p + 1)) in *. set (Q := round_div D (10 ^ t)) in *.
  pose proof (pow10_pos t ltac:(lia)) as HT. pose proof (pow10_pos p Hp) as HP.
  rewrite within_half_unit_int.
  destruct (Z.eqb_spec Q (10 ^ (p + 1))) as [E|E]; intros [= <- <-].
  - rewrite pow10_S by done. split; [lia|].
    replace (dec_digits D - k - p + k) with (t + 1) by lia.
    rewrite Z.max_l, Z.add_0_r, Z.pow_0_r, pow10_S by lia. rewrite E, pow10_S in Hr by done.
    set (T := 10 ^ t) in *. set (P := 10 ^ p) in *. nia.
  - split; [lia|]. replace (dec_digits D - 1 - k - p + k) with t by lia.
    rewrite Z.max_l, Z.add_0_r, Z.pow_0_r by lia. by rewrite Z.mul_1_r.
Qed.

(** ** The decimal of a number of binary64 *)

(** A bound on a difference, seen at another scale. *)
Lemma half_unit_scale a U b V c d : 2 * Z.abs b <= V -> 0 < c -> 0 <= d ->
  a * c = b * d -> U * c = V * d -> 2 * Z.abs a <= U.
Proof.
  intros H Hc Hd Ea EU. apply (Z.mul_le_mono_pos_r _ _ c Hc).
  rewrite EU, <- Z.mul_assoc, <- (Z.abs_eq c) at 1 by lia.
  rewrite <- Z.abs_mul, Ea, Z.abs_mul, (Z.abs_eq d), Z.mul_assoc by lia.
  by apply Z.mul_le_mono_nonneg_r.
Qed.

(** What is near the decimal of a number is near the number. *)
Lemma exact_decimal_within N E m e D k : exact_decimal m e = (D, k) ->
  within_half_unit N E D 0 -> within_half_unit N (E - k) m e.
Proof.
  unfold exact_decimal. destruct (Z.leb_spec 0 e) as [He|He]; intros [= <- <-].
  { rewrite Z.sub_0_r. unfold within_half_unit. change (Z.max 0 (- 0)) with 0.
    rewrite (Z.max_l 0 (- e)) by lia. by rewrite !Z.add_0_r, Z.pow_0_r, !Z.mul_1_r. }
  intros H%within_half_unit_int. unfold within_half_unit.
  rewrite (Z.max_r 0 (- e)), Z.add_opp_diag_r, Z.pow_0_r, Z.mul_1_r by lia.
  set (k := - e) in *. set (u' := Z.max 0 (- E)) in *. set (u := Z.max 0 (- (E - k))).
  assert (10 ^ (E - k + u) * 2 ^ k * (5 ^ k * 10 ^ u') = 10 ^ (E + u') * 10 ^ u) as HI.
  { rewrite <- (Z.mul_assoc (10 ^ _)), (Z.mul_assoc (2 ^ k)), <- Z.pow_mul_l.
    change (2 * 5) with 10. rewrite <- !Z.pow_add_r by lia. f_equal. lia. }
  apply (half_unit_scale _ _ _ _ (5 ^ k * 10 ^ u') (10 ^ u) H);
    [apply Z.mul_pos_pos; apply Z.pow_pos_nonneg; lia | apply Z.pow_nonneg; lia | | done].
  rewrite Z.mul_sub_distr_r, <- (Z.mul_assoc N), <- (Z.mul_assoc N), HI. ring.
Qed.

(** The digits written for a number are [p + 1] digits, within half a
    unit of the last of them from the number. *)
Lemma exp_decimal_within p m e D k q X : 0 <= p -> 0 < m ->
  exact_decimal m e = (D, k) -> exp_decimal p D k = (q, X) ->
  10 ^ p <= q < 10 ^ (p + 1) /\ within_half_unit q (X - p) m e.
Proof.
  intros Hp Hm Ed Eq.
  assert (0 < D) as HD.
  { unfold exact_decimal in Ed.
    destruct (Z.leb_spec 0 e); simplify_eq; apply Z.mul_pos_pos; try done;
      apply Z.pow_pos_nonneg; lia. }
  destruct (exp_decimal_spec p D k q X Hp HD Eq) as [Hq Hw]. split; [done|].
  replace (X - p) with (X - p + k - k) by lia. by eapply exact_decimal_within.
Qed.

(** With sixteen digits after the point, the decimal written is
    converted to the number it was written for. *)
Lemma strtod_round_exp p x neg q E : 16 <= p -> valid_binary prec emax x = true ->
  exp_printed p x = Some (neg, q, E) -> 0 <= q /\ strtod_round neg q E = x.
Proof.
  intros Hp Hv Hd. destruct x as [s| | |s m e]; simpl in *; simplify_eq; [done|].
  destruct (exact_decimal (Z.pos m) e) as [D k] eqn:Ed.
  destruct (exp_decimal p D k) as [q' X] eqn:Eq. simplify_eq.
  destruct (exp_decimal_within p (Z.pos m) e D k q X) as [[Hq _] Hw]; [lia | done..|].
  pose proof (Z.pow_le_mono_r 10 16 p ltac:(lia) Hp) as H16.
  change (10 ^ 16) with 10000000000000000 in H16.
  apply andb_true_iff in Hv as [Hc%Z.eqb_eq Hb%Z.leb_le].
  change (Z.pos (digits2_pos m)) with (Zdigits2 (Z.pos m)) in Hc.
  split; [lia|]. rewrite (strtod_round_nearby _ _ _ (Z.pos m) e); try done.
  change (2 ^ prec) with 9007199254740992. lia.
Qed.

(** ** Exponent notation is a field of [strtod] *)

Lemma parse_exp_part upper X : parse_exp (exp_part upper X) = Some X.
Proof.
  unfold exp_part, parse_exp. rewrite print_radix_decimal.
  destruct (print_nat_spec (Z.abs X) ltac:(lia)) as (Hne & Hd & Hv).
  set (ds := zeros _ ++ _).
  assert (ds <> [] /\ all_sat isdigit ds /\ digits_val ds = Z.abs X) as (Hne' & Hd' & Hv').
  { unfold ds. rewrite digits_val_zeros.
    split_and!; [by intros [_ ?]%app_eq_nil | apply Forall_app; split; [apply zeros_digits | done]
                | done]. }
  assert (is_exp (if upper then "E"%char else "e"%char) = true) as -> by by destruct upper.
  destruct (Z.ltb_spec X 0); simpl;
    rewrite bool_decide_eq_true_2, bool_decide_eq_true_2 by done; simpl; f_equal; lia.
Qed.

Lemma exp_part_stops upper X :
  stops isdigit (exp_part upper X) /\ stops is_point (exp_part upper X).
Proof. unfold exp_part. by destruct upper. Qed.

(** What [%e] writes for a number is blanks, a field of [strtod] that
    denotes the decimal printed, and blanks. *)
Lemma exp_field_token fl width p upper neg q X : 0 <= p -> 0 <= q ->
  exists sp t k,
    field fl true width (sign_of fl neg) (fixed_digits (fl_alt fl) p q ++ exp_part upper X) =
      sp ++ t ++ spaces k /\
    all_sat isspace sp /\ parse_float t = Some (neg, q, X - p).
Proof.
  intros Hp Hq.
  destruct (fixed_digits_spec (fl_alt fl) p q Hp Hq) as (ip & fp & -> & Hne & Hd & Hl & Hv).
  destruct (exp_part_stops upper X) as [Hsd Hsp].
  destruct (decimal_field_token fl width neg ip _ fp (exp_part upper X) X Hne Hd
              (point_cases (fl_alt fl) _ fp Hl Hp) Hsd Hsp (parse_exp_part upper X))
    as (sp & t & k & E & Hs & Hpar).
  exists sp, t, k. rewrite <- !app_assoc. by rewrite Hv, Hl in Hpar.
Qed.

Lemma expand_exp_token fl width pr upper x neg q E out : 0 <= default 6 pr ->
  exp_printed (default 6 pr) x = Some (neg, q, E) -> 0 <= q ->
  expand_exp fl width pr upper x = Some out ->
  exists sp t k, out = sp ++ t ++ spaces k /\ all_sat isspace sp /\
    parse_float t = Some (neg, q, E).
Proof.
  intros Hp Hx Hq Ho. unfold expand_exp in Ho. destruct x as [s| | |s m e]; simpl in Hx; [|done..|].
  - simplify_eq. rewrite <- (Z.sub_0_l (default 6 pr)). by apply exp_field_token.
  - destruct (exact_decimal (Z.pos m) e) as [D k]. destruct (exp_decimal _ D k) as [q' X].
    simplify_eq. by apply exp_field_token.
Qed.

(** ** General notation *)

(** Zeros only are zeros. *)
Lemma all_zeros l : all_sat (fun c => bool_decide (c = "0"%char)) l -> l = zeros (len l).
Proof.
  unfold zeros, len. rewrite Nat2Z.id.
  induction 1 as [|c l Hc%bool_decide_eq_true _ IH]; simpl; [done|]. by rewrite Hc, <- IH.
Qed.

(** What [strip_zeros] removes is zeros at the end. *)
Lemma strip_zeros_spec fp : exists j, 0 <= j /\ fp = strip_zeros fp ++ zeros j.
Proof.
  unfold strip_zeros. set (z := fun c => bool_decide (c = "0"%char)).
  exists (len (take_while z (reverse fp))). split; [apply len_nonneg|].
  rewrite <- (all_zeros _ (take_while_all_sat z _)).
  rewrite <- (reverse_involutive fp) at 1.
  rewrite <- (take_drop_while z (reverse fp)) at 1. rewrite reverse_app. f_equal.
  rewrite (all_zeros _ (take_while_all_sat z (reverse fp))). apply reverse_replicate.
Qed.

(** Digits followed by zeros. *)
Lemma digits_val_app_zeros ds j : 0 <= j -> digits_val (ds ++ zeros j) = digits_val ds * 10 ^ j.
Proof. intros Hj. unfold digits_val. by rewrite digits_acc_app, digits_acc_zeros, Z.max_r. Qed.

(** The digits that [%g] writes: the digits of the number without [j]
    zeros at their end. *)
Lemma gen_digits_spec alt p n : 0 <= p -> 0 <= n ->
  exists ip pt fp j, gen_digits alt p n = ip ++ pt ++ fp /\
    ip <> [] /\ all_sat isdigit (ip ++ fp) /\ (pt = ["."%char] \/ pt = [] /\ fp = []) /\
    0 <= j /\ len fp = p - j /\ digits_val (ip ++ fp) * 10 ^ j = n.
Proof.
  intros Hp Hn. destruct (split_digits_spec p n Hp Hn) as (ip & fp & E & Hne & Hd & Hl & Hv).
  unfold gen_digits. rewrite E. destruct alt; cbn [orb].
  { exists ip, ["."%char], fp, 0. rewrite Z.sub_0_r, Z.mul_1_r. split_and!; try done. by left. }
  destruct (strip_zeros_spec fp) as (j & Hj & Ej). set (fp' := strip_zeros fp) in *.
  exists ip, (if negb (is_nil fp') then ["."%char] else []), fp', j.
  rewrite Ej, app_assoc in Hd, Hv. rewrite digits_val_app_zeros in Hv by done.
  rewrite Ej, len_app, len_zeros in Hl. apply Forall_app in Hd as [Hd _].
  split_and!; try done; [|lia]. destruct fp'; [by right | by left].
Qed.

(** What [%g] writes is blanks, a field of [strtod], and blanks; the
    field denotes the decimal printed, without zeros at its end. *)
Lemma gen_field_token fl width neg p n ex X : 0 <= p -> 0 <= n ->
  stops isdigit ex -> stops is_point ex -> parse_exp ex = Some X ->
  exists sp t k N j,
    field fl true width (sign_of fl neg) (gen_digits (fl_alt fl) p n ++ ex) =
      sp ++ t ++ spaces k /\
    all_sat isspace sp /\ 0 <= j /\ N * 10 ^ j = n /\ parse_float t = Some (neg, N, X - p + j).
Proof.
  intros Hp Hn Hsd Hsp HX.
  destruct (gen_digits_spec (fl_alt fl) p n Hp Hn)
    as (ip & pt & fp & j & -> & Hne & Hd & Hpt & Hj & Hl & Hv).
  destruct (decimal_field_token fl width neg ip pt fp ex X Hne Hd Hpt Hsd Hsp HX)
    as (sp & t & k & E & Hs & Hpar).
  exists sp, t, k, (digits_val (ip ++ fp)), j. rewrite <- !app_assoc.
  split_and!; try done. by replace (X - p + j) with (X - len fp) by lia.
Qed.

(** ** The decimal written is read as the number *)

(** Two integers within half a unit of a number differ by one at most. *)
Lemma within_half_unit_both q N E m e :
  within_half_unit q E m e -> within_half_unit N E m e -> Z.abs (q - N) <= 1.
Proof.
  unfold within_half_unit. set (t := Z.max 0 (- e)). set (u := Z.max 0 (- E)).
  rewrite <- (Z.mul_assoc q), <- (Z.mul_assoc N). intros Hq HN.
  assert (0 < 10 ^ (E + u) * 2 ^ t) as HU by (apply Z.mul_pos_pos; apply Z.pow_pos_nonneg; lia).
  set (U := 10 ^ (E + u) * 2 ^ t) in *. set (a := m * 2 ^ (e + t) * 10 ^ u) in *.
  clearbody a U. nia.
Qed.

(** A decimal of many digits near a [double], written without the zeros
    at its end, is converted to that [double]. *)
Lemma strtod_round_stripped neg N j E m e : 0 <= j -> 2 ^ prec < N * 10 ^ j ->
  0 < m -> SpecFloat.fexp prec emax (Zdigits2 m + e) = e -> e <= emax - prec ->
  within_half_unit (N * 10 ^ j) E m e ->
  strtod_round neg N (E + j) = S754_finite neg (Z.to_pos m) e.
Proof.
  intros Hj HN Hm Hc He Hw. pose proof (pow10_pos j Hj) as H10.
  apply strtod_round_close; try done.
  - change (2 ^ prec) with 9007199254740992 in HN. nia.
  - apply (close_decimal_strip N (E + j) j m e Hj). replace (E + j - j) with E by lia.
    by apply within_half_unit_close.
Qed.

(** The digits that [%g] writes with a precision of 17 or more, in either
    notation, make a number above [2 ^ 53] within half a unit of the last
    of them from the number written. *)
Lemma gen_decimal_near P m e D k q X : 17 <= P -> 0 < m ->
  exact_decimal m e = (D, k) -> exp_decimal (P - 1) D k = (q, X) ->
  let n := if (-4 <=? X) && (X <? P) then scaled m e (P - 1 - X) else q in
  2 ^ prec < n /\ within_half_unit n (X - (P - 1)) m e.
Proof.
  intros HP Hm Ed Eq.
  destruct (exp_decimal_within (P - 1) m e D k q X ltac:(lia) Hm Ed Eq) as [[Hq _] Hw].
  pose proof (Z.pow_le_mono_r 10 16 (P - 1) ltac:(lia) ltac:(lia)) as H16.
  change (10 ^ 16) with 10000000000000000 in H16. change (2 ^ prec) with 9007199254740992.
  destruct ((-4 <=? X) && (X <? P)) eqn:Ef; cbv zeta; [|split; [lia | done]].
  apply andb_true_iff in Ef as [_ Hx%Z.ltb_lt].
  pose proof (scaled_within m e (P - 1 - X) ltac:(lia)) as Hs.
  replace (- (P - 1 - X)) with (X - (P - 1)) in Hs by lia.
  pose proof (within_half_unit_both _ _ _ _ _ Hw Hs). split; [lia | done].
Qed.

(** ** The fields of seventeen digits *)

(** What [%e] writes with a precision of 16 or more is a field that
    [strtod] converts to the number written. *)
Lemma expand_exp_read fl width pr upper x out : 16 <= default 6 pr ->
  valid_binary prec emax x = true -> is_finite x = true ->
  expand_exp fl width pr upper x = Some out ->
  exists sp t k neg N E, out = sp ++ t ++ spaces k /\ all_sat isspace sp /\
    parse_float t = Some (neg, N, E) /\ strtod_round neg N E = x.
Proof.
  intros Hp Hv Hf Ho.
  destruct (exp_printed (default 6 pr) x) as [[[neg q] E]|] eqn:Ed.
  - destruct (strtod_round_exp _ x neg q E Hp Hv Ed) as [Hq Hx].
    destruct (expand_exp_token fl width pr upper x neg q E out ltac:(lia) Ed Hq Ho)
      as (sp & t & k & -> & Hsp & Hpar).
    by exists sp, t, k, neg, q, E.
  - destruct x as [s| | |s m e]; simpl in Ed; try done.
    destruct (exact_decimal (Z.pos m) e) as [D k]. by destruct (exp_decimal _ D k).
Qed.

(** What [%g] writes with a precision of 17 or more is a field that
    [strtod] converts to the number written. *)
Lemma expand_gen_read fl width pr upper x out : 17 <= default 6 pr ->
  valid_binary prec emax x = true -> is_finite x = true ->
  expand_gen fl width pr upper x = Some out ->
  exists sp t k neg N E, out = sp ++ t ++ spaces k /\ all_sat isspace sp /\
    parse_float t = Some (neg, N, E) /\ strtod_round neg N E = x.
Proof.
  intros Hp Hv Hf. unfold expand_gen. rewrite Z.max_r by lia. set (P := default 6 pr) in *.
  destruct x as [s| | |s m e]; [|done..|].
  - intros [= <-].
    destruct (gen_field_token fl width s (P - 1) 0 [] 0) as (sp & t & k & N & j & E & Hs & Hj & HN & Hpar);
      [lia | done..|].
    rewrite app_nil_r in E. exists sp, t, k, s, N, (0 - (P - 1) + j). split_and!; try done.
    pose proof (pow10_pos j Hj). assert (N = 0) as -> by nia. done.
  - destruct (exact_decimal (Z.pos m) e) as [D kd] eqn:Ed.
    destruct (exp_decimal (P - 1) D kd) as [q X] eqn:Eq. intros [= <-].
    destruct (gen_decimal_near P (Z.pos m) e D kd q X Hp ltac:(done) Ed Eq) as [Hn Hw].
    apply andb_true_iff in Hv as [Hc%Z.eqb_eq Hb%Z.leb_le].
    change (Z.pos (digits2_pos m)) with (Zdigits2 (Z.pos m)) in Hc.
    destruct ((-4 <=? X) && (X <? P)) eqn:Ef.
    + apply andb_true_iff in Ef as [_ Hx%Z.ltb_lt].
      destruct (gen_field_token fl width s (P - 1 - X) (scaled (Z.pos m) e (P - 1 - X)) [] 0)
        as (sp & t & k & N & j & E & Hs & Hj & HN & Hpar);
        [lia | apply scaled_nonneg; lia | done..|].
      rewrite app_nil_r in E. exists sp, t, k, s, N, (X - (P - 1) + j). rewrite <- HN in Hn, Hw.
      replace (0 - (P - 1 - X) + j) with (X - (P - 1) + j) in Hpar by lia.
      split_and!; [done..|].
      exact (strtod_round_stripped s N j _ (Z.pos m) e Hj Hn ltac:(done) Hc Hb Hw).
    + destruct (exp_part_stops upper X) as [Hsd Hsp].
      destruct (gen_field_token fl width s (P - 1) q (exp_part upper X) X)
        as (sp & t & k & N & j & E & Hs & Hj & HN & Hpar);
        [lia | change (2 ^ prec) with 9007199254740992 in Hn; lia | done..
         | apply parse_exp_part |].
      exists sp, t, k, s, N, (X - (P - 1) + j). rewrite <- HN in Hn, Hw.
      split_and!; [done..|].
      exact (strtod_round_stripped s N j _ (Z.pos m) e Hj Hn ltac:(done) Hc Hb Hw).
Qed.

(** A directive of seventeen digits writes a field that [strtod]
    converts to the number written. *)
Lemma convert_read fl width pr ln cv x out : seventeen_digits cv pr ->
  valid_binary prec emax x = true -> is_finite x = true ->
  convert fl width pr ln cv (ArgDouble x) = Some out ->
  exists sp t k neg N E, out = sp ++ t ++ spaces k /\ all_sat isspace sp /\
    parse_float t = Some (neg, N, E) /\ strtod_round neg N E = x.
Proof.
  intros Hd Hv Hf. destruct cv; try done; cbn [convert]; case_test; try done; cbn [double_arg mbind option_bind].
  - by apply expand_exp_read.
  - by apply expand_gen_read.
Qed.

(** ** The reader on the output of [%e] and [%g] *)

(** C23: a [double] written with seventeen significant digits is read
    back by [readDouble].  For every number [x] of binary64, zero,
    subnormal or normal, and a directive [%e] or [%E] with a precision
    of 16 or more, or [%g] or [%G] with a precision of 17 or more, under
    any flags and field width, [readDouble] on blanks, the field, and
    input that cannot continue a number returns [x] itself, sign of zero
    included, and leaves the padding on the right of the field and what
    follows.  With [%g] the zeros at the end of the fraction are not
    written, and the number is read back from the digits that remain. *)
Theorem readDouble_printf_seventeen this w fl width pr ln cv x bl out r :
  can_count this w -> good (stream_of_obj this w) = true ->
  convert fl width pr ln cv (ArgDouble x) = Some out -> seventeen_digits cv pr ->
  rdbuf (stream_of_obj this w) = bl ++ out ++ r -> all_sat isspace bl -> stops float_char r ->
  valid_binary prec emax x = true -> is_finite x = true ->
  exists k, readDouble this w =
    Returned x
      (after_read this
         (setstate (is_nil (spaces k ++ r)) false (advance (spaces k ++ r) (stream_of_obj this w)))
         w).
Proof.
  intros Hc G Ho Hd Hb Hbl Hr Hv Hf.
  destruct (convert_read fl width pr ln cv x out Hd Hv Hf Ho)
    as (sp & t & k & neg & N & E & -> & Hsp & Hpar & Hx).
  exists k. rewrite <- Hx at 1.
  apply (readDouble_field this w bl sp t k r neg N E); try done. by rewrite Hx.
Qed.

Lemma readDouble_printf_seventeen_witness :
  exists k, readDouble Ouf (opened_world [] $" 1.5 2.5" []) =
    Returned (S754_finite false 6755399441055744 (-52))
      (after_read Ouf
         (setstate (is_nil (spaces k ++ $" 2.5")) false
            (advance (spaces k ++ $" 2.5")
               (stream_of_obj Ouf (opened_world [] $" 1.5 2.5" []))))
         (opened_world [] $" 1.5 2.5" [])).
Proof.
  exact (readDouble_printf_seventeen Ouf (opened_world [] $" 1.5 2.5" []) no_flags 4
           (Some 17) LenNone (ConvGen false) (S754_finite false 6755399441055744 (-52)) []
           $" 1.5" $" 2.5"
           eq_refl eq_refl eq_refl ltac:(done) eq_refl ltac:(constructor) eq_refl eq_refl eq_refl).
Defined.

(** The least subnormal number and the greatest finite one, written with
    [%.16e] and read back; one third written by [%e] with its default
    precision, which loses digits; and one tenth and a large integer as
    [%.17g] writes them. *)
Example seventeen_digits_examples :
  (expand_exp no_flags 0 (Some 16) false (S754_finite false 1 (-1074)) ≫= parse_float =
     Some (false, 49406564584124654, -340)) /\
  strtod_round false 49406564584124654 (-340) = S754_finite false 1 (-1074) /\
  (expand_exp no_flags 0 (Some 16) false (S754_finite true 9007199254740991 971) ≫= parse_float =
     Some (true, 17976931348623157, 292)) /\
  strtod_round true 17976931348623157 292 = S754_finite true 9007199254740991 971 /\
  (expand_exp no_flags 0 None false (S754_finite false 6004799503160661 (-54)) ≫= parse_float =
     Some (false, 3333333, -7)) /\
  strtod_round false 3333333 (-7) <> S754_finite false 6004799503160661 (-54) /\
  expand_gen no_flags 0 (Some 17) false (S754_finite false 7205759403792794 (-56)) =
    Some $"0.10000000000000001" /\
  expand_gen no_flags 0 (Some 17) false (S754_finite false 4503599627370496 1) =
    Some $"9007199254740992" /\
  expand_gen no_flags 0 (Some 17) false (S754_finite false 4503599627370496 48) =
    Some $"1.2676506002282294e+30".
Proof. by vm_compute. Qed.
