(* ===== verification/AddFileIO.v ===== *)
(** * The sample solution [add_fileio]

    [src/judger/test/add_fileio.cpp] is the program a judge runs before the
    checker: it reads two integers from the file [input.txt] and writes
    their sum and a newline to the file [output.txt].  It is a separate
    process; of the [World] it uses the file system only.

    [main] follows the source statement by statement.  The two locals
    [int a, b] are not initialised: each is the value its extraction stored,
    if it stored one, and reading it otherwise is undefined behaviour, as is
    a sum that does not fit an [int]. *)

From stdpp Require Import gmap.
From S2P Require Import Prelude CType NumGet IfStream Extract Process TokenSpec.

Local Open Scope Z_scope.
Local Open Scope chk_scope.

(** ** The output file *)

Definition set_fs (files : gmap string (list ascii)) (w : World) : World :=
  mk_World files (inf w) (ouf w) (ans w) (inf_ w) (ouf_ w) (ans_ w) (cout w) (cerr w).

(** [std::ofstream fout(path)]: the file is created, or truncated. *)
Definition ofstream_open (path : string) : Proc unit :=
  fun w => Returned tt (set_fs (<[path := []]> (fs w)) w).

(** [fout << text] on the stream opened on [path]. *)
Definition ofstream_put (path : string) (text : list ascii) : Proc unit :=
  fun w => Returned tt (set_fs (<[path := default [] (fs w !! path) ++ text]> (fs w)) w).

(** [fin.close()]. *)
Definition close (s : ifstream) : ifstream :=
  if opened s then {| opened := false; rdbuf := []; eofbit := eofbit s; failbit := failbit s |}
  else setstate false true s.

(** [a + b] on [int]: a sum out of range is undefined. *)
Definition int_add (a b : Z) : Proc Z :=
  if decide (in_int (a + b)) then mret (a + b) else undefined.

(** ** The program *)

Definition main : Proc Z :=
  c ← fs_lookup "input.txt";
  let fin := open c closed_stream in
  let (fin1, a) := extract_int fin in
  let (fin2, b) := extract_int fin1 in
  let _ := close fin2 in
  ofstream_open "output.txt";;
  a ← stored a;
  b ← stored b;
  sum ← int_add a b;
  ofstream_put "output.txt" (print_int sum);;
  ofstream_put "output.txt" [LF];;
  mret 0.

(** ** What the program computes *)

(** The number that [main] writes, as a function of the contents of
    [input.txt], or [None] where its behaviour is undefined.  The first
    token must convert, since a failed extraction leaves the stream failed
    and [b] is then not stored; of the second token only the field that
    [num_get] takes counts, and when it does not convert the value that
    C++11 stores in its place is added: 0, or the bound of [int] that an
    out-of-range field exceeds. *)
Definition main_spec (input : option (list ascii)) : option Z :=
  c ← input;
  match tokens c with
  | [] => None
  | t :: q =>
      let (a, bad) := conv_int (scan_int t).1 in
      if bad then None
      else
        match (if is_nil (scan_int t).2 then q else (scan_int t).2 :: q) with
        | [] => None
        | t2 :: _ =>
            let b := (conv_int (scan_int t2).1).1 in
            if decide (in_int (a + b)) then Some (a + b) else None
        end
  end.

(** ** Closed form *)

Lemma main_run w :
  main w =
  let r1 := extract_int (open (fs w !! "input.txt") closed_stream) in
  let r2 := extract_int r1.1 in
  match r1.2, r2.2 with
  | Some a, Some b =>
      if decide (in_int (a + b))
      then Returned 0 (set_fs (<["output.txt" := print_int (a + b) ++ [LF]]> (fs w)) w)
      else Undefined
  | _, _ => Undefined
  end.
Proof.
  unfold main, ofstream_open, ofstream_put, int_add. proc_run. simpl.
  destruct (extract_int (open _ _)) as [s1 [a|]]; simpl;
    destruct (extract_int s1) as [s2 [b|]]; simpl; try done.
  destruct (decide (in_int (a + b))); [|done]. simpl. unfold set_fs. simpl.
  by rewrite !lookup_insert_eq, !insert_insert_eq.
Qed.

(** The stream [fin] after its construction on a file that exists. *)
Lemma abs_rel_open c : abs_rel (open (Some c) closed_stream) (tokens c).
Proof. rewrite open_ok by done. apply abs_rel_stream_of. Qed.

(** On two printed integers. *)
Lemma main_two_ints w c a b q :
  fs w !! "input.txt" = Some c -> tokens c = print_int a :: print_int b :: q ->
  in_int a -> in_int b ->
  main w =
  if decide (in_int (a + b))
  then Returned 0 (set_fs (<["output.txt" := print_int (a + b) ++ [LF]]> (fs w)) w)
  else Undefined.
Proof.
  intros Hc Ht Ha Hb. rewrite main_run, Hc. cbv zeta.
  pose proof (abs_rel_open c) as H. rewrite Ht in H.
  apply extract_int_abs_print in H as (s1 & E1 & _ & H); [|done]. rewrite E1. cbn [fst snd].
  apply extract_int_abs_print in H as (s2 & E2 & _); [|done]. by rewrite E2.
Qed.

(** ** The program on every input *)

(** [main] on every input. *)
Lemma main_total w :
  main w =
  match main_spec (fs w !! "input.txt") with
  | Some sum => Returned 0 (set_fs (<["output.txt" := print_int sum ++ [LF]]> (fs w)) w)
  | None => Undefined
  end.
Proof.
  rewrite main_run. cbv zeta. destruct (fs w !! "input.txt") as [c|];
    [|by rewrite open_missing, extract_int_not_good].
  unfold main_spec. cbn [mbind option_bind]. pose proof (abs_rel_open c) as H.
  destruct (tokens c) as [|t q].
  { by destruct (extract_int_abs_nil _ H) as (_ & _ & ->). }
  apply extract_int_abs in H as (s1 & -> & Hf & H). cbn [fst snd].
  destruct (conv_int (scan_int t).1) as [a bad]. cbn [fst snd] in *. destruct bad.
  { rewrite extract_int_not_good; [done|]. apply good_false. by right. }
  specialize (H Hf). destruct (if is_nil _ then _ else _) as [|t2 q2].
  { by destruct (extract_int_abs_nil _ H) as (_ & _ & ->). }
  apply extract_int_abs in H as (s2 & -> & _). cbn [fst snd]. by case_decide.
Qed.

(** The number written fits an [int]. *)
Lemma main_spec_in_int input sum : main_spec input = Some sum -> in_int sum.
Proof.
  unfold main_spec. destruct input as [c|]; [|done]. cbn [mbind option_bind].
  destruct (tokens c) as [|t q]; [done|]. destruct (conv_int (scan_int t).1) as [a []]; [done|].
  destruct (if is_nil _ then _ else _) as [|t2 q2]; [done|]. case_decide; [|done].
  by intros [= <-].
Qed.

(** On two printed integers [main_spec] is their sum. *)
Lemma main_spec_two_ints c a b q :
  tokens c = print_int a :: print_int b :: q -> in_int a -> in_int b ->
  main_spec (Some c) = if decide (in_int (a + b)) then Some (a + b) else None.
Proof.
  intros Ht Ha Hb. unfold main_spec. cbn [mbind option_bind]. rewrite Ht.
  rewrite <- (app_nil_r (print_int a)), <- (app_nil_r (print_int b)).
  rewrite (scan_int_print_int a []) by done. cbn [fst snd is_nil].
  rewrite (scan_int_print_int b []) by done. cbn [fst snd].
  by rewrite (conv_int_print_int a), (conv_int_print_int b).
Qed.

(** C31: what the sample solution does, on every input.  [main] writes to
    [output.txt] the number [main_spec] gives for the contents of
    [input.txt], followed by a newline, and returns 0; where [main_spec]
    gives none (no file, fewer than two tokens, a first token that does
    not convert, a sum that does not fit an [int]) its behaviour is
    undefined.  A second token that does not convert does not stop it:
    the value stored in its place is added.  What is written is a file of
    one token, the decimal form of a value that fits an [int]; and on an
    input that starts with the decimal forms of two values that fit an
    [int] it is their sum, where the sum fits an [int]. *)
Theorem add_fileio_total w :
  main w =
    match main_spec (fs w !! "input.txt") with
    | Some sum => Returned 0 (set_fs (<["output.txt" := print_int sum ++ [LF]]> (fs w)) w)
    | None => Undefined
    end /\
  (forall sum, main_spec (fs w !! "input.txt") = Some sum ->
     in_int sum /\ tokens (print_int sum ++ [LF]) = [print_int sum]) /\
  (forall c a b q, tokens c = print_int a :: print_int b :: q -> in_int a -> in_int b ->
     main_spec (Some c) = if decide (in_int (a + b)) then Some (a + b) else None).
Proof.
  split; [apply main_total|]. split; [|apply main_spec_two_ints].
  intros sum H%main_spec_in_int. split; [done | apply tokens_print_line].
Qed.

(** A second token that is not a number counts as 0. *)
Example add_fileio_garbage :
  main_spec (Some $"3 x") = Some 3 /\
  main_spec (Some $"-1 99999999999") = Some 2147483646 /\
  main_spec (Some $"x 3") = None /\ main_spec (Some $"12-5") = Some 7.
Proof. by vm_compute. Qed.

(** ** The program, case by case *)

(** The sum of two integers.  When [input.txt] starts with the decimal
    forms of two values [a] and [b] that fit an [int], separated and
    surrounded by any blanks, and the sum fits an [int], [main] returns 0 and
    has replaced the contents of [output.txt] by the decimal form of [a + b]
    and a newline; nothing else has changed. *)
Theorem add_fileio_sum w c a b q :
  fs w !! "input.txt" = Some c -> tokens c = print_int a :: print_int b :: q ->
  in_int a -> in_int b -> in_int (a + b) ->
  main w = Returned 0 (set_fs (<["output.txt" := print_int (a + b) ++ [LF]]> (fs w)) w).
Proof.
  intros Hc Ht Ha Hb Hab. rewrite (main_two_ints w c a b q) by done. by rewrite decide_True.
Qed.

Lemma add_fileio_sum_witness :
  main (initial_world {[ "input.txt" := $"3 5" ]}) =
  Returned 0 (set_fs (<["output.txt" := $"8
"]> {[ "input.txt" := $"3 5" ]}) (initial_world {[ "input.txt" := $"3 5" ]})).
Proof.
  etrans; [apply (add_fileio_sum _ $"3 5" 3 5 []); by vm_compute|]. by vm_compute.
Defined.

(** C40: short input.  When [input.txt] cannot be opened, holds only
    blanks, or holds a single well-formed integer and nothing else, one of
    the locals is read without having been stored: the behaviour of [main]
    is undefined. *)
Theorem add_fileio_short_input w :
  fs w !! "input.txt" = None \/
  (exists c, fs w !! "input.txt" = Some c /\
     (tokens c = [] \/ exists a, in_int a /\ tokens c = [print_int a])) ->
  main w = Undefined.
Proof.
  rewrite main_run. cbv zeta. intros [->|(c & -> & [Ht|(a & Ha & Ht)])].
  - by rewrite open_missing, extract_int_not_good.
  - pose proof (abs_rel_open c) as H. rewrite Ht in H.
    by destruct (extract_int_abs_nil _ H) as (_ & _ & ->).
  - pose proof (abs_rel_open c) as H. rewrite Ht in H.
    apply extract_int_abs_print in H as (s1 & E1 & _ & H); [|done]. rewrite E1. cbn [fst snd].
    by destruct (extract_int_abs_nil _ H) as (_ & _ & ->).
Qed.

Lemma add_fileio_short_input_witness :
  main (initial_world {[ "input.txt" := $"3
" ]}) = Undefined.
Proof.
  apply add_fileio_short_input. right. exists ($"3
"). split; [by vm_compute|]. right. exists 3. by vm_compute.
Defined.

(** Overflow.  When the two values read fit an [int] and their sum
    does not, the addition overflows: the behaviour of [main] is
    undefined. *)
Theorem add_fileio_overflow w c a b q :
  fs w !! "input.txt" = Some c -> tokens c = print_int a :: print_int b :: q ->
  in_int a -> in_int b -> ~ in_int (a + b) ->
  main w = Undefined.
Proof.
  intros Hc Ht Ha Hb Hab. rewrite (main_two_ints w c a b q) by done. by rewrite decide_False.
Qed.

Lemma add_fileio_overflow_witness :
  main (initial_world {[ "input.txt" := $"2147483647 1" ]}) = Undefined.
Proof.
  apply (add_fileio_overflow _ $"2147483647 1" 2147483647 1 []); try by vm_compute.
  by intros [_ ?].
Defined.
