(* ===== verification/Checker.v ===== *)
(** * A checker, from start to verdict

    The header is used by a checker: a [main] that registers the streams,
    reads the contestant's output and the reference answer through the
    [InStream] objects, and ends with [quitf].  The repository holds no
    checker; the specification describes the one its scenarios run: compare
    one integer of the output with one integer of the answer, then require
    the end of the output.  [checker_main] is that checker, and [judge] is
    the run of the sample solution followed by the checker on the files the
    solution left.

    This file composes the components: [registerTestlibCmd], the readers,
    [seekEof] and [quitf] run in one process, one after the other, on the
    same [World].  [reading] is the assertion that holds between two reads;
    the lemmas on it say what each call does in a state where it holds.
    [Logic.v] makes rules of them, [Compare.v] verifies [checker_main]
    on every input, and [Judge.v] the judge. *)

From stdpp Require Import gmap functions.
From S2P Require Import Prelude CType NumGet Printf IfStream Extract Process Verdict InStream Register.
From S2P Require Import TokenSpec AddFileIO.

Local Open Scope Z_scope.
Local Open Scope chk_scope.

(** ** The checker *)

(** A call that does not return, where a value is expected. *)
Definition noreturn {A : Type} (m : Proc Empty_set) : Proc A :=
  x ← m; match x : Empty_set with end.

Definition checker_main (argc : Z) (argv : list string) : Proc Empty_set :=
  registerTestlibCmd argc argv;;
  ja ← readInt Ans;
  pa ← readInt Ouf;
  when_ (negb (ja =? pa))
    (noreturn (quitf _wa "expected %d, found %d" [ArgInt ja; ArgInt pa]));;
  at_end ← seekEof Ouf;
  when_ (negb at_end) (noreturn (quitf _dirt "extra tokens in output" []));;
  quitf _ok "answer is correct" [].

(** The judge: the solution runs on the files of the problem; the checker
    then runs, in a process of its own, on the files the solution left.  The
    result is the status of the checker as its parent sees it. *)
Definition judge (files : gmap string (list ascii)) : option Z :=
  match main (initial_world files) with
  | Returned _ w =>
      wait_status
        (checker_main 4 ["checker"; "input.txt"; "output.txt"; "answer.txt"]
           (initial_world (fs w)))
  | _ => None
  end.

(** The files of the scenarios of the specification: the input [3 5], the
    answer [8], and the given output. *)
Definition scenario (output : string) : gmap string (list ascii) :=
  {[ "input.txt" := $"3 5"; "output.txt" := list_ascii_of_string output;
     "answer.txt" := $"8" ]}.

(** ** The assertion between reads *)

(** The name each object was constructed with. *)
Definition obj_name (i : StreamId) : string :=
  match i with Inf => "inf" | Ouf => "ouf" | Ans => "ans" end.

(** Each object reads the stream of its name; the stream [i] still holds
    the tokens [toks i] and [cnt i] reads were made through the object [i];
    [out] and [err] have been written. *)
Definition reading (toks : StreamId -> list (list ascii)) (cnt : StreamId -> Z)
    (out err : string) (w : World) : Prop :=
  (forall i, stream (get_obj i w) = i /\ name (get_obj i w) = obj_name i) /\
  (forall i, abs_rel (get_stream i w) (toks i)) /\
  (forall i, readCount (get_obj i w) = cnt i) /\
  cout w = out /\ cerr w = err.

(** The call ends the process, with a status among [codes]. *)
Definition exits_in {A : Type} (codes : list Z) (m : Proc A) (w : World) : Prop :=
  exists status w', m w = Exited status w' /\ status ∈ codes.

(** The call returns, or ends the process with a status among [codes]; its
    behaviour is defined. *)
Definition returns_or_exits {A : Type} (codes : list Z) (m : Proc A) (w : World) : Prop :=
  (exists a w', m w = Returned a w') \/ exits_in codes m w.

(** One step of a run: the first call returns. *)
Ltac run_step E := erewrite run_bind_returned by exact E; cbv beta.

(** ** Rules *)

Section rules.
Context (toks : StreamId -> list (list ascii)) (cnt : StreamId -> Z).
Context (out err : string) (w : World).
Hypothesis H : reading toks cnt out err w.

Lemma reading_stream this : stream_of_obj this w = get_stream this w.
Proof. unfold stream_of_obj. destruct H as (Ho & _). by destruct (Ho this) as [-> _]. Qed.

Lemma reading_abs this : abs_rel (stream_of_obj this w) (toks this).
Proof. rewrite reading_stream. apply H. Qed.

Lemma reading_can_count this : cnt this < INT_MAX -> can_count this w.
Proof. unfold can_count. destruct H as (_ & _ & Hn & _). by rewrite Hn. Qed.

(** After a read through [this] that left its stream with the tokens [q]. *)
Lemma reading_after_read this s' q : abs_rel s' q ->
  reading (<[this := q]> toks) (<[this := cnt this + 1]> cnt) out err (after_read this s' w).
Proof.
  intros Hs. destruct H as (Ho & Ha & Hn & Hc & He).
  split_and!; [| | |by autorewrite with chk..].
  - intros i. autorewrite with chk. destruct (decide (this = i)) as [<-|Hi].
    + rewrite obj_after_read. apply Ho.
    + rewrite obj_after_read_ne by done. apply Ho.
  - intros i. destruct (Ho this) as [Hst _]. destruct (decide (this = i)) as [<-|Hi].
    + rewrite fn_lookup_insert. by rewrite <- Hst at 1; rewrite get_stream_after_read_eq.
    + rewrite fn_lookup_insert_ne by done.
      rewrite get_stream_after_read by congruence. apply Ha.
  - intros i. destruct (decide (this = i)) as [<-|Hi].
    + by rewrite fn_lookup_insert, readCount_after_read, Hn.
    + by rewrite fn_lookup_insert_ne, obj_after_read_ne.
Qed.

(** [readInt] on a printed integer. *)
Lemma reading_readInt this z q :
  cnt this < INT_MAX -> toks this = print_int z :: q -> in_int z ->
  exists w', readInt this w = Returned z w' /\
    reading (<[this := q]> toks) (<[this := cnt this + 1]> cnt) out err w'.
Proof.
  intros Hn%reading_can_count Ht Hz. pose proof (reading_abs this) as Ha. rewrite Ht in Ha.
  apply extract_int_abs_print in Ha as (s' & He & Hf & Hs); [|done].
  exists (after_read this s' w). split; [|by apply reading_after_read].
  rewrite readInt_read_with. by apply read_with_ok.
Qed.

(** [readInt] with no token left. *)
Lemma reading_readInt_nil this : cnt this < INT_MAX -> toks this = [] ->
  exists w', readInt this w = Exited 2 w' /\ cout w' = out /\
    cerr w' = err +:+ "Unexpected EOF when reading integer from " +:+ obj_name this +:+ endl.
Proof.
  intros Hk%reading_can_count Ht. pose proof (reading_abs this) as Ha. rewrite Ht in Ha.
  destruct (extract_int_abs_nil _ Ha) as (Hf & He & _).
  destruct H as (Ho & _ & _ & Hc & Hr). destruct (Ho this) as [_ Hn].
  eexists. split.
  { rewrite readInt_read_with.
    eapply read_with_fail; [done | apply surjective_pairing | exact Hf]. }
  autorewrite with chk. unfold diagnostic.
  by rewrite (He : eof (extract int_extractor _).1 = _), Hn, Hc, Hr.
Qed.

(** [seekEof]. *)
Lemma reading_seekEof this :
  exists w', seekEof this w = Returned (is_nil (toks this)) w' /\ reading toks cnt out err w'.
Proof.
  destruct (ws_abs _ _ (reading_abs this)) as [Ha Hn].
  eexists. split; [by rewrite seekEof_run, Hn|].
  destruct H as (Ho & Hs & Hk & Hc & He). destruct (Ho this) as [Hst _]. rewrite Hst.
  split_and!; [| | |by autorewrite with chk..].
  - intros i. autorewrite with chk. apply Ho.
  - intros i. destruct (decide (this = i)) as [<-|Hi]; autorewrite with chk; [done | apply Hs].
  - intros i. autorewrite with chk. apply Hk.
Qed.

End rules.

(** Registration on files that exist. *)
Lemma reading_register prog p1 p2 p3 files c1 c2 c3 :
  files !! p1 = Some c1 -> files !! p2 = Some c2 -> files !! p3 = Some c3 ->
  exists w', registerTestlibCmd 4 [prog; p1; p2; p3] (initial_world files) = Returned tt w' /\
    reading (fun i => tokens match i with Inf => c1 | Ouf => c2 | Ans => c3 end) (fun _ => 0)
      "" "" w'.
Proof.
  intros H1 H2 H3. eexists. split.
  { rewrite registerTestlibCmd_run, first_unopened_closed by by intros [].
    unfold first_missing. simpl fs. by rewrite H1, H2, H3. }
  unfold after_opens. simpl fs. rewrite H1, H2, H3. split_and!; try done.
  - by intros [].
  - intros []; apply abs_rel_open.
  - by intros [].
Qed.

(** [quitf] in the state between reads. *)
Lemma reading_quitf toks cnt out err w exitCode format args msg :
  reading toks cnt out err w -> vsnprintf 1024 format args = Some msg ->
  exists w', quitf exitCode format args w = Exited exitCode w' /\
    cout w' = out +:+ label exitCode +:+ msg +:+ endl /\ cerr w' = err.
Proof.
  intros (_ & _ & _ & Hc & He) Hf. eexists. split; [by apply quitf_message|].
  by rewrite cout_set_cout, cerr_set_cout, Hc, He.
Qed.

(** The run up to the comparison: both integers are read. *)
Lemma checker_reads prog p1 p2 p3 files c1 c2 c3 j p a o :
  files !! p1 = Some c1 -> files !! p2 = Some c2 -> files !! p3 = Some c3 ->
  tokens c3 = print_int j :: a -> tokens c2 = print_int p :: o -> in_int j -> in_int p ->
  exists w toks cnt, toks Ouf = o /\ reading toks cnt "" "" w /\
    checker_main 4 [prog; p1; p2; p3] (initial_world files) =
    (when_ (negb (j =? p))
       (noreturn (quitf _wa "expected %d, found %d" [ArgInt j; ArgInt p]));;
     at_end ← seekEof Ouf;
     when_ (negb at_end) (noreturn (quitf _dirt "extra tokens in output" []));;
     quitf _ok "answer is correct" []) w.
Proof.
  intros H1 H2 H3 Ha Ho Hj Hp.
  destruct (reading_register prog p1 p2 p3 files c1 c2 c3) as (w1 & E1 & R1); [done..|].
  destruct (reading_readInt _ _ _ _ _ R1 Ans j a) as (w2 & E2 & R2); [done..|].
  destruct (reading_readInt _ _ _ _ _ R2 Ouf p o) as (w3 & E3 & R3); [done..|].
  eexists w3, _, _. split; [|split; [exact R3|]]; [done|].
  unfold checker_main. run_step E1. run_step E2. by run_step E3.
Qed.

Lemma run_ret_bind {A B : Type} (a : A) (f : A -> Proc B) w : (mret a ≫= f) w = f a w.
Proof. reflexivity. Qed.

Lemma noreturn_exited {A : Type} (m : Proc Empty_set) w status w' :
  m w = Exited status w' -> noreturn (A := A) m w = Exited status w'.
Proof. intros E. unfold noreturn. by erewrite run_bind_exited. Qed.

Lemma noreturn_run (m : Proc Empty_set) w : noreturn (A := Empty_set) m w = m w.
Proof. unfold noreturn. proc_run. by destruct (m w) as [[]| |]. Qed.

Lemma when_noreturn_bind {A : Type} (cond : bool) (m : Proc Empty_set) (rest : Proc A) w :
  (when_ cond (noreturn m);; rest) w = if cond then noreturn m w else rest w.
Proof.
  destruct cond; [|done]. unfold when_, noreturn. proc_run. by destruct (m w) as [[]| |].
Qed.

(** The message of a wrong answer, and its length. *)
Lemma wa_message j p :
  format_c (list_ascii_of_string "expected %d, found %d") [ArgInt j; ArgInt p] =
  Some ($"expected " ++ print_int j ++ $", found " ++ print_int p).
Proof.
  change (list_ascii_of_string "expected %d, found %d")
    with ($"expected " ++ "%"%char :: "d"%char :: $", found " ++ "%"%char :: "d"%char :: []).
  rewrite format_c_app, format_c_d, format_c_app, format_c_d
    by (apply (bool_decide_unpack _); by vm_compute).
  simpl. by rewrite app_nil_r.
Qed.

Lemma wa_message_length j p : in_int j -> in_int p ->
  (length ($"expected " ++ print_int j ++ $", found " ++ print_int p) < 1024)%nat.
Proof.
  intros Hj%print_int_length Hp%print_int_length. rewrite !length_app. simpl. lia.
Qed.

(** The message has its two arguments, whatever they are. *)
Lemma wa_formatted j p :
  is_Some (vsnprintf 1024 "expected %d, found %d" [ArgInt j; ArgInt p]).
Proof.
  unfold vsnprintf.
  change (c_str "expected %d, found %d") with "expected %d, found %d"%string.
  by rewrite wa_message.
Qed.

(** Two integers fit the buffer. *)
Lemma wa_vsnprintf j p : in_int j -> in_int p ->
  vsnprintf 1024 "expected %d, found %d" [ArgInt j; ArgInt p] =
  Some (string_of_list_ascii ($"expected " ++ print_int j ++ $", found " ++ print_int p)).
Proof.
  intros Hj Hp. apply vsnprintf_fits;
    [by apply (bool_decide_unpack _); vm_compute | apply wa_message | | by apply wa_message_length].
  rewrite !not_elem_of_app. split_and!; try apply print_int_no_nul;
    by apply (bool_decide_unpack _); vm_compute.
Qed.

(** The run after the comparison found the integers equal. *)
Lemma checker_tail toks cnt w :
  reading toks cnt "" "" w ->
  exists w',
    (at_end ← seekEof Ouf;
     when_ (negb at_end) (noreturn (quitf _dirt "extra tokens in output" []));;
     quitf _ok "answer is correct" []) w =
    Exited (if is_nil (toks Ouf) then 0 else 4) w' /\
    cout w' = (if is_nil (toks Ouf) then "OK answer is correct" else "DIRT extra tokens in output")
              +:+ endl /\
    cerr w' = "".
Proof.
  intros R. destruct (reading_seekEof _ _ _ _ _ R Ouf) as (w1 & E1 & R1). run_step E1.
  destruct (is_nil (toks Ouf)); unfold when_; cbn [negb].
  - rewrite run_ret_bind.
    destruct (reading_quitf _ _ _ _ _ _ok "answer is correct" [] "answer is correct" R1 eq_refl)
      as (w2 & E2 & Hc & He).
    by exists w2.
  - destruct (reading_quitf _ _ _ _ _ _dirt "extra tokens in output" [] "extra tokens in output"
                R1 eq_refl) as (w2 & E2 & Hc & He).
    exists w2. erewrite run_bind_exited by by apply noreturn_exited. done.
Qed.

(** The whole run on two printed integers. *)
Lemma checker_run prog p1 p2 p3 files c1 c2 c3 j p a o :
  files !! p1 = Some c1 -> files !! p2 = Some c2 -> files !! p3 = Some c3 ->
  tokens c3 = print_int j :: a -> tokens c2 = print_int p :: o -> in_int j -> in_int p ->
  exists w',
    checker_main 4 [prog; p1; p2; p3] (initial_world files) =
    Exited (if negb (j =? p) then 1 else if is_nil o then 0 else 4) w' /\
    cout w' =
      (if negb (j =? p)
       then "Wrong Answer expected " +:+ string_of_list_ascii (print_int j) +:+ ", found "
            +:+ string_of_list_ascii (print_int p)
       else if is_nil o then "OK answer is correct" else "DIRT extra tokens in output")
      +:+ endl /\
    cerr w' = "".
Proof.
  intros H1 H2 H3 Ha Ho Hj Hp.
  destruct (checker_reads prog p1 p2 p3 files c1 c2 c3 j p a o)
    as (w & toks & cnt & <- & R & ->);
    [done..|].
  destruct (negb (j =? p)).
  - destruct (reading_quitf _ _ _ _ _ _wa _ _ _ R (wa_vsnprintf j p Hj Hp))
      as (w2 & E2 & Hc & He).
    exists w2. erewrite run_bind_exited by by apply noreturn_exited.
    split; [done|]. split; [|done]. rewrite Hc.
    by rewrite !string_of_list_ascii_app, !string_app_nil_l, <- !string_app_assoc.
  - change (when_ false _) with (mret (M := Proc) tt). rewrite run_ret_bind.
    by eapply checker_tail.
Qed.

(** ** Every run ends with a verdict *)

Lemma exits_bind {A B : Type} codes (m : Proc A) (f : A -> Proc B) w :
  returns_or_exits codes m w ->
  (forall a w', m w = Returned a w' -> exits_in codes (f a) w') ->
  exits_in codes (m ≫= f) w.
Proof.
  intros [(a & w' & E)|(status & w' & E & Hs)] Hf.
  - unfold exits_in. erewrite run_bind_returned by done. by apply Hf.
  - exists status, w'. by erewrite run_bind_exited.
Qed.

Lemma readInt_returns_or_exits codes this w : 2 ∈ codes -> can_count this w ->
  returns_or_exits codes (readInt this) w.
Proof.
  intros Hc Hn. rewrite readInt_read_with.
  destruct (read_with_cases int_extractor stored "Unexpected EOF when reading integer from "
              "Failed to read integer from " (fun _ => eq_refl) this w Hn)
    as [(_ & E)|(_ & v & _ & E)]; [right | left]; by repeat eexists.
Qed.

(** A read through one object leaves the counter of another. *)
Lemma readInt_can_count this j w v w' : this <> j -> can_count j w ->
  readInt this w = Returned v w' -> can_count j w'.
Proof.
  rewrite readInt_read_with. intros Hj Hn (_ & -> & _)%read_with_returned; [|done].
  unfold can_count. by rewrite obj_after_read_ne.
Qed.

Lemma seekEof_returns codes this w : returns_or_exits codes (seekEof this) w.
Proof. left. rewrite seekEof_run. by repeat eexists. Qed.

Lemma register_returns_or_exits codes argc argv w :
  3 ∈ codes -> Z.of_nat (length argv) = argc ->
  returns_or_exits codes (registerTestlibCmd argc argv) w.
Proof.
  intros Hc Hl. destruct (decide (argc = 4)) as [->|Hn].
  - destruct argv as [|prog [|p1 [|p2 [|p3 [|]]]]]; simpl in Hl; try lia.
    unfold returns_or_exits, exits_in. rewrite registerTestlibCmd_run.
    destruct (first_unopened p1 p2 p3 w) as [[role path]|]; [right | left]; by repeat eexists.
  - right. unfold exits_in. rewrite registerTestlibCmd_bad_argc by done. by repeat eexists.
Qed.

Lemma quitf_exits codes exitCode format args w :
  exitCode ∈ codes -> is_Some (vsnprintf 1024 format args) ->
  exits_in codes (quitf exitCode format args) w.
Proof.
  intros Hc [out Ho]. unfold exits_in. rewrite quitf_run, Ho. by repeat eexists.
Qed.

Lemma when_quitf_returns_or_exits codes cond exitCode format args w :
  exitCode ∈ codes -> is_Some (vsnprintf 1024 format args) ->
  returns_or_exits codes (when_ cond (noreturn (quitf exitCode format args))) w.
Proof.
  intros Hc Hf. destruct cond; [right | left; by repeat eexists].
  destruct (quitf_exits codes exitCode format args w Hc Hf) as (status & w' & E & Hs).
  exists status, w'. split; [by apply noreturn_exited | done].
Qed.

(** The run of the checker from any state. *)
Lemma checker_exits argc argv w : Z.of_nat (length argv) = argc ->
  can_count Ans w -> can_count Ouf w ->
  exits_in [0; 1; 2; 3; 4] (checker_main argc argv) w.
Proof.
  intros Hl Ha Ho. unfold checker_main.
  apply exits_bind; [by apply register_returns_or_exits; [set_solver|] | intros [] w1 E1].
  assert (can_count Ans w1 /\ can_count Ouf w1) as [Ha1 Ho1]
    by (unfold can_count; by rewrite !(register_objs _ _ _ _ _ Hl E1)).
  apply exits_bind; [apply readInt_returns_or_exits; [set_solver | done] | intros ja w2 E2].
  apply (readInt_can_count Ans Ouf) in E2; [|done..].
  apply exits_bind; [apply readInt_returns_or_exits; [set_solver | done] | intros pa w3 _].
  apply exits_bind; [apply when_quitf_returns_or_exits; [set_solver | apply wa_formatted]
                    | intros _ w4 _].
  apply exits_bind; [apply seekEof_returns | intros at_end w5 _].
  apply exits_bind; [by apply when_quitf_returns_or_exits; [set_solver|] | intros _ w6 _].
  by apply quitf_exits; [set_solver|].
Qed.

(** The run on an output with no token. *)
Lemma checker_run_empty prog p1 p2 p3 files c1 c2 c3 j a :
  files !! p1 = Some c1 -> files !! p2 = Some c2 -> files !! p3 = Some c3 ->
  tokens c3 = print_int j :: a -> tokens c2 = [] -> in_int j ->
  exists w',
    checker_main 4 [prog; p1; p2; p3] (initial_world files) = Exited 2 w' /\
    cout w' = "" /\ cerr w' = "Unexpected EOF when reading integer from ouf" +:+ endl.
Proof.
  intros H1 H2 H3 Ha Ho Hj.
  destruct (reading_register prog p1 p2 p3 files c1 c2 c3) as (w1 & E1 & R1); [done..|].
  destruct (reading_readInt _ _ _ _ _ R1 Ans j a) as (w2 & E2 & R2); [done..|].
  destruct (reading_readInt_nil _ _ _ _ _ R2 Ouf) as (w3 & E3 & Hc & He); [done..|].
  exists w3. unfold checker_main. run_step E1. run_step E2.
  by erewrite run_bind_exited by exact E3.
Qed.

(** ** The scenarios *)

Section scenarios.
Context (prog p1 p2 p3 : string) (files : gmap string (list ascii)).
Context (c1 c2 c3 : list ascii).
Hypothesis (H1 : files !! p1 = Some c1) (H2 : files !! p2 = Some c2).
Hypothesis (H3 : files !! p3 = Some c3).

(** Accepted.  When the output holds one integer and nothing else but
    blanks, and the answer starts with the same integer, the checker exits
    with status 0 after writing the line [OK answer is correct] to [cout];
    nothing is written to [cerr]. *)
Theorem checker_accepts j a :
  tokens c2 = [print_int j] -> tokens c3 = print_int j :: a -> in_int j ->
  exists w', checker_main 4 [prog; p1; p2; p3] (initial_world files) = Exited 0 w' /\
    cout w' = "OK answer is correct" +:+ endl /\ cerr w' = "".
Proof.
  intros Ho Ha Hj.
  destruct (checker_run prog p1 p2 p3 files c1 c2 c3 j j a []) as (w' & E & Hc); [done..|].
  rewrite Z.eqb_refl in E, Hc. by exists w'.
Qed.

(** Wrong answer.  When the output and the answer start with different
    integers, the checker exits with status 1 after writing the line
    [Wrong Answer expected j, found p] to [cout], whatever follows in the
    output. *)
Theorem checker_wrong_answer j p a o :
  tokens c2 = print_int p :: o -> tokens c3 = print_int j :: a ->
  in_int j -> in_int p -> j <> p ->
  exists w', checker_main 4 [prog; p1; p2; p3] (initial_world files) = Exited 1 w' /\
    cout w' = "Wrong Answer expected " +:+ string_of_list_ascii (print_int j) +:+ ", found "
              +:+ string_of_list_ascii (print_int p) +:+ endl /\
    cerr w' = "".
Proof.
  intros Ho Ha Hj Hp Hne.
  destruct (checker_run prog p1 p2 p3 files c1 c2 c3 j p a o) as (w' & E & Hc & He); [done..|].
  apply Z.eqb_neq in Hne. rewrite Hne in E, Hc. cbn [negb] in *.
  exists w'. split_and!; [done| |done]. by rewrite Hc, <- !string_app_assoc.
Qed.

(** Extra output.  When the output starts with the integer of the
    answer and holds another token after it, [seekEof] answers false and the
    checker exits with status 4 after writing a [DIRT] line to [cout]. *)
Theorem checker_dirt j a t o :
  tokens c2 = print_int j :: t :: o -> tokens c3 = print_int j :: a -> in_int j ->
  exists w', checker_main 4 [prog; p1; p2; p3] (initial_world files) = Exited 4 w' /\
    cout w' = "DIRT extra tokens in output" +:+ endl /\ cerr w' = "".
Proof.
  intros Ho Ha Hj.
  destruct (checker_run prog p1 p2 p3 files c1 c2 c3 j j a (t :: o)) as (w' & E & Hc);
    [done..|].
  rewrite Z.eqb_refl in E, Hc. by exists w'.
Qed.

(** C34: empty output.  When the output holds no token, the read of the
    contestant's integer ends the checker with status 2; the line
    [Unexpected EOF when reading integer from ouf] is on [cerr], and nothing,
    no verdict line either, has been written to [cout]. *)
Theorem checker_empty_output j a :
  tokens c2 = [] -> tokens c3 = print_int j :: a -> in_int j ->
  exists w', checker_main 4 [prog; p1; p2; p3] (initial_world files) = Exited 2 w' /\
    cout w' = "" /\ cerr w' = "Unexpected EOF when reading integer from ouf" +:+ endl.
Proof. intros Ho Ha Hj. by eapply checker_run_empty. Qed.

End scenarios.


Lemma checker_accepts_witness :
  exists w', checker_main 4 ["checker"; "input.txt"; "output.txt"; "answer.txt"]
               (initial_world (scenario "8")) = Exited 0 w' /\
    cout w' = "OK answer is correct" +:+ endl /\ cerr w' = "".
Proof.
  apply checker_accepts with (c1 := $"3 5") (c2 := $"8") (c3 := $"8") (j := 8) (a := []);
    by vm_compute.
Defined.

Lemma checker_wrong_answer_witness :
  exists w', checker_main 4 ["checker"; "input.txt"; "output.txt"; "answer.txt"]
               (initial_world (scenario "9 8")) = Exited 1 w' /\
    cout w' = "Wrong Answer expected " +:+ string_of_list_ascii (print_int 8) +:+ ", found "
              +:+ string_of_list_ascii (print_int 9) +:+ endl /\
    cerr w' = "".
Proof.
  apply checker_wrong_answer with (c1 := $"3 5") (c2 := $"9 8") (c3 := $"8") (a := [])
                                 (o := [$"8"]); by vm_compute.
Defined.

Lemma checker_dirt_witness :
  exists w', checker_main 4 ["checker"; "input.txt"; "output.txt"; "answer.txt"]
               (initial_world (scenario "8 extra")) = Exited 4 w' /\
    cout w' = "DIRT extra tokens in output" +:+ endl /\ cerr w' = "".
Proof.
  apply checker_dirt with (c1 := $"3 5") (c2 := $"8 extra") (c3 := $"8") (j := 8) (a := [])
                         (t := $"extra") (o := []); by vm_compute.
Defined.

Lemma checker_empty_output_witness :
  exists w', checker_main 4 ["checker"; "input.txt"; "output.txt"; "answer.txt"]
               (initial_world (scenario "")) = Exited 2 w' /\
    cout w' = "" /\ cerr w' = "Unexpected EOF when reading integer from ouf" +:+ endl.
Proof.
  apply checker_empty_output with (c1 := $"3 5") (c2 := []) (c3 := $"8") (j := 8) (a := []);
    by vm_compute.
Defined.

(** Exactly one verdict.  Started with as many arguments as [argc]
    says, in any state of the process in which the counters of [ans] and
    [ouf] are below [INT_MAX], and on any files, the checker neither returns
    nor has undefined behaviour: it ends the process, and the status is one
    of 0, 1, 2, 3 and 4. *)
Theorem checker_always_exits argc argv w : Z.of_nat (length argv) = argc ->
  can_count Ans w -> can_count Ouf w ->
  exists status w', checker_main argc argv w = Exited status w' /\ status ∈ [0; 1; 2; 3; 4].
Proof. apply checker_exits. Qed.

Lemma checker_always_exits_witness :
  exists status w', checker_main 2 ["checker"; "input.txt"] (initial_world ∅) = Exited status w' /\
    status ∈ [0; 1; 2; 3; 4].
Proof.
  exact (checker_always_exits 2 ["checker"; "input.txt"] (initial_world ∅)
           eq_refl eq_refl eq_refl).
Defined.

(** From the input to the verdict.  When [input.txt] starts with the
    decimal forms of two integers whose sum fits an [int] and [answer.txt]
    starts with the decimal form of that sum, the solution followed by the
    checker, each in a process of its own, is judged with status 0. *)
Theorem judge_accepts_sum files c ca a b q qa :
  files !! "input.txt" = Some c -> files !! "answer.txt" = Some ca ->
  tokens c = print_int a :: print_int b :: q -> tokens ca = print_int (a + b) :: qa ->
  in_int a -> in_int b -> in_int (a + b) ->
  judge files = Some 0.
Proof.
  intros Hc Hca Ht Hta Ha Hb Hab. unfold judge.
  rewrite (main_two_ints _ c a b q), decide_True by done.
  destruct (checker_run "checker" "input.txt" "output.txt" "answer.txt"
              (<["output.txt" := print_int (a + b) ++ [LF]]> files)
              c (print_int (a + b) ++ [LF]) ca (a + b) (a + b) qa [])
    as (w' & E & _); [by simplify_map_eq.. | done | apply tokens_print_line | done | done |].
  rewrite Z.eqb_refl in E. unfold set_fs. simpl fs. by rewrite E.
Qed.

Lemma judge_accepts_sum_witness :
  judge {[ "input.txt" := $"3 5"; "answer.txt" := $"8" ]} = Some 0.
Proof.
  apply (judge_accepts_sum _ $"3 5" $"8" 3 5 [] []); by vm_compute.
Defined.
