(* ===== verification/Script.v ===== *)
(** * Checkers in general

    A checker is code that calls the readers and [seekEof] on the three
    objects and ends with [quitf]; what it does between the calls is
    computation on the values read.  [script] is the tree of the calls of
    such a checker, the computation being the functions that give the rest
    of the tree from a value read, and [run] is its execution in the
    process.  [program] is a whole [main]: [registerTestlibCmd], then the
    script.

    The theorems hold of every checker: its run ends the process
    ([script_ends]), and the run has written either exactly one verdict line
    on [cout], by the [quitf] that ended it, or nothing on [cout] and a
    diagnostic on [cerr], when a read or the registration ended it
    ([program_one_verdict]).  [main_script] is the checker of the scenarios
    as a script. *)

From Stdlib Require Import Floats.SpecFloat.
From stdpp Require Import gmap.
From S2P Require Import Prelude CType NumGet StrToD Printf IfStream Extract Process Verdict InStream Register.
From S2P Require Import TokenSpec Interleave AddFileIO Checker.

Local Open Scope Z_scope.
Local Open Scope chk_scope.

(** ** Scripts *)

Inductive script : Type :=
| CallThen {A : Type} (m : method A) (i : StreamId) (k : A -> script)
| Quitf (exitCode : Z) (format : string) (args : list fmt_arg).

Fixpoint run (c : script) : Proc Empty_set :=
  match c with
  | CallThen m i k => v ← call m i; run (k v)
  | Quitf exitCode format args => quitf exitCode format args
  end.

(** A checker program: [main] registers, then runs the script. *)
Definition program (c : script) (argc : Z) (argv : list string) : Proc Empty_set :=
  registerTestlibCmd argc argv;; run c.

(** The checker of the scenarios. *)
Definition main_script : script :=
  CallThen ReadIntM Ans (fun ja =>
  CallThen ReadIntM Ouf (fun pa =>
  if negb (ja =? pa) then Quitf _wa "expected %d, found %d" [ArgInt ja; ArgInt pa]
  else CallThen SeekEofM Ouf (fun at_end =>
  if negb at_end then Quitf _dirt "extra tokens in output" []
  else Quitf _ok "answer is correct" []))).

(** The calls of [quitf] that a script can reach. *)
Fixpoint quits (c : script) (code : Z) (f : string) (a : list fmt_arg) : Prop :=
  match c with
  | CallThen m i k => exists v, quits (k v) code f a
  | Quitf code' f' a' => code' = code /\ f' = f /\ a' = a
  end.

(** Every [quitf] of the script has the arguments its format asks for. *)
Definition well_formatted (c : script) : Prop :=
  forall code f a, quits c code f a -> is_Some (vsnprintf 1024 f a).

(** The call returns without a trace on the output channels and takes a
    state with [P] to one with [Q], or ends the process with [status] and a
    diagnostic on [cerr]; it is undefined only where [P] fails. *)
Definition quiet {A : Type} (status : Z) (P Q : World -> Prop) (m : Proc A) (w : World) : Prop :=
  (exists w' line, m w = Exited status w' /\ cout w' = cout w /\
     cerr w' = cerr w +:+ line /\ line <> EmptyString) \/
  (exists v w', m w = Returned v w' /\ cout w' = cout w /\ cerr w' = cerr w /\
     (P w -> Q w')) \/
  (m w = Undefined /\ ~ P w).

(** How a run that started in [w] ended: by the harness, with [status] and a
    diagnostic on [cerr], or by a [quitf] of the script, with its line on
    [cout]. *)
Inductive ending (statuses : list Z) (w : World) (c : script) : Z -> World -> Prop :=
| ended_by_harness status w' line : status ∈ statuses ->
    cout w' = cout w -> cerr w' = cerr w +:+ line -> line <> EmptyString ->
    ending statuses w c status w'
| ended_by_quitf code f a msg w' : quits c code f a -> vsnprintf 1024 f a = Some msg ->
    cout w' = cout w +:+ label code +:+ msg +:+ endl -> cerr w' = cerr w ->
    ending statuses w c code w'.

(** ** The calls of [quitf] *)

Lemma quits_here code f a : quits (Quitf code f a) code f a.
Proof. done. Qed.

Lemma quits_after {A} (m : method A) i k v code f a :
  quits (k v) code f a -> quits (CallThen m i k) code f a.
Proof. intros H. by exists v. Qed.

(** ** The calls are quiet *)

Section quiet_read.
Context {A : Type} (E : Extractor A) (finish : option A -> Proc A).
Context (eof_msg fail_msg : string).
Hypothesis finish_stored : forall v, finish (Some v) = mret v.

Lemma read_with_quiet this w :
  quiet 2 roomy roomy (read_with E finish eof_msg fail_msg this) w.
Proof.
  destruct (decide (can_count this w)) as [Hc|Hn].
  2: { right; right. split; [by apply read_with_overflow|].
       intros Hr. by apply Hn, has_room_can_count. }
  destruct (read_with_cases E finish eof_msg fail_msg finish_stored this w Hc)
    as [[Hf Hr]|[Hf (v & Hv & Hr)]]; [left | right; left].
  - eexists _, _. split; [exact Hr|]. autorewrite with chk.
    split_and!; [done..|apply diagnostic_nonempty].
  - eexists _, _. split; [exact Hr|]. autorewrite with chk. split_and!; [done..|].
    intros Hw. by eapply read_with_roomy.
Qed.

End quiet_read.

Lemma seekEof_quiet this w : quiet 2 roomy roomy (seekEof this) w.
Proof.
  right; left. rewrite seekEof_run. eexists _, _. split; [done|]. autorewrite with chk.
  split_and!; [done..|]. apply seekEof_roomy.
Qed.

Lemma call_quiet {A} (m : method A) this w : quiet 2 roomy roomy (call m this) w.
Proof.
  destruct m; simpl call;
    rewrite ?readInt_read_with, ?readString_read_with, ?readDouble_read_with,
      ?readLine_read_with;
    first [apply seekEof_quiet | by apply read_with_quiet].
Qed.

(** The registration, when [argv] has [argc] entries. *)
Lemma register_quiet argc argv w : Z.of_nat (length argv) = argc ->
  quiet 3 (fits argv) roomy (registerTestlibCmd argc argv) w.
Proof.
  intros Hl. unfold quiet. destruct (decide (argc = 4)) as [->|Hn].
  - destruct argv as [|prog [|p1 [|p2 [|p3 [|]]]]]; simpl in Hl; try lia.
    rewrite registerTestlibCmd_run.
    destruct (first_unopened p1 p2 p3 w) as [[role path]|]; [left | right; left]; eexists _, _;
      (split; [done|]); autorewrite with chk; rewrite ?cout_after_opens, ?cerr_after_opens;
      split_and!; try done. apply roomy_after_opens.
  - left. rewrite registerTestlibCmd_bad_argc by done. eexists _, _. split; [done|].
    autorewrite with chk. by split_and!.
Qed.

(** ** The outcome of a run *)

(** What is known of the outcome of a script that started in [w]; [room]
    says that the counters had room there. *)
Definition outcome (statuses : list Z) (room : Prop) (w : World) (c : script)
    (o : Outcome Empty_set) : Prop :=
  match o with
  | Exited status w' => ending statuses w c status w'
  | Undefined => (exists code f a, quits c code f a /\ vsnprintf 1024 f a = None) \/ ~ room
  | Returned v _ => False
  end.

(** The outcome of the rest of a run is an outcome of the run. *)
Lemma outcome_lift st st' (room room1 : Prop) w w1 c c1 o : outcome st room1 w1 c1 o ->
  st ⊆ st' -> cout w1 = cout w -> cerr w1 = cerr w -> (room -> room1) ->
  (forall code f a, quits c1 code f a -> quits c code f a) -> outcome st' room w c o.
Proof.
  intros Ho Hst Hc He Hr Hq. destruct o as [[]|status w'|]; simpl in *.
  - destruct Ho as [status w' line Hs ? ? ?|code f a msg w' ? ? ? ?].
    + apply (ended_by_harness _ _ _ status w' line); [by apply Hst | congruence..| done].
    + apply (ended_by_quitf _ _ _ code f a msg); [by apply Hq | done | congruence..].
  - destruct Ho as [(code & f & a & ? & ?)|Hn]; [left; exists code, f, a|right]; auto.
Qed.

(** A quiet call, then the rest. *)
Lemma outcome_bind {A : Type} st status P Q (m : Proc A) (k : A -> script) c w :
  quiet status P Q m w -> status ∈ st ->
  (forall v code f a, quits (k v) code f a -> quits c code f a) ->
  (forall v w', outcome st (Q w') w' (k v) (run (k v) w')) ->
  outcome st (P w) w c ((m ≫= fun v => run (k v)) w).
Proof.
  intros [(w' & line & E & Hc & He & Hn)|[(v & w' & E & Hc & He & Hr)|[E Hn]]] Hs Hq IH.
  - erewrite run_bind_exited by done. by eapply ended_by_harness.
  - erewrite run_bind_returned by done. eapply outcome_lift; [apply IH | done..| apply Hq].
  - rewrite run_bind_unfold, E. by right.
Qed.

Lemma run_outcome c : forall w, outcome [2] (roomy w) w c (run c w).
Proof.
  induction c as [A m i k IH|code f a]; intros w; simpl run.
  { eapply outcome_bind; [apply call_quiet | set_solver | | apply IH].
    intros v. apply quits_after. }
  rewrite quitf_run. destruct (vsnprintf 1024 f a) as [msg|] eqn:Ev; simpl.
  - eapply ended_by_quitf; [apply quits_here | done | by autorewrite with chk..].
  - left. exists code, f, a. split; [apply quits_here | done].
Qed.

Lemma program_outcome c argc argv w : Z.of_nat (length argv) = argc ->
  outcome [2; 3] (fits argv w) w c (program c argc argv w).
Proof.
  intros Hl. unfold program.
  apply (outcome_bind [2; 3] 3 (fits argv) roomy (registerTestlibCmd argc argv) (fun _ => c));
    [by apply register_quiet | by repeat constructor | done |].
  intros _ w'. eapply outcome_lift; [apply run_outcome | | done..].
  intros x Hx. inversion Hx as [|? ? ? Hn]; subst; [by left | inversion Hn].
Qed.

(** ** The checker of the scenarios is a script *)


Lemma checker_main_program argc argv w :
  checker_main argc argv w = program main_script argc argv w.
Proof.
  unfold checker_main, program. apply run_bind_ext. intros _ w1. simpl run.
  apply run_bind_ext. intros ja w2. apply run_bind_ext. intros pa w3.
  rewrite when_noreturn_bind. destruct (negb (ja =? pa)); [apply noreturn_run|].
  simpl run. apply run_bind_ext. intros at_end w4.
  rewrite when_noreturn_bind. destruct (negb at_end); [apply noreturn_run | done].
Qed.

Lemma well_formatted_main_script : well_formatted main_script.
Proof.
  intros code f a (ja & pa & H). destruct (negb (ja =? pa)).
  { destruct H as (<- & <- & <-). apply wa_formatted. }
  destruct H as (at_end & H). by destruct (negb at_end), H as (<- & <- & <-).
Qed.

(** ** Every checker *)

(** C14: every checker ends the process.  A program that registers and then
    runs a script whose calls of [quitf] have the arguments their formats
    ask for, started with as many arguments as [argc] says in a state whose
    counters have room for the files the arguments name (at the start of a
    process: on files shorter than [INT_MAX]), neither returns from [main]
    nor has undefined behaviour: it reaches an [exit]. *)
Theorem script_ends c argc argv w : well_formatted c -> Z.of_nat (length argv) = argc ->
  fits argv w ->
  exists status w', program c argc argv w = Exited status w'.
Proof.
  intros Hf Hl Hr. pose proof (program_outcome c argc argv w Hl) as Ho.
  destruct (program c argc argv w) as [[]|status w'|]; [by eexists _, _|].
  destruct Ho as [(code & f & a & Hq & Hn)|Hn]; [|done].
  destruct (Hf code f a Hq) as [msg Hm]. congruence.
Qed.

Lemma script_ends_witness :
  exists status w',
    program main_script 4 ["checker"; "input.txt"; "output.txt"; "answer.txt"]
      (initial_world (scenario "8")) = Exited status w'.
Proof.
  exact (script_ends main_script 4 ["checker"; "input.txt"; "output.txt"; "answer.txt"]
           (initial_world (scenario "8")) well_formatted_main_script eq_refl
           ltac:(by apply (bool_decide_unpack _); vm_compute)).
Defined.

(** C15: one verdict line, or none.  When a checker program exits, either
    the harness ended it, a reader with status 2 or the registration with
    status 3: then nothing was written to [cout] and a diagnostic was
    appended to [cerr]; or a [quitf] of the script ended it: then the status
    is the code given to that [quitf], exactly one line, the label of the
    code and the expanded message, was appended to [cout], and nothing was
    written to [cerr]. *)
Theorem program_one_verdict c argc argv w status w' : Z.of_nat (length argv) = argc ->
  program c argc argv w = Exited status w' ->
  (status ∈ [2; 3] /\ cout w' = cout w /\
   exists line, cerr w' = cerr w +:+ line /\ line <> EmptyString) \/
  (exists f a msg, quits c status f a /\ vsnprintf 1024 f a = Some msg /\
     cout w' = cout w +:+ label status +:+ msg +:+ endl /\ cerr w' = cerr w).
Proof.
  intros Hl E. pose proof (program_outcome c argc argv w Hl) as Ho. rewrite E in Ho.
  destruct Ho as [? ? line|? f a msg]; [left | right]; [by eauto | by exists f, a, msg].
Qed.

Lemma program_one_verdict_witness :
  exists w',
    program main_script 4 ["checker"; "input.txt"; "output.txt"; "answer.txt"]
      (initial_world (scenario "8 extra")) = Exited 4 w' /\
    ((4 ∈ [2; 3] /\ cout w' = "" /\ exists line, cerr w' = "" +:+ line /\ line <> EmptyString) \/
     (exists f a msg, quits main_script 4 f a /\ vsnprintf 1024 f a = Some msg /\
        cout w' = "" +:+ label 4 +:+ msg +:+ endl /\ cerr w' = "")).
Proof.
  destruct (checker_run "checker" "input.txt" "output.txt" "answer.txt" (scenario "8 extra")
              $"3 5" $"8 extra" $"8" 8 8 [] [$"extra"]) as (w' & E & _); [by vm_compute..|].
  rewrite checker_main_program in E. exists w'. split; [exact E|].
  exact (program_one_verdict _ _ _ _ _ _ eq_refl E).
Defined.
