(* ===== verification/Machine.v ===== *)
(** * Checkers that loop

    A [script] is a tree, so the number of calls a script makes is bounded
    along every path before it runs.  A checker that reads until the end
    of a file ([while (!ouf.seekEof()) ...]) has no such bound: how long it
    runs depends on the input.  Here a checker is a machine: a type of
    states and a function [next] that says, in each state, which method
    the checker calls and in which state it goes on with the value
    returned, or with which verdict it ends.  [run_for] runs a machine on
    fuel.

    The theorem is termination: a machine that never makes more than [n]
    calls of [seekEof] in a row without a read or a verdict ends the
    process, and [S n * S (unread w)] is fuel enough, where [unread w] is
    the number of characters left in the three streams
    ([machine_ends]).  The reason is the progress law of the extractions:
    a read that returns has consumed a character.  [compare_all], a checker
    that compares two sequences of integers of any length, is an example
    of such a machine; what it answers is the matter of [Compare.v]. *)

From Stdlib Require Import Floats.SpecFloat.
From stdpp Require Import gmap.
From S2P Require Import Prelude CType NumGet StrToD Printf IfStream Extract Process Verdict InStream Register.
From S2P Require Import TokenSpec Interleave AddFileIO Checker Script.

Local Open Scope Z_scope.
Local Open Scope chk_scope.

(** ** Machines *)

(** What a checker does next: it calls a method on an object and goes on
    in a state that depends on the value returned, or it calls [quitf]. *)
Inductive action (St : Type) : Type :=
| Call {A : Type} (m : method A) (i : StreamId) (k : A -> St)
| Quit (exitCode : Z) (format : string) (args : list fmt_arg).

Arguments Call {St A} m i k.
Arguments Quit {St} exitCode format args.

(** The methods that count a read. *)
Definition counts {A : Type} (m : method A) : bool :=
  match m with SeekEofM => false | _ => true end.

(** The characters left in the three streams. *)
Definition unread (w : World) : nat :=
  length (rdbuf (inf w)) + length (rdbuf (ouf w)) + length (rdbuf (ans w)).

Section machine.
Context {St : Type} (next : St -> action St).

(** The run of the machine from the state [s], for at most [fuel] calls;
    [None] when the fuel does not reach the end. *)
Fixpoint run_for (fuel : nat) (s : St) (w : World) : option (Outcome Empty_set) :=
  match fuel with
  | O => None
  | S fuel' =>
      match next s with
      | Call m i k =>
          match call m i w with
          | Returned v w' => run_for fuel' (k v) w'
          | Exited status w' => Some (Exited status w')
          | Undefined => Some Undefined
          end
      | Quit exitCode format args => Some (quitf exitCode format args w)
      end
  end.

(** From the state [s] the machine reads or ends after at most [n] calls
    of [seekEof], whatever they answer. *)
Inductive settles : nat -> St -> Prop :=
| settles_quit n s exitCode format args :
    next s = Quit exitCode format args -> settles n s
| settles_read n s {A} (m : method A) i k :
    next s = Call m i k -> counts m = true -> settles n s
| settles_skip n s i k :
    next s = Call SeekEofM i k -> (forall b, settles n (k b)) -> settles (S n) s.

Definition productive (n : nat) : Prop := forall s, settles n s.

(** The states the machine can be in after the state [s]. *)
Inductive reaches (s : St) : St -> Prop :=
| reaches_here : reaches s s
| reaches_call s' {A} (m : method A) i k v :
    reaches s s' -> next s' = Call m i k -> reaches s (k v).

(** Every [quitf] of the machine has the arguments its format asks for. *)
Definition formatted : Prop :=
  forall s exitCode format args,
    next s = Quit exitCode format args -> is_Some (vsnprintf 1024 format args).

End machine.

(** A script is a machine whose states are the scripts. *)
Definition script_next (c : script) : action script :=
  match c with
  | CallThen m i k => Call m i k
  | Quitf exitCode format args => Quit exitCode format args
  end.

(** ** An example: compare two sequences of integers *)

(** The states of a checker that reads integers from the answer and from
    the output until the answer ends, and then requires the end of the
    output. *)
Inductive cmp_state : Type :=
| AtTop
| AnsEnd (at_end : bool)
| HaveAns (j : Z)
| HavePair (j p : Z)
| OufEnd (at_end : bool).

Definition compare_all (s : cmp_state) : action cmp_state :=
  match s with
  | AtTop => Call SeekEofM Ans AnsEnd
  | AnsEnd false => Call ReadIntM Ans HaveAns
  | AnsEnd true => Call SeekEofM Ouf OufEnd
  | HaveAns j => Call ReadIntM Ouf (HavePair j)
  | HavePair j p =>
      if j =? p then Call SeekEofM Ans AnsEnd
      else Quit _wa "expected %d, found %d" [ArgInt j; ArgInt p]
  | OufEnd false => Quit _dirt "extra tokens in output" []
  | OufEnd true => Quit _ok "all numbers match" []
  end.

(** ** What a call leaves to read *)

Lemma unread_set_stream j s' w :
  (unread (set_stream j s' w) + length (rdbuf (get_stream j w)) =
   unread w + length (rdbuf s'))%nat.
Proof. unfold unread. destruct j; simpl; lia. Qed.

Lemma unread_set_obj i o w : unread (set_obj i o w) = unread w.
Proof. by destruct i. Qed.

Lemma unread_after_read this s' w :
  (unread (after_read this s' w) + length (rdbuf (stream_of_obj this w)) =
   unread w + length (rdbuf s'))%nat.
Proof.
  unfold after_read, stream_of_obj.
  pose proof (unread_set_stream (stream (get_obj this w)) s'
                (set_obj this (bump (get_obj this w)) w)) as H.
  by rewrite unread_set_obj, get_stream_set_obj in H.
Qed.

Section read_progress.
Context {A : Type} (E : Extractor A) (finish : option A -> Proc A).
Context (eof_msg fail_msg : string).
Hypothesis finish_stored : forall v, finish (Some v) = mret v.

(** A read exits, or returns with less to read. *)
Lemma read_with_progress this w : roomy w ->
  (exists w', read_with E finish eof_msg fail_msg this w = Exited _pe w') \/
  (exists v w', read_with E finish eof_msg fail_msg this w = Returned v w' /\ roomy w' /\
                (unread w' < unread w)%nat).
Proof.
  intros Hr. pose proof (has_room_can_count _ _ (Hr this)) as Hc.
  destruct (read_with_cases E finish eof_msg fail_msg finish_stored this w Hc)
    as [[Hf Hw]|[Hf (v & Hv & Hw)]]; [left; by eexists | right].
  eexists _, _. split; [exact Hw|]. split; [by eapply read_with_roomy|].
  pose proof (extract_progress _ Hf). pose proof (unread_after_read this
    (extract E (stream_of_obj this w)).1 w). lia.
Qed.

End read_progress.

(** [seekEof] returns, with no more to read than before. *)
Lemma seekEof_progress this w : roomy w ->
  exists b w', seekEof this w = Returned b w' /\ roomy w' /\ (unread w' <= unread w)%nat.
Proof.
  intros Hr. rewrite seekEof_run. eexists _, _. split; [done|]. split; [by apply seekEof_roomy|].
  pose proof (unread_set_stream (stream (get_obj this w)) (ws (stream_of_obj this w)) w) as H.
  pose proof (suffix_length _ _ (ws_suffix (stream_of_obj this w))). unfold stream_of_obj in *.
  lia.
Qed.

(** A call exits with [_pe], or returns: with less to read when the method
    counts, with no more to read when it does not. *)
Lemma call_progress {A} (m : method A) this w : roomy w ->
  (exists w', call m this w = Exited _pe w') \/
  (exists v w', call m this w = Returned v w' /\ roomy w' /\
     (unread w' <= unread w)%nat /\ (counts m = true -> (unread w' < unread w)%nat)).
Proof.
  intros Hr. destruct m; simpl call; simpl counts;
    rewrite ?readInt_read_with, ?readString_read_with, ?readDouble_read_with,
      ?readLine_read_with;
    try match goal with |- context [read_with ?E ?f ?em ?fm this w] =>
      destruct (read_with_progress E f em fm (fun _ => eq_refl) this w Hr)
        as [?|(v & w' & ? & ? & ?)]; [by left | right; exists v, w'; split_and!; auto; lia]
    end.
  right. destruct (seekEof_progress this w Hr) as (b & w' & ? & ? & ?). by exists b, w'.
Qed.

(** ** Termination *)

Section run.
Context {St : Type} (next : St -> action St).

Lemma run_for_S fuel s w :
  run_for next (S fuel) s w =
  match next s with
  | Call m i k =>
      match call m i w with
      | Returned v w' => run_for next fuel (k v) w'
      | Exited status w' => Some (Exited status w')
      | Undefined => Some Undefined
      end
  | Quit exitCode format args => Some (quitf exitCode format args w)
  end.
Proof. reflexivity. Qed.

(** More fuel does not change a run that ended. *)
Lemma run_for_mono fuel : forall fuel' s w o, (fuel <= fuel')%nat ->
  run_for next fuel s w = Some o -> run_for next fuel' s w = Some o.
Proof.
  induction fuel as [|fuel IH]; intros [|fuel'] s w o Hle; [done | done | lia |].
  rewrite !run_for_S. destruct (next s) as [A m i k|]; [|done].
  destruct (call m i w); [|done..]. apply IH. lia.
Qed.

(** [quitf] with its arguments exits. *)
Lemma run_for_quit fuel s w exitCode format args :
  formatted next -> next s = Quit exitCode format args ->
  exists status w', run_for next (S fuel) s w = Some (Exited status w').
Proof.
  intros Hf Hs. rewrite run_for_S, Hs, quitf_run. destruct (Hf _ _ _ _ Hs) as [msg ->].
  by eexists _, _.
Qed.

(** A state reached from a state that [s] reaches. *)
Lemma reaches_trans s s1 s2 : reaches next s s1 -> reaches next s1 s2 -> reaches next s s2.
Proof. intros H1 H2. induction H2; [done | by eapply reaches_call]. Qed.

(** One verdict line, or none: a run that exits was ended by a read, with
    status 2, nothing on [cout] and a diagnostic on [cerr], or by the
    [quitf] of a state the machine reached, with its code, its line on
    [cout] and nothing on [cerr]. *)
Lemma run_for_verdict fuel : forall s w status w',
  run_for next fuel s w = Some (Exited status w') ->
  (status = _pe /\ cout w' = cout w /\
   exists line, cerr w' = cerr w +:+ line /\ line <> EmptyString) \/
  (exists s' f a msg, reaches next s s' /\ next s' = Quit status f a /\
     vsnprintf 1024 f a = Some msg /\
     cout w' = cout w +:+ label status +:+ msg +:+ endl /\ cerr w' = cerr w).
Proof.
  induction fuel as [|fuel IH]; intros s w status w'; [done|]. rewrite run_for_S.
  destruct (next s) as [A m i k|code f a] eqn:Hn.
  - destruct (call_quiet m i w)
      as [(w1 & line & -> & Hc & He & Hl)|[(v & w1 & -> & Hc & He & _)|[-> _]]]; [| |done].
    + intros [= <- <-]. left. by eauto.
    + intros [(-> & Hc' & line & He' & Hl)|(s' & f & a & msg & Hs & Hq & Hm & Hc' & He')]%IH;
        [left | right].
      * split_and!; [done | congruence | exists line; split; [congruence | done]].
      * exists s', f, a, msg. split_and!; [|done..|congruence|congruence].
        eapply reaches_trans; [|exact Hs]. by eapply reaches_call; [constructor|].
  - rewrite quitf_run. destruct (vsnprintf 1024 f a) as [msg|] eqn:Hm; [|done].
    intros [= <- <-]. right. exists s, f, a, msg.
    split_and!; [constructor | done.. | by autorewrite with chk | by autorewrite with chk].
Qed.

Context (n : nat) (Hp : productive next n) (Hf : formatted next).

(** With [L] characters left at most, and [k] calls of [seekEof] at most
    before the next read. *)
Lemma run_for_ends L : forall k s w, settles next k s -> (unread w <= L)%nat -> roomy w ->
  exists status w', run_for next (L * S n + S k) s w = Some (Exited status w').
Proof using Hp Hf.
  induction L as [|L IHL]; intros k s w Hs; revert w;
    induction Hs as [k s c f a Hn|k s A m i kont Hn Hc|k s i kont Hn _ IHk]; intros w HL Hr;
    try (by eapply run_for_quit);
    rewrite Nat.add_succ_r, run_for_S, Hn;
    match goal with |- context [call ?m _ _] =>
      destruct (call_progress m i w Hr) as [[w' ->]|(v & w' & -> & Hr' & Hle & Hlt)]
    end; try by eexists _, _.
  - specialize (Hlt Hc). lia.
  - apply IHk; [lia | done].
  - specialize (Hlt Hc).
    destruct (IHL n (kont v) w' (Hp _)) as (status & w'' & E); [lia | done |].
    exists status, w''. eapply run_for_mono; [|exact E]. lia.
  - apply IHk; [lia | done].
Qed.

End run.

(** C16: a checker that keeps reading ends.  A checker, given as a machine,
    that in no state makes more than [n] calls of [seekEof] in a row
    without a read or a verdict, and whose calls of [quitf] have the
    arguments their formats ask for, ends the process when it is started in
    a state where the counters have room: the run reaches an [exit] within
    [S n * S (unread w)] calls, where [unread w] is the number of
    characters left in the three streams.  It neither runs for ever nor
    has undefined behaviour. *)
Theorem machine_ends {St : Type} (next : St -> action St) n s w :
  productive next n -> formatted next -> roomy w ->
  exists status w', run_for next (S n * S (unread w)) s w = Some (Exited status w').
Proof.
  intros Hp Hf Hr. replace (S n * S (unread w))%nat with (unread w * S n + S n)%nat by lia.
  by apply run_for_ends.
Qed.

(** The example is productive, with two calls of [seekEof] in a row at
    most, and well formatted. *)
Lemma compare_all_productive : productive compare_all 2.
Proof.
  assert (forall b, settles compare_all 0 (OufEnd b)) as H0
    by (intros []; by eapply settles_quit).
  assert (forall b, settles compare_all 1 (AnsEnd b)) as H1.
  { intros []; [by apply (settles_skip _ 0 _ Ouf OufEnd) | by eapply settles_read]. }
  assert (forall b, settles compare_all 1 (OufEnd b)) as H0'
    by (intros []; by eapply settles_quit).
  intros [|b|j|j p|b].
  - by apply (settles_skip _ 1 _ Ans AnsEnd).
  - destruct b; [by apply (settles_skip _ 1 _ Ouf OufEnd) | by eapply settles_read].
  - by eapply settles_read.
  - destruct (j =? p) eqn:E.
    + apply (settles_skip _ 1 _ Ans AnsEnd); [simpl; by rewrite E | done].
    + eapply settles_quit. simpl. by rewrite E.
  - destruct b; by eapply settles_quit.
Qed.

Lemma compare_all_formatted : formatted compare_all.
Proof.
  intros [|[]|j|j p|[]] code f a; simpl; try done; try by intros [= <- <- <-].
  destruct (j =? p); [done|]. intros [= <- <- <-]. apply wa_formatted.
Qed.

Lemma machine_ends_witness :
  exists status w',
    run_for compare_all (3 * S (unread (opened_world $"3 5" $"8 13 21" $"8 13
 21 ")))%nat AtTop (opened_world $"3 5" $"8 13 21" $"8 13
 21 ") = Some (Exited status w').
Proof.
  exact (machine_ends compare_all 2 AtTop (opened_world $"3 5" $"8 13 21" $"8 13
 21 ") compare_all_productive compare_all_formatted ltac:(by intros [])).
Defined.

(** The run of the example on these files: three pairs of numbers agree. *)
Example compare_all_accepts :
  exists w',
    run_for compare_all 20 AtTop (opened_world $"3 5" $"8 13 21" $"8 13
 21 ") = Some (Exited 0 w') /\ cout w' = "OK all numbers match" +:+ endl.
Proof. eexists. by vm_compute. Qed.

(** ** Scripts are machines *)

(** A run of a script as a machine, when the fuel reaches its end, is the
    run of the script. *)
Lemma run_for_script fuel : forall c w o,
  run_for script_next fuel c w = Some o -> o = run c w.
Proof.
  induction fuel as [|fuel IH]; intros c w o; [done|]. rewrite run_for_S.
  destruct c as [A m i k|code f a]; simpl script_next; simpl run; [|by intros [= <-]].
  rewrite run_bind_unfold. destruct (call m i w) as [v w'| |]; [apply IH | by intros [= <-]..].
Qed.

(** And every script has fuel enough. *)
Lemma script_fuel c : forall w, exists fuel, run_for script_next fuel c w = Some (run c w).
Proof.
  induction c as [A m i k IH|code f a]; intros w; [|by exists 1%nat].
  destruct (call m i w) as [v w'| |] eqn:E.
  - destruct (IH v w') as [fuel Hf]. exists (S fuel).
    rewrite run_for_S. simpl script_next. simpl run. by rewrite run_bind_unfold, E.
  - exists 1%nat. rewrite run_for_S. simpl script_next. simpl run. by rewrite run_bind_unfold, E.
  - exists 1%nat. rewrite run_for_S. simpl script_next. simpl run. by rewrite run_bind_unfold, E.
Qed.
