(* ===== verification/Logic.v ===== *)
(** * A logic for checkers

    The rules by which a checker is verified against the header.

    - [wp m Q E w]: the run of [m] from [w] is defined; if it returns, [Q]
      holds of the value and the state, and if it exits, [E] holds of the
      status and the state.  The lemmas on [wp] are the rules of the monad:
      return, bind, consequence, the conditional.
    - [TokenExtractor]: what the logic asks of an extraction, in terms of
      the queue of tokens left in the stream: [pop] says which value the
      extraction stores and which queue it leaves, or that it fails.  The
      rule of a read ([wp_read]) is proved once against this interface;
      the extractions of [int], [double] and [std::string] implement it.
    - One rule for each operation of the header, in the assertion
      [reading] of [Checker.v]: the readers on every branch, [seekEof],
      [quitf], [registerTestlibCmd].
    - [run_for_floyd]: inductive assertions for a checker that loops.  An
      assertion for each state of a machine, kept by each call with a
      measure that decreases, holds of the exit of the run; the fuel
      needed is the measure.
    - [ints_of]: a stream as a checker that reads only integers sees it,
      the values that successive calls of [readInt] return and the way the
      reads end, with the rule of [readInt] on that view.
    - [report]: what a run leaves for the judge, as the postcondition of a
      whole checker. *)

From Stdlib Require Import Floats.SpecFloat.
From stdpp Require Import gmap functions.
From S2P Require Import Prelude CType NumGet StrToD Printf IfStream Extract Process Verdict InStream Register.
From S2P Require Import TokenSpec Interleave AddFileIO Checker Script Machine.

Local Open Scope Z_scope.
Local Open Scope chk_scope.

(** ** Weakest preconditions *)

Definition wp {A : Type} (m : Proc A) (Q : A -> World -> Prop) (E : Z -> World -> Prop)
    (w : World) : Prop :=
  match m w with
  | Returned a w' => Q a w'
  | Exited status w' => E status w'
  | Undefined => False
  end.

(** The postcondition of a call that does not return. *)
Definition never {A : Type} : A -> World -> Prop := fun _ _ => False.

(** ** The interface of the extractions *)

(** The queue of tokens left in a stream decides what an extraction does:
    [pop q] is the value stored and the queue left, or [None] when the
    extraction fails; an extraction from the empty queue fails at the end
    of the input. *)
Class TokenExtractor (A : Type) (X : Extractor A) := {
  pop : list (list ascii) -> option (A * list (list ascii));
  pop_nil : pop [] = None;
  pop_sound s q : abs_rel s q ->
    match pop q with
    | Some (v, q') => exists s', extract X s = (s', Some v) /\ fail s' = false /\ abs_rel s' q'
    | None => fail (extract X s).1 = true /\ (q = [] -> eof (extract X s).1 = true)
    end
}.

(** A numeric extraction pops the field that its scanner takes from the
    first token, and leaves the rest of the token at the front. *)
Definition pop_num {A : Type} (scan : list ascii -> list ascii * list ascii)
    (conv : list ascii -> A * bool) (q : list (list ascii)) : option (A * list (list ascii)) :=
  match q with
  | [] => None
  | t :: q' =>
      if (conv (scan t).1).2 then None
      else Some ((conv (scan t).1).1, if is_nil (scan t).2 then q' else (scan t).2 :: q')
  end.

Definition pop_string (q : list (list ascii)) : option (string * list (list ascii)) :=
  match q with
  | [] => None
  | t :: q' => Some (string_of_list_ascii t, q')
  end.

(** The lines a failed read can write: at the end of the input the
    message of the end of file, and otherwise either message, since a field
    that does not convert and ends the input raises [eofbit] too. *)
Definition read_diag (eof_msg fail_msg : string) (this : StreamId) (q : list (list ascii)) :
    list string :=
  if is_nil q then [eof_msg +:+ obj_name this +:+ endl]
  else [fail_msg +:+ obj_name this +:+ endl; eof_msg +:+ obj_name this +:+ endl].

(** What a failed read leaves: status 2, nothing on [cout], one line on
    [cerr]. *)
Definition read_failed (lines : list string) (out err : string) (status : Z) (w : World) : Prop :=
  status = 2 /\ cout w = out /\ exists line, line ∈ lines /\ cerr w = err +:+ line.

(** What [quitf] leaves. *)
Definition verdict_line (exitCode : Z) (msg out err : string) (status : Z) (w : World) : Prop :=
  status = exitCode /\ cout w = out +:+ label exitCode +:+ msg +:+ endl /\ cerr w = err.

(** ** The rules of the monad *)

Section monad.
Context {A B : Type}.
Implicit Types (Q : A -> World -> Prop) (E : Z -> World -> Prop).

Lemma wp_ret (a : A) Q E w : Q a w -> wp (mret a) Q E w.
Proof. done. Qed.

Lemma wp_bind (m : Proc A) (f : A -> Proc B) (R : B -> World -> Prop) E w :
  wp m (fun a => wp (f a) R E) E w <-> wp (m ≫= f) R E w.
Proof. unfold wp, mbind, Proc_bind. by destruct (m w). Qed.

Lemma wp_exit status Q E w : E status w -> wp (exit status) Q E w.
Proof. done. Qed.

Lemma wp_stored (o : option A) Q E w : (exists a, o = Some a /\ Q a w) -> wp (stored o) Q E w.
Proof. by intros (a & -> & H). Qed.

(** Consequence. *)
Lemma wp_mono (m : Proc A) Q Q' E E' w :
  (forall a w', Q a w' -> Q' a w') -> (forall status w', E status w' -> E' status w') ->
  wp m Q E w -> wp m Q' E' w.
Proof. intros HQ HE. unfold wp. destruct (m w); auto. Qed.

#[export] Instance wp_proper (m : Proc A) :
  Proper (pointwise_relation A (pointwise_relation World impl) ==>
          pointwise_relation Z (pointwise_relation World impl) ==> eq ==> impl) (wp m).
Proof. intros Q Q' HQ E E' HE w ? <- H. revert H. apply wp_mono; [apply HQ | apply HE]. Qed.

(** What a precondition says of the run. *)
Lemma wp_outcome (m : Proc A) Q E w : wp m Q E w <->
  (exists a w', m w = Returned a w' /\ Q a w') \/ (exists status w', m w = Exited status w' /\ E status w').
Proof.
  unfold wp. split.
  - destruct (m w) as [a w'|status w'|]; [left | right | done]; eauto.
  - by intros [(a & w' & -> & H)|(status & w' & -> & H)].
Qed.

(** A call that does not return. *)
Lemma wp_never (m : Proc A) Q E w : wp m never E w -> wp m Q E w.
Proof. by apply wp_mono. Qed.

End monad.

Lemma wp_noreturn {A} (m : Proc Empty_set) (Q : A -> World -> Prop) E w :
  wp m never E w -> wp (noreturn m) Q E w.
Proof. intros H. unfold noreturn. apply wp_bind. revert H. apply wp_mono; [by intros []|done]. Qed.

Lemma wp_when_ (b : bool) (m : Proc unit) Q E w :
  (if b then wp m Q E w else Q tt w) -> wp (when_ b m) Q E w.
Proof. by destruct b. Qed.

(** ** The extractions implement the interface *)

Section pop_num.
Context {A : Type} (scan : list ascii -> list ascii * list ascii) (conv : list ascii -> A * bool).
Hypothesis scan_app : forall b, (scan b).1 ++ (scan b).2 = b.
Hypothesis scan_local : forall t r, t <> [] -> all_sat nonspace t -> stops nonspace r ->
  scan (t ++ r) = ((scan t).1, (scan t).2 ++ r).

Lemma pop_num_sound s q : abs_rel s q ->
  match pop_num scan conv q with
  | Some (v, q') =>
      exists s', extract_num scan conv s = (s', Some v) /\ fail s' = false /\ abs_rel s' q'
  | None => fail (extract_num scan conv s).1 = true /\
            (q = [] -> eof (extract_num scan conv s).1 = true)
  end.
Proof.
  intros H. destruct q as [|t q]; simpl.
  { by destruct (extract_num_abs_nil scan conv s H) as (? & ? & _). }
  destruct (extract_num_abs scan conv scan_app scan_local s t q H) as (s' & He & Hf & Hr).
  destruct (conv (scan t).1).2; [by rewrite He | eauto].
Qed.

End pop_num.

Lemma pop_int_sound s q : abs_rel s q ->
  match pop_num scan_int conv_int q with
  | Some (v, q') => exists s', extract_int s = (s', Some v) /\ fail s' = false /\ abs_rel s' q'
  | None => fail (extract_int s).1 = true /\ (q = [] -> eof (extract_int s).1 = true)
  end.
Proof.
  apply pop_num_sound; [apply scan_int_app|].
  intros; apply scan_int_local; auto using stops_nonspace_isdigit.
Qed.

Lemma pop_double_sound s q : abs_rel s q ->
  match pop_num scan_float conv_double q with
  | Some (v, q') => exists s', extract_double s = (s', Some v) /\ fail s' = false /\ abs_rel s' q'
  | None => fail (extract_double s).1 = true /\ (q = [] -> eof (extract_double s).1 = true)
  end.
Proof. apply pop_num_sound; [apply scan_float_app | intros; by apply scan_float_local]. Qed.

Lemma pop_string_sound s q : abs_rel s q ->
  match pop_string q with
  | Some (v, q') => exists s', extract_string s = (s', Some v) /\ fail s' = false /\ abs_rel s' q'
  | None => fail (extract_string s).1 = true /\ (q = [] -> eof (extract_string s).1 = true)
  end.
Proof.
  intros H. destruct q as [|t q]; simpl; [|by apply extract_string_abs].
  split; [by apply extract_string_abs_nil|]. intros _.
  pose proof (abs_rel_blank _ H) as Hb. destruct H as (_ & Hf & _).
  unfold fail, eof in *. destruct (good s) eqn:G.
  - rewrite extract_string_blank by done. simpl. by rewrite !orb_true_r.
  - rewrite extract_string_not_good by done. simpl. rewrite orb_false_r.
    apply good_false in G as [?|?]; auto.
Qed.

(** [pop] is the step of the abstract machine of [TokenSpec.v]. *)
Lemma spec_num_pop {A} scan conv (f : A -> obs) q :
  spec_num scan conv f q =
  match pop_num scan conv q with
  | Some (v, q') => (f v, Some q')
  | None => (Died 2, None)
  end.
Proof.
  destruct q as [|t q]; [done|]. simpl. destruct (scan t) as [field rest]. simpl.
  by destruct (conv field) as [v []].
Qed.

#[export] Instance int_tokens : TokenExtractor Z int_extractor :=
  {| pop := pop_num scan_int conv_int; pop_nil := eq_refl; pop_sound := pop_int_sound |}.

#[export] Instance double_tokens : TokenExtractor spec_float double_extractor :=
  {| pop := pop_num scan_float conv_double; pop_nil := eq_refl;
     pop_sound := pop_double_sound |}.

#[export] Instance string_tokens : TokenExtractor string string_extractor :=
  {| pop := pop_string; pop_nil := eq_refl; pop_sound := pop_string_sound |}.

(** ** The rules of the header *)

(** *** A read *)

Section read.
Context {A : Type} {X : Extractor A} {T : TokenExtractor A X}.
Context (finish : option A -> Proc A) (eof_msg fail_msg : string).
Hypothesis finish_stored : forall v, finish (Some v) = mret v.
Context (toks : StreamId -> list (list ascii)) (cnt : StreamId -> Z).
Context (out err : string) (w : World).
Hypothesis H : reading toks cnt out err w.

(** A read through [this]: where the extraction pops a value, the read
    returns it, the queue of [this] is the one left and its counter is one
    more; where it fails, the process exits as [read_failed] says. *)
Lemma wp_read this Q E : cnt this < INT_MAX ->
  match pop (toks this) with
  | Some (v, q') =>
      forall w', reading (<[this := q']> toks) (<[this := cnt this + 1]> cnt) out err w' -> Q v w'
  | None =>
      forall status w',
        read_failed (read_diag eof_msg fail_msg this (toks this)) out err status w' ->
        E status w'
  end ->
  wp (read_with X finish eof_msg fail_msg this) Q E w.
Proof.
  intros Hc%(reading_can_count _ _ _ _ _ H) HQ.
  pose proof (pop_sound _ _ (reading_abs _ _ _ _ _ H this)) as Hp. unfold wp.
  destruct (pop (toks this)) as [[v q']|].
  - destruct Hp as (s' & He & Hf & Ha). erewrite read_with_ok by done.
    by apply HQ, reading_after_read.
  - destruct Hp as [Hf Heof]. erewrite read_with_fail by (done || apply surjective_pairing).
    apply HQ. destruct H as (Ho & _ & _ & Hco & Hce). destruct (Ho this) as [_ Hn].
    split_and!; [done | by autorewrite with chk |]. autorewrite with chk.
    unfold diagnostic, read_diag. rewrite Hn, Hce. eexists. split; [|done].
    destruct (toks this); simpl; [rewrite Heof by done; apply list_elem_of_here|].
    destruct (eof _); [apply list_elem_of_further|]; apply list_elem_of_here.
Qed.

End read.

(** *** The operations of the class *)

Abbreviation pop_int := (pop_num scan_int conv_int) (only parsing).
Abbreviation pop_double := (pop_num scan_float conv_double) (only parsing).

Section rules.
Context (toks : StreamId -> list (list ascii)) (cnt : StreamId -> Z).
Context (out err : string) (w : World).
Hypothesis H : reading toks cnt out err w.

Lemma wp_readInt this Q E : cnt this < INT_MAX ->
  match pop_int (toks this) with
  | Some (v, q') =>
      forall w', reading (<[this := q']> toks) (<[this := cnt this + 1]> cnt) out err w' -> Q v w'
  | None =>
      forall status w',
        read_failed (read_diag "Unexpected EOF when reading integer from "
                       "Failed to read integer from " this (toks this)) out err status w' ->
        E status w'
  end ->
  wp (readInt this) Q E w.
Proof. rewrite readInt_read_with. by apply (wp_read (T := int_tokens)). Qed.

Lemma wp_readDouble this Q E : cnt this < INT_MAX ->
  match pop_double (toks this) with
  | Some (v, q') =>
      forall w', reading (<[this := q']> toks) (<[this := cnt this + 1]> cnt) out err w' -> Q v w'
  | None =>
      forall status w',
        read_failed (read_diag "Unexpected EOF when reading double from "
                       "Failed to read double from " this (toks this)) out err status w' ->
        E status w'
  end ->
  wp (readDouble this) Q E w.
Proof. rewrite readDouble_read_with. by apply (wp_read (T := double_tokens)). Qed.

(** [readString] fails on the empty queue only. *)
Lemma wp_readString this Q E : cnt this < INT_MAX ->
  match toks this with
  | t :: q' =>
      forall w', reading (<[this := q']> toks) (<[this := cnt this + 1]> cnt) out err w' ->
        Q (string_of_list_ascii t) w'
  | [] =>
      forall status w',
        read_failed ["Unexpected EOF when reading string from " +:+ obj_name this +:+ endl]
          out err status w' ->
        E status w'
  end ->
  wp (readString this) Q E w.
Proof.
  intros Hc HQ. rewrite readString_read_with.
  eapply (wp_read (T := string_tokens)); [done | exact H | exact Hc |].
  simpl. by destruct (toks this).
Qed.

(** [readLine] is not an operation on tokens: its rule is in terms of the
    characters left.  A line that ends in a newline is returned and the
    queue is that of the characters after the newline; the characters
    left, when they have no newline, are returned as the last line; with
    nothing left the read fails at the end of the input. *)
Lemma wp_readLine this Q E : cnt this < INT_MAX ->
  (forall line rest w', rdbuf (get_stream this w) = line ++ LF :: rest ->
     all_sat not_newline line ->
     reading (<[this := tokens rest]> toks) (<[this := cnt this + 1]> cnt) out err w' ->
     Q (string_of_list_ascii line) w') ->
  (forall w', rdbuf (get_stream this w) <> [] -> all_sat not_newline (rdbuf (get_stream this w)) ->
     reading (<[this := []]> toks) (<[this := cnt this + 1]> cnt) out err w' ->
     Q (string_of_list_ascii (rdbuf (get_stream this w))) w') ->
  (forall status w',
     read_failed ["Unexpected EOF when reading line from " +:+ obj_name this +:+ endl]
       out err status w' -> E status w') ->
  wp (readLine this) Q E w.
Proof.
  intros Hc%(reading_can_count _ _ _ _ _ H) Hline Hlast Hfail.
  pose proof (reading_abs _ _ _ _ _ H this) as (Hwf & Hfe & _).
  rewrite <- (reading_stream _ _ _ _ _ H) in *. set (s := stream_of_obj this w) in *.
  assert (forall s' r, getline s = (s', r) -> fail s' = true -> eof s' = true ->
            wp (readLine this) Q E w) as Hexit.
  { intros s' r Hg Hf He. unfold wp. rewrite readLine_read_with.
    erewrite read_with_fail by done. apply Hfail.
    destruct H as (Ho & _ & _ & Hco & Hce). destruct (Ho this) as [_ Hn].
    split_and!; [done | by autorewrite with chk |]. autorewrite with chk.
    unfold diagnostic. rewrite He, Hn, Hce. eexists. split; [apply list_elem_of_here | done]. }
  assert (forall s' v q, getline s = (s', Some v) -> fail s' = false -> abs_rel s' q ->
            (forall w', reading (<[this := q]> toks) (<[this := cnt this + 1]> cnt) out err w' ->
                        Q v w') -> wp (readLine this) Q E w) as Hret.
  { intros s' v q Hg Hf Ha HQ. unfold wp. rewrite readLine_read_with.
    erewrite (read_with_ok line_extractor) by done. by apply HQ, reading_after_read. }
  destruct (getline_spec s) as [G|G Hl|line rest G Hb Hl].
  - apply (Hexit _ _ eq_refl); unfold fail, eof in *; simpl; [apply orb_true_r|].
    rewrite orb_false_r. apply good_false in G as [?|?]; auto.
  - destruct (rdbuf s) as [|c b] eqn:Eb.
    + apply (Hexit _ _ eq_refl); unfold fail, eof; simpl; apply orb_true_r.
    + apply (Hret _ _ [] eq_refl); [by apply good_setstate_no_fail | | intros w' ?; by apply Hlast].
      apply (abs_rel_advance s []); [done|]. by apply wf_input_opened; [|rewrite Eb].
  - apply (Hret _ _ (tokens rest) eq_refl); [by apply good_true in G as [_ ?] | | intros w' ?; by eapply Hline].
    assert (opened s = true) by (apply wf_input_opened; [done|]; rewrite Hb; by destruct line).
    split_and!; [by apply wf_good_advance | | done].
    unfold fail. simpl. by apply good_true in G as [_ ->].
Qed.

(** [seekEof] returns, and tells whether the queue is empty. *)
Lemma wp_seekEof this Q E :
  (forall w', reading toks cnt out err w' -> Q (is_nil (toks this)) w') ->
  wp (seekEof this) Q E w.
Proof.
  intros HQ. destruct (reading_seekEof _ _ _ _ _ H this) as (w' & Hr & H').
  unfold wp. rewrite Hr. by apply HQ.
Qed.

(** [quitf] exits with its line on [cout]. *)
Lemma wp_quitf exitCode format args msg E :
  vsnprintf 1024 format args = Some msg ->
  (forall status w', verdict_line exitCode msg out err status w' -> E status w') ->
  wp (quitf exitCode format args) never E w.
Proof.
  intros Hm HE. destruct (reading_quitf _ _ _ _ _ exitCode _ _ _ H Hm) as (w' & Hr & Hc & He).
  unfold wp. rewrite Hr. by apply HE.
Qed.

End rules.

(** What a failed registration leaves: status 3, nothing on [cout], the
    line that names the file on [cerr]. *)
Definition register_failed (role path : string) (status : Z) (w : World) : Prop :=
  status = 3 /\ cout w = EmptyString /\
  cerr w = "Failed to open " +:+ role +:+ " file: " +:+ path +:+ endl.

(** [registerTestlibCmd] at the start of a process: when the three files
    exist the streams are between two reads, with the tokens of the files
    and no read counted; and otherwise the process exits on the first file
    that is missing. *)
Lemma wp_register prog p1 p2 p3 files Q E :
  match first_missing p1 p2 p3 files with
  | Some (role, path) => forall status w', register_failed role path status w' -> E status w'
  | None =>
      forall c1 c2 c3 w',
        files !! p1 = Some c1 -> files !! p2 = Some c2 -> files !! p3 = Some c3 ->
        reading (fun i => tokens match i with Inf => c1 | Ouf => c2 | Ans => c3 end)
          (fun _ => 0) "" "" w' -> Q tt w'
  end ->
  wp (registerTestlibCmd 4 [prog; p1; p2; p3]) Q E (initial_world files).
Proof.
  intros HQ. unfold wp.
  destruct (first_missing p1 p2 p3 files) as [[role path]|] eqn:Em.
  - rewrite registerTestlibCmd_run, first_unopened_closed by by intros [].
    simpl fs. rewrite Em. apply HQ. split_and!; [done..|].
    autorewrite with chk. apply string_app_nil_l.
  - unfold first_missing in Em.
    destruct (files !! p1) as [c1|] eqn:E1; [|done].
    destruct (files !! p2) as [c2|] eqn:E2; [|done].
    destruct (files !! p3) as [c3|] eqn:E3; [|done].
    destruct (reading_register prog p1 p2 p3 files c1 c2 c3) as (w' & -> & H'); [done..|].
    by eapply HQ.
Qed.

(** On three files that exist. *)
Lemma wp_register_ok prog p1 p2 p3 files c1 c2 c3 Q E :
  files !! p1 = Some c1 -> files !! p2 = Some c2 -> files !! p3 = Some c3 ->
  (forall w', reading (fun i => tokens match i with Inf => c1 | Ouf => c2 | Ans => c3 end)
                (fun _ => 0) "" "" w' -> Q tt w') ->
  wp (registerTestlibCmd 4 [prog; p1; p2; p3]) Q E (initial_world files).
Proof.
  intros H1 H2 H3 HQ. apply wp_register. unfold first_missing. rewrite H1, H2, H3.
  intros ? ? ? w' [= <-] [= <-] [= <-]. apply HQ.
Qed.

(** ** Inductive assertions *)

Section floyd.
Context {St : Type} (next : St -> action St).
Context (I : nat -> St -> World -> Prop) (E : Z -> World -> Prop).

(** [I n s] is an assertion for the state [s] with the measure [n]: every
    call made from a state where it holds returns to a state where the
    assertion holds with a smaller measure, or exits as [E] says, and every
    verdict is as [E] says. *)
Definition inductive_assertion : Prop :=
  forall n s w, I n s w ->
    match next s with
    | Call m i k =>
        wp (call m i) (fun v w' => exists n', (n' < n)%nat /\ I n' (k v) w') E w
    | Quit exitCode format args => wp (quitf exitCode format args) never E w
    end.

(** The run of a machine from a state where the assertion holds exits as
    [E] says, on any fuel above the measure. *)
Lemma run_for_floyd : inductive_assertion ->
  forall fuel n s w, I n s w -> (n < fuel)%nat ->
    exists status w', run_for next fuel s w = Some (Exited status w') /\ E status w'.
Proof.
  intros Hind fuel. induction fuel as [|fuel IH]; intros n s w HI Hn; [lia|].
  rewrite run_for_S. specialize (Hind n s w HI). unfold wp in Hind.
  destruct (next s) as [A m i k|exitCode format args].
  - destruct (call m i w) as [v w'|status w'|]; [|by eauto|done].
    destruct Hind as (n' & Hlt & HI'). apply (IH n'); [done | lia].
  - destruct (quitf exitCode format args w) as [[]|status w'|]; [by eauto|done].
Qed.

End floyd.

(** ** The integers of a queue *)

(** What a checker that reads only integers sees of a stream: the values
    that successive calls of [readInt] return, and whether the reads end
    at a field that does not convert ([true]) or at the end of the input
    ([false]).  The recursion is on the number of characters of the queue,
    since a read that succeeds consumes one at least. *)
Fixpoint ints_fuel (fuel : nat) (q : list (list ascii)) : list Z * bool :=
  match pop_int q with
  | None => ([], negb (is_nil q))
  | Some (z, q') =>
      match fuel with
      | O => ([], true)
      | S f => let (zs, g) := ints_fuel f q' in (z :: zs, g)
      end
  end.

Definition ints_of (q : list (list ascii)) : list Z * bool :=
  ints_fuel (length (mjoin q)) q.

(** The lines of a failed [readInt], by the end of the view. *)
Definition int_diag (this : StreamId) (garbage : bool) : list string :=
  if garbage
  then ["Failed to read integer from " +:+ obj_name this +:+ endl;
        "Unexpected EOF when reading integer from " +:+ obj_name this +:+ endl]
  else ["Unexpected EOF when reading integer from " +:+ obj_name this +:+ endl].

(** A read that succeeds has consumed a character. *)
Lemma pop_int_shorter q z q' : pop_int q = Some (z, q') ->
  (length (mjoin q') < length (mjoin q))%nat.
Proof.
  destruct q as [|t q]; [done|]. simpl. pose proof (scan_int_app t) as Ht.
  destruct (scan_int t) as [field rest]. simpl in *.
  destruct (conv_int field) as [v bad] eqn:Ec. simpl. destruct bad; [done|].
  intros [= _ <-]. assert (field <> []) as Hf by (by intros ->).
  rewrite <- Ht, !length_app. destruct field; [done|].
  destruct rest; simpl; rewrite ?length_app; lia.
Qed.

(** The fuel does not matter once it is enough. *)
Lemma ints_fuel_enough fuel : forall fuel' q,
  (length (mjoin q) <= fuel)%nat -> (length (mjoin q) <= fuel')%nat ->
  ints_fuel fuel q = ints_fuel fuel' q.
Proof.
  induction fuel as [|fuel IH]; intros fuel' q H H';
    (destruct (pop_int q) as [[z q']|] eqn:E;
      [pose proof (pop_int_shorter _ _ _ E) | by destruct fuel'; simpl; rewrite E]).
  - lia.
  - destruct fuel'; [lia|]. simpl. rewrite E. by rewrite (IH fuel' q') by lia.
Qed.

(** The view, one read at a time. *)
Lemma ints_of_unfold q :
  ints_of q =
  match pop_int q with
  | None => ([], negb (is_nil q))
  | Some (z, q') => let (zs, g) := ints_of q' in (z :: zs, g)
  end.
Proof.
  unfold ints_of. destruct (pop_int q) as [[z q']|] eqn:E.
  - pose proof (pop_int_shorter _ _ _ E).
    destruct (length (mjoin q)) as [|n] eqn:En; [lia|]. simpl. rewrite E.
    by rewrite (ints_fuel_enough n (length (mjoin q')) q') by lia.
  - destruct (length (mjoin q)); simpl; by rewrite E.
Qed.

(** The view is empty and clean exactly on the empty queue. *)
Lemma ints_of_is_nil q : ints_of q = ([], false) <-> is_nil q = true.
Proof.
  rewrite ints_of_unfold. destruct q as [|t q]; [done|].
  destruct (pop_int (t :: q)) as [[z q']|]; [by destruct (ints_of q')|done].
Qed.

(** Printed integers are a clean view. *)
Lemma ints_of_print zs : Forall in_int zs -> ints_of (print_int <$> zs) = (zs, false).
Proof.
  induction 1 as [|z zs Hz _ IH]; [done|]. rewrite ints_of_unfold. simpl.
  rewrite <- (app_nil_r (print_int z)), scan_int_print_int by done. simpl.
  rewrite conv_int_print_int by done. simpl.
  by rewrite (IH : ints_of (list_fmap _ _ print_int zs) = _).
Qed.

(** What is read fits an [int]. *)
Lemma pop_int_in_int q z q' : pop_int q = Some (z, q') -> in_int z.
Proof.
  destruct q as [|t q]; [done|]. simpl. destruct (conv_int (scan_int t).1).2 eqn:E; [done|].
  intros [= <- _]. apply conv_int_in_int.
Qed.

(** [readInt] on a stream seen as its integers: the first is returned and
    the rest is the view of what is left; at the end of the view the read
    fails. *)
Lemma wp_readInt_view toks cnt out err w this zs g Q E :
  reading toks cnt out err w -> ints_of (toks this) = (zs, g) -> cnt this < INT_MAX ->
  match zs with
  | z :: zs' =>
      forall q' w', in_int z -> ints_of q' = (zs', g) ->
        reading (<[this := q']> toks) (<[this := cnt this + 1]> cnt) out err w' -> Q z w'
  | [] => forall status w', read_failed (int_diag this g) out err status w' -> E status w'
  end ->
  wp (readInt this) Q E w.
Proof.
  intros H Hv Hc HQ. rewrite ints_of_unfold in Hv. apply (wp_readInt _ _ _ _ _ H); [done|].
  destruct (pop_int (toks this)) as [[z q']|] eqn:Ep.
  - destruct (ints_of q') as [zs' g'] eqn:E'. injection Hv as <- <-.
    intros w'. apply HQ; [by eapply pop_int_in_int | done].
  - injection Hv as <- <-. unfold read_diag, int_diag in *. by destruct (is_nil (toks this)).
Qed.

(** ** Reports *)

(** What a run of a checker leaves for the judge: the status, the text on
    [cout], and the texts that can be on [cerr]. *)
Record report : Type := Report { rp_status : Z; rp_cout : string; rp_cerr : list string }.

(** The report of a verdict of the checker, and of a failed [readInt]. *)
Definition verdict (exitCode : Z) (msg : string) : report :=
  Report exitCode (label exitCode +:+ msg +:+ endl) [EmptyString].

Definition failed_read (this : StreamId) (garbage : bool) : report :=
  Report 2 "" (int_diag this garbage).

(** The message of a wrong answer. *)
Definition wa_text (j p : Z) : string :=
  string_of_list_ascii ($"expected " ++ print_int j ++ $", found " ++ print_int p).

(** The exit of a run is as the report says. *)
Definition report_holds (r : report) (status : Z) (w : World) : Prop :=
  status = rp_status r /\ cout w = rp_cout r /\ cerr w ∈ rp_cerr r.

Lemma report_failed this g R status w :
  R = failed_read this g -> read_failed (int_diag this g) "" "" status w ->
  report_holds R status w.
Proof.
  intros -> (-> & Hc & line & Hl & He). rewrite string_app_nil_l in He.
  by rewrite <- He in Hl.
Qed.

Lemma report_verdict exitCode msg R status w :
  R = verdict exitCode msg -> verdict_line exitCode msg "" "" status w ->
  report_holds R status w.
Proof.
  intros -> (-> & Hc & He). rewrite string_app_nil_l in Hc.
  split_and!; [done.. |]. rewrite He. apply list_elem_of_here.
Qed.

(** A checker that does not return exits as its precondition says. *)
Lemma wp_exits (m : Proc Empty_set) E w : wp m never E w ->
  exists status w', m w = Exited status w' /\ E status w'.
Proof. intros [([] & _)|H]%wp_outcome; done. Qed.
