(* ===== verification/Compare.v ===== *)
(** * The comparison of two sequences, verified

    [compare_all] of [Machine.v] is a checker with a loop: it reads
    integers from the answer and from the output in turn until the answer
    ends, and then requires the end of the output.  [machine_ends] shows
    that it ends; here is what it answers, on any two files.

    A file is seen as the integers that [readInt] reads from it one after
    the other, and the way the reads end: at the end of the file, or at a
    field that does not convert ([ints_of], in [Logic.v]).  [cmp_report]
    is the specification: a function of the two views that gives the exit
    status, the line on [cout] and the lines that can be on [cerr].  The
    theorem [compare_all_correct] is that the checker, started on any
    files, exits with that report on fuel of three calls for each integer
    of the answer and three more, and that the status is 0 exactly when
    both files are integers to their end and hold the same integers.

    The proof is by inductive assertions ([run_for_floyd]): [cmp_inv]
    gives each state of the machine its assertion, and each call keeps it
    by the rule of the call.  [write_ints] is a way to write a file of
    integers: each integer and a newline. *)

From stdpp Require Import functions gmap.
From S2P Require Import Prelude CType NumGet Printf IfStream Extract Process Verdict InStream Register.
From S2P Require Import TokenSpec Interleave AddFileIO Checker Script Machine Logic.

Local Open Scope Z_scope.
Local Open Scope chk_scope.

(** ** The specification *)

(** The report of the comparison of the answer, of integers [js] that end
    in a field that does not convert when [ga], with the output [ps],
    [gp]: the first pair that differs is a wrong answer; an output that
    ends before the answer, and an answer or an output that is not of
    integers where one is read, is the failure of a read; an output that
    goes on after the answer is dirt. *)
Fixpoint cmp_report (js : list Z) (ga : bool) (ps : list Z) (gp : bool) : report :=
  match js, ps with
  | [], [] =>
      if ga then failed_read Ans true
      else if gp then verdict 4 "extra tokens in output" else verdict 0 "all numbers match"
  | [], _ :: _ => if ga then failed_read Ans true else verdict 4 "extra tokens in output"
  | _ :: _, [] => failed_read Ouf gp
  | j :: js', p :: ps' =>
      if j =? p then cmp_report js' ga ps' gp
      else verdict 1 (wa_text j p)
  end.

(** The report of the checker of the scenarios, which compares the first
    integer of the answer with the first integer of the output and then
    requires the end of the output. *)
Definition checker_report (js : list Z) (ga : bool) (ps : list Z) (gp : bool) : report :=
  match js, ps with
  | [], _ => failed_read Ans ga
  | _ :: _, [] => failed_read Ouf gp
  | j :: _, p :: ps' =>
      if negb (j =? p) then verdict 1 (wa_text j p)
      else if is_nil ps' && negb gp then verdict 0 "answer is correct"
      else verdict 4 "extra tokens in output"
  end.

(** The checker as a program: [main] registers and then runs the loop. *)
Definition compare_main (fuel : nat) (argc : Z) (argv : list string) (w : World) :
    option (Outcome Empty_set) :=
  match registerTestlibCmd argc argv w with
  | Returned _ w' => run_for compare_all fuel AtTop w'
  | Exited status w' => Some (Exited status w')
  | Undefined => Some Undefined
  end.

(** What a solution writes that prints each integer and a newline. *)
Definition write_ints (zs : list Z) : list ascii :=
  mjoin ((fun z => print_int z ++ [LF]) <$> zs).

(** ** The assertions of the states *)

(** The reads of the output that a state owes before the next turn. *)
Definition owed (s : cmp_state) : Z :=
  match s with HaveAns _ => 1 | _ => 0 end.

(** The assertion of the state [s], for the final report [R]: the streams
    are between two reads, [js] and [ps] are the integers left in the
    answer and in the output, the counters have room for the reads to
    come, the report of what is left (with what the state holds) is [R],
    and the measure is the number of calls to come. *)
Definition cmp_inv (R : report) (n : nat) (s : cmp_state) (w : World) : Prop :=
  exists toks cnt js ga ps gp,
    reading toks cnt "" "" w /\
    ints_of (toks Ans) = (js, ga) /\ ints_of (toks Ouf) = (ps, gp) /\
    cnt Ans + Z.of_nat (length js) < INT_MAX /\
    cnt Ouf + Z.of_nat (length js) + owed s < INT_MAX /\
    match s with
    | AtTop => n = (3 * length js + 2)%nat /\ R = cmp_report js ga ps gp
    | AnsEnd b =>
        n = (3 * length js + 1)%nat /\ R = cmp_report js ga ps gp /\ b = is_nil (toks Ans)
    | HaveAns j =>
        n = (3 * length js + 3)%nat /\ R = cmp_report (j :: js) ga ps gp /\ in_int j
    | HavePair j p =>
        n = (3 * length js + 2)%nat /\ R = cmp_report (j :: js) ga (p :: ps) gp /\
        in_int j /\ in_int p
    | OufEnd b =>
        n = 0%nat /\ R = cmp_report [] false ps gp /\ b = is_nil (toks Ouf)
    end.

(** ** The report *)

Lemma cmp_report_ok js ga ps gp :
  rp_status (cmp_report js ga ps gp) = 0 <-> ga = false /\ gp = false /\ js = ps.
Proof.
  revert ps. induction js as [|j js IH]; intros ps; destruct ps as [|p ps]; simpl.
  - destruct ga, gp; simpl; by intuition.
  - destruct ga; simpl; by intuition.
  - by intuition.
  - destruct (Z.eqb_spec j p) as [->|Hn]; [rewrite IH|simpl]; intuition congruence.
Qed.

(** ** Files of integers *)

(** The integers written are the tokens of the file. *)
Lemma tokens_write_ints zs : tokens (write_ints zs) = print_int <$> zs.
Proof.
  induction zs as [|z zs IH]; [done|]. unfold write_ints. simpl.
  rewrite <- app_assoc. destruct (print_int_head z) as (c & b & E & Hc).
  rewrite tokens_token; [|by rewrite E | apply print_int_nonspace | done].
  simpl. rewrite tokens_cons_space by done. f_equal. exact IH.
Qed.

Lemma ints_of_write_ints zs : Forall in_int zs -> ints_of (tokens (write_ints zs)) = (zs, false).
Proof. intros H. rewrite tokens_write_ints. by apply ints_of_print. Qed.

(** ** The checker of the scenarios *)

(** The checker, by the rules of its calls: registration, two reads, a
    comparison, the test of the end, the verdict. *)
Lemma checker_main_wp prog p1 p2 p3 files c1 c2 c3 js ga ps gp :
  files !! p1 = Some c1 -> files !! p2 = Some c2 -> files !! p3 = Some c3 ->
  ints_of (tokens c3) = (js, ga) -> ints_of (tokens c2) = (ps, gp) ->
  wp (checker_main 4 [prog; p1; p2; p3]) never (report_holds (checker_report js ga ps gp))
    (initial_world files).
Proof.
  intros H1 H2 H3 Ha Ho. unfold checker_main.
  apply wp_bind, (wp_register_ok _ _ _ _ _ c1 c2 c3); [done..|]. intros w1 R1.
  apply wp_bind. eapply wp_readInt_view; [exact R1 | exact Ha | done |].
  destruct js as [|j js]; [intros status w'; by apply report_failed|]. intros qa w2 Hj Hqa R2.
  apply wp_bind. eapply wp_readInt_view; [exact R2 | exact Ho | done |].
  destruct ps as [|p ps]; [intros status w'; by apply report_failed|]. intros qo w3 Hp Hqo R3.
  simpl. apply wp_bind, wp_when_. destruct (negb (j =? p)).
  { apply wp_noreturn, (wp_quitf _ _ _ _ _ R3 _ _ _ _ _ (wa_vsnprintf j p Hj Hp)).
    intros status w'. by apply report_verdict. }
  apply wp_bind, (wp_seekEof _ _ _ _ _ R3). intros w4 R4. rewrite fn_lookup_insert.
  assert (is_nil qo = is_nil ps && negb gp) as ->.
  { destruct (is_nil qo) eqn:En.
    - apply ints_of_is_nil in En. rewrite En in Hqo. by injection Hqo as <- <-.
    - destruct ps, gp; try done. apply ints_of_is_nil in Hqo. congruence. }
  apply wp_bind, wp_when_.
  destruct (is_nil ps && negb gp); simpl; [|apply wp_noreturn];
    (eapply (wp_quitf _ _ _ _ _ R4);
       [by apply vsnprintf_short; [apply (bool_decide_unpack _); vm_compute | simpl; lia]|]);
    intros status w'; by apply report_verdict.
Qed.

(** C28: the checker of the scenarios, on any files.  Started on three
    files that exist, the checker that compares the first integer of the
    answer with the first integer of the output exits, and with [js] the
    integers that [readInt] reads from the answer ([ga] when they end at a
    field that does not convert) and [ps], [gp] those of the output, its
    status and its lines are those of [checker_report]: status 2 and a
    diagnostic on [cerr] when a file holds no integer where one is read;
    status 1 and the line [Wrong Answer expected j, found p] when the two
    integers differ; status 0 and the line [OK answer is correct] when
    they are equal and nothing but blanks follows in the output; status 4
    and the line [DIRT extra tokens in output] when they are equal and
    anything else follows. *)
Theorem checker_main_correct prog p1 p2 p3 files c1 c2 c3 js ga ps gp :
  files !! p1 = Some c1 -> files !! p2 = Some c2 -> files !! p3 = Some c3 ->
  ints_of (tokens c3) = (js, ga) -> ints_of (tokens c2) = (ps, gp) ->
  exists w',
    checker_main 4 [prog; p1; p2; p3] (initial_world files) =
      Exited (rp_status (checker_report js ga ps gp)) w' /\
    cout w' = rp_cout (checker_report js ga ps gp) /\
    cerr w' ∈ rp_cerr (checker_report js ga ps gp).
Proof.
  intros H1 H2 H3 Ha Ho.
  destruct (wp_exits _ _ _ (checker_main_wp prog p1 p2 p3 files c1 c2 c3 js ga ps gp
                              H1 H2 H3 Ha Ho)) as (status & w' & E & -> & Hc & He).
  by exists w'.
Qed.

Lemma checker_main_correct_witness :
  exists w',
    checker_main 4 ["checker"; "input.txt"; "output.txt"; "answer.txt"]
      (initial_world (scenario "8 extra")) = Exited 4 w' /\
    cout w' = "DIRT extra tokens in output" +:+ endl /\ cerr w' ∈ [EmptyString].
Proof.
  apply checker_main_correct with (c1 := $"3 5") (c2 := $"8 extra") (c3 := $"8")
    (js := [8]) (ga := false) (ps := [8]) (gp := true); by vm_compute.
Defined.

(** The scenarios of the specification are cases of the report. *)
Example checker_report_scenarios :
  checker_report [8] false [8] false = verdict 0 "answer is correct" /\
  checker_report [8] false [] false = failed_read Ouf false /\
  checker_report [8] false [8] true = verdict 4 "extra tokens in output" /\
  checker_report [8] false [9; 8] false = verdict 1 "expected 8, found 9".
Proof. done. Qed.

(** ** Each call keeps the assertion *)

Section steps.
Context (R : report) (n : nat) (w : World).

(** The state after a call, with a smaller measure. *)
#[local] Abbreviation goes_on k := (fun v w' => exists n', (n' < n)%nat /\ cmp_inv R n' (k v) w').

Lemma cmp_top : cmp_inv R n AtTop w ->
  wp (seekEof Ans) (goes_on AnsEnd) (report_holds R) w.
Proof.
  intros (toks & cnt & js & ga & ps & gp & H & Ha & Ho & Hca & Hco & Hn & HR).
  apply (wp_seekEof _ _ _ _ _ H). intros w' H'. exists (3 * length js + 1)%nat.
  split; [lia|]. by exists toks, cnt, js, ga, ps, gp.
Qed.

Lemma cmp_ans_end : cmp_inv R n (AnsEnd true) w ->
  wp (seekEof Ouf) (goes_on OufEnd) (report_holds R) w.
Proof.
  intros (toks & cnt & js & ga & ps & gp & H & Ha & Ho & Hca & Hco & Hn & HR & En).
  symmetry in En. apply ints_of_is_nil in En. rewrite En in Ha. injection Ha as <- <-.
  apply (wp_seekEof _ _ _ _ _ H). intros w' H'. exists 0%nat. split; [simpl in Hn; lia|].
  exists toks, cnt, [], false, ps, gp. by rewrite En.
Qed.

Lemma cmp_ans_more : cmp_inv R n (AnsEnd false) w ->
  wp (readInt Ans) (goes_on HaveAns) (report_holds R) w.
Proof.
  intros (toks & cnt & js & ga & ps & gp & H & Ha & Ho & Hca & Hco & Hn & HR & En).
  eapply wp_readInt_view; [exact H | exact Ha | lia |]. destruct js as [|j js].
  - assert (ga = true) as -> by (destruct ga; [done|]; apply ints_of_is_nil in Ha; congruence).
    intros status w'. apply report_failed. rewrite HR. by destruct ps.
  - intros q' w' Hj Hq H'. exists (3 * length js + 3)%nat. split; [simpl in Hn; lia|].
    exists (<[Ans := q']> toks), (<[Ans := cnt Ans + 1]> cnt), js, ga, ps, gp.
    rewrite !fn_lookup_insert, !fn_lookup_insert_ne by done. simpl in *.
    split_and!; try done; lia.
Qed.

Lemma cmp_have_ans j : cmp_inv R n (HaveAns j) w ->
  wp (readInt Ouf) (goes_on (HavePair j)) (report_holds R) w.
Proof.
  intros (toks & cnt & js & ga & ps & gp & H & Ha & Ho & Hca & Hco & Hn & HR & Hj).
  simpl in Hco. eapply wp_readInt_view; [exact H | exact Ho | lia |]. destruct ps as [|p ps].
  - intros status w'. by apply report_failed.
  - intros q' w' Hp Hq H'. exists (3 * length js + 2)%nat. split; [lia|].
    exists (<[Ouf := q']> toks), (<[Ouf := cnt Ouf + 1]> cnt), js, ga, ps, gp.
    rewrite !fn_lookup_insert, !fn_lookup_insert_ne by done. simpl.
    split_and!; try done; lia.
Qed.

Lemma cmp_have_pair j p : cmp_inv R n (HavePair j p) w ->
  match compare_all (HavePair j p) with
  | Call m i k => wp (call m i) (goes_on k) (report_holds R) w
  | Quit exitCode format args => wp (quitf exitCode format args) never (report_holds R) w
  end.
Proof.
  intros (toks & cnt & js & ga & ps & gp & H & Ha & Ho & Hca & Hco & Hn & HR & Hj & Hp).
  simpl in *. destruct (j =? p) eqn:E.
  - apply cmp_top. exists toks, cnt, js, ga, ps, gp. split_and!; try done; simpl; lia.
  - apply (wp_quitf _ _ _ _ _ H _ _ _ _ _ (wa_vsnprintf j p Hj Hp)).
    intros status w'. by apply report_verdict.
Qed.

Lemma cmp_ouf_end b : cmp_inv R n (OufEnd b) w ->
  wp (quitf (if b then _ok else _dirt)
        (if b then "all numbers match" else "extra tokens in output") []) never
    (report_holds R) w.
Proof.
  intros (toks & cnt & js & ga & ps & gp & H & Ha & Ho & Hca & Hco & Hn & HR & En).
  assert (R = if b then verdict 0 "all numbers match" else verdict 4 "extra tokens in output")
    as HR'.
  { subst. destruct (is_nil (toks Ouf)) eqn:En.
    - apply ints_of_is_nil in En. rewrite En in Ho. by injection Ho as <- <-.
    - destruct ps, gp; try done. apply ints_of_is_nil in Ho. congruence. }
  destruct b;
    (eapply (wp_quitf _ _ _ _ _ H);
       [by apply vsnprintf_short; [apply (bool_decide_unpack _); vm_compute | simpl; lia]|]);
    intros status w'; by apply report_verdict.
Qed.

End steps.

(** The assertions are inductive. *)
Lemma cmp_inv_inductive R : inductive_assertion compare_all (cmp_inv R) (report_holds R).
Proof.
  intros n s w HI. destruct s as [|[]|j|j p|b].
  - by apply cmp_top.
  - by apply cmp_ans_end.
  - by apply cmp_ans_more.
  - by apply cmp_have_ans.
  - by apply cmp_have_pair.
  - apply cmp_ouf_end in HI. by destruct b.
Qed.

(** The run from the state between reads, on any fuel that is enough. *)
Lemma compare_all_run toks cnt w js ga ps gp fuel :
  reading toks cnt "" "" w ->
  ints_of (toks Ans) = (js, ga) -> ints_of (toks Ouf) = (ps, gp) ->
  cnt Ans + Z.of_nat (length js) < INT_MAX -> cnt Ouf + Z.of_nat (length js) < INT_MAX ->
  (3 * length js + 3 <= fuel)%nat ->
  exists status w', run_for compare_all fuel AtTop w = Some (Exited status w') /\
    report_holds (cmp_report js ga ps gp) status w'.
Proof.
  intros H Ha Ho Hca Hco Hf.
  apply (run_for_floyd compare_all _ _ (cmp_inv_inductive _) fuel (3 * length js + 2)); [|lia].
  exists toks, cnt, js, ga, ps, gp. split_and!; try done. simpl. lia.
Qed.

(** ** What the comparison answers *)

(** C17: the comparison of two sequences is correct, on any files.  The
    checker that registers and then reads integers from the answer and
    from the output in turn until the answer ends, started on three files
    that exist, exits on any fuel of at least three calls for each integer
    of the answer and three more.  With [js] the integers that [readInt]
    reads from the answer before its end or a field that does not convert
    ([ga]), and [ps], [gp] those of the output, the status and the lines
    are those of [cmp_report]: status 1 and the line of the first pair
    that differs; status 2 and a diagnostic on [cerr] where a read fails,
    because the output ends before the answer or because a file is not of
    integers where one is read; status 4 where the output goes on after
    the answer; and status 0 exactly when both files are integers to their
    end and hold the same integers. *)
Theorem compare_all_correct prog p1 p2 p3 files c1 c2 c3 js ga ps gp fuel :
  files !! p1 = Some c1 -> files !! p2 = Some c2 -> files !! p3 = Some c3 ->
  ints_of (tokens c3) = (js, ga) -> ints_of (tokens c2) = (ps, gp) ->
  Z.of_nat (length js) < INT_MAX -> (3 * length js + 3 <= fuel)%nat ->
  exists status w',
    compare_main fuel 4 [prog; p1; p2; p3] (initial_world files) = Some (Exited status w') /\
    status = rp_status (cmp_report js ga ps gp) /\
    cout w' = rp_cout (cmp_report js ga ps gp) /\
    cerr w' ∈ rp_cerr (cmp_report js ga ps gp) /\
    (status = 0 <-> ga = false /\ gp = false /\ js = ps).
Proof.
  intros H1 H2 H3 Ha Ho Hl Hf.
  destruct (reading_register prog p1 p2 p3 files c1 c2 c3) as (w1 & E1 & R1); [done..|].
  destruct (compare_all_run _ _ w1 js ga ps gp fuel R1) as (status & w' & E & -> & Hc & He);
    [done.. | simpl; lia | simpl; lia | done |].
  exists (rp_status (cmp_report js ga ps gp)), w'. unfold compare_main. rewrite E1.
  split_and!; [done.. | apply cmp_report_ok].
Qed.

Lemma compare_all_correct_witness :
  exists status w',
    compare_main 20 4 ["checker"; "input.txt"; "output.txt"; "answer.txt"]
      (initial_world {[ "input.txt" := $"3 5"; "output.txt" := $"8 -13 2x";
                        "answer.txt" := write_ints [8; -13; 22] ]}) =
      Some (Exited status w') /\
    status = 1 /\
    cout w' = "Wrong Answer expected 22, found 2" +:+ endl /\
    cerr w' ∈ [EmptyString] /\
    (status = 0 <-> false = false /\ true = false /\ [8; -13; 22] = [8; -13; 2]).
Proof.
  apply compare_all_correct with (c1 := $"3 5") (c2 := $"8 -13 2x")
    (c3 := write_ints [8; -13; 22]) (js := [8; -13; 22]) (ga := false)
    (ps := [8; -13; 2]) (gp := true);
    [done | done | done | by apply ints_of_write_ints, (bool_decide_unpack _); vm_compute
     | by vm_compute | by vm_compute | simpl; lia].
Defined.

(** The same checker on an output that ends early, on one that is not of
    integers, and on one that goes on. *)
Example cmp_report_cases :
  cmp_report [8; 13] false [8] false = failed_read Ouf false /\
  cmp_report [8; 13] false [8] true = failed_read Ouf true /\
  cmp_report [8] false [8; 13] false = verdict 4 "extra tokens in output" /\
  cmp_report [8] false [8] true = verdict 4 "extra tokens in output" /\
  cmp_report [8] true [8] false = failed_read Ans true /\
  cmp_report [8] false [8] false = verdict 0 "all numbers match".
Proof. done. Qed.
