(* ===== verification/Judge.v ===== *)
(** * The judge, on every input

    [judge] of [Checker.v] runs the sample solution on the files of a
    problem and then the checker of the scenarios, in a process of its own,
    on the files the solution left; its result is the status of the checker
    as the parent process sees it.  [judge_spec] is that result as a
    function of the files: the solution writes the number that [main_spec]
    gives, and the checker compares it with the first integer of
    [answer.txt].  The theorem [judge_correct] is that [judge] computes
    [judge_spec] on every file system, and says what status 0 means. *)

From stdpp Require Import gmap.
From S2P Require Import Prelude CType NumGet Printf IfStream Extract Process Verdict InStream Register.
From S2P Require Import TokenSpec AddFileIO Checker Logic Compare.

Local Open Scope Z_scope.
Local Open Scope chk_scope.

(** The status a judge reads: none when the behaviour of the solution is
    undefined; 3 when there is no [answer.txt]; and otherwise the status
    of the report of the checker on the answer and the number written. *)
Definition judge_spec (files : gmap string (list ascii)) : option Z :=
  sum ← main_spec (files !! "input.txt");
  Some match files !! "answer.txt" with
       | None => 3
       | Some ca =>
           let (js, ga) := ints_of (tokens ca) in
           rp_status (checker_report js ga [sum] false)
       end.

(** ** The parts *)

(** The statuses of the checker are below 256. *)
Lemma checker_report_status js ga ps gp :
  rp_status (checker_report js ga ps gp) ∈ [0; 1; 2; 4].
Proof.
  destruct js as [|j js], ps as [|p ps]; simpl; try by repeat constructor.
  destruct (negb (j =? p)); [by repeat constructor|].
  destruct (is_nil ps && negb gp); by repeat constructor.
Qed.

(** The solution ran only where [input.txt] exists. *)
Lemma main_spec_input input sum : main_spec input = Some sum -> is_Some input.
Proof. by destruct input. Qed.

(** Without an answer the checker stops at the registration. *)
Lemma checker_main_no_answer prog p1 p2 p3 files :
  is_Some (files !! p1) -> is_Some (files !! p2) -> files !! p3 = None ->
  exists w', checker_main 4 [prog; p1; p2; p3] (initial_world files) = Exited 3 w'.
Proof.
  intros [c1 H1] [c2 H2] H3.
  destruct (wp_exits (checker_main 4 [prog; p1; p2; p3]) (register_failed "answer" p3)
              (initial_world files)) as (status & w' & E & -> & _); [|by exists w'].
  unfold checker_main. apply wp_bind, wp_register. unfold first_missing.
  by rewrite H1, H2, H3.
Qed.

(** ** The judge *)

(** The status a judge reads is [judge_spec] of the files. *)
Lemma judge_total files : judge files = judge_spec files.
Proof.
  unfold judge, judge_spec. rewrite main_total. change (fs (initial_world files)) with files.
  destruct (main_spec (files !! "input.txt")) as [sum|] eqn:Es; [|done].
  destruct (main_spec_input _ _ Es) as [c Hc]. cbn [mbind option_bind].
  change (fs (set_fs ?f _)) with f.
  set (files' := <["output.txt" := print_int sum ++ [LF]]> files).
  assert (files' !! "input.txt" = Some c) as Hi by (by unfold files'; simplify_map_eq).
  assert (files' !! "output.txt" = Some (print_int sum ++ [LF])) as Ho
    by (by unfold files'; simplify_map_eq).
  assert (files' !! "answer.txt" = files !! "answer.txt") as Ha
    by (by unfold files'; simplify_map_eq).
  destruct (files !! "answer.txt") as [ca|].
  - destruct (ints_of (tokens ca)) as [js ga] eqn:Ev.
    destruct (wp_exits _ _ _ (checker_main_wp "checker" "input.txt" "output.txt" "answer.txt"
                                files' c (print_int sum ++ [LF]) ca js ga [sum] false
                                Hi Ho Ha Ev
                                ltac:(rewrite tokens_print_line;
                                      apply (ints_of_print [sum]); repeat constructor;
                                      by eapply main_spec_in_int)))
      as (status & w' & -> & -> & _).
    simpl. f_equal. pose proof (checker_report_status js ga [sum] false) as Hs.
    set (st := rp_status _) in *. clearbody st.
    repeat (apply elem_of_cons in Hs as [->|Hs]; [done|]). by apply elem_of_nil in Hs.
  - destruct (checker_main_no_answer "checker" "input.txt" "output.txt" "answer.txt" files')
      as [w' ->]; by rewrite ?Hi, ?Ho.
Qed.

(** The judge accepts exactly when the solution is defined and the answer
    starts with the number it wrote. *)
Lemma judge_spec_accepts files :
  judge_spec files = Some 0 <->
  exists sum ca js ga,
    main_spec (files !! "input.txt") = Some sum /\ files !! "answer.txt" = Some ca /\
    ints_of (tokens ca) = (sum :: js, ga).
Proof.
  unfold judge_spec. split.
  - destruct (main_spec (files !! "input.txt")) as [sum|]; [|done].
    cbn [mbind option_bind]. destruct (files !! "answer.txt") as [ca|]; [|done].
    destruct (ints_of (tokens ca)) as [[|j js] ga] eqn:Ev; [done|]. simpl.
    destruct (Z.eqb_spec j sum) as [->|Hn]; [|done]. by exists sum, ca, js, ga.
  - intros (sum & ca & js & ga & -> & -> & Ev). cbn [mbind option_bind].
    rewrite Ev. simpl. by rewrite Z.eqb_refl.
Qed.

(** C29: the judge, on every file system.  The status a judge reads after
    the sample solution and the checker of the scenarios is [judge_spec]:
    there is none when the behaviour of the solution is undefined; it is 3
    when [answer.txt] does not exist; and otherwise it is the status of
    [checker_report] on the integers of the answer and the one number the
    solution wrote.  So the judge accepts exactly when the solution is
    defined and the answer starts with the number it wrote. *)
Theorem judge_correct files :
  judge files = judge_spec files /\
  (judge files = Some 0 <->
   exists sum ca js ga,
     main_spec (files !! "input.txt") = Some sum /\ files !! "answer.txt" = Some ca /\
     ints_of (tokens ca) = (sum :: js, ga)).
Proof. split; [apply judge_total | rewrite judge_total; apply judge_spec_accepts]. Qed.

(** The sum of [3 5] is accepted against the answer [8]; with a second
    token that is not a number the solution writes 3, which is judged a
    wrong answer. *)
Example judge_examples :
  judge {[ "input.txt" := $"3 5"; "answer.txt" := $"8" ]} = Some 0 /\
  judge {[ "input.txt" := $"3 x"; "answer.txt" := $"8" ]} = Some 1 /\
  judge {[ "input.txt" := $"3 5" ]} = Some 3 /\
  judge {[ "input.txt" := $"3"; "answer.txt" := $"8" ]} = None.
Proof. rewrite !judge_total. by vm_compute. Qed.
